(* ===== verification/_CoqProject ===== *)
-Q . S2P
Prelude.v
RunStateMachine.v
Database.v
Samples.v
JsString.v
Regex.v
SystemicError.v
Transitions.v
ReviewItems.v
ApprovalRouter.v
QuestionAnswers.v
QuestionRouter.v
HumanSteps.v
RunControls.v
StuckDetector.v
PermissionRules.v
SafeCommands.v
Lifecycle.v
Wp.v
WorkflowDef.v
ReviewText.v
WorkflowController.v
JsNumber.v
WidgetSpec.v
WidgetTransform.v
LaneTables.v
SprintLanes.v
SprintLaneSpec.v
MergeGate.v
RunRedrive.v
GateVerdicts.v
GateQueue.v
HumanGate.v
BoundaryGate.v
PauseGate.v
Leases.v
Sections.v
Canonical.v
Fingerprint.v
Hlc.v
TaskTables.v
TaskRouter.v
TaskUpdate.v
TaskEdges.v
TaskEffects.v
TaskRefine.v
TaskHistory.v
TaskSamples.v
TaskStages.v
TaskSpec.v
SyncTables.v
SyncStore.v
SyncApply.v
SyncEngine.v
SyncFrames.v
SyncTrace.v
SyncRules.v
SyncSpec.v
SyncExamples.v
