(* ===== verification/Prelude.v ===== *)
(** * cyboflow: a model of the orchestrator

    cyboflow is a desktop application that runs coding agents in workflow
    runs over a backlog of ideas, epics and tasks.  Its main process holds a
    SQLite database and a set of routers and stores, each the one writer of some
    tables, a controller that walks a run through its workflow, and an engine
    that keeps the backlogs of several machines in step.  This library models
    those writers, that controller and that engine, and proves what makes them
    correct: they refine abstract specifications of the tables, settle every
    question and approval exactly once, never lose the answer of a gate, keep
    the invariants of the backlog, push each frozen batch until it is answered,
    and never grant a tool call the rules do not cover.

    ** Files and the code they model (paths under [src/])

    Foundations
    - [Prelude]: a state and exception monad, SQL-style guarded updates on
      finite maps, JavaScript [Map]s as association lists in insertion order,
      [preserves] (a computation that stays inside a preorder), and the
      [refine] hint database with its tactic [solve_refine].
    - [Wp]: weakest preconditions of that monad, for the long handlers.
    - [JsString], [Regex], [JsNumber]: JavaScript's string functions, regular
      expressions (with their relational meaning) and binary64 numbers.
    - [Samples], [TaskSamples]: the small states the witnesses start from.

    The run subsystem
    - [RunStateMachine]: [shared/workflows/runStateMachine.ts].  The relation
      [edge] is the transition table as a proposition.
    - [Database]: the tables of a run with the columns the code touches; the
      state [sys] of the process, which is the database, the approval router's
      pending map and a log of every effect visible outside.
      [runs_refine] says that two databases differ by legal moves only.
    - [Transitions] ([services/cyboflow/transitions.ts]), [ReviewItems]
      (the writes of [orchestrator/reviewItemListing.ts]), [ApprovalRouter],
      [QuestionAnswers] and [QuestionRouter] ([questionRouter.ts]),
      [HumanSteps] ([humanStepManager.ts]), [RunControls] ([cancelRunHandler.ts],
      [pauseRunHandler.ts], [resumeRunHandler.ts]; the collaborators are records
      of functions under the classes [CancelLaws], [PauseLaws], [ResumeLaws]),
      [StuckDetector], and [Lifecycle], the step relation over all of them.
    - [PermissionRules] ([permissionRules.ts]) and [SafeCommands]
      ([safeCommandClassifier.ts]): whether a tool call runs without asking.
    - [SystemicError] ([programmatic/systemicError.ts]).

    The programmatic walk
    - [WorkflowDef] ([shared/types/workflows.ts], [workflowDefinitionSchema.ts]),
      [ReviewText] and [WorkflowController]
      ([programmatic/workflowController.ts]): the walk over a definition
      against an arbitrary host.
    - [GateVerdicts] ([shared/types/reviews.ts]): the grammar of a gate's answer;
      [GateQueue]: what a waiting gate may rely on (an interface, with an
      instance from [HumanSteps]); [HumanGate], [BoundaryGate], [PauseGate]
      ([programmatic/humanGate.ts], [blockingItemsGate.ts],
      [systemicPauseGate.ts]): each gate as a state machine.
    - [RunRedrive]: [retryRunHandler.ts], [rewindRunHandler.ts],
      [laneRewindHandler.ts], [stepResultStore.ts].

    Sprints and verification
    - [LaneTables], [SprintLanes] ([sprintLaneStore.ts],
      [laneChainResolution.ts]) and [SprintLaneSpec], the specification of the
      sprint tables and its theorems; [MergeGate]
      ([verify/mergeGateLaneAdvance.ts]); [Leases] ([utils/mutex.ts],
      [verify/verificationLeases.ts]).

    The backlog
    - [Sections] (the sections of a markdown body, [shared/types/artifacts.ts]),
      [TaskTables] and [TaskRouter] ([taskChangeRouter.ts], [entityRunLinks.ts]):
      the data and every write of the one writer of ideas, epics and tasks.
    - [TaskUpdate]: what the branches of an update may and do change;
      [TaskEdges]: the walk over the dependency graph; [TaskEffects]: the
      changelog as an abstract machine and its invariants; [TaskRefine]: every
      queue task is a sequence of its effects; [TaskHistory]: public operations
      as sequences of queue tasks, and reachability; [TaskStages]: the derived
      stages; [TaskSpec]: the theorems.

    Synchronisation of the backlog ([services/remoteSync/])
    - [Canonical] ([canonical.ts], [conflictIds.ts]), [Hlc] ([hlc.ts]) and
      [Fingerprint] ([fingerprint.ts]): the text of values and projections, the
      hybrid logical clock, and the fingerprint of a project's remote.
    - [SyncTables] ([projection.ts], the types of [syncStore.ts] and
      [shared/types/remoteSyncWire.ts]): fields, the projection of the backlog,
      the sync state of an entity and of a project, the messages of the service,
      and the state [sync] of the process; [SyncStore]: the sync tables, the
      tombstone triggers, requests and awaits; [SyncApply] ([remoteApply.ts]):
      remote values become writes of [TaskRouter]; [SyncEngine] ([engine.ts]):
      a pass, and the other operations of the engine.
    - [SyncFrames]: what each part of a pass leaves alone; [SyncTrace]: the
      invariant of the trace of pushes; [SyncSpec]: histories of the engine and
      their theorems; [SyncRules]: the apply rules, the diff and the answer to a
      push; [SyncExamples]: histories that show findings.

    Custom views
    - [WidgetSpec] and [WidgetTransform] ([shared/customViews/], and
      [orchestrator/customViews/sourceRunner.ts]).

    ** How state and effects are modelled

    A computation is a function from a state to a result or an error and the
    next state.  A throw keeps the writes made before it, and [transaction]
    undoes them, as better-sqlite3 does.  An [UPDATE ... WHERE] is a guarded
    update that returns the number of changed rows, and the code's branches on
    [changes] are the branches of the model.  Calls into other components are
    entries of a log, or members of a record of functions with a class of laws
    where the caller relies on what they do.  Time is an argument: [now] is the
    value of [new Date()] (milliseconds), and [current_timestamp] cuts it to the
    whole seconds of SQLite's CURRENT_TIMESTAMP.  Random identifiers are
    arguments too; an insert under a taken primary key throws.

    A PQueue runs one task at a time, so a queue task is one atomic step, and
    the interleavings of the process are the sequences of steps: [run_commands]
    for the approval router, [Lifecycle.step] for the run subsystem, the moves
    of the lane store, [lease_step], [TaskHistory.queue_step] for the backlog,
    and [SyncSpec.engine_step] for the synchronisation, whose passes the service
    runs one at a time.  Inside a pass each await takes the next turn of a
    script, which sets the time and may edit the backlog, and each request the
    next reply of another; what a turn does to the sync tables themselves (a
    note of a local change that falls into a pass) comes between two operations
    instead.  Chains of awaits (the gates, the lease pool) are cut at each
    [await]; between two turns the rest of the process moves by a relation.

    ** Bounds and fuel

    - [request_loop] consumes the list of what happened at each wait;
      [requestApproval_eventually] shows that the gate is taken at the end of
      any schedule that frees it.
    - The walk of [WorkflowController] takes the code's own execution bound as
      fuel, and [attempts_fuel] for the attempts of one step;
      [run_never_overruns] shows that the bound is reached by no walk of a
      definition whose budgets it counts.
    - The gates end within 19, 10 and 23 turns ([human_gate_answers],
      [boundary_gate_answers], [pause_gate_answers]).
    - The walk over the dependency graph takes one more step than there are
      edges ([walk_fuel]; [dependency_check_exact] shows that it decides
      reachability); a rollup re-enters [applyChange] once ([apply_depth]).
    - A pull reads at most [pull_guard] pages and a pass pushes at most
      [push_guard] batches, as the code bounds both; a guard that is used up ends
      the loop without an error.  The walk along blocking edges has the fuel of
      [dependency_check_exact].
    - Numbers of attempts, versions and sequence numbers are unbounded: the
      code never computes with values where binary64 would round.  [JsNumber]
      rounds, and the FNV hash of [SystemicError] wraps at 32 bits.

    ** What the theorems show

    - Runs: [lifecycle_refinement] (the subsystem refines the run state
      machine); [router_exactly_once] and [question_exactly_once] (every
      request is settled once over every history); [respond_decides],
      [question_answer_spec], [cancel_reaches_terminal], [resolveHumanGate_spec]
      (the outcome on every branch, errors included).
    - The walk: it ends within its bound, completes only when every required
      step did or was decided away, and reports each step; the human gate, the
      boundary gate and the pause gate settle at most once and never lose an
      answer; a rewind never goes forward, and a rewind or retry purges and seeds
      exactly what it must.
    - Sprints: every operation refines the specification of the sprint tables;
      no task is in two live runs; the loop of implementing and checking a lane
      ends after as many verdicts of its current attempts as are left
      ([merge_gate_settles]); a lease is held by at most one caller.
    - The backlog: every public operation is a sequence of effects of the
      changelog machine; the changelog tells every column; the lineage is well
      formed; blocking edges form no cycle; an idea has at most one live task
      without an epic; an update is exactly the deltas its request asks for,
      within the authority of its actor; a refused change writes nothing; the
      epics a change touches agree with their tasks; recomputing a stage is
      idempotent.
    - Synchronisation: on every history, passes that fail anywhere included, the
      frozen batch is the only thing that is pushed and is sent unchanged until
      its answer is applied ([frozen_batch_protocol]), and the deletes of an hour
      stay within the limit unless the user confirmed them
      ([held_deletes_bounded]); the inbox is sorted by the apply rules, and the
      first write of an entity is dropped when its row has moved meanwhile
      ([inbox_rules]; the write of the stage that follows is not guarded so, see
      [SyncExamples]); the diff names exactly the fields that differ
      ([diff_exact]), and after an accepted push only the edits made since
      ([push_converges]); stamps of the clock grow ([clock_monotone]); the text
      of the checksum determines the projection ([projection_text_faithful]); the
      three things the user part of a URL can do to a fingerprint, a leak
      included ([fingerprint_user_part]).
    - Permissions: a grant covers every shell segment, and an auto-approved
      command has the words of a read-only one.  Examples next to them show
      commands the scanner reads differently from a shell.
    - Text: a composed gate answer parses back; reset delays are bounded; a
      validated widget runs.

    ** Parameters

    Code the repository only calls is an argument where it is used: [JSON.parse],
    [new URL], [Date.parse], [randomUUID], the SHA-256 digest, [localeCompare],
    the decimal notation of numbers, and [fetch] of a widget's source; so are functions of modules not modelled
    here ([parseAdversarialReviewDoc], [resolveWorkflowDefinition],
    [resolveStepAgentKey]).  Character classes of the JavaScript engine are
    restricted to Latin-1, and field names of [Object.prototype] are not
    considered.  The backlog keeps timestamps as instants, and their texts on the
    wire are two functions, [stamp_text] and [text_stamp], of which nothing is
    assumed.  A database with every migration applied is assumed, except in
    [LaneTables], where the schema is a flag.

    ** What is not modelled

    The agents' processes, terminals and streams, prompts, the tRPC and MCP
    layers, the read models of the interface, synchronisation with external
    trackers, evaluation and experiments, and the user interface: input and
    output around this core.  Of the synchronisation with other machines, the
    HTTP transport, the service around the engine (triggers, back-off, linking a
    project), the resolution of conflicts by the user and tracker claims are
    not modelled.
    Error messages are constructors.  Of the modelled components, the manifest
    says what is left out of each.

    ** Plan

    Left: the resolution of conflicts as user edits, of review items, the
    scheduling of a sprint's lanes in a walk ([runFanOut], lane build slots),
    reopening a run, and the drain of the verification queue. *)

From stdpp Require Export base gmap strings list fin_maps.
From Stdlib Require Export ZArith Lia.

(** Strings are written with Stdlib's [string] type throughout. *)
#[global] Open Scope string_scope.
#[global] Open Scope list_scope.

(** ** A state and exception monad

    The effectful code is written against a state [S] (a database, or the
    database with the in-memory maps of a router) and may throw a value of
    type [E].  A computation keeps the writes made before a throw, exactly as
    JavaScript does; [transaction] is the better-sqlite3 combinator that
    restores the state on a throw. *)

Inductive result (E A : Type) : Type :=
  | Ok (a : A)
  | Throw (e : E).
Arguments Ok {E A} a.
Arguments Throw {E A} e.

Definition M (E S A : Type) : Type := S → result E A * S.

Section Monad.
Context {E S : Type}.

Definition mret {A} (a : A) : M E S A := λ s, (Ok a, s).

Definition mbind {A B} (m : M E S A) (k : A → M E S B) : M E S B :=
  λ s, match m s with
       | (Ok a, s') => k a s'
       | (Throw e, s') => (Throw e, s')
       end.

Definition throw {A} (e : E) : M E S A := λ s, (Throw e, s).
Definition get : M E S S := λ s, (Ok s, s).
Definition put (s : S) : M E S unit := λ _, (Ok tt, s).
Definition modify (f : S → S) : M E S unit := λ s, (Ok tt, f s).
Definition gets {A} (f : S → A) : M E S A := λ s, (Ok (f s), s).

(** [try { m } catch (e) { h e }] *)
Definition catch {A} (m : M E S A) (h : E → M E S A) : M E S A :=
  λ s, match m s with
       | (Ok a, s') => (Ok a, s')
       | (Throw e, s') => h e s'
       end.

(** [db.transaction(() => m)()]: a throw rolls every write back. *)
Definition transaction {A} (m : M E S A) : M E S A :=
  λ s, match m s with
       | (Ok a, s') => (Ok a, s')
       | (Throw e, _) => (Throw e, s)
       end.

(** [for (const x of l) f(x)] *)
Fixpoint mapM_ {A} (f : A → M E S unit) (l : list A) : M E S unit :=
  match l with
  | [] => mret tt
  | x :: l' => mbind (f x) (λ _, mapM_ f l')
  end.
End Monad.

Declare Scope js_scope.
Delimit Scope js_scope with js.
Notation "x <- m ;; k" := (mbind m (λ x, k))
  (at level 100, m at next level, right associativity) : js_scope.
Notation "m ;;; k" := (mbind m (λ _, k))
  (at level 100, right associativity) : js_scope.
Notation "'when' b 'do' m" := (if b then m else mret tt)
  (at level 90, b at level 0, m at level 90) : js_scope.

(** Run a computation of a component of the state inside the whole state:
    [get]/[put] are the lens of the component. *)
Definition zoom {E S T A} (gt : S → T) (pt : T → S → S) (m : M E T A) : M E S A :=
  λ s, match m (gt s) with
       | (r, t) => (r, pt t s)
       end.

Definition exec {E S A} (m : M E S A) (s : S) : S := (m s).2.
Definition eval {E S A} (m : M E S A) (s : S) : result E A := (m s).1.

(** ** Computations that stay inside a preorder on states

    [preserves R m]: whatever [m] returns or throws, the state it leaves is
    [R]-above the one it started from.  With [R s s' := Inv s → Inv s'] this is
    preservation of an invariant; with [R] a simulation preorder it is
    refinement.  The lemmas of the section compose it along the code. *)

Section Preserves.
Context {E S : Type} (R : S → S → Prop) `{!PreOrder R}.

Definition preserves {A} (m : M E S A) : Prop := ∀ s, R s (m s).2.

Lemma preserves_ret {A} (a : A) : preserves (mret a).
Proof. intros s. reflexivity. Qed.

Lemma preserves_throw {A} (e : E) : preserves (A:=A) (throw e).
Proof. intros s. reflexivity. Qed.

Lemma preserves_get : preserves get.
Proof. intros s. reflexivity. Qed.

Lemma preserves_gets {A} (f : S → A) : preserves (gets f).
Proof. intros s. reflexivity. Qed.

Lemma preserves_bind {A B} (m : M E S A) (k : A → M E S B) :
  preserves m → (∀ a, preserves (k a)) → preserves (mbind m k).
Proof.
  intros Hm Hk s. unfold mbind. specialize (Hm s).
  destruct (m s) as [[a|e] s'] eqn:Heq; simpl in *; [|done].
  etransitivity; [done|apply Hk].
Qed.

(** The continuation of a [get] may use what it read. *)
Lemma preserves_bind_get {B} (k : S → M E S B) :
  (∀ s, R s (k s s).2) → preserves (mbind get k).
Proof. intros Hk s. apply Hk. Qed.

Lemma preserves_gets_bind {A B} (f : S → A) (k : A → M E S B) :
  (∀ s, R s (k (f s) s).2) → preserves (mbind (gets f) k).
Proof. intros Hk s. apply Hk. Qed.

(** [preserves_bind] at one state. *)
Lemma preserves_bind_at {A B} (m : M E S A) (k : A → M E S B) s :
  R s (m s).2 → (∀ a, preserves (k a)) → R s (mbind m k s).2.
Proof.
  intros Hm Hk. unfold mbind. destruct (m s) as [[a|e] s']; simpl in *; [|done].
  etransitivity; [done|apply Hk].
Qed.

Lemma preserves_catch {A} (m : M E S A) (h : E → M E S A) :
  preserves m → (∀ e, preserves (h e)) → preserves (catch m h).
Proof.
  intros Hm Hh s. unfold catch. specialize (Hm s).
  destruct (m s) as [[a|e] s'] eqn:Heq; simpl in *; [done|].
  etransitivity; [done|apply Hh].
Qed.

Lemma preserves_transaction {A} (m : M E S A) : preserves m → preserves (transaction m).
Proof.
  intros Hm s. unfold transaction. specialize (Hm s).
  destruct (m s) as [[a|e] s']; simpl in *; [done|reflexivity].
Qed.

Lemma preserves_modify (f : S → S) : (∀ s, R s (f s)) → preserves (modify f).
Proof. intros Hf s. apply Hf. Qed.

Lemma preserves_mapM_ {A} (f : A → M E S unit) l :
  (∀ x, preserves (f x)) → preserves (mapM_ f l).
Proof.
  intros Hf. induction l as [|x l IH]; simpl; [apply preserves_ret|].
  by apply preserves_bind.
Qed.
End Preserves.

Lemma preserves_zoom {E S T A} (RT : T → T → Prop) (RS : S → S → Prop)
    (gt : S → T) (pt : T → S → S) (m : M E T A) :
  (∀ s t, RT (gt s) t → RS s (pt t s)) → preserves RT m → preserves RS (zoom gt pt m).
Proof.
  intros HR Hm s. unfold zoom. specialize (Hm (gt s)).
  destruct (m (gt s)) as [r t]. by apply HR.
Qed.

(** Apply the composition lemmas along a computation; [tac] closes the
    statements it reaches. *)
Ltac preserve_with tac :=
  repeat first
    [ progress tac
    | apply preserves_bind; [..|intros ?]
    | apply preserves_ret | apply preserves_throw | apply preserves_get | apply preserves_gets
    | apply preserves_transaction
    | apply preserves_catch; [..|intros ?]
    | apply preserves_mapM_; [..|intros ?]
    | case_match ].

(** ** Computations that never throw *)

Definition total {E S A} (m : M E S A) : Prop := ∀ s, ∃ a s', m s = (Ok a, s').

Section Total.
Context {E S : Type}.

Lemma total_ret {A} (a : A) : total (mret (E:=E) (S:=S) a).
Proof. intros s. by eexists _, _. Qed.

Lemma total_gets {A} (f : S → A) : total (gets (E:=E) f).
Proof. intros s. by eexists _, _. Qed.

Lemma total_modify (f : S → S) : total (modify (E:=E) f).
Proof. intros s. by eexists _, _. Qed.

Lemma total_bind {A B} (m : M E S A) (k : A → M E S B) :
  total m → (∀ a, total (k a)) → total (mbind m k).
Proof.
  intros Hm Hk s. unfold mbind. destruct (Hm s) as (a & s' & ->). apply Hk.
Qed.

(** A handler that never throws makes the whole total. *)
Lemma total_catch {A} (m : M E S A) (h : E → M E S A) : (∀ e, total (h e)) → total (catch m h).
Proof.
  intros Hh s. unfold catch. destruct (m s) as [[a|e] s']; [by eexists _, _|]. apply Hh.
Qed.

Lemma total_mapM_ {A} (f : A → M E S unit) l : (∀ x, total (f x)) → total (mapM_ f l).
Proof.
  intros Hf. induction l as [|x l IH]; simpl; [apply total_ret|]. by apply total_bind.
Qed.
End Total.

Ltac solve_total :=
  repeat first
    [ assumption
    | apply total_catch; intros ?
    | apply total_bind; [|intros ?]
    | apply total_ret | apply total_gets | apply total_modify
    | apply total_mapM_; intros ?
    | case_match ].

(** ** SQL statements over a table keyed by its [id] column *)

Section Sql.
Context {R : Type}.

(** [UPDATE t SET f WHERE id = k AND p]: the number of changed rows and the
    table after it. *)
Definition sql_update_id (k : string) (p : R → bool) (f : R → R)
    (t : gmap string R) : nat * gmap string R :=
  match t !! k with
  | Some r => if p r then (1, <[k := f r]> t) else (0, t)
  | None => (0, t)
  end.

(** [UPDATE t SET f WHERE p] for a predicate on the id and the row. *)
Definition sql_update (p : string → R → bool) (f : R → R)
    (t : gmap string R) : gmap string R :=
  map_imap (λ k r, Some (if p k r then f r else r)) t.

(** [SELECT * FROM t WHERE p] in the (unspecified) order of the table. *)
Definition sql_select (p : string → R → bool) (t : gmap string R) : list (string * R) :=
  filter (λ kr, p kr.1 kr.2 = true) (map_to_list t).

(** [SELECT COUNT ... FROM t WHERE p] *)
Definition sql_count (p : string → R → bool) (t : gmap string R) : nat :=
  length (sql_select p t).

Lemma sql_update_id_changed k p f (t : gmap string R) r :
  t !! k = Some r → p r = true → sql_update_id k p f t = (1, <[k := f r]> t).
Proof. intros Hk Hp. unfold sql_update_id. by rewrite Hk, Hp. Qed.

Lemma sql_update_id_unchanged k p f (t : gmap string R) :
  (∀ r, t !! k = Some r → p r = false) → sql_update_id k p f t = (0, t).
Proof.
  intros H. unfold sql_update_id. destruct (t !! k) as [r|] eqn:Hk; [|done].
  by rewrite (H r).
Qed.

(** The two outcomes of a guarded update, as the code tells them apart
    ([changes === 0] or not). *)
Lemma sql_update_id_cases k p f (t : gmap string R) :
  (∃ r, t !! k = Some r ∧ p r = true ∧ sql_update_id k p f t = (1, <[k := f r]> t))
  ∨ ((∀ r, t !! k = Some r → p r = false) ∧ sql_update_id k p f t = (0, t)).
Proof.
  unfold sql_update_id. destruct (t !! k) as [r|] eqn:Hk.
  - destruct (p r) eqn:Hp.
    + left. eauto.
    + right. split; [|done]. by intros ? [= <-].
  - right. split; [|done]. by intros ? ?.
Qed.

Lemma sql_update_lookup p f (t : gmap string R) k :
  sql_update p f t !! k = (λ r, if p k r then f r else r) <$> t !! k.
Proof. unfold sql_update. rewrite map_lookup_imap. by destruct (t !! k). Qed.

Lemma elem_of_sql_select p (t : gmap string R) k r :
  (k, r) ∈ sql_select p t ↔ t !! k = Some r ∧ p k r = true.
Proof.
  unfold sql_select. rewrite list_elem_of_filter, elem_of_map_to_list. simpl. tauto.
Qed.

Lemma sql_count_zero p (t : gmap string R) :
  sql_count p t = 0 ↔ ∀ k r, t !! k = Some r → p k r = false.
Proof.
  unfold sql_count. rewrite length_zero_iff_nil. split.
  - intros Hnil k r Hk. destruct (p k r) eqn:Hp; [|done].
    assert ((k, r) ∈ sql_select p t) as Hin by (by apply elem_of_sql_select).
    rewrite Hnil in Hin. by apply not_elem_of_nil in Hin.
  - intros H. destruct (sql_select p t) as [|[k r] l] eqn:Hsel; [done|].
    assert ((k, r) ∈ sql_select p t) as Hin by (rewrite Hsel; left).
    apply elem_of_sql_select in Hin as [Hk Hp]. by rewrite (H k r Hk) in Hp.
Qed.

Lemma sql_count_pos p (t : gmap string R) :
  sql_count p t ≠ 0 ↔ ∃ k r, t !! k = Some r ∧ p k r = true.
Proof.
  split.
  - intros H. destruct (sql_select p t) as [|[k r] l] eqn:Hsel.
    + unfold sql_count in H. by rewrite Hsel in H.
    + exists k, r. apply elem_of_sql_select. rewrite Hsel. left.
  - intros (k & r & Hk & Hp) H0. rewrite sql_count_zero in H0.
    by rewrite (H0 k r Hk) in Hp.
Qed.
End Sql.

(** ** Insertion-ordered JavaScript [Map]s with string keys *)

Section JsMap.
Context {V : Type}.

Fixpoint map_get (k : string) (m : list (string * V)) : option V :=
  match m with
  | [] => None
  | (k', v) :: m' => if decide (k = k') then Some v else map_get k m'
  end.

Definition map_has (k : string) (m : list (string * V)) : bool :=
  match map_get k m with Some _ => true | None => false end.

(** [m.set(k, v)] overwrites in place, or appends a new key at the end. *)
Fixpoint map_set (k : string) (v : V) (m : list (string * V)) : list (string * V) :=
  match m with
  | [] => [(k, v)]
  | (k', v') :: m' => if decide (k = k') then (k, v) :: m' else (k', v') :: map_set k v m'
  end.

Definition map_delete (k : string) (m : list (string * V)) : list (string * V) :=
  filter (λ kv, kv.1 ≠ k) m.

Lemma map_get_set_eq k v m : map_get k (map_set k v m) = Some v.
Proof.
  induction m as [|[k' v'] m IH]; simpl; [by rewrite decide_True|].
  destruct (decide (k = k')); simpl; [by rewrite decide_True|].
  by rewrite decide_False.
Qed.

Lemma map_get_set_ne k k' v m : k ≠ k' → map_get k' (map_set k v m) = map_get k' m.
Proof.
  intros Hne. induction m as [|[j u] m IH]; simpl; [by rewrite decide_False by congruence|].
  destruct (decide (k = j)) as [->|]; simpl.
  - by rewrite !decide_False by congruence.
  - by rewrite IH.
Qed.

Lemma map_get_delete_eq k m : map_get k (map_delete k m) = None.
Proof.
  induction m as [|[j u] m IH]; [done|]. unfold map_delete in *. rewrite filter_cons.
  destruct (decide ((j, u).1 ≠ k)) as [H|H]; simpl in *; [by rewrite decide_False by congruence|done].
Qed.

Lemma map_get_delete_ne k k' m : k ≠ k' → map_get k' (map_delete k m) = map_get k' m.
Proof.
  intros Hne. induction m as [|[j u] m IH]; [done|]. unfold map_delete in *.
  rewrite filter_cons. destruct (decide ((j, u).1 ≠ k)) as [H|H]; simpl in *; [by rewrite IH|].
  assert (j = k) as -> by (by apply dec_stable). by rewrite decide_False by congruence.
Qed.

Lemma map_get_delete k k' m :
  map_get k' (map_delete k m) = if decide (k = k') then None else map_get k' m.
Proof.
  case_decide as H; [subst; apply map_get_delete_eq|by apply map_get_delete_ne].
Qed.

Lemma map_get_set k k' v m :
  map_get k' (map_set k v m) = if decide (k = k') then Some v else map_get k' m.
Proof.
  case_decide as H; [subst; apply map_get_set_eq|by apply map_get_set_ne].
Qed.

Lemma map_get_Some_elem k v m : map_get k m = Some v → (k, v) ∈ m.
Proof.
  induction m as [|[j u] m IH]; simpl; [done|].
  case_decide; [intros [= ->]; subst; left|intros; right; auto].
Qed.

Lemma map_get_None_elem k v m : map_get k m = None → (k, v) ∉ m.
Proof.
  induction m as [|[j u] m IH]; simpl; [intros _; apply not_elem_of_nil|].
  case_decide as H; [done|]. intros Hn Hin.
  apply elem_of_cons in Hin as [[= -> ->]|Hin]; [done|]. by apply IH.
Qed.

Lemma map_get_elem k m : is_Some (map_get k m) ↔ k ∈ m.*1.
Proof.
  induction m as [|[j u] m IH]; simpl.
  - split; [by intros [? ?]|by intros ?%not_elem_of_nil].
  - rewrite elem_of_cons, <- IH. case_decide as Hd; [by split; [left|]; eauto|].
    split; [by right|]. by intros [?|?].
Qed.

(** Keys occur once in a map built by [set] and [delete]. *)
Lemma map_get_NoDup k v m : NoDup m.*1 → (k, v) ∈ m → map_get k m = Some v.
Proof.
  induction m as [|[j u] m IH]; simpl; [by intros _ ?%not_elem_of_nil|].
  intros [Hj Hnd]%NoDup_cons [[= -> ->]|Hin]%elem_of_cons; [by rewrite decide_True|].
  rewrite decide_False; [by apply IH|]. intros ->. apply Hj.
  apply list_elem_of_fmap. by exists (j, v).
Qed.

Lemma map_set_keys k v m j : j ∈ (map_set k v m).*1 → j = k ∨ j ∈ m.*1.
Proof.
  induction m as [|[i u] m IH]; simpl.
  - intros [->|?%not_elem_of_nil]%elem_of_cons; by left.
  - case_decide as Hd; simpl; rewrite !elem_of_cons; [naive_solver|].
    intros [->|H]; [naive_solver|]. apply IH in H. tauto.
Qed.

Lemma map_set_NoDup k v m : NoDup m.*1 → NoDup (map_set k v m).*1.
Proof.
  induction m as [|[i u] m IH]; simpl; intros H; [apply NoDup_singleton|].
  apply NoDup_cons in H as [Hi Hnd]. case_decide as Hd; simpl.
  - subst. by apply NoDup_cons.
  - apply NoDup_cons. split; [|by apply IH]. intros [->|?]%map_set_keys; done.
Qed.

Lemma map_delete_keys k m j : j ∈ (map_delete k m).*1 ↔ j ∈ m.*1 ∧ j ≠ k.
Proof.
  unfold map_delete. rewrite !list_elem_of_fmap. split.
  - intros ([i u] & -> & [Hne Hin]%list_elem_of_filter). simpl in *. split; [by exists (i, u)|done].
  - intros [([i u] & -> & Hin) Hne]. exists (i, u). split; [done|].
    by apply list_elem_of_filter.
Qed.

Lemma map_delete_NoDup k m : NoDup m.*1 → NoDup (map_delete k m).*1.
Proof.
  induction m as [|[i u] m IH]; simpl; intros H; [done|].
  apply NoDup_cons in H as [Hi Hnd]. unfold map_delete in *. rewrite filter_cons.
  destruct (decide ((i, u).1 ≠ k)); simpl; [|by apply IH].
  apply NoDup_cons. split; [|by apply IH]. intros Hin. apply Hi.
  by apply (map_delete_keys k m i) in Hin as [? _].
Qed.
End JsMap.

(** ** [[...new Set(l)]]: the first occurrence of each element, in order *)

Section Unique.
Context {A : Type} `{EqDecision A}.

Fixpoint js_unique (l : list A) : list A :=
  match l with
  | [] => []
  | x :: l' => x :: filter (λ y, y ≠ x) (js_unique l')
  end.

Lemma elem_of_js_unique x l : x ∈ js_unique l ↔ x ∈ l.
Proof.
  induction l as [|y l IH]; simpl; [done|].
  rewrite !elem_of_cons, list_elem_of_filter, IH.
  destruct (decide (x = y)); naive_solver.
Qed.

Lemma js_unique_NoDup l : NoDup (js_unique l).
Proof.
  induction l as [|y l IH]; simpl; [constructor|]. constructor; [|by apply NoDup_filter].
  rewrite list_elem_of_filter. naive_solver.
Qed.

Lemma js_unique_id l : NoDup l → js_unique l = l.
Proof.
  induction 1 as [|y l Hy Hl IH]; simpl; [done|]. f_equal. rewrite IH.
  clear IH Hl. induction l as [|z l IHl]; [done|].
  apply not_elem_of_cons in Hy as [Hne Hy]. rewrite filter_cons_True by done. by rewrite IHl.
Qed.

Lemma js_unique_nil l : js_unique l = [] ↔ l = [].
Proof. by destruct l. Qed.
End Unique.

(** ** Automation *)

Create HintDb cyb.
Create Rewrite HintDb cyb_rw.
#[export] Hint Rewrite @map_get_set_eq @map_get_delete_eq @sql_update_lookup : cyb_rw.
#[export] Hint Resolve map_get_Some_elem : cyb.

(** Split every [match]/[if] of the goal, keeping the equations. *)
Ltac split_matches :=
  repeat (case_match; simpl in *; simplify_eq).

(** Split a conjunction of booleans in the hypotheses. *)
Ltac bool_hyps :=
  repeat match goal with
         | H : _ && _ = true |- _ => apply andb_true_iff in H as [? ?]
         | H : _ || _ = false |- _ => apply orb_false_iff in H as [? ?]
         | H : negb _ = true |- _ => apply negb_true_iff in H
         | H : negb _ = false |- _ => apply negb_false_iff in H
         | H : bool_decide _ = true |- _ => apply bool_decide_eq_true in H
         | H : bool_decide _ = false |- _ => apply bool_decide_eq_false in H
         end.
