(* ===== verification/RunStateMachine.v ===== *)
(** * The status machine of a workflow run

    Models [shared/workflows/runStateMachine.ts] and the status vocabulary of
    [shared/types/cyboflow.ts]: the table [ALLOWED_TRANSITIONS], the predicate
    and the assertions over it, and the table read backwards
    ([allowedSourcesFor] and its SQL rendering). *)

From S2P Require Import Prelude.

Open Scope js_scope.

(** ** Statuses *)

Inductive run_status :=
  | queued | starting | running | awaiting_review | stuck
  | completed | failed | canceled | awaiting_input | paused.

#[export] Instance run_status_eq_dec : EqDecision run_status.
Proof. solve_decision. Defined.

Definition status_string (s : run_status) : string :=
  match s with
  | queued => "queued" | starting => "starting" | running => "running"
  | awaiting_review => "awaiting_review" | stuck => "stuck"
  | completed => "completed" | failed => "failed" | canceled => "canceled"
  | awaiting_input => "awaiting_input" | paused => "paused"
  end.

Definition TERMINAL_RUN_STATUSES : list run_status := [canceled; failed; completed].

(** [TERMINAL_RUN_STATUSES.includes(s)] *)
Definition is_terminal (s : run_status) : bool := bool_decide (s ∈ TERMINAL_RUN_STATUSES).

(** [Array.prototype.join] *)
Fixpoint join (sep : string) (l : list string) : string :=
  match l with
  | [] => ""
  | [x] => x
  | x :: l' => x +:+ sep +:+ join sep l'
  end.

Definition TERMINAL_RUN_STATUSES_SQL_IN : string :=
  "('" +:+ join "','" (status_string <$> TERMINAL_RUN_STATUSES) +:+ "')".

(** ** The table *)

Definition ALLOWED_TRANSITIONS (from : run_status) : list run_status :=
  match from with
  | queued => [starting; canceled]
  | starting => [running; failed; canceled]
  | running => [awaiting_review; awaiting_input; completed; failed; canceled; stuck; paused]
  | awaiting_review => [running; completed; canceled; stuck; failed; paused]
  | awaiting_input => [running; canceled; failed]
  | stuck => [running; completed; canceled; failed]
  | paused => [running; canceled; failed]
  | completed => []
  | failed => []
  | canceled => []
  end.

(** [Object.keys(ALLOWED_TRANSITIONS)], in the order the literal declares them *)
Definition transition_keys : list run_status :=
  [queued; starting; running; awaiting_review; awaiting_input; stuck; paused;
   completed; failed; canceled].

Definition isTransitionAllowed (from to : run_status) : bool :=
  bool_decide (to ∈ ALLOWED_TRANSITIONS from).

(** ** Errors of the lifecycle code

    One constructor per error class the modelled handlers throw. *)

Inductive entity := workflow_run | approval.

Inductive run_error :=
  | IllegalTransitionError (from to : run_status) (runId : option string)
  | TransitionRejectedError (runId : string) (expectedStatus : string) (ent : entity)
  | RunNotRunningError (runId : string)
  | ApprovalNotFoundError (approvalId : string)
  | QuestionNotFoundError (questionId : string)
  | NoLegalSource (to : run_status)
  | SqlUniqueViolation (table id : string).

#[export] Instance entity_eq_dec : EqDecision entity.
Proof. solve_decision. Defined.
#[export] Instance run_error_eq_dec : EqDecision run_error.
Proof. solve_decision. Defined.

(** The message of an [IllegalTransitionError]. *)
Definition illegal_transition_message (from to : run_status) (runId : option string) : string :=
  "Illegal workflow_run status transition: " +:+ status_string from +:+ " -> "
  +:+ status_string to
  +:+ match runId with Some r => " (runId=" +:+ r +:+ ")" | None => "" end.

(** ** Assertions *)

Section Assertions.
Context {S : Type}.

Definition assertTransitionAllowed (from to : run_status) (runId : option string)
    : M run_error S unit :=
  if isTransitionAllowed from to then mret tt
  else throw (IllegalTransitionError from to runId).

Fixpoint assertTransitionAllowedFromAny (froms : list run_status) (to : run_status)
    (runId : option string) : M run_error S unit :=
  match froms with
  | [] => mret tt
  | from :: froms' =>
      (if decide (from = to) then mret tt else assertTransitionAllowed from to runId) ;;;
      assertTransitionAllowedFromAny froms' to runId
  end.
End Assertions.

(** ** The table read backwards *)

Definition allowedSourcesFor (to : run_status) : list run_status :=
  filter (λ from, to ∈ ALLOWED_TRANSITIONS from) transition_keys.

Definition allowedSourcesSqlIn (to : run_status) : result run_error string :=
  match allowedSourcesFor to with
  | [] => Throw (NoLegalSource to)
  | sources => Ok ("(" +:+ join ", " ((λ s, "'" +:+ status_string s +:+ "'") <$> sources) +:+ ")")
  end.

(** ** The abstract specification: one legal status edge *)

Inductive edge : run_status → run_status → Prop :=
  | edge_intro from to : to ∈ ALLOWED_TRANSITIONS from → edge from to.

(** One guarded write either leaves the status or takes a legal edge. *)
Definition edge_refl (s s' : run_status) : Prop := s = s' ∨ edge s s'.

#[export] Hint Constructors edge : cyb.

Lemma edge_spec from to : edge from to ↔ isTransitionAllowed from to = true.
Proof.
  unfold isTransitionAllowed. rewrite bool_decide_eq_true. split; [by inversion 1|by constructor].
Qed.

#[export] Instance edge_dec from to : Decision (edge from to).
Proof.
  refine (cast_if (decide (isTransitionAllowed from to = true))); by rewrite edge_spec.
Defined.

Lemma edge_refl_refl s : edge_refl s s.
Proof. by left. Qed.
#[export] Hint Resolve edge_refl_refl : cyb.

(** [status IN (...)] as a predicate. *)
Definition status_in (l : list run_status) (s : run_status) : bool := bool_decide (s ∈ l).

Lemma status_in_true l s : status_in l s = true ↔ s ∈ l.
Proof. apply bool_decide_eq_true. Qed.

(** Decide a membership in a literal status list. *)
Ltac solve_status :=
  unfold edge_refl, status_in in *;
  repeat match goal with
         | H : bool_decide _ = true |- _ => apply bool_decide_eq_true in H
         | H : _ ∈ _ :: _ |- _ => apply elem_of_cons in H as [?|?]; subst
         | H : _ ∈ [] |- _ => by apply not_elem_of_nil in H
         end;
  simpl in *; subst; try done;
  try (by right; apply edge_spec);
  try (by apply edge_spec).

Lemma transition_keys_complete s : s ∈ transition_keys.
Proof. by destruct s; apply (bool_decide_unpack _). Qed.

Lemma is_terminal_no_edge s : is_terminal s = true ↔ ∀ to, ¬ edge s to.
Proof.
  split.
  - intros Hs to He%edge_spec. by destruct s, to.
  - intros H. destruct s; try done; exfalso; apply (H canceled); by apply edge_spec.
Qed.

Lemma assertTransitionAllowed_ok {S} from to runId (s : S) :
  isTransitionAllowed from to = true → assertTransitionAllowed from to runId s = (Ok tt, s).
Proof. intros H. unfold assertTransitionAllowed. by rewrite H. Qed.

(** ** Properties *)

(** [assertTransitionAllowedFromAny] succeeds exactly when every listed source
    other than the target itself has a legal edge to the target. *)
Lemma assertFromAny_spec {S} froms to runId (s : S) :
  assertTransitionAllowedFromAny froms to runId s = (Ok tt, s)
  ↔ ∀ from, from ∈ froms → from = to ∨ edge from to.
Proof.
  induction froms as [|from froms IH]; simpl.
  - split; [by intros _ ? ?%not_elem_of_nil|done].
  - unfold mbind. case_decide as Heq.
    + subst. simpl. rewrite IH. split; intros H f Hf.
      * apply elem_of_cons in Hf as [->|Hf]; [by left|auto].
      * apply H. by right.
    + unfold assertTransitionAllowed. destruct (isTransitionAllowed from to) eqn:Hal; simpl.
      * rewrite IH. split; intros H f Hf.
        -- apply elem_of_cons in Hf as [->|Hf]; [right; by apply edge_spec|auto].
        -- apply H. by right.
      * split; [done|]. intros H.
        destruct (H from) as [?|He]; [by left|done|].
        apply edge_spec in He. congruence.
Qed.

(** allowedSourcesFor lists exactly the sources of the edges into a status, so the IN-
    clause of the cancel statement and the transition table cannot disagree. *)
Theorem allowedSourcesFor_spec from to :
  from ∈ allowedSourcesFor to ↔ edge from to.
Proof.
  unfold allowedSourcesFor. rewrite list_elem_of_filter. split.
  - intros [H _]. by constructor.
  - intros He. inversion He; subst. split; [done|apply transition_keys_complete].
Qed.
