(* ===== verification/Database.v ===== *)
(** * The run database and the process state around it

    The tables the run-lifecycle code reads and writes
    ([main/src/database/migrations]: 006, 015, 016, 020, 085, 111), one Record
    per row with the columns that code uses, and the state of the main process
    the handlers share: the database, the approval router's in-memory map and
    the ordered log of what was emitted, replied or settled.

    Instants are milliseconds since the epoch.  [CURRENT_TIMESTAMP] has the
    resolution of a second ([current_timestamp]); JSON columns hold the decoded
    value. *)

From S2P Require Import Prelude RunStateMachine.

Open Scope js_scope.

Definition instant := Z.

(** SQLite's [CURRENT_TIMESTAMP], read at the instant [now]. *)
Definition current_timestamp (now : instant) : instant := (now / 1000 * 1000)%Z.

(** SQLite's [unixepoch(t)]. *)
Definition unixepoch (t : instant) : Z := (t / 1000)%Z.

(** The text of a JSON value the lifecycle code only passes through. *)
Definition json := string.

(** ** Rows *)

Record run_row := mk_run {
  r_status : run_status;
  r_project_id : Z;
  r_workflow_id : string;
  r_experiment_id : option string;
  r_error_message : option string;
  r_outcome : option string;
  r_started_at : option instant;
  r_ended_at : option instant;
  r_created_at : instant;
  r_updated_at : instant;
  r_stuck_reason : option string;
  r_stuck_detected_at : option instant;
  r_substrate : option string;
  r_execution_model : option string;
  r_batch_id : option string;
  r_task_id : option string;
  r_current_step_id : option string
}.

Inductive approval_status := a_pending | a_approved | a_rejected | a_timed_out.
#[export] Instance approval_status_eq_dec : EqDecision approval_status.
Proof. solve_decision. Defined.

Record approval_row := mk_approval {
  a_run_id : string;
  a_tool_name : string;
  a_tool_input_json : json;
  a_tool_use_id : string;
  a_status : approval_status;
  a_created_at : instant;
  a_decided_at : option instant;
  a_decided_by : option string;
  a_awaited : bool
}.

(** [QuestionPayload]: [qp_isSecret] is [isSecret === true], [qp_options] the
    labels of the options, and [qp_rest] the rest of its JSON. *)
Record question_payload := mk_question_payload {
  qp_question : string;
  qp_header : string;
  qp_isSecret : bool;
  qp_options : list string;
  qp_rest : json
}.

(** [QuestionAnswer]: [qa_answers] lists the object's entries in the order
    [Object.keys] gives them. *)
Record question_answer := mk_answer {
  qa_answers : list (string * string);
  qa_annotations : option json;
  qa_attachments : option (list string)
}.

Inductive question_status := qs_pending | qs_answered | qs_timed_out.
#[export] Instance question_status_eq_dec : EqDecision question_status.
Proof. solve_decision. Defined.

(** A [questions] row.  [q_questions] is [questions_json]: [None] when the text
    is not JSON. *)
Record question_row := mk_question {
  q_run_id : string;
  q_tool_use_id : string;
  q_questions : option (list question_payload);
  q_status : question_status;
  q_created_at : instant;
  q_answered_at : option instant;
  q_answer_json : option question_answer
}.

Inductive review_kind := k_finding | k_permission | k_decision | k_human_task | k_notification.
#[export] Instance review_kind_eq_dec : EqDecision review_kind.
Proof. solve_decision. Defined.

Inductive review_status := rv_pending | rv_resolved | rv_dismissed.
#[export] Instance review_status_eq_dec : EqDecision review_status.
Proof. solve_decision. Defined.

(** The [DecisionPayload] fields the gates stamp; the optional ones are absent
    from the object when [None]. *)
Record decision_payload := mk_decision_payload {
  dp_gate : string;
  dp_summary : option string;
  dp_recoveredQuestions : option (list question_payload);
  dp_ideaRefs : option (list string);
  dp_reviewReportedSince : option instant;
  dp_stepId : option string;
  dp_agentKeys : option (list string);
  dp_blockedProvider : option string;
  dp_blockedRuntime : option string;
  dp_origin : option string;
  dp_fanOut : option bool;
  dp_errorClass : option string
}.

(** A payload with only its gate discriminator. *)
Definition gate_payload (gate : string) : decision_payload :=
  mk_decision_payload gate None None None None None None None None None None None.

Inductive review_payload :=
  | PermissionPayload (toolName : string) (toolInput : json) (approvalId : string)
  | DecisionPayload (p : decision_payload)
  | OtherPayload (j : json).

(** [json_extract(payload_json, '$.approvalId')] *)
Definition payload_approvalId (p : option review_payload) : option string :=
  match p with
  | Some (PermissionPayload _ _ a) => Some a
  | _ => None
  end.

Record review_row := mk_review {
  v_project_id : Z;
  v_run_id : option string;
  v_kind : review_kind;
  v_status : review_status;
  v_blocking : bool;
  v_title : string;
  v_body : option string;
  v_severity : option string;
  v_source : option string;
  v_audience : option string;
  v_payload : option review_payload;
  v_created_at : instant;
  v_updated_at : instant;
  v_resolved_by : option string;
  v_resolution : option string
}.

Inductive field_value := VNull | VStr (s : string) | VBool (b : bool).
Record field_delta := mk_delta { fd_field : string; fd_from : field_value; fd_to : field_value }.

Record entity_event := mk_event {
  e_entity_type : string;
  e_entity_id : string;
  e_seq : nat;
  e_kind : string;
  e_actor : string;
  e_run_id : option string;
  e_changes : list field_delta;
  e_created_at : instant
}.

(** A [raw_events] row; the list holds them in [id] order. *)
Record raw_event := mk_raw_event {
  re_run_id : string;
  re_event_type : string;
  re_created_at : instant
}.

(** ** The database

    [experiments] is [None] on a database older than migration 049 and
    [review_items] is [None] on one older than migration 016. *)
Record db := mk_db {
  workflow_runs : gmap string run_row;
  workflows : gmap string string;
  experiments : option (gmap string string);
  approvals : gmap string approval_row;
  questions : gmap string question_row;
  review_items : option (gmap string review_row);
  entity_events : list entity_event;
  raw_events : list raw_event
}.

Definition set_runs (t : gmap string run_row) (d : db) : db :=
  mk_db t d.(workflows) d.(experiments) d.(approvals) d.(questions) d.(review_items)
    d.(entity_events) d.(raw_events).
Definition set_approvals (t : gmap string approval_row) (d : db) : db :=
  mk_db d.(workflow_runs) d.(workflows) d.(experiments) t d.(questions) d.(review_items)
    d.(entity_events) d.(raw_events).
Definition set_questions (t : gmap string question_row) (d : db) : db :=
  mk_db d.(workflow_runs) d.(workflows) d.(experiments) d.(approvals) t d.(review_items)
    d.(entity_events) d.(raw_events).
Definition set_review_items (t : gmap string review_row) (d : db) : db :=
  mk_db d.(workflow_runs) d.(workflows) d.(experiments) d.(approvals) d.(questions) (Some t)
    d.(entity_events) d.(raw_events).
Definition set_entity_events (l : list entity_event) (d : db) : db :=
  mk_db d.(workflow_runs) d.(workflows) d.(experiments) d.(approvals) d.(questions)
    d.(review_items) l d.(raw_events).

(** ** The process state *)

(** [ApprovalRequest] *)
Record approval_request := mk_request {
  ar_id : string;
  ar_runId : string;
  ar_toolName : string;
  ar_input : json;
  ar_timestamp : instant
}.

Inductive behavior := allow | deny.
#[export] Instance behavior_eq_dec : EqDecision behavior.
Proof. solve_decision. Defined.

(** [ApprovalDecision] *)
Record approval_decision := mk_decision {
  ad_behavior : behavior;
  ad_updatedInput : option json;
  ad_message : option string
}.

(** [PendingEntry]: the request and its source.  The [resolve] and
    [socketReply] closures are the log entries [EvResolve] and [EvSocketReply]
    under the request's id. *)
Record pending_entry := mk_pending { pe_request : approval_request; pe_source : string }.

(** [QuestionRequest], and the question router's own [PendingEntry]: its
    [resolve] and [socketReply] closures are the log entries [EvAnswer] and
    [EvAnswerReply]. *)
Record question_request := mk_question_request {
  qr_id : string;
  qr_runId : string;
  qr_toolUseId : string;
  qr_questions : list question_payload;
  qr_timestamp : instant
}.
Record question_entry := mk_question_entry {
  qe_request : question_request;
  qe_reviewItemId : option string
}.

(** What the process did that is visible outside the database, in order. *)
Inductive effect :=
  | EvApprovalCreated (r : approval_request)
  | EvOnCreated (approvalId : string)
  | EvApprovalDecided (approvalId : string) (status : approval_status)
  | EvResolve (approvalId : string) (d : approval_decision)
  | EvSocketReply (approvalId : string) (d : approval_decision)
  | EvReviewItemChanged (projectId : Z) (reviewItemId : string) (action : string)
  | EvRunStatusChanged (runId : string) (s : run_status)
  | EvRunTerminal (runId : string) (outcome : run_status)
  | EvUsage (event : string) (outcome : string) (flow : string) (durationSeconds : option Z)
  | EvApprovalUsage (decision scope : string)
  | EvLocalError (seam : string) (errorClass : string)
  | EvSeamError (seam : string) (errorClass : string) (tags : list (string * string))
  | EvRunStuck (runId : string) (approvalId : option string) (reason : string)
      (conflictingRunId : option string) (detectedAt : instant)
  | EvQuestionCreated (r : question_request)
  | EvQuestionAnswered (questionId : string) (status : question_status)
  | EvAnswer (questionId : string) (a : question_answer)
  | EvAnswerReply (questionId : string) (a : question_answer)
  | EvCall (collaborator : string) (arg : string).

Record sys := mk_sys {
  sys_db : db;
  sys_pending : list (string * pending_entry);
  sys_log : list effect;
  sys_questions : list (string * question_entry)
}.

Definition set_db (d : db) (s : sys) : sys :=
  mk_sys d s.(sys_pending) s.(sys_log) s.(sys_questions).
Definition set_pending (p : list (string * pending_entry)) (s : sys) : sys :=
  mk_sys s.(sys_db) p s.(sys_log) s.(sys_questions).
Definition set_open_questions (q : list (string * question_entry)) (s : sys) : sys :=
  mk_sys s.(sys_db) s.(sys_pending) s.(sys_log) q.
Definition add_log (e : effect) (s : sys) : sys :=
  mk_sys s.(sys_db) s.(sys_pending) (s.(sys_log) ++ [e]) s.(sys_questions).

Definition dbM (A : Type) : Type := M run_error db A.
Definition sysM (A : Type) : Type := M run_error sys A.

(** A database computation inside the process. *)
Definition in_db {A} (m : dbM A) : sysM A := zoom sys_db set_db m.

Definition emit (e : effect) : sysM unit := modify (add_log e).

(** ** Statements *)

(** [UPDATE workflow_runs SET f WHERE id = runId AND p]; returns [changes]. *)
Definition update_run (runId : string) (p : run_row → bool) (f : run_row → run_row) : dbM nat :=
  λ d, let '(n, t) := sql_update_id runId p f d.(workflow_runs) in (Ok n, set_runs t d).

Definition update_approval (id : string) (p : approval_row → bool)
    (f : approval_row → approval_row) : dbM nat :=
  λ d, let '(n, t) := sql_update_id id p f d.(approvals) in (Ok n, set_approvals t d).

(** On a database without the table the statement is never issued: every
    caller is behind [hasReviewItemsTable]. *)
Definition update_review_item (id : string) (p : review_row → bool)
    (f : review_row → review_row) : dbM nat :=
  λ d, match d.(review_items) with
       | Some t => let '(n, t') := sql_update_id id p f t in (Ok n, set_review_items t' d)
       | None => (Ok 0, d)
       end.

(** [INSERT]: a duplicate primary key throws. *)
Definition insert_approval (id : string) (r : approval_row) : dbM unit :=
  λ d, match d.(approvals) !! id with
       | Some _ => (Throw (SqlUniqueViolation "approvals" id), d)
       | None => (Ok tt, set_approvals (<[id := r]> d.(approvals)) d)
       end.

Definition insert_review_item (id : string) (r : review_row) : dbM unit :=
  λ d, match d.(review_items) with
       | Some t =>
           match t !! id with
           | Some _ => (Throw (SqlUniqueViolation "review_items" id), d)
           | None => (Ok tt, set_review_items (<[id := r]> t) d)
           end
       | None => (Ok tt, d)
       end.

Definition has_status (s : run_status) (r : run_row) : bool := bool_decide (r.(r_status) = s).
Definition has_status_in (l : list run_status) (r : run_row) : bool := status_in l r.(r_status).

(** [SET status = s, updated_at = now], the other columns unchanged *)
Definition set_status (s : run_status) (now : instant) (r : run_row) : run_row :=
  mk_run s r.(r_project_id) r.(r_workflow_id) r.(r_experiment_id) r.(r_error_message)
    r.(r_outcome) r.(r_started_at) r.(r_ended_at) r.(r_created_at) now r.(r_stuck_reason)
    r.(r_stuck_detected_at) r.(r_substrate) r.(r_execution_model) r.(r_batch_id) r.(r_task_id)
    r.(r_current_step_id).

(** [SET error_message = m, outcome = o, started_at = a, ended_at = z] *)
Definition set_lifecycle (m o : option string) (a z : option instant) (r : run_row) : run_row :=
  mk_run r.(r_status) r.(r_project_id) r.(r_workflow_id) r.(r_experiment_id) m o a z
    r.(r_created_at) r.(r_updated_at) r.(r_stuck_reason) r.(r_stuck_detected_at)
    r.(r_substrate) r.(r_execution_model) r.(r_batch_id) r.(r_task_id) r.(r_current_step_id).

(** [SET stuck_reason = reason, stuck_detected_at = t] *)
Definition set_stuck (reason : option string) (t : option instant) (r : run_row) : run_row :=
  mk_run r.(r_status) r.(r_project_id) r.(r_workflow_id) r.(r_experiment_id)
    r.(r_error_message) r.(r_outcome) r.(r_started_at) r.(r_ended_at) r.(r_created_at)
    r.(r_updated_at) reason t r.(r_substrate) r.(r_execution_model) r.(r_batch_id)
    r.(r_task_id) r.(r_current_step_id).

Definition set_ended_at (t : instant) (r : run_row) : run_row :=
  set_lifecycle r.(r_error_message) r.(r_outcome) r.(r_started_at) (Some t) r.
Definition set_outcome (o : option string) (r : run_row) : run_row :=
  set_lifecycle r.(r_error_message) o r.(r_started_at) r.(r_ended_at) r.

(** [COALESCE(a, b)] *)
Definition coalesce {A} (a b : option A) : option A :=
  match a with Some _ => a | None => b end.

(** [SET status = s, decided_at = t, decided_by = who] *)
Definition decide_approval (s : approval_status) (t : instant) (who : string)
    (a : approval_row) : approval_row :=
  mk_approval a.(a_run_id) a.(a_tool_name) a.(a_tool_input_json) a.(a_tool_use_id) s
    a.(a_created_at) (Some t) (Some who) a.(a_awaited).

Definition approval_pending (a : approval_row) : bool := bool_decide (a.(a_status) = a_pending).
Definition review_pending (v : review_row) : bool := bool_decide (v.(v_status) = rv_pending).

(** ** What the statements leave alone *)

Section Frame.
Implicit Types d : db.

Lemma update_run_cases runId p f d :
  (∃ r, d.(workflow_runs) !! runId = Some r ∧ p r = true
     ∧ update_run runId p f d = (Ok 1, set_runs (<[runId := f r]> d.(workflow_runs)) d))
  ∨ ((∀ r, d.(workflow_runs) !! runId = Some r → p r = false)
     ∧ update_run runId p f d = (Ok 0, d)).
Proof.
  unfold update_run. destruct (sql_update_id_cases runId p f d.(workflow_runs))
    as [(r & Hr & Hp & ->)|[H ->]]; [left; eauto|right]. split; [done|].
  by destruct d.
Qed.

Lemma update_approval_cases id p f d :
  (∃ a, d.(approvals) !! id = Some a ∧ p a = true
     ∧ update_approval id p f d = (Ok 1, set_approvals (<[id := f a]> d.(approvals)) d))
  ∨ ((∀ a, d.(approvals) !! id = Some a → p a = false)
     ∧ update_approval id p f d = (Ok 0, d)).
Proof.
  unfold update_approval. destruct (sql_update_id_cases id p f d.(approvals))
    as [(r & Hr & Hp & ->)|[H ->]]; [left; eauto|right]. split; [done|].
  by destruct d.
Qed.
End Frame.

(** ** The abstract view of the run table

    A run is its status and its identity; a table refines another when every
    run moved along legal edges only ([rtc edge]), kept its identity, and no run
    appeared or vanished. *)

Definition status_of (d : db) (runId : string) : option run_status :=
  r_status <$> d.(workflow_runs) !! runId.

(** The columns no lifecycle write touches. *)
Definition same_identity (r r' : run_row) : Prop :=
  r'.(r_project_id) = r.(r_project_id) ∧ r'.(r_workflow_id) = r.(r_workflow_id)
  ∧ r'.(r_experiment_id) = r.(r_experiment_id) ∧ r'.(r_created_at) = r.(r_created_at).

Definition row_refine (r r' : run_row) : Prop :=
  same_identity r r' ∧ rtc edge r.(r_status) r'.(r_status).

#[export] Instance row_refine_preorder : PreOrder row_refine.
Proof.
  split; [by intros r|]. intros r1 r2 r3 [(?&?&?&?) H12] [(?&?&?&?) H23].
  split; [split_and!; congruence|by etrans].
Qed.

Definition runs_refine (d d' : db) : Prop :=
  d'.(workflows) = d.(workflows)
  ∧ ∀ runId, option_Forall2 row_refine (d.(workflow_runs) !! runId) (d'.(workflow_runs) !! runId).

#[export] Instance runs_refine_preorder : PreOrder runs_refine.
Proof.
  split.
  - intros d. split; [done|]. intros runId. destruct (d.(workflow_runs) !! runId); by constructor.
  - intros d1 d2 d3 [Hw12 H12] [Hw23 H23]. split; [congruence|]. intros runId.
    specialize (H12 runId). specialize (H23 runId).
    inversion H12 as [s1 s2 Hs|]; inversion H23 as [s2' s3 Hs'|]; simplify_eq;
      try congruence; constructor.
    etrans; [done|]. congruence.
Qed.

Lemma runs_refine_eq d d' :
  d.(workflow_runs) = d'.(workflow_runs) ∧ d'.(workflows) = d.(workflows) → runs_refine d d'.
Proof.
  intros [H Hw]. split; [done|]. intros runId. rewrite H.
  destruct (d'.(workflow_runs) !! runId); by constructor.
Qed.

Lemma runs_refine_insert d k r r' :
  d.(workflow_runs) !! k = Some r → row_refine r r' →
  runs_refine d (set_runs (<[k := r']> d.(workflow_runs)) d).
Proof.
  intros Hk He. split; [done|]. intros runId. simpl. destruct (decide (runId = k)) as [->|Hne].
  - rewrite Hk, lookup_insert_eq. by constructor.
  - rewrite lookup_insert_ne by done. destruct (d.(workflow_runs) !! runId); by constructor.
Qed.

(** A terminal status is absorbing. *)
Lemma terminal_absorbing st st' : is_terminal st = true → rtc edge st st' → st' = st.
Proof.
  intros Ht H. inversion H as [|? y ? He _]; subst; [done|].
  exfalso. by apply (proj1 (is_terminal_no_edge st) Ht y).
Qed.

Lemma refine_status d d' runId st :
  runs_refine d d' → status_of d runId = Some st →
  ∃ st', status_of d' runId = Some st' ∧ rtc edge st st'.
Proof.
  unfold status_of. intros [_ H] Hs. specialize (H runId).
  inversion H as [r r' [_ Hr] Hl Hl'|Hl Hl']; rewrite <- Hl in Hs; simplify_eq/=. eauto.
Qed.

Lemma refine_terminal d d' runId st :
  runs_refine d d' → status_of d runId = Some st → is_terminal st = true →
  status_of d' runId = Some st.
Proof.
  intros H Hs Ht. destruct (refine_status _ _ _ _ H Hs) as (st' & Hs' & Hr).
  by rewrite (terminal_absorbing _ _ Ht Hr) in Hs'.
Qed.

(** A guarded update refines when every row its guard admits takes a legal edge
    and keeps its identity. *)
Lemma update_run_refines runId p f :
  (∀ r, p r = true → row_refine r (f r)) →
  preserves (E:=run_error) runs_refine (update_run runId p f).
Proof.
  intros H d. destruct (update_run_cases runId p f d) as [(r & Hr & Hp & ->)|[_ ->]]; simpl.
  - apply runs_refine_insert with r; auto.
  - reflexivity.
Qed.

Lemma update_approval_refines id p f :
  preserves (E:=run_error) runs_refine (update_approval id p f).
Proof.
  intros d. destruct (update_approval_cases id p f d) as [(r & Hr & Hp & ->)|[_ ->]]; simpl;
    by apply runs_refine_eq.
Qed.

Lemma update_review_item_refines id p f :
  preserves (E:=run_error) runs_refine (update_review_item id p f).
Proof.
  intros d. apply runs_refine_eq. unfold update_review_item.
  destruct (d.(review_items)); [|done]. by destruct (sql_update_id _ _ _ _).
Qed.

Lemma insert_approval_refines id a : preserves runs_refine (insert_approval id a).
Proof.
  intros d. apply runs_refine_eq. unfold insert_approval. by destruct (d.(approvals) !! id).
Qed.

Lemma insert_review_item_refines id v : preserves runs_refine (insert_review_item id v).
Proof.
  intros d. apply runs_refine_eq. unfold insert_review_item.
  destruct (d.(review_items)) as [t|]; [|done]. by destruct (t !! id).
Qed.

(** The same preorder on the whole process. *)
Definition sys_refine (s s' : sys) : Prop := runs_refine s.(sys_db) s'.(sys_db).

#[export] Instance sys_refine_preorder : PreOrder sys_refine.
Proof.
  split; [intros s; unfold sys_refine; reflexivity|].
  intros s1 s2 s3. unfold sys_refine. apply transitivity.
Qed.

Lemma in_db_refines {A} (m : dbM A) : preserves runs_refine m → preserves sys_refine (in_db m).
Proof. apply preserves_zoom. done. Qed.

Lemma emit_refines e : preserves (E:=run_error) sys_refine (emit e).
Proof. intros s. unfold sys_refine. reflexivity. Qed.

Lemma modify_refines (f : sys → sys) :
  (∀ s, (f s).(sys_db) = s.(sys_db)) → preserves (E:=run_error) sys_refine (modify f).
Proof. intros H s. unfold sys_refine. simpl. rewrite H. reflexivity. Qed.

Lemma assert_refines {S} (R : S → S → Prop) `{!PreOrder R} from to runId :
  preserves R (assertTransitionAllowed from to runId).
Proof.
  unfold assertTransitionAllowed. case_match; [by apply preserves_ret|by apply preserves_throw].
Qed.

Lemma assert_any_refines {S} (R : S → S → Prop) `{!PreOrder R} froms to runId :
  preserves R (assertTransitionAllowedFromAny froms to runId).
Proof.
  induction froms as [|f froms IH]; simpl; [by apply preserves_ret|].
  apply preserves_bind; [done| |done].
  case_decide; [by apply preserves_ret|by apply assert_refines].
Qed.

Create HintDb refine.
#[export] Hint Resolve update_approval_refines update_review_item_refines
  insert_approval_refines insert_review_item_refines emit_refines assert_refines
  assert_any_refines runs_refine_preorder sys_refine_preorder : refine.

(** Close the edge condition of a guarded update whose guard and target read
    the status only: every status the guard admits has a legal edge. *)
Ltac solve_edge :=
  let Hg := fresh "Hg" in
  intros Hg; split; [by split_and!|]; cbn [r_status set_status set_lifecycle set_stuck set_ended_at set_outcome];
  unfold has_status, has_status_in in Hg; cbn beta in Hg;
  repeat match goal with
         | H : _ && _ = true |- _ => apply andb_true_iff in H as [? ?]
         end;
  match goal with
  | |- rtc edge (r_status ?r) _ =>
      destruct (r_status r);
      first [ reflexivity
            | by apply rtc_once, edge_spec
            | exfalso; match goal with H : _ = true |- _ => by vm_compute in H end ]
  end.

Ltac refine_step :=
  first
    [ apply in_db_refines
    | apply update_run_refines; intros ?; solve_edge
    | solve [eauto 2 with refine] ].

Ltac solve_refine := intros; preserve_with refine_step; try typeclasses eauto.

(** Take the two outcomes of the first guarded run update of the goal. *)
Ltac case_update_run :=
  match goal with
  | |- context [update_run ?k ?p ?f ?d] =>
      let r := fresh "r" in let Hr := fresh "Hr" in let Hp := fresh "Hp" in
      let He := fresh "He" in
      destruct (update_run_cases k p f d) as [(r & Hr & Hp & He)|[Hr He]]; rewrite He; clear He;
      simpl in *
  end.

Ltac case_update_approval :=
  match goal with
  | |- context [update_approval ?k ?p ?f ?d] =>
      let r := fresh "a" in let Hr := fresh "Ha" in let Hp := fresh "Hp" in
      let He := fresh "He" in
      destruct (update_approval_cases k p f d) as [(r & Hr & Hp & He)|[Hr He]]; rewrite He; clear He;
      simpl in *
  end.
