(* ===== verification/Samples.v ===== *)
(** * Concrete states

    Small databases on which the properties of the development are applied at
    a concrete input. *)

From S2P Require Import Prelude RunStateMachine Database.

(** A programmatic run on the SDK substrate of the workflow [wf]. *)
Definition sample_run (st : run_status) : run_row :=
  mk_run st 1%Z "wf" None None None (Some 0%Z) None 0%Z 0%Z None None (Some "sdk") (Some "programmatic")
    None None (Some "step-1").

Definition sample_runs (l : list (string * run_status)) : gmap string run_row :=
  list_to_map ((λ ks, (ks.1, sample_run ks.2)) <$> l).

(** A database with runs, one workflow and an empty inbox. *)
Definition sample_db (l : list (string * run_status)) : db :=
  mk_db (sample_runs l) {[ "wf" := "sprint" ]} None ∅ ∅ (Some ∅) [] [].

Definition sample_sys (l : list (string * run_status)) : sys := mk_sys (sample_db l) [] [] [].

(** An awaited pending approval of a run, created at [t]. *)
Definition sample_approval (runId : string) (t : instant) : approval_row :=
  mk_approval runId "Bash" "{}" "tool" a_pending t None None true.
