(* ===== verification/JsString.v ===== *)
(** * JavaScript string operations

    The [String.prototype] operations the modelled code uses, over Stdlib's
    [string].  A character is one 8-bit code unit: the Latin-1 part of a
    JavaScript string, which holds every character the modelled code tests for. *)

From S2P Require Import Prelude.
From Stdlib Require Import Ascii String.

(** [\s]: tab, LF, VT, FF, CR, space and no-break space *)
Definition is_ws (c : ascii) : bool :=
  let n := nat_of_ascii c in
  ((9 <=? n) && (n <=? 13) || (n =? 32) || (n =? 160))%nat.

Definition nl : ascii := ascii_of_nat 10.
Definition cr : ascii := ascii_of_nat 13.
Definition squote : ascii := ascii_of_nat 39.
Definition dquote : ascii := ascii_of_nat 34.
Definition backtick : ascii := ascii_of_nat 96.
Definition backslash : ascii := ascii_of_nat 92.

(** [s.startsWith(p)] *)
Fixpoint startsWith (p s : string) : bool :=
  match p, s with
  | EmptyString, _ => true
  | String a p', String b s' => Ascii.eqb a b && startsWith p' s'
  | _, _ => false
  end.

(** [s.includes(p)] *)
Fixpoint includes (p s : string) : bool :=
  startsWith p s || match s with
                    | EmptyString => false
                    | String _ s' => includes p s'
                    end.

(** [s.endsWith(p)] *)
Fixpoint endsWith (p s : string) : bool :=
  String.eqb p s || match s with
                    | EmptyString => false
                    | String _ s' => endsWith p s'
                    end.

(** [s.indexOf(c)]: [None] for [-1] *)
Fixpoint indexOf (c : ascii) (s : string) : option nat :=
  match s with
  | EmptyString => None
  | String b s' => if Ascii.eqb c b then Some 0 else S <$> indexOf c s'
  end.

(** [s.slice(0, n)] and [s.slice(n)] *)
Fixpoint take_str (n : nat) (s : string) : string :=
  match n, s with
  | S n', String c s' => String c (take_str n' s')
  | _, _ => EmptyString
  end.

Fixpoint drop_str (n : nat) (s : string) : string :=
  match n, s with
  | S n', String _ s' => drop_str n' s'
  | _, _ => s
  end.

(** [s.slice(0, -k)] *)
Definition drop_last (k : nat) (s : string) : string := take_str (String.length s - k) s.

Fixpoint trim_start (s : string) : string :=
  match s with
  | String c s' => if is_ws c then trim_start s' else s
  | EmptyString => EmptyString
  end.

(** The longest prefix whose last character is not white space. *)
Fixpoint trim_end (s : string) : string :=
  match s with
  | EmptyString => EmptyString
  | String c s' =>
      match trim_end s' with
      | EmptyString => if is_ws c then EmptyString else String c EmptyString
      | t => String c t
      end
  end.

(** [s.trim()] *)
Definition trim (s : string) : string := trim_end (trim_start s).

(** ASCII part of [s.toLowerCase()] *)
Definition lower_ascii (c : ascii) : ascii :=
  let n := nat_of_ascii c in
  if ((65 <=? n) && (n <=? 90))%nat then ascii_of_nat (n + 32) else c.

Fixpoint toLowerCase (s : string) : string :=
  match s with
  | EmptyString => EmptyString
  | String c s' => String (lower_ascii c) (toLowerCase s')
  end.

(** [s.split(/\s+/).filter((t) => t.length > 0)] *)
Fixpoint split_ws_aux (cur : string) (s : string) : list string :=
  match s with
  | EmptyString => if decide (cur = "") then [] else [cur]
  | String c s' =>
      if is_ws c
      then (if decide (cur = "") then split_ws_aux "" s' else cur :: split_ws_aux "" s')
      else split_ws_aux (cur +:+ String c "") s'
  end.
Definition split_ws (s : string) : list string := split_ws_aux "" s.

(** Every character of [s] satisfies [p]. *)
Fixpoint str_forall (p : ascii → bool) (s : string) : bool :=
  match s with
  | EmptyString => true
  | String c s' => p c && str_forall p s'
  end.

Definition str_exists (p : ascii → bool) (s : string) : bool :=
  negb (str_forall (λ c, negb (p c)) s).

(** ** Lemmas *)

Lemma str_app_cons c s t : String c s +:+ t = String c (s +:+ t).
Proof. done. Qed.

Lemma str_app_nil_l s : "" +:+ s = s.
Proof. done. Qed.

Lemma str_app_nil_r s : s +:+ "" = s.
Proof. induction s as [|c s IH]; [done|]. by rewrite str_app_cons, IH. Qed.

Lemma str_app_assoc a b c : (a +:+ b) +:+ c = a +:+ (b +:+ c).
Proof. induction a as [|x a IH]; [done|]. by rewrite !str_app_cons, IH. Qed.

Lemma str_forall_app p a b : str_forall p (a +:+ b) = str_forall p a && str_forall p b.
Proof.
  induction a as [|c a IH]; [done|]. rewrite str_app_cons. simpl. by rewrite IH, andb_assoc.
Qed.

Lemma startsWith_spec p s : startsWith p s = true ↔ ∃ t, s = p +:+ t.
Proof.
  revert s. induction p as [|a p IH]; intros s; simpl.
  - split; eauto.
  - destruct s as [|b s]; [split; [done|by intros [? ?]]|].
    rewrite andb_true_iff, IH, Ascii.eqb_eq. split.
    + intros [-> [t ->]]. by exists t.
    + intros [t Ht]. rewrite str_app_cons in Ht. injection Ht as -> ->. eauto.
Qed.

Lemma includes_spec p s : includes p s = true ↔ ∃ a b, s = a +:+ p +:+ b.
Proof.
  induction s as [|c s IH].
  - simpl. rewrite orb_true_iff, startsWith_spec. split.
    + intros [[t Ht]|?]; [by exists "", t|done].
    + intros (a & b & H). left. destruct a; [by exists b|]. by rewrite str_app_cons in H.
  - change (startsWith p (String c s) || includes p s = true ↔ ∃ a b, String c s = a +:+ p +:+ b).
    rewrite orb_true_iff, startsWith_spec, IH. split.
    + intros [[t Ht]|(a & b & ->)]; [by exists "", t|by exists (String c a), b].
    + intros (a & b & H). destruct a as [|x a]; [left; by exists b|].
      rewrite str_app_cons in H. right. injection H as -> ->. eauto.
Qed.

Lemma endsWith_spec p s : endsWith p s = true ↔ ∃ a, s = a +:+ p.
Proof.
  induction s as [|c s IH]; simpl; rewrite orb_true_iff, String.eqb_eq.
  - split.
    + intros [->|?]; [by exists ""|done].
    + intros [a Ha]. left. destruct a; [done|]. by rewrite str_app_cons in Ha.
  - rewrite IH. split.
    + intros [->|[a ->]]; [by exists ""|by exists (String c a)].
    + intros [a Ha]. destruct a as [|x a]; [by left|]. rewrite str_app_cons in Ha.
      right. injection Ha as -> ->. eauto.
Qed.

Lemma trim_start_forall p s : str_forall p s = true → str_forall p (trim_start s) = true.
Proof.
  induction s as [|c s IH]; simpl; [done|]. intros [Hc Hs]%andb_true_iff.
  destruct (is_ws c); simpl; [auto|by rewrite Hc, Hs].
Qed.

Lemma trim_end_forall p s : str_forall p s = true → str_forall p (trim_end s) = true.
Proof.
  induction s as [|c s IH]; simpl; [done|]. intros [Hc Hs]%andb_true_iff.
  specialize (IH Hs). destruct (trim_end s) as [|d t].
  - destruct (is_ws c); simpl; [done|by rewrite Hc].
  - simpl in *. by rewrite Hc, IH.
Qed.

(** A property of all characters survives trimming. *)
Lemma trim_forall p s : str_forall p s = true → str_forall p (trim s) = true.
Proof. intros H. by apply trim_end_forall, trim_start_forall. Qed.

Lemma trim_end_idem s : trim_end (trim_end s) = trim_end s.
Proof.
  induction s as [|c s IH]; simpl; [done|].
  destruct (trim_end s) as [|d t] eqn:E.
  - destruct (is_ws c) eqn:Hc; simpl; [done|by rewrite Hc].
  - change (match trim_end (String d t) with
            | "" => if is_ws c then "" else String c ""
            | t' => String c t'
            end = String c (String d t)).
    by rewrite IH.
Qed.

(** The first and the last character of a trimmed string are not white space. *)
Lemma trim_start_head s c t : trim_start s = String c t → is_ws c = false.
Proof.
  induction s as [|d s IH]; simpl; [done|].
  destruct (is_ws d) eqn:Hd; [done|]. by intros [= <- <-].
Qed.

Lemma trim_end_head s c t : trim_end s = String c t → ∃ t', s = String c t'.
Proof.
  destruct s as [|d s]; simpl; [done|].
  destruct (trim_end s); [destruct (is_ws d); [done|]|]; intros [= -> ?]; eauto.
Qed.

Lemma trim_head s c t : trim s = String c t → is_ws c = false.
Proof.
  unfold trim. intros H. apply trim_end_head in H as [t' H]. by apply trim_start_head in H.
Qed.

Lemma trim_idem s : trim (trim s) = trim s.
Proof.
  unfold trim at 1. destruct (trim s) as [|c t] eqn:H; [done|].
  assert (trim_start (String c t) = String c t) as ->.
  { simpl. by rewrite (trim_head s c t H). }
  rewrite <- H. unfold trim. apply trim_end_idem.
Qed.

Lemma split_ws_aux_nonempty cur s : Forall (λ t, t ≠ "") (split_ws_aux cur s).
Proof.
  revert cur. induction s as [|c s IH]; intros cur; simpl.
  - case_decide; [constructor|]. by repeat constructor.
  - destruct (is_ws c); [|apply IH]. case_decide; [apply IH|]. by constructor.
Qed.

(** SQLite's [x LIKE 'prefix%'] for a prefix without wildcards: ASCII case is
    ignored. *)
Definition like_prefix (prefix : string) (s : string) : bool :=
  startsWith (toLowerCase prefix) (toLowerCase s).
