(* ===== verification/Regex.v ===== *)
(** * Regular expressions as [RegExp.prototype.test] runs them

    The constructs the modelled tables use: characters and classes, sequence,
    alternation, [*]/[+]/[?], anchors, the word boundary [\b] and the negative
    lookbehind of a literal.  [test] searches every start position, which is
    what [.test] does for a pattern without flags other than [i].

    The matcher is a list of successes over zippers (text before the position
    reversed, text after); [matches] is the declarative semantics it is proved
    equal to. *)

From S2P Require Import Prelude JsString.
From Stdlib Require Import Ascii.

Definition pos := (list ascii * list ascii)%type.

Inductive re :=
  | REps
  | RChr (p : ascii → bool)
  | RSeq (a b : re)
  | RAlt (a b : re)
  | RStar (a : re)
  | RWordB
  | RBol
  | REol
  | RNotBehind (lit : list (ascii → bool)).

(** ** Builders *)

Definition chars (s : string) : list ascii := String.list_ascii_of_string s.

(** A character under the [i] flag: equal up to ASCII case. *)
Definition eqi (c d : ascii) : bool := Ascii.eqb (lower_ascii c) (lower_ascii d).

(** A literal, case-sensitive or under the [i] flag. *)
Definition lit (s : string) : re :=
  foldr (λ c r, RSeq (RChr (Ascii.eqb c)) r) REps (chars s).
Definition liti (s : string) : re :=
  foldr (λ c r, RSeq (RChr (eqi c)) r) REps (chars s).

Definition seqs (l : list re) : re := foldr RSeq REps l.
Definition alts (l : list re) : re :=
  match l with [] => REps | r :: l' => foldl RAlt r l' end.
Definition opt (r : re) : re := RAlt r REps.
Definition plus (r : re) : re := RSeq r (RStar r).
Fixpoint times (n : nat) (r : re) : re :=
  match n with 0 => REps | S n' => RSeq r (times n' r) end.

Definition is_digit (c : ascii) : bool :=
  let n := nat_of_ascii c in ((48 <=? n) && (n <=? 57))%nat.
Definition is_lower (c : ascii) : bool :=
  let n := nat_of_ascii c in ((97 <=? n) && (n <=? 122))%nat.
Definition is_upper (c : ascii) : bool :=
  let n := nat_of_ascii c in ((65 <=? n) && (n <=? 90))%nat.
Definition is_alpha (c : ascii) : bool := is_lower c || is_upper c.
(** [\w] *)
Definition is_word (c : ascii) : bool :=
  is_alpha c || is_digit c || Ascii.eqb c "_"%char.
(** [.]: everything but a line terminator *)
Definition is_dot (c : ascii) : bool := negb (Ascii.eqb c nl || Ascii.eqb c cr).

Definition ws : re := RChr is_ws.
Definition wss : re := RStar ws.
Definition ws1 : re := plus ws.
Definition digit : re := RChr is_digit.
Definition dot_star : re := RStar (RChr is_dot).
(** [[...]]: one of the listed characters *)
Definition one_of (s : string) : re := RChr (λ c, bool_decide (c ∈ chars s)).

(** ** The matcher *)

Definition at_word_boundary (st : pos) : bool :=
  let before := match st.1 with c :: _ => is_word c | [] => false end in
  let after := match st.2 with c :: _ => is_word c | [] => false end in
  xorb before after.

(** The literal [l] (given last character first) ends the text before. *)
Fixpoint behind (l : list (ascii → bool)) (before : list ascii) : bool :=
  match l, before with
  | [], _ => true
  | p :: l', c :: before' => p c && behind l' before'
  | _ :: _, [] => false
  end.

(** Iterations of a star, longest first: each one must consume text. *)
Fixpoint iter_star (fuel : nat) (f : pos → list pos) (st : pos) : list pos :=
  match fuel with
  | 0 => []
  | S n => flat_map (λ st', if (length st'.2 <? length st.2)%nat
                            then iter_star n f st' else []) (f st)
  end ++ [st].

Fixpoint run (r : re) (st : pos) : list pos :=
  match r with
  | REps => [st]
  | RChr p => match st.2 with
              | c :: s => if p c then [(c :: st.1, s)] else []
              | [] => []
              end
  | RSeq a b => flat_map (run b) (run a st)
  | RAlt a b => run a st ++ run b st
  | RStar a => iter_star (length st.2) (run a) st
  | RWordB => if at_word_boundary st then [st] else []
  | RBol => match st.1 with [] => [st] | _ => [] end
  | REol => match st.2 with [] => [st] | _ => [] end
  | RNotBehind l => if behind l st.1 then [] else [st]
  end.

(** The successes are listed in the order the backtracking matcher tries them:
    its first element is the match [exec] reports. *)

(** All positions of a text, left to right. *)
Fixpoint positions (before after : list ascii) : list pos :=
  (before, after) :: match after with
                     | [] => []
                     | c :: after' => positions (c :: before) after'
                     end.

Definition nonempty {A} (l : list A) : bool := match l with [] => false | _ => true end.

(** [r.test(s)] *)
Definition test (r : re) (s : string) : bool :=
  existsb (λ st, nonempty (run r st)) (positions [] (chars s)).

(** The text between two positions of one text. *)
Definition between (a b : pos) : string :=
  String.string_of_list_ascii (take (length a.2 - length b.2) a.2).

(** All ways to match the groups [l] one after the other from [st], each with
    the texts of the groups, in backtracking order. *)
Fixpoint run_groups (l : list re) (st : pos) : list (list string) :=
  match l with
  | [] => [[]]
  | r :: l' => flat_map (λ st', (λ ts, between st st' :: ts) <$> run_groups l' st') (run r st)
  end.

(** [/(l0)(l1).../.exec(s)]: the texts of the leftmost match's groups. *)
Definition exec_groups (l : list re) (s : string) : option (list string) :=
  head (flat_map (run_groups l) (positions [] (chars s))).

(** [s.replace(/r/g, by)]: the matches are taken left to right without overlap,
    an empty one advancing by a character. *)
Fixpoint replace_from (fuel : nat) (r : re) (by_ : list ascii) (st : pos) : list ascii :=
  match fuel with
  | 0 => st.2
  | S n =>
      let copy_one := match st.2 with
                      | [] => []
                      | c :: s => c :: replace_from n r by_ (c :: st.1, s)
                      end in
      match run r st with
      | [] => copy_one
      | st' :: _ => by_ ++ (if (length st'.2 <? length st.2)%nat
                            then replace_from n r by_ st' else copy_one)
      end
  end.

Definition replace_all (r : re) (by_ : string) (s : string) : string :=
  String.string_of_list_ascii (replace_from (S (String.length s)) r (chars by_) ([], chars s)).

(** ** Declarative semantics *)

Inductive matches : re → pos → pos → Prop :=
  | m_eps st : matches REps st st
  | m_chr p c b s : p c = true → matches (RChr p) (b, c :: s) (c :: b, s)
  | m_seq a b s1 s2 s3 : matches a s1 s2 → matches b s2 s3 → matches (RSeq a b) s1 s3
  | m_alt_l a b s1 s2 : matches a s1 s2 → matches (RAlt a b) s1 s2
  | m_alt_r a b s1 s2 : matches b s1 s2 → matches (RAlt a b) s1 s2
  | m_star_nil a st : matches (RStar a) st st
  | m_star_cons a s1 s2 s3 : matches a s1 s2 → matches (RStar a) s2 s3 → matches (RStar a) s1 s3
  | m_wordb st : at_word_boundary st = true → matches RWordB st st
  | m_bol s : matches RBol ([], s) ([], s)
  | m_eol b : matches REol (b, []) (b, [])
  | m_notbehind l st : behind l st.1 = false → matches (RNotBehind l) st st.

#[export] Hint Constructors matches : cyb.

(** A match only moves forward over one and the same text. *)
Definition same_text (s1 s2 : pos) : Prop :=
  ∃ mid, s1.2 = mid ++ s2.2 ∧ s2.1 = rev mid ++ s1.1.

Lemma same_text_refl st : same_text st st.
Proof. by exists []. Qed.

Lemma same_text_trans a b c : same_text a b → same_text b c → same_text a c.
Proof.
  intros (m1 & H1 & H2) (m2 & H3 & H4). exists (m1 ++ m2).
  rewrite H1, H3, H4, H2, rev_app_distr. by rewrite !(assoc_L (++)).
Qed.

Lemma same_text_length a b : same_text a b → length b.2 <= length a.2.
Proof. intros (m & -> & _). rewrite length_app. lia. Qed.

Lemma same_text_eq a b : same_text a b → length b.2 = length a.2 → a = b.
Proof.
  intros (m & H1 & H2) Hlen. rewrite H1, length_app in Hlen.
  destruct m; simpl in *; [|lia]. destruct a, b; simpl in *. congruence.
Qed.

Lemma matches_same_text r s1 s2 : matches r s1 s2 → same_text s1 s2.
Proof.
  induction 1; try (by apply same_text_refl); try (by eapply same_text_trans); try done.
  by exists [c].
Qed.

Section Star.
Context (a : re) (f : pos → list pos).
Hypothesis f_spec : ∀ st st', st' ∈ f st ↔ matches a st st'.

Lemma iter_star_sound n st st' : st' ∈ iter_star n f st → matches (RStar a) st st'.
Proof.
  revert st. induction n as [|n IH]; intros st; simpl.
  - intros ->%list_elem_of_singleton. constructor.
  - intros [Hin| ->%list_elem_of_singleton]%elem_of_app; [|constructor].
    apply list_elem_of_In, in_flat_map in Hin as (x & Hx & Hin).
    destruct (length x.2 <? length st.2)%nat; [|by apply list_elem_of_In, not_elem_of_nil in Hin].
    apply list_elem_of_In, f_spec in Hx. apply list_elem_of_In in Hin. eauto with cyb.
Qed.

Lemma iter_star_complete n st st' :
  matches (RStar a) st st' → length st.2 <= n → st' ∈ iter_star n f st.
Proof.
  intros Hm. remember (RStar a) as r eqn:Hr. revert n.
  induction Hm as [| | | | |a' st|a' s1 s2 s3 H1 _ H2 IH| | | |]; simplify_eq; intros n Hlen.
  - destruct n; simpl; [by left|]. apply elem_of_app. right. by left.
  - destruct (decide (length s2.2 = length s1.2)) as [Heq|Hne].
    + apply matches_same_text in H1. rewrite (same_text_eq s1 s2 H1 Heq). apply IH; [done|lia].
    + pose proof (same_text_length _ _ (matches_same_text _ _ _ H1)) as Hle.
      destruct n as [|n]; [lia|]. simpl. apply elem_of_app. left.
      apply list_elem_of_In, in_flat_map. exists s2. split.
      * by apply list_elem_of_In, f_spec.
      * assert ((length s2.2 <? length s1.2)%nat = true) as -> by (apply Nat.ltb_lt; lia).
        apply list_elem_of_In, IH; [done|lia].
Qed.
End Star.

(** The executable matcher computes exactly the declarative semantics. *)
Lemma run_spec r st st' : st' ∈ run r st ↔ matches r st st'.
Proof.
  revert st st'.
  induction r as [|p|a IHa b IHb|a IHa b IHb|a IHa| | | |l]; intros st st'; simpl.
  - rewrite list_elem_of_singleton. split; [intros ->; constructor|by inversion 1].
  - destruct st as [bf [|c s]]; simpl.
    + split; [by intros ?%not_elem_of_nil|by inversion 1].
    + destruct (p c) eqn:Hp.
      * rewrite list_elem_of_singleton. split; [intros ->; by constructor|by inversion 1].
      * split; [by intros ?%not_elem_of_nil|inversion 1; congruence].
  - rewrite list_elem_of_In, in_flat_map. split.
    + intros (x & Hx & Hin). apply list_elem_of_In, IHa in Hx.
      apply list_elem_of_In, IHb in Hin. eauto with cyb.
    + inversion 1 as [| |? ? ? s2 ? H1 H2| | | | | | | |]; subst. exists s2.
      split; apply list_elem_of_In; [by apply IHa|by apply IHb].
  - rewrite elem_of_app, IHa, IHb. split; [intros [?|?]; eauto with cyb|].
    inversion 1; subst; eauto.
  - split; [by apply iter_star_sound|intros H; by apply iter_star_complete with a].
  - destruct (at_word_boundary st) eqn:Hb.
    + rewrite list_elem_of_singleton. split; [intros ->; by constructor|by inversion 1].
    + split; [by intros ?%not_elem_of_nil|inversion 1; congruence].
  - destruct st as [[|c bf] s]; simpl.
    + rewrite list_elem_of_singleton. split; [intros ->; by constructor|by inversion 1].
    + split; [by intros ?%not_elem_of_nil|by inversion 1].
  - destruct st as [bf [|c s]]; simpl.
    + rewrite list_elem_of_singleton. split; [intros ->; by constructor|by inversion 1].
    + split; [by intros ?%not_elem_of_nil|by inversion 1].
  - destruct (behind l st.1) eqn:Hb.
    + split; [by intros ?%not_elem_of_nil|inversion 1; congruence].
    + rewrite list_elem_of_singleton. split; [intros ->; by constructor|by inversion 1].
Qed.

Lemma elem_of_positions bf af st : st ∈ positions bf af ↔ same_text (bf, af) st.
Proof.
  revert bf. induction af as [|c af IH]; intros bf; simpl; rewrite elem_of_cons.
  - split.
    + intros [->|?%not_elem_of_nil]; [apply same_text_refl|done].
    + intros (m & H1 & H2). left. destruct st, m; simpl in *; [|done]. congruence.
  - rewrite IH. split.
    + intros [->|(m & H1 & H2)]; [apply same_text_refl|]. simpl in *.
      exists (c :: m). simpl. rewrite H1, H2. by rewrite <- (assoc_L (++)).
    + intros (m & H1 & H2). destruct m as [|d m]; simpl in *.
      * left. destruct st; simpl in *. congruence.
      * right. simplify_eq. exists m. simpl. split; [done|].
        rewrite H2. by rewrite <- (assoc_L (++)).
Qed.

(** [r.test(s)] holds exactly when some part of the text matches. *)
Lemma test_spec r s :
  test r s = true ↔ ∃ st st', same_text ([], chars s) st ∧ matches r st st'.
Proof.
  unfold test. rewrite existsb_exists. split.
  - intros (st & Hst & Hne). destruct (run r st) as [|st' l] eqn:Hr; [done|].
    exists st, st'. split; [by apply elem_of_positions, list_elem_of_In|].
    apply run_spec. rewrite Hr. by left.
  - intros (st & st' & Hst & Hm). exists st. split.
    + by apply list_elem_of_In, elem_of_positions.
    + apply run_spec in Hm. destruct (run r st); [by apply not_elem_of_nil in Hm|done].
Qed.
