(* ===== verification/SystemicError.v ===== *)
(** * The classifier of programmatic-step failures

    Models [main/src/orchestrator/programmatic/systemicError.ts]: the three
    ordered pattern tables, [isSystemicStepError] / [isSystemicErrorClass] /
    [classifyErrorPattern], the structure tags, the FNV-1a digest of a message
    skeleton, and the parser of the advertised reset time.  The regular
    expressions are transcribed construct by construct. *)

From S2P Require Import Prelude JsString Regex.
From Stdlib Require Import Ascii.

(** [[\s_-]*] *)
Definition sep0 : re := RStar (RChr (λ c, is_ws c || bool_decide (c ∈ chars "_-"))).

Record SystemicPattern := mk_pattern { name : string; pattern : re }.

(** ** The tables *)

Definition SYSTEMIC_PATTERNS : list SystemicPattern := [
  mk_pattern "usage-limit-reached"
    (RAlt
      (seqs [liti "usage"; sep0; liti "limit"; sep0;
             alts [liti "reached"; liti "hit"; liti "exceeded"; liti "exhausted"]])
      (seqs [alts [liti "reached"; liti "hit"];
             opt (RSeq (liti " ") (alts [liti "your"; liti "the"]));
             liti " usage"; sep0; liti "limit"]));
  mk_pattern "window-limit-reached-or-hit"
    (seqs [RWordB; liti "limit"; ws1; alts [liti "reached"; liti "hit"]; RWordB]);
  mk_pattern "limit-verb-first"
    (seqs [RWordB; alts [liti "hit"; liti "reached"; liti "exceeded"]; ws1;
           opt (alts [liti "your"; liti "the"; liti "a"]); wss;
           alts [liti "session"; liti "usage"; liti "weekly"; liti "daily"; liti "monthly";
                 liti "plan"; liti "subscription"; liti "token";
                 RSeq (liti "spend") (opt (liti "ing"));
                 seqs [plus digit; opt (one_of "- ");
                       alts [liti "hour"; liti "day"; liti "minute"]]];
           ws1; liti "limit"; RWordB]);
  mk_pattern "rate-limit"
    (seqs [liti "rate"; sep0; liti "limit";
           opt (RSeq sep0 (alts [liti "reached"; liti "hit"; liti "exceeded"; liti "exhausted"]))]);
  mk_pattern "http-429" (seqs [RWordB; lit "429"; RWordB]);
  mk_pattern "overloaded" (RSeq (liti "overloaded") (opt (liti "_error")));
  mk_pattern "http-529" (seqs [RWordB; lit "529"; RWordB]);
  mk_pattern "billing-credit-balance" (liti "credit balance is too low");
  mk_pattern "billing-quota-exceeded" (liti "quota exceeded");
  mk_pattern "auth-failed"
    (RAlt
      (seqs [liti "auth"; opt (liti "entication"); sep0;
             alts [liti "failed"; liti "required"; liti "expired"; liti "invalid"]])
      (seqs [liti "auth"; sep0; liti "token"; sep0; liti "expired"]));
  mk_pattern "auth-invalid-api-key"
    (seqs [liti "invalid"; sep0; liti "api"; sep0; liti "key"]);
  mk_pattern "auth-401"
    (alts [seqs [RWordB; liti "401"; RWordB; dot_star; liti "unauthorized"];
           seqs [liti "unauthorized"; dot_star; RWordB; liti "401"; RWordB];
           seqs [RWordB; liti "401 unauthorized"; RWordB]]);
  mk_pattern "auth-oauth-expired"
    (seqs [liti "oauth"; sep0; liti "token"; opt (RSeq sep0 (liti "has")); sep0; liti "expired"]);
  mk_pattern "auth-failed-to-authenticate"
    (seqs [liti "failed to "; opt (RSeq (liti "re") (opt (liti "-"))); liti "authenticate"]);
  mk_pattern "auth-session-expired"
    (seqs [RNotBehind (rev (eqi <$> chars "mcp ")); RWordB; liti "session ";
           opt (liti "has "); liti "expired"; RWordB]);
  mk_pattern "auth-token-refresh-failed"
    (RAlt (liti "token refresh failed")
      (seqs [liti "failed to refresh "; opt (liti "the ");
             opt (alts [liti "oauth "; liti "access "; liti "auth "]); liti "token"]));
  mk_pattern "auth-authentication-error-type"
    (seqs [liti "authentication"; sep0; liti "error"]);
  mk_pattern "auth-invalid-x-api-key"
    (seqs [liti "invalid"; sep0; liti "x"; sep0; liti "api"; sep0; liti "key"]);
  mk_pattern "net-connection-closed" (liti "connection closed");
  mk_pattern "net-connection-failure"
    (RSeq (liti "connection ")
      (alts [liti "error"; liti "reset"; liti "refused";
             seqs [liti "time"; opt (liti "d"); opt (one_of " -"); liti "out"]]));
  mk_pattern "net-econn-codes"
    (alts [RSeq (liti "econn") (alts [liti "reset"; liti "refused"; liti "aborted"]);
           liti "etimedout";
           seqs [liti "socket hang"; opt (liti " "); liti "up"]]);
  mk_pattern "net-fetch-failed" (liti "fetch failed")
].

(** [[a-z]+(?:_[a-z]+)*] *)
Definition snake (letter : ascii → bool) : re :=
  RSeq (plus (RChr letter)) (RStar (RSeq (lit "_") (plus (RChr letter)))).

Definition http_status (d : string) : re :=
  seqs [alts [liti "api error"; liti "http"; RSeq (liti "status") (opt (RSeq wss (liti "code")))];
        plus (RChr (λ c, is_ws c || Ascii.eqb c ":"%char)); lit d; digit; digit; RWordB].

Definition SHAPE_PATTERNS : list SystemicPattern := [
  mk_pattern "js-error-type"
    (seqs [RBol; wss;
           alts [lit "Type"; lit "Range"; lit "Reference"; lit "Syntax"; lit "Eval"; lit "URI"];
           lit "Error"; RWordB]);
  mk_pattern "http-5xx" (http_status "5");
  mk_pattern "http-4xx" (http_status "4");
  mk_pattern "api-error-type"
    (let q := RChr (Ascii.eqb dquote) in
     seqs [q; liti "type"; q; wss; lit ":"; wss; q; snake is_alpha; liti "_error"; q]);
  mk_pattern "sdk-error-subtype" (seqs [RWordB; lit "error_"; snake is_lower; RWordB]);
  mk_pattern "sdk-result-unspecified" (liti "agent session ended with an error");
  mk_pattern "aborted"
    (RAlt (seqs [RWordB; liti "AbortError"; RWordB]) (seqs [RWordB; liti "aborted"; RWordB]))
].

Definition NONSYSTEMIC_PATTERNS : list SystemicPattern := [
  mk_pattern "stream-closed" (liti "stream closed");
  mk_pattern "first-event-timeout"
    (alts [liti "no events";
           seqs [liti "first"; opt (RChr (λ c, is_ws c || Ascii.eqb c "-"%char)); liti "event"];
           liti "transcript discovery"])
].

(** ** Classification *)

(** [!error]: absent or empty *)
Definition falsy (error : option string) : bool :=
  match error with None => true | Some e => bool_decide (e = "") end.
Definition text (error : option string) : string := default "" error.

Definition fires (e : string) (p : SystemicPattern) : bool := test p.(pattern) e.

Definition isSystemicStepError (error : option string) : bool :=
  if falsy error then false else existsb (fires (text error)) SYSTEMIC_PATTERNS.

Definition SYSTEMIC_CLASS_NAMES : list string := name <$> SYSTEMIC_PATTERNS.

Definition isSystemicErrorClass (errorClass : option string) : bool :=
  match errorClass with
  | Some c => bool_decide (c ∈ SYSTEMIC_CLASS_NAMES)
  | None => false
  end.

(** [Array.prototype.find] *)
Definition find_pattern (e : string) (l : list SystemicPattern) : option SystemicPattern :=
  find (fires e) l.

Definition classifyErrorPattern (error : option string) : string :=
  if falsy error then "unknown"
  else let e := text error in
       match find_pattern e SYSTEMIC_PATTERNS with
       | Some p => p.(name)
       | None =>
           match find_pattern e NONSYSTEMIC_PATTERNS with
           | Some p => p.(name)
           | None =>
               match find_pattern e SHAPE_PATTERNS with
               | Some p => p.(name)
               | None => "other"
               end
           end
       end.

Definition UNCLASSIFIED_CLASSES : list string := ["other"; "unknown"].

Inductive ErrorShape :=
  | shape_empty | shape_json_envelope | shape_stack_trace | shape_multiline
  | shape_one_line_short | shape_one_line_long.

Definition describeErrorShape (error : option string) : ErrorShape :=
  let t := trim (text error) in
  if bool_decide (t = "") then shape_empty
  else if startsWith "{" t || startsWith "[" t then shape_json_envelope
  else if test (seqs [RChr (Ascii.eqb nl); ws1; lit "at"; ws]) t then shape_stack_trace
  else if str_exists (Ascii.eqb nl) t then shape_multiline
  else if (String.length t <=? 120)%nat then shape_one_line_short else shape_one_line_long.

(** ** The skeleton of an error *)

Definition hex_char : re := one_of "0123456789abcdefABCDEF".
Definition non_ws : re := RChr (λ c, negb (is_ws c)).
Definition url_re : re :=
  seqs [RWordB; liti "http"; opt (liti "s"); lit "://"; plus non_ws].
Definition email_re : re :=
  let local_char := RChr (λ c, is_word c || bool_decide (c ∈ chars ".+-")) in
  let host_char := RChr (λ c, is_word c || bool_decide (c ∈ chars "-")) in
  let tld_char := RChr (λ c, is_word c || bool_decide (c ∈ chars ".-")) in
  seqs [RWordB; plus local_char; lit "@"; plus host_char; lit "."; plus tld_char; RWordB].
Definition hex_re : re := seqs [RWordB; times 8 hex_char; RStar hex_char; RWordB].
(** One segment of a path: a slash and characters outside the listed ones. *)
Definition path_segment : re :=
  RSeq (lit "/") (plus (RChr (λ c,
    negb (is_ws c || Ascii.eqb c dquote || bool_decide (c ∈ chars "'`,;:()[]{}"))))).
Definition path_re : re := RSeq (times 2 path_segment) (RStar path_segment).
(** A quoted span closed by the quote [q] that opened it (the back-reference). *)
Definition quoted_re (q : ascii) : re :=
  seqs [RChr (Ascii.eqb q);
        RStar (RAlt (RSeq (RChr (Ascii.eqb backslash)) (RChr is_dot))
                    (RChr (λ c, negb (Ascii.eqb c q || Ascii.eqb c backslash))));
        RChr (Ascii.eqb q)].
Definition str_re : re := alts [quoted_re dquote; quoted_re squote; quoted_re backtick].

Definition skeletonize (s : string) : string :=
  let s1 := replace_all url_re "<url>" s in
  let s2 := replace_all email_re "<email>" s1 in
  let s3 := replace_all hex_re "<hex>" s2 in
  let s4 := replace_all path_re "<path>" s3 in
  let s5 := replace_all str_re "<str>" s4 in
  let s6 := replace_all (plus digit) "#" s5 in
  let s7 := replace_all ws1 " " s6 in
  take_str 400 (toLowerCase (trim s7)).

(** ** The digest of a skeleton *)

Definition to_uint32 (z : Z) : Z := (z mod 2 ^ 32)%Z.
(** ToInt32: the signed 32-bit value JavaScript's bit operators return *)
Definition to_int32 (z : Z) : Z :=
  let u := to_uint32 z in if (2 ^ 31 <=? u)%Z then (u - 2 ^ 32)%Z else u.
Definition js_xor (a b : Z) : Z := to_int32 (Z.lxor (to_uint32 a) (to_uint32 b)).
Definition js_shl (a k : Z) : Z := to_int32 (Z.shiftl (to_int32 a) k).

(** One iteration of the loop: [hash ^= c; hash = (hash + ((hash << 1) + ...)) >>> 0]. *)
Definition fnv_step (h : Z) (c : ascii) : Z :=
  let hash := js_xor h (Z.of_nat (nat_of_ascii c)) in
  to_uint32 (hash + (js_shl hash 1 + js_shl hash 4 + js_shl hash 7 + js_shl hash 8 + js_shl hash 24)).

Definition fnv1a (skeleton : string) : Z := foldl fnv_step 2166136261%Z (chars skeleton).

Definition hex_digit (n : Z) : ascii :=
  default "0"%char (chars "0123456789abcdef" !! Z.to_nat n).

(** [hash.toString(16).padStart(8, '0')] *)
Fixpoint hex_pad (n : nat) (h : Z) : string :=
  match n with
  | 0 => ""
  | S n' => hex_pad n' (h / 16)%Z +:+ String (hex_digit (h mod 16)%Z) ""
  end.
Definition digest_skeleton (skeleton : string) : string := hex_pad 8 (fnv1a skeleton).

Definition digestErrorSkeleton (error : option string) : string :=
  digest_skeleton (skeletonize (text error)).

Definition shape_string (s : ErrorShape) : string :=
  match s with
  | shape_empty => "empty" | shape_json_envelope => "json-envelope"
  | shape_stack_trace => "stack-trace" | shape_multiline => "multiline"
  | shape_one_line_short => "one-line-short" | shape_one_line_long => "one-line-long"
  end.

Definition unclassifiedErrorTags (errorClass : string) (error : option string)
    : list (string * string) :=
  if negb (bool_decide (errorClass ∈ UNCLASSIFIED_CLASSES)) then []
  else [("errorShape", shape_string (describeErrorShape error));
        ("errorDigest", digestErrorSkeleton error)].

(** ** The advertised reset time *)

Definition MAX_RESET_DELAY_MS : Z := 604800000.

Definition clampDelay (deltaMs : Z) : option Z :=
  if (deltaMs <=? 0)%Z then None
  else if (MAX_RESET_DELAY_MS <? deltaMs)%Z then None
  else Some deltaMs.

(** [Number(s)] of a string of decimal digits *)
Definition number (s : string) : Z :=
  foldl (λ acc c, acc * 10 + (Z.of_nat (nat_of_ascii c) - 48))%Z 0%Z (chars s).

Definition parseEpochSuffix (error : string) (nowMs : Z) : option Z :=
  match exec_groups [RSeq (lit "|") wss; RAlt (times 10 digit) (times 13 digit); RWordB] error with
  | Some [_; raw; _] =>
      let epochMs := if (String.length raw =? 13)%nat then number raw else (number raw * 1000)%Z in
      clampDelay (epochMs - nowMs)
  | _ => None
  end.

Section Clock.
(** The platform's calendar: the instant of a local wall-clock time on the
    day of [nowMs] ([new Date(y, m, d, hour, minute)]), and [Date.parse]. *)
Variable local_time_on_day_of : Z → Z → Z → Z.
Variable date_parse : string → option Z.

Definition parseWallClockResets (error : string) (nowMs : Z) : option Z :=
  let at_opt := opt (RSeq (liti "at") ws1) in
  let hh := RSeq digit (opt digit) in
  match exec_groups [seqs [liti "resets"; ws1; at_opt]; hh; opt (RSeq (lit ":") (times 2 digit));
                     wss; RAlt (liti "am") (liti "pm")] error with
  | Some [_; h; m; _; meridiem] =>
      let hour := number h in
      let minute := if bool_decide (m = "") then 0%Z else number (drop_str 1 m) in
      if ((hour <? 1) || (12 <? hour) || (minute <? 0) || (59 <? minute))%Z then None
      else
        let pm := String.eqb (toLowerCase meridiem) "pm" in
        let hour24 := if pm && negb (hour =? 12)%Z then (hour + 12)%Z
                      else if negb pm && (hour =? 12)%Z then 0%Z else hour in
        let candidateMs := local_time_on_day_of nowMs hour24 minute in
        let candidateMs' := if (candidateMs <=? nowMs)%Z
                            then (candidateMs + 24 * 60 * 60 * 1000)%Z else candidateMs in
        clampDelay (candidateMs' - nowMs)
  | _ => None
  end.

Definition parseIsoResets (error : string) (nowMs : Z) : option Z :=
  let zone := RAlt (liti "Z") (seqs [one_of "+-"; times 2 digit; opt (lit ":"); times 2 digit]) in
  match exec_groups
          [seqs [liti "resets"; ws1; opt (RSeq (liti "at") ws1)];
           seqs [times 4 digit; lit "-"; times 2 digit; lit "-"; times 2 digit; one_of "Tt ";
                 plus (RChr (λ c, is_digit c || bool_decide (c ∈ chars ":."))); opt zone]]
          error with
  | Some [_; iso] =>
      match date_parse iso with
      | Some parsed => clampDelay (parsed - nowMs)
      | None => None
      end
  | _ => None
  end.

Definition parseLimitResetDelayMs (error : option string) (nowMs : Z) : option Z :=
  if falsy error then None
  else let e := text error in
       match parseEpochSuffix e nowMs with
       | Some d => Some d
       | None =>
           match parseWallClockResets e nowMs with
           | Some d => Some d
           | None => parseIsoResets e nowMs
           end
       end.

Lemma clampDelay_bounds d d' : clampDelay d = Some d' → (0 < d' <= MAX_RESET_DELAY_MS)%Z.
Proof.
  unfold clampDelay. destruct (Z.leb_spec d 0); [done|].
  destruct (Z.ltb_spec MAX_RESET_DELAY_MS d); [done|]. intros [= <-]. lia.
Qed.

(** A computed reset delay is positive and at most seven days. *)
Theorem parseLimitResetDelayMs_bounds error nowMs d :
  parseLimitResetDelayMs error nowMs = Some d → (0 < d <= MAX_RESET_DELAY_MS)%Z.
Proof.
  unfold parseLimitResetDelayMs, parseEpochSuffix, parseWallClockResets, parseIsoResets.
  intros H. repeat (case_match; simplify_eq); eauto using clampDelay_bounds.
Qed.
End Clock.

(** ** Classification properties *)

Lemma find_pattern_spec e l :
  match find_pattern e l with
  | Some p => p ∈ l ∧ fires e p = true
  | None => existsb (fires e) l = false
  end.
Proof.
  unfold find_pattern. induction l as [|p l IH]; simpl; [done|].
  destruct (fires e p) eqn:Hp; [by split; [left|]|].
  destruct (find (fires e) l); [|done]. destruct IH. by split; [right|].
Qed.

Lemma find_pattern_existsb e l :
  existsb (fires e) l = match find_pattern e l with Some _ => true | None => false end.
Proof.
  pose proof (find_pattern_spec e l) as H. destruct (find_pattern e l) as [p|]; [|done].
  apply existsb_exists. exists p. rewrite <- list_elem_of_In. done.
Qed.

(** The labels the classifier can return when no systemic pattern fires. *)
Definition other_labels : list string :=
  (name <$> NONSYSTEMIC_PATTERNS) ++ (name <$> SHAPE_PATTERNS) ++ ["other"; "unknown"].

Lemma name_elem (p : SystemicPattern) (l : list SystemicPattern) : p ∈ l → name p ∈ name <$> l.
Proof. intros H. by apply list_elem_of_fmap_2. Qed.

Lemma classify_systemic_or_other error :
  (isSystemicStepError error = true ∧ classifyErrorPattern error ∈ SYSTEMIC_CLASS_NAMES)
  ∨ (isSystemicStepError error = false ∧ classifyErrorPattern error ∈ other_labels).
Proof.
  unfold isSystemicStepError, classifyErrorPattern, other_labels.
  destruct (falsy error); [right; split; [done|]; rewrite !elem_of_app; set_solver|].
  rewrite find_pattern_existsb. cbv zeta.
  pose proof (find_pattern_spec (text error) SYSTEMIC_PATTERNS) as Hs.
  destruct (find_pattern _ SYSTEMIC_PATTERNS) as [p|].
  { left. split; [done|]. apply name_elem, Hs. }
  right. split; [done|]. rewrite !elem_of_app.
  pose proof (find_pattern_spec (text error) NONSYSTEMIC_PATTERNS) as Hn.
  destruct (find_pattern _ NONSYSTEMIC_PATTERNS) as [p|]; [left; apply name_elem, Hn|].
  pose proof (find_pattern_spec (text error) SHAPE_PATTERNS) as Hh.
  destruct (find_pattern _ SHAPE_PATTERNS) as [p|]; [right; left; apply name_elem, Hh|].
  right; right. by left.
Qed.

Lemma labels_disjoint : Forall (λ l, l ∉ SYSTEMIC_CLASS_NAMES) other_labels.
Proof. apply (bool_decide_unpack _). vm_compute. done. Qed.

Lemma classify_systemic_label error :
  isSystemicErrorClass (Some (classifyErrorPattern error)) = isSystemicStepError error.
Proof.
  simpl. destruct (classify_systemic_or_other error) as [[-> Hin]|[-> Hin]].
  - by apply bool_decide_eq_true.
  - apply bool_decide_eq_false. pose proof labels_disjoint as Hd.
    rewrite Forall_forall in Hd. by apply Hd.
Qed.

#[global] Arguments isSystemicErrorClass _ : simpl never.
#[global] Arguments isSystemicStepError _ : simpl never.
#[global] Arguments classifyErrorPattern _ : simpl never.

(** The telemetry label of an error is one of the systemic class names exactly when the
    error is classified as systemic. *)
Theorem systemic_label_iff_error error :
  isSystemicErrorClass (Some (classifyErrorPattern error)) = isSystemicStepError error.
Proof. apply classify_systemic_label. Qed.

(** ** The digest *)

Lemma to_int32_mod z : (to_int32 z mod 2 ^ 32 = z mod 2 ^ 32)%Z.
Proof.
  unfold to_int32, to_uint32. destruct (Z.leb_spec (2 ^ 31) (z mod 2 ^ 32)).
  - rewrite <- (Z.mod_add _ 1) by done. rewrite Z.mul_1_l, Z.sub_add. by rewrite Z.mod_mod.
  - by rewrite Z.mod_mod.
Qed.

Lemma js_shl_mod a k : (0 <= k)%Z → (js_shl a k mod 2 ^ 32 = (a * 2 ^ k) mod 2 ^ 32)%Z.
Proof.
  intros Hk. unfold js_shl. rewrite to_int32_mod, Z.shiftl_mul_pow2 by done.
  rewrite <- Z.mul_mod_idemp_l, to_int32_mod, Z.mul_mod_idemp_l by done. done.
Qed.

Lemma lxor_uint32 a b :
  (0 <= a < 2 ^ 32)%Z → (0 <= b < 2 ^ 32)%Z → (0 <= Z.lxor a b < 2 ^ 32)%Z.
Proof.
  intros Ha Hb. split; [apply Z.lxor_nonneg; lia|].
  destruct (Z.eq_dec (Z.lxor a b) 0) as [->|Hne]; [done|].
  assert (0 <= Z.lxor a b)%Z by (apply Z.lxor_nonneg; lia).
  apply Z.log2_lt_pow2; [lia|].
  eapply Z.le_lt_trans; [apply Z.log2_lxor; lia|].
  apply Z.max_lub_lt.
  - destruct (Z.eq_dec a 0) as [->|]; [done|]. apply Z.log2_lt_pow2; lia.
  - destruct (Z.eq_dec b 0) as [->|]; [done|]. apply Z.log2_lt_pow2; lia.
Qed.

(** The multiplication the loop spells with shifts. *)
Definition fnv_prime : Z := 16777619.
Definition fnv_step_spec (h : Z) (c : ascii) : Z :=
  ((Z.lxor h (Z.of_nat (nat_of_ascii c)) * fnv_prime) mod 2 ^ 32)%Z.

Lemma fnv_step_eq h c : (0 <= h < 2 ^ 32)%Z → fnv_step h c = fnv_step_spec h c.
Proof.
  intros Hh. unfold fnv_step, fnv_step_spec, js_xor.
  set (n := Z.of_nat (nat_of_ascii c)).
  assert (0 <= n < 2 ^ 32)%Z as Hn.
  { unfold n. pose proof (nat_ascii_bounded c). lia. }
  assert (to_uint32 h = h) as -> by (by apply Z.mod_small).
  assert (to_uint32 n = n) as -> by (by apply Z.mod_small).
  set (x := Z.lxor h n). set (y := to_int32 x).
  assert ((y mod 2 ^ 32 = x mod 2 ^ 32)%Z) as Hy by apply to_int32_mod.
  unfold to_uint32.
  assert (∀ k, (0 <= k)%Z → ∃ q, js_shl y k = (y * 2 ^ k + q * 2 ^ 32)%Z) as Hshl.
  { intros k Hk. pose proof (js_shl_mod y k Hk) as H.
    exists ((js_shl y k / 2 ^ 32) - (y * 2 ^ k) / 2 ^ 32)%Z.
    pose proof (Z.div_mod (js_shl y k) (2 ^ 32) ltac:(done)).
    pose proof (Z.div_mod (y * 2 ^ k) (2 ^ 32) ltac:(done)). lia. }
  destruct (Hshl 1%Z) as [q1 ->]; [done|]. destruct (Hshl 4%Z) as [q2 ->]; [done|].
  destruct (Hshl 7%Z) as [q3 ->]; [done|]. destruct (Hshl 8%Z) as [q4 ->]; [done|].
  destruct (Hshl 24%Z) as [q5 ->]; [done|].
  replace (y + _)%Z with (y * fnv_prime + (q1 + q2 + q3 + q4 + q5) * 2 ^ 32)%Z
    by (unfold fnv_prime; lia).
  rewrite Z.mod_add by done.
  rewrite <- Z.mul_mod_idemp_l, Hy, Z.mul_mod_idemp_l by done. done.
Qed.

Lemma fnv_step_range h c : (0 <= fnv_step h c < 2 ^ 32)%Z.
Proof. unfold fnv_step, to_uint32. by apply Z.mod_pos_bound. Qed.

Lemma fnv1a_unfold s :
  fnv1a s = foldl fnv_step_spec 2166136261%Z (chars s) ∧ (0 <= fnv1a s < 2 ^ 32)%Z.
Proof.
  unfold fnv1a. assert (0 <= 2166136261 < 2 ^ 32)%Z as H0 by done. revert H0.
  generalize 2166136261%Z as h. induction (chars s) as [|c l IH]; intros h Hh; [done|].
  simpl. rewrite <- (fnv_step_eq h c Hh). apply IH, fnv_step_range.
Qed.

(** The shift-add loop with 32-bit JavaScript arithmetic computes the FNV-1a hash: xor
    with the character and multiplication by the prime 16777619 modulo 2^32. *)
Theorem fnv1a_spec s : fnv1a s = foldl fnv_step_spec 2166136261%Z (chars s).
Proof. apply fnv1a_unfold. Qed.

Definition hex_value (c : ascii) : Z :=
  let n := Z.of_nat (nat_of_ascii c) in if (n <=? 57)%Z then (n - 48)%Z else (n - 87)%Z.
(** [parseInt(s, 16)] of a string of lower-case hexadecimal digits *)
Definition hex_parse (s : string) : Z :=
  foldl (λ acc c, acc * 16 + hex_value c)%Z 0%Z (chars s).

Lemma chars_app a b : chars (a +:+ b) = chars a ++ chars b.
Proof.
  induction a as [|c a IH]; [done|]. rewrite str_app_cons.
  change (c :: chars (a +:+ b) = c :: (chars a ++ chars b)). by rewrite IH.
Qed.

Lemma hex_digit_value n : (0 <= n < 16)%Z → hex_value (hex_digit n) = n.
Proof.
  intros Hn.
  assert (n = 0 ∨ n = 1 ∨ n = 2 ∨ n = 3 ∨ n = 4 ∨ n = 5 ∨ n = 6 ∨ n = 7 ∨ n = 8 ∨ n = 9
    ∨ n = 10 ∨ n = 11 ∨ n = 12 ∨ n = 13 ∨ n = 14 ∨ n = 15)%Z as H by lia.
  by repeat (destruct H as [->|H]; [done|]); subst.
Qed.

Lemma hex_parse_pad n h : hex_parse (hex_pad n h) = (h mod 16 ^ Z.of_nat n)%Z.
Proof.
  revert h. induction n as [|n IH]; intros h.
  - simpl. by rewrite Z.mod_1_r.
  - simpl hex_pad. unfold hex_parse in *. rewrite chars_app, foldl_app, IH. simpl.
    rewrite hex_digit_value by (by apply Z.mod_pos_bound).
    replace (Z.of_nat (S n)) with (1 + Z.of_nat n)%Z by lia.
    rewrite Z.pow_add_r, Z.pow_1_r by lia.
    rewrite Z.rem_mul_r by lia. lia.
Qed.

Lemma hex_pad_length n h : String.length (hex_pad n h) = n.
Proof.
  revert h. induction n as [|n IH]; intros h; [done|]. simpl hex_pad.
  assert (∀ a b, String.length (a +:+ b) = String.length a + String.length b) as Happ.
  { intros a b. induction a as [|c a IHa]; [done|]. rewrite str_app_cons. simpl. by rewrite IHa. }
  rewrite Happ, IH. simpl. lia.
Qed.

(** The digest of a skeleton is eight hexadecimal digits that parse back to its hash.
    *)
Theorem digest_roundtrip s :
  hex_parse (digest_skeleton s) = fnv1a s ∧ String.length (digest_skeleton s) = 8.
Proof.
  unfold digest_skeleton. split; [|apply hex_pad_length].
  rewrite hex_parse_pad. apply Z.mod_small, fnv1a_unfold.
Qed.

(** ** Concrete inputs *)

Lemma parseLimitResetDelayMs_bounds_witness :
  parseLimitResetDelayMs (λ _ _ _, 0%Z) (λ _, None)
    (Some "Claude AI usage limit reached|1751234567") 1751234000000%Z = Some 567000%Z
  ∧ (0 < 567000 <= MAX_RESET_DELAY_MS)%Z.
Proof.
  split; [vm_compute; reflexivity|].
  apply (parseLimitResetDelayMs_bounds (λ _ _ _, 0%Z) (λ _, None)
    (Some "Claude AI usage limit reached|1751234567") 1751234000000%Z).
  vm_compute. reflexivity.
Defined.
