(* ===== verification/Transitions.v ===== *)
(** * Guarded transitions of a workflow run

    Models [main/src/services/cyboflow/transitions.ts]: the guarded UPDATEs
    that move a run between statuses, with the terminal telemetry they emit. *)

From S2P Require Import Prelude RunStateMachine Database Samples SystemicError.

Open Scope js_scope.

(** ** Terminal telemetry *)

Definition CYBOFLOW_WORKFLOW_NAMES : list string :=
  ["planner"; "sprint"; "compound"; "ship"; "verify-setup"; "launch"].

(** The [flow] label: a built-in workflow's own name, or ["custom"]. *)
Definition flow_of (workflow_name : option string) : string :=
  match workflow_name with
  | Some n => if bool_decide (n ∈ CYBOFLOW_WORKFLOW_NAMES) then n else "custom"
  | None => "custom"
  end.

(** [workflow_runs LEFT JOIN workflows ON w.id = wr.workflow_id] *)
Definition workflow_name_of (d : db) (runId : string) : option string :=
  r ← d.(workflow_runs) !! runId; d.(workflows) !! r.(r_workflow_id).

(** [Math.max(0, Math.round((now - started) / 1000))] *)
Definition duration_seconds (started now : instant) : Z :=
  Z.max 0 ((now - started + 500) / 1000).

Definition notifyRunTerminal (runId : string) (outcome : run_status) : sysM unit :=
  emit (EvRunTerminal runId outcome).

Definition emitRunCompletedUsage (runId : string) (outcome : run_status) (now : instant)
    : sysM unit :=
  notifyRunTerminal runId outcome ;;;
  d <- gets sys_db ;;
  let started := r ← d.(workflow_runs) !! runId; r.(r_started_at) in
  emit (EvUsage "workflow_run_completed" (status_string outcome)
          (flow_of (workflow_name_of d runId)) ((λ s, duration_seconds s now) <$> started)).

(** The seam the failure is reported to: the local buffer for an environment
    condition, error telemetry with its tags for everything else. *)
Definition reportRunFinalizeFailure (runId : string) (fromStatus_ : run_status)
    (errorMessage : string) : sysM unit :=
  let errorClass := classifyErrorPattern (Some errorMessage) in
  if isSystemicStepError (Some errorMessage)
  then emit (EvLocalError "run-finalize-failed" errorClass)
  else
    d <- gets sys_db ;;
    let substrate := r ← d.(workflow_runs) !! runId; r.(r_substrate) in
    emit (EvSeamError "run-finalize-failed" errorClass
            ([("fromStatus", status_string fromStatus_); ("flow", flow_of (workflow_name_of d runId));
              ("substrate", default "sdk" substrate)]
             ++ unclassifiedErrorTags errorClass (Some errorMessage))).

(** ** The transitions *)

(** The rejection every guarded transition throws when no row changed. *)
Definition reject_unless_changed (changes : nat) (runId expected : string) (e : entity)
    : dbM unit :=
  if decide (changes = 0) then throw (TransitionRejectedError runId expected e) else mret tt.

Definition transitionToRunning (runId : string) (now : instant) : dbM unit :=
  assertTransitionAllowed starting running (Some runId) ;;;
  n <- update_run runId (has_status starting)
         (λ r, set_status running (current_timestamp now)
                 (set_lifecycle r.(r_error_message) r.(r_outcome)
                    (coalesce r.(r_started_at) (Some (current_timestamp now))) r.(r_ended_at) r)) ;;
  reject_unless_changed n runId (status_string starting) workflow_run.

Definition QUICK_WORKFLOW_NAME : string := "__quick__".

Record ReviveQuickRunResult := mk_revive { revived : bool; fromStatus : option run_status }.

(** The row of the revive SELECT: the run's status and its experiment's, for a
    run whose workflow is the quick sentinel (inner join). *)
Definition quick_row (d : db) (runId : string) : option (run_status * option string) :=
  r ← d.(workflow_runs) !! runId;
  w ← d.(workflows) !! r.(r_workflow_id);
  if decide (w = QUICK_WORKFLOW_NAME)
  then Some (r.(r_status),
             match d.(experiments) with
             | Some es => e ← r.(r_experiment_id); es !! e
             | None => None
             end)
  else None.

Definition reviveQuickRunToRunning (runId : string) (now : instant) : dbM ReviveQuickRunResult :=
  d <- get ;;
  match quick_row d runId with
  | None => mret (mk_revive false None)
  | Some (status, experimentStatus) =>
      if decide (status = running) then mret (mk_revive false (Some running))
      else if match experimentStatus with
              | Some e => negb (String.eqb e "running")
              | None => false
              end
      then mret (mk_revive false (Some status))
      else
        n <- update_run runId (λ r, negb (has_status running r))
               (λ r, set_status running (current_timestamp now)
                       (set_lifecycle None
                          (match r.(r_outcome) with
                           | Some o => if bool_decide (o ∈ ["failed"; "interrupted"])
                                       then None else Some o
                           | None => None
                           end)
                          (coalesce r.(r_started_at) (Some (current_timestamp now))) None r)) ;;
        mret (mk_revive (bool_decide (n ≠ 0)) (Some status))
  end.

Definition transitionToCompleted (runId : string) (from : run_status) (now : instant)
    : sysM unit :=
  in_db (assertTransitionAllowed from completed (Some runId) ;;;
         n <- update_run runId (has_status from)
                (λ r, set_status completed (current_timestamp now)
                        (set_ended_at (current_timestamp now) r)) ;;
         reject_unless_changed n runId (status_string from) workflow_run) ;;;
  emitRunCompletedUsage runId completed now.

Definition transitionRunningToAwaitingReview (runId : string) (now : instant) : dbM unit :=
  assertTransitionAllowed running awaiting_review (Some runId) ;;;
  n <- update_run runId (has_status running) (set_status awaiting_review (current_timestamp now)) ;;
  reject_unless_changed n runId (status_string running) workflow_run.

Definition transitionToFailed (runId : string) (from : run_status) (errorMessage : string)
    (now : instant) : sysM unit :=
  in_db (assertTransitionAllowed from failed (Some runId) ;;;
         n <- update_run runId (has_status from)
                (λ r, set_status failed (current_timestamp now)
                        (set_lifecycle (Some errorMessage) r.(r_outcome) r.(r_started_at)
                           (Some (current_timestamp now)) r)) ;;
         reject_unless_changed n runId (status_string from) workflow_run) ;;;
  emitRunCompletedUsage runId failed now ;;;
  reportRunFinalizeFailure runId from errorMessage.

Definition transitionToCanceled (runId : string) (now : instant) : sysM unit :=
  in_db (n <- update_run runId (λ r, negb (is_terminal r.(r_status)))
                (λ r, set_status canceled (current_timestamp now)
                        (set_ended_at (current_timestamp now) r)) ;;
         reject_unless_changed n runId (status_string canceled) workflow_run) ;;;
  emitRunCompletedUsage runId canceled now.

Definition transitionToPaused (runId : string) (now : instant) : dbM unit :=
  n <- update_run runId (has_status_in [running; awaiting_review])
         (set_status paused (current_timestamp now)) ;;
  reject_unless_changed n runId (status_string running) workflow_run.

Definition transitionPausedToRunning (runId : string) (now : instant) : dbM unit :=
  assertTransitionAllowed paused running (Some runId) ;;;
  n <- update_run runId (has_status paused) (set_status running (current_timestamp now)) ;;
  reject_unless_changed n runId (status_string paused) workflow_run.

Definition transitionFromAwaitingReview (runId approvalId : string) (decision : approval_status)
    (decidedBy : string) (now : instant) : dbM unit :=
  transaction
    (assertTransitionAllowed awaiting_review running (Some runId) ;;;
     n <- update_run runId (has_status awaiting_review)
            (set_status running (current_timestamp now)) ;;
     reject_unless_changed n runId (status_string awaiting_review) workflow_run ;;;
     m <- update_approval approvalId approval_pending
            (decide_approval decision (current_timestamp now) decidedBy) ;;
     reject_unless_changed m runId "pending" approval).

(** ** Every helper stays on legal edges *)

Lemma notifyRunTerminal_refines runId o : preserves sys_refine (notifyRunTerminal runId o).
Proof. apply emit_refines. Qed.

Lemma emitRunCompletedUsage_refines runId o now :
  preserves sys_refine (emitRunCompletedUsage runId o now).
Proof. unfold emitRunCompletedUsage, notifyRunTerminal. solve_refine. Qed.

Lemma reportRunFinalizeFailure_refines runId f m :
  preserves sys_refine (reportRunFinalizeFailure runId f m).
Proof. unfold reportRunFinalizeFailure. solve_refine. Qed.

Lemma reject_refines n runId e ent : preserves runs_refine (reject_unless_changed n runId e ent).
Proof. unfold reject_unless_changed. solve_refine. Qed.

#[export] Hint Resolve emitRunCompletedUsage_refines reportRunFinalizeFailure_refines
  notifyRunTerminal_refines reject_refines : refine.

Lemma transitionToRunning_refines runId now :
  preserves runs_refine (transitionToRunning runId now).
Proof. unfold transitionToRunning. solve_refine. Qed.

Lemma transitionRunningToAwaitingReview_refines runId now :
  preserves runs_refine (transitionRunningToAwaitingReview runId now).
Proof. unfold transitionRunningToAwaitingReview. solve_refine. Qed.

Lemma transitionToCanceled_refines runId now :
  preserves sys_refine (transitionToCanceled runId now).
Proof. unfold transitionToCanceled. solve_refine. Qed.

Lemma transitionToPaused_refines runId now :
  preserves runs_refine (transitionToPaused runId now).
Proof. unfold transitionToPaused. solve_refine. Qed.

Lemma transitionPausedToRunning_refines runId now :
  preserves runs_refine (transitionPausedToRunning runId now).
Proof. unfold transitionPausedToRunning. solve_refine. Qed.

Lemma transitionFromAwaitingReview_refines runId approvalId decision decidedBy now :
  preserves runs_refine (transitionFromAwaitingReview runId approvalId decision decidedBy now).
Proof. unfold transitionFromAwaitingReview. solve_refine. Qed.

(** An assertion before a guarded write gives the write its edge. *)
Lemma assert_then_refines {A} from to runId (m : dbM A) :
  (edge from to → preserves runs_refine m) →
  preserves runs_refine (assertTransitionAllowed from to runId ;;; m).
Proof.
  intros Hm d. unfold assertTransitionAllowed.
  destruct (isTransitionAllowed from to) eqn:Hal; simpl; [|reflexivity].
  apply Hm. by apply edge_spec.
Qed.

Lemma update_from_refines runId from to f :
  edge from to → (∀ r, (f r).(r_status) = to ∧ same_identity r (f r)) →
  preserves (E:=run_error) runs_refine (update_run runId (has_status from) f).
Proof.
  intros He Hf. apply update_run_refines. intros r Hr%bool_decide_eq_true.
  destruct (Hf r) as [Hst Hid]. split; [done|]. rewrite Hst, Hr. by apply rtc_once.
Qed.

Lemma transitionToCompleted_refines runId from now :
  preserves sys_refine (transitionToCompleted runId from now).
Proof.
  unfold transitionToCompleted. apply preserves_bind; [typeclasses eauto| |solve_refine].
  apply in_db_refines, assert_then_refines. intros He.
  apply preserves_bind; [typeclasses eauto|by apply update_from_refines with completed|solve_refine].
Qed.

Lemma transitionToFailed_refines runId from m now :
  preserves sys_refine (transitionToFailed runId from m now).
Proof.
  unfold transitionToFailed. apply preserves_bind; [typeclasses eauto| |solve_refine].
  apply in_db_refines, assert_then_refines. intros He.
  apply preserves_bind; [typeclasses eauto|by apply update_from_refines with failed|solve_refine].
Qed.

#[export] Hint Resolve transitionToRunning_refines transitionRunningToAwaitingReview_refines
  transitionToCanceled_refines transitionToPaused_refines transitionPausedToRunning_refines
  transitionFromAwaitingReview_refines transitionToCompleted_refines
  transitionToFailed_refines : refine.

(** ** What each helper does *)

(** A guarded write followed by the rejection: the row is written, or nothing
    is and the caller gets a [TransitionRejectedError]. *)
Definition guarded (runId : string) (p : run_row → bool) (f : run_row → run_row)
    (expected : string) : dbM unit :=
  n <- update_run runId p f ;; reject_unless_changed n runId expected workflow_run.

Lemma guarded_spec runId p f expected d :
  guarded runId p f expected d
  = match d.(workflow_runs) !! runId with
    | Some r =>
        if p r then (Ok tt, set_runs (<[runId := f r]> d.(workflow_runs)) d)
        else (Throw (TransitionRejectedError runId expected workflow_run), d)
    | None => (Throw (TransitionRejectedError runId expected workflow_run), d)
    end.
Proof.
  unfold guarded, mbind. case_update_run.
  - by rewrite Hr, Hp.
  - destruct (d.(workflow_runs) !! runId) as [r|] eqn:Hl; [|done]. by rewrite (Hr r).
Qed.

Lemma workflow_name_of_set_runs d runId r r' :
  d.(workflow_runs) !! runId = Some r → r'.(r_workflow_id) = r.(r_workflow_id) →
  workflow_name_of (set_runs (<[runId := r']> d.(workflow_runs)) d) runId
  = workflow_name_of d runId.
Proof.
  intros Hr Hf. unfold workflow_name_of. simpl. rewrite lookup_insert_eq, Hr. simpl. by rewrite Hf.
Qed.

(** The terminal telemetry of a run: the listener call, then the usage event. *)
Definition terminal_effects (d : db) (runId : string) (r : run_row) (outcome : run_status)
    (now : instant) : list effect :=
  [EvRunTerminal runId outcome;
   EvUsage "workflow_run_completed" (status_string outcome) (flow_of (workflow_name_of d runId))
     ((λ s, duration_seconds s now) <$> r.(r_started_at))].

(** transitionToCanceled cancels any non-terminal run, stamps its end and notifies the
    terminal listeners and telemetry; on a terminal or missing run it throws and changes
    nothing. *)
Theorem transitionToCanceled_spec runId now s :
  transitionToCanceled runId now s
  = match s.(sys_db).(workflow_runs) !! runId with
    | Some r =>
        if is_terminal r.(r_status)
        then (Throw (TransitionRejectedError runId "canceled" workflow_run), s)
        else
          let r' := set_status canceled (current_timestamp now)
                      (set_ended_at (current_timestamp now) r) in
          let d' := set_runs (<[runId := r']> s.(sys_db).(workflow_runs)) s.(sys_db) in
          (Ok tt, mk_sys d' s.(sys_pending)
                    (s.(sys_log) ++ terminal_effects s.(sys_db) runId r canceled now)
                     s.(sys_questions))
    | None => (Throw (TransitionRejectedError runId "canceled" workflow_run), s)
    end.
Proof.
  destruct s as [d p l q]. unfold transitionToCanceled. unfold mbind at 1, in_db, zoom.
  simpl. fold (guarded runId (λ r, negb (is_terminal r.(r_status)))
    (λ r, set_status canceled (current_timestamp now) (set_ended_at (current_timestamp now) r))
    "canceled").
  rewrite guarded_spec. destruct (d.(workflow_runs) !! runId) as [r|] eqn:Hr; [|done].
  destruct (is_terminal (r_status r)) eqn:Ht; simpl; [done|].
  unfold emitRunCompletedUsage, notifyRunTerminal, mbind, emit, modify, gets, set_db, add_log,
    terminal_effects. simpl.
  rewrite lookup_insert_eq. simpl. rewrite (workflow_name_of_set_runs d runId r) by done.
  by rewrite <- (assoc_L (++)).
Qed.

(** Leaving awaiting_review atomically decides the approval and restores the run: both
    are written when the run awaits review and the approval is pending, and on any other
    combination the matching rejection is thrown with nothing written. *)
Theorem transitionFromAwaitingReview_spec runId approvalId decision decidedBy now d :
  transitionFromAwaitingReview runId approvalId decision decidedBy now d
  = match d.(workflow_runs) !! runId, d.(approvals) !! approvalId with
    | Some r, Some a =>
        if has_status awaiting_review r then
          if approval_pending a then
            (Ok tt,
             set_approvals
               (<[approvalId := decide_approval decision (current_timestamp now) decidedBy a]>
                  d.(approvals))
               (set_runs (<[runId := set_status running (current_timestamp now) r]>
                            d.(workflow_runs)) d))
          else (Throw (TransitionRejectedError runId "pending" approval), d)
        else (Throw (TransitionRejectedError runId "awaiting_review" workflow_run), d)
    | Some r, None =>
        (Throw (if has_status awaiting_review r
                then TransitionRejectedError runId "pending" approval
                else TransitionRejectedError runId "awaiting_review" workflow_run), d)
    | None, _ => (Throw (TransitionRejectedError runId "awaiting_review" workflow_run), d)
    end.
Proof.
  unfold transitionFromAwaitingReview, transaction.
  unfold mbind at 1. rewrite assertTransitionAllowed_ok by done.
  unfold mbind at 1. case_update_run.
  - rewrite Hr, Hp. unfold mbind. simpl. case_update_approval.
    + by rewrite Ha, Hp0.
    + destruct (d.(approvals) !! approvalId) as [a|]; [|done]. by rewrite (Ha a).
  - destruct (d.(workflow_runs) !! runId) as [r|]; [|done]. rewrite (Hr r) by done.
    by destruct (d.(approvals) !! approvalId).
Qed.

(** reviveQuickRunToRunning changes only the status of a quick run whose experiment (if
    any) is still running, to running, touches no other run or table, and reports truthfully
    whether it revived and from what status. *)
Theorem reviveQuickRun_spec runId now d :
  let '(res, d') := reviveQuickRunToRunning runId now d in
  (* only a [__quick__] run whose experiment, if any, still runs is written *)
  (status_of d' runId ≠ status_of d runId →
     status_of d' runId = Some running
     ∧ (∃ r, d.(workflow_runs) !! runId = Some r
             ∧ d.(workflows) !! r.(r_workflow_id) = Some QUICK_WORKFLOW_NAME
             ∧ (∀ es e x, d.(experiments) = Some es → r.(r_experiment_id) = Some e →
                  es !! e = Some x → x = "running")))
  (* and every other run and table is untouched *)
  ∧ (∀ k, k ≠ runId → d'.(workflow_runs) !! k = d.(workflow_runs) !! k)
  ∧ d' = set_runs d'.(workflow_runs) d
  (* the report is truthful *)
  ∧ (∃ o, res = Ok o ∧ (o.(revived) = true ↔ status_of d' runId ≠ status_of d runId)
          ∧ (o.(revived) = true → o.(fromStatus) = status_of d runId)).
Proof.
  unfold reviveQuickRunToRunning. unfold mbind at 1. unfold get.
  destruct (quick_row d runId) as [[st ex]|] eqn:Hq.
  2: { simpl. split_and!; [done|done|by destruct d|]. eexists. split; [done|]. simpl. naive_solver. }
  assert (status_of d runId = Some st) as Hst.
  { unfold quick_row in Hq. unfold status_of.
    destruct (d.(workflow_runs) !! runId) as [r|]; simpl in *; [|done].
    destruct (d.(workflows) !! r.(r_workflow_id)); simpl in *; [|done]. case_decide; by simplify_eq. }
  case_decide as Hrun.
  { simpl. split_and!; [done|done|by destruct d|]. eexists. split; [done|]. simpl. naive_solver. }
  destruct (match ex with Some e => negb (String.eqb e "running") | None => false end) eqn:Hex.
  { simpl. split_and!; [done|done|by destruct d|]. eexists. split; [done|]. simpl. naive_solver. }
  unfold quick_row in Hq. destruct (d.(workflow_runs) !! runId) as [r|] eqn:Hr; simpl in Hq; [|done].
  destruct (d.(workflows) !! r.(r_workflow_id)) as [w|] eqn:Hw; simpl in Hq; [|done].
  case_decide as Hqw; [|done]. simplify_eq.
  unfold mbind. case_update_run; simplify_eq.
  - unfold status_of; simpl. rewrite lookup_insert_eq, Hr. simpl. split_and!.
    + intros _. split; [done|]. eexists. split_and!; [done|done|].
      intros es e x He Hid Hx. rewrite He, Hid in Hex. simpl in Hex. rewrite Hx in Hex.
      by apply negb_false_iff, String.eqb_eq in Hex.
    + intros k Hk. by rewrite lookup_insert_ne.
    + done.
    + eexists. split; [done|]. simpl. split; [|done]. split; [intros _; congruence|done].
  - specialize (Hr0 r Hr). unfold has_status in Hr0. rewrite bool_decide_false in Hr0 by done.
    done.
Qed.

(** A run failed by transitionToFailed came from the stated source along a legal edge,
    and after the terminal effects exactly one report follows: a local record when the error
    is a systemic environment failure, an error report otherwise, with the same class in
    both. *)
Theorem transitionToFailed_reports runId from m now s s' :
  transitionToFailed runId from m now s = (Ok tt, s') →
  status_of s.(sys_db) runId = Some from ∧ edge from failed
  ∧ status_of s'.(sys_db) runId = Some failed
  ∧ ∃ r report,
      s.(sys_db).(workflow_runs) !! runId = Some r
      ∧ s'.(sys_log) = s.(sys_log) ++ terminal_effects s.(sys_db) runId r failed now ++ [report]
      ∧ (if isSystemicErrorClass (Some (classifyErrorPattern (Some m)))
         then report = EvLocalError "run-finalize-failed" (classifyErrorPattern (Some m))
         else ∃ tags, report
                = EvSeamError "run-finalize-failed" (classifyErrorPattern (Some m)) tags).
Proof.
  destruct s as [d p l q]. unfold transitionToFailed. unfold mbind at 1, in_db, zoom. simpl.
  unfold mbind at 1, assertTransitionAllowed.
  destruct (isTransitionAllowed from failed) eqn:Hal; simpl; [|done].
  fold (guarded runId (has_status from)
    (λ r, set_status failed (current_timestamp now)
            (set_lifecycle (Some m) (r_outcome r) (r_started_at r) (Some (current_timestamp now)) r))
    (status_string from)).
  rewrite guarded_spec. destruct (d.(workflow_runs) !! runId) as [r|] eqn:Hr; [|done].
  destruct (has_status from r) eqn:Hst; [|done]. apply bool_decide_eq_true in Hst.
  pose proof (classify_systemic_label (Some m)) as Hlab. rewrite Hlab.
  unfold emitRunCompletedUsage, notifyRunTerminal, reportRunFinalizeFailure, mbind, emit, modify,
    gets, set_db, add_log, terminal_effects. simpl. rewrite lookup_insert_eq.
  rewrite (workflow_name_of_set_runs d runId r) by done.
  destruct (isSystemicStepError (Some m)) eqn:Hsys; simpl; intros [= <-]; simpl;
    unfold status_of; simpl; rewrite Hr, lookup_insert_eq; simpl; rewrite Hst;
    (split_and!; [done|by apply edge_spec|done|]); exists r; eexists; (split; [done|]);
    (split; [by rewrite <- !(assoc_L (++))|]); eauto.
Qed.

(** ** Concrete inputs *)

Lemma transitionToFailed_reports_witness :
  let s := sample_sys [("r1", running)] in
  let s' := exec (transitionToFailed "r1" running "usage limit reached" 5000%Z) s in
  status_of s'.(sys_db) "r1" = Some failed ∧ length s'.(sys_log) = 3.
Proof.
  intros s s'.
  destruct (transitionToFailed_reports "r1" running "usage limit reached" 5000%Z s s')
    as (_ & _ & Hst & r & report & _ & Hlog & _); [vm_compute; reflexivity|].
  split; [exact Hst|]. rewrite Hlog. reflexivity.
Defined.
