(* ===== verification/ReviewItems.v ===== *)
(** * Folded review items

    Models the run-lifecycle part of [main/src/orchestrator/reviewItemListing.ts]:
    the inbox rows written beside a run's own rows, their resolution and their
    audit events, and the aggregate-unblock reads over them; and
    [emitReviewItemChangedById] of [reviewItemRouter.ts].

    Fresh row ids ([rvw_] and random bytes) are arguments; an [INSERT] with an
    id already in use throws, as the primary key does. *)

From stdpp Require Import sorting.
From S2P Require Import Prelude RunStateMachine Database Samples JsString.

Open Scope js_scope.

(** [hasReviewItemsTable]; its memo holds one answer per database handle. *)
Definition hasReviewItemsTable (d : db) : bool :=
  match d.(review_items) with Some _ => true | None => false end.

Definition items_of (d : db) : gmap string review_row := default ∅ d.(review_items).

Definition ENTITY_EVENT_TYPE : string := "review_item".
Definition FOLD_ACTOR : string := "orchestrator".

Definition review_kind_string (k : review_kind) : string :=
  match k with
  | k_finding => "finding" | k_permission => "permission" | k_decision => "decision"
  | k_human_task => "human_task" | k_notification => "notification"
  end.
Definition review_status_string (s : review_status) : string :=
  match s with rv_pending => "pending" | rv_resolved => "resolved" | rv_dismissed => "dismissed" end.

(** ** Audit events *)

(** The events of one entity, oldest first. *)
Definition events_of (entityType entityId : string) (l : list entity_event) : list entity_event :=
  filter (λ e, e.(e_entity_type) = entityType ∧ e.(e_entity_id) = entityId) l.

(** [SELECT MAX(seq)], [0] for no row *)
Definition max_seq (l : list entity_event) : nat := foldr (λ e m, Nat.max e.(e_seq) m) 0 l.

Definition append_event (reviewItemId kind : string) (runId : option string)
    (deltas : list field_delta) (now : instant) (d : db) : db :=
  let seq := S (max_seq (events_of ENTITY_EVENT_TYPE reviewItemId d.(entity_events))) in
  set_entity_events
    (d.(entity_events) ++
     [mk_event ENTITY_EVENT_TYPE reviewItemId seq kind FOLD_ACTOR runId deltas now]) d.

Definition insertReviewEvent (reviewItemId kind : string) (runId : option string)
    (deltas : list field_delta) (now : instant) : dbM unit :=
  modify (append_event reviewItemId kind runId deltas now).

Definition projectIdForRun (d : db) (runId : string) : option Z :=
  r_project_id <$> d.(workflow_runs) !! runId.

(** ** Co-writes *)

(** The row and the [created] event the two co-writes share. *)
Definition co_write (freshId : string) (runId : string) (projectId : Z) (kind : review_kind)
    (title : string) (body : option string) (source : string) (payload : option review_payload)
    (now : instant) : dbM (option string) :=
  insert_review_item freshId
    (mk_review projectId (Some runId) kind rv_pending true title body None (Some source)
       (Some "human") payload now now None None) ;;;
  insertReviewEvent freshId "created" (Some runId)
    [mk_delta "kind" VNull (VStr (review_kind_string kind));
     mk_delta "status" VNull (VStr "pending");
     mk_delta "title" VNull (VStr title);
     mk_delta "blocking" VNull (VBool true)] now ;;;
  mret (Some freshId).

Definition coWritePermissionReviewItem (freshId approvalId runId toolName : string) (input : json)
    (source : string) (now : instant) : dbM (option string) :=
  d <- get ;;
  if negb (hasReviewItemsTable d) then mret None
  else match projectIdForRun d runId with
       | None => mret None
       | Some projectId =>
           co_write freshId runId projectId k_permission ("Permission: " +:+ toolName) None source
             (Some (PermissionPayload toolName input approvalId)) now
       end.

(** [CoWriteDecisionArgs] *)
Record decision_args := mk_decision_args {
  da_runId : string;
  da_title : string;
  da_body : option string;
  da_source : string;
  da_payload : option decision_payload;
  da_now : instant
}.

Definition ASK_USER_QUESTION_RECOVERY_SOURCE : string := "gate:ask-user-question-recovery".

Definition buildAskUserQuestionRecoveryGate (runId : string) (questions : list question_payload)
    (now : instant) : decision_args :=
  let first := trim (match questions with q :: _ => q.(qp_question) | [] => "" end) in
  let title :=
    if String.eqb first "" then "The agent asked a question — answer to continue"
    else "Answer needed: " +:+ (if (80 <? String.length first)%nat
                                then take_str 79 first +:+ "…" else first) in
  mk_decision_args runId title None ASK_USER_QUESTION_RECOVERY_SOURCE
    (Some (mk_decision_payload "ask-user-question-recovery"
             (Some ("The in-session question gate ended (SDK " +:+ String dquote "Stream closed"
                    +:+ String dquote " or session expiry). Answer here to resume the run."))
             (Some questions) None None None None None None None None None))
    now.

Definition coWriteDecisionReviewItem (freshId : string) (args : decision_args)
    : dbM (option string) :=
  d <- get ;;
  if negb (hasReviewItemsTable d) then mret None
  else match projectIdForRun d args.(da_runId) with
       | None => mret None
       | Some projectId =>
           co_write freshId args.(da_runId) projectId k_decision args.(da_title) args.(da_body)
             args.(da_source) (DecisionPayload <$> args.(da_payload)) args.(da_now)
       end.

(** ** Triage *)

(** [SET status, resolved_by, resolution, updated_at] *)
Definition triage (status : review_status) (who : string) (resolution : option string)
    (now : instant) (v : review_row) : review_row :=
  mk_review v.(v_project_id) v.(v_run_id) v.(v_kind) status v.(v_blocking) v.(v_title) v.(v_body)
    v.(v_severity) v.(v_source) v.(v_audience) v.(v_payload) v.(v_created_at) now (Some who)
    resolution.

Definition set_blocking (b : bool) (now : instant) (v : review_row) : review_row :=
  mk_review v.(v_project_id) v.(v_run_id) v.(v_kind) v.(v_status) b v.(v_title) v.(v_body)
    v.(v_severity) v.(v_source) v.(v_audience) v.(v_payload) v.(v_created_at) now v.(v_resolved_by)
    v.(v_resolution).

(** The two statuses a pending item can be triaged to name their own event. *)
Definition transitionReviewItemRow (reviewItemId : string) (status : review_status)
    (resolvedBy : string) (resolution : option string) (now : instant) (runId : option string)
    : dbM (option string) :=
  n <- update_review_item reviewItemId review_pending (triage status resolvedBy resolution now) ;;
  if decide (n = 0) then mret None
  else
    insertReviewEvent reviewItemId (review_status_string status) runId
      (mk_delta "status" (VStr "pending") (VStr (review_status_string status))
       :: match resolution with Some r => [mk_delta "resolution" VNull (VStr r)] | None => [] end)
      now ;;;
    mret (Some reviewItemId).

Definition resolveReviewItemRow (reviewItemId resolvedBy : string) (resolution : option string)
    (now : instant) (runId : option string) : dbM (option string) :=
  transitionReviewItemRow reviewItemId rv_resolved resolvedBy resolution now runId.

Definition resolveReviewItemById (reviewItemId resolvedBy : string) (resolution : option string)
    (now : instant) (runId : option string) : dbM (option string) :=
  d <- get ;;
  if negb (hasReviewItemsTable d) then mret None
  else resolveReviewItemRow reviewItemId resolvedBy resolution now runId.

Definition dismissReviewItemById (reviewItemId resolvedBy : string) (resolution : option string)
    (now : instant) (runId : option string) : dbM (option string) :=
  d <- get ;;
  if negb (hasReviewItemsTable d) then mret None
  else transitionReviewItemRow reviewItemId rv_dismissed resolvedBy resolution now runId.

(** The pending permission item that carries [approvalId]: some row of the
    SELECT ([LIMIT 1] without an order), when its id is not empty. *)
Definition linked_permission (approvalId : string) (v : review_row) : bool :=
  bool_decide (v.(v_kind) = k_permission) && review_pending v
  && bool_decide (payload_approvalId v.(v_payload) = Some approvalId).

Definition find_permission (d : db) (approvalId : string) : option (string * review_row) :=
  match head (sql_select (λ _ v, linked_permission approvalId v) (items_of d)) with
  | Some (id, v) => if String.eqb id "" then None else Some (id, v)
  | None => None
  end.

Definition resolvePermissionReviewItem (approvalId resolvedBy : string)
    (resolution : option string) (now : instant) (runId : option string) : dbM (option string) :=
  d <- get ;;
  if negb (hasReviewItemsTable d) then mret None
  else match find_permission d approvalId with
       | None => mret None
       | Some (id, v) =>
           resolveReviewItemRow id resolvedBy resolution now (coalesce runId v.(v_run_id))
       end.

Definition setPermissionReviewItemBlocking (approvalId : string) (blocking : bool) (now : instant)
    : dbM (option string) :=
  d <- get ;;
  if negb (hasReviewItemsTable d) then mret None
  else match find_permission d approvalId with
       | None => mret None
       | Some (id, v) =>
           if Bool.eqb v.(v_blocking) blocking then mret None
           else
             update_review_item id review_pending (set_blocking blocking now) ;;;
             insertReviewEvent id "mutated" v.(v_run_id)
               [mk_delta "blocking" (VBool v.(v_blocking)) (VBool blocking)] now ;;;
             mret (Some id)
       end.

Definition emitReviewItemChangedById (reviewItemId action : string) : sysM unit :=
  d <- gets sys_db ;;
  match items_of d !! reviewItemId with
  | None => mret tt
  | Some v => emit (EvReviewItemChanged v.(v_project_id) reviewItemId action)
  end.

(** ** Aggregate-unblock reads *)

(** [audience IS NULL OR audience != 'machine'] *)
Definition human_audience (v : review_row) : bool :=
  match v.(v_audience) with Some a => negb (String.eqb a "machine") | None => true end.

Definition pending_blocking (runId : string) (v : review_row) : bool :=
  bool_decide (v.(v_run_id) = Some runId) && v.(v_blocking) && review_pending v && human_audience v.

Definition countPendingBlockingReviewItems (d : db) (runId : string) (exclude : list string) : nat :=
  if negb (hasReviewItemsTable d) then 0
  else
    let excludeIds := filter (λ i, i ≠ "") exclude in
    sql_count (λ id v, pending_blocking runId v && negb (bool_decide (id ∈ excludeIds))) (items_of d).

Definition hasPendingBlockingReviewItems (d : db) (runId : string) : bool :=
  (0 <? countPendingBlockingReviewItems d runId [])%nat.

Record PendingBlockingItemRow := mk_pbi {
  pbi_id : string;
  pbi_kind : review_kind;
  pbi_source : option string;
  pbi_severity : option string;
  pbi_title : string;
  pbi_body : string
}.

(** [typeof x === 'string' && x.length > 0 ? x : null] *)
Definition nonempty_string (x : option string) : option string :=
  match x with Some s => if String.eqb s "" then None else Some s | None => None end.

(** [ORDER BY created_at ASC, id ASC] *)
Definition oldest_first (a b : string * review_row) : Prop :=
  (a.2.(v_created_at) < b.2.(v_created_at))%Z
  ∨ a.2.(v_created_at) = b.2.(v_created_at) ∧ String.leb a.1 b.1 = true.

#[export] Instance oldest_first_dec : RelDecision oldest_first.
Proof. intros a b. unfold oldest_first. apply _. Defined.

Definition shape_pending (kv : string * review_row) : PendingBlockingItemRow :=
  mk_pbi kv.1 kv.2.(v_kind) (nonempty_string kv.2.(v_source)) (nonempty_string kv.2.(v_severity))
    kv.2.(v_title) (default "" kv.2.(v_body)).

Definition pending_rows (d : db) (runId : string) : list (string * review_row) :=
  merge_sort oldest_first (sql_select (λ _ v, pending_blocking runId v) (items_of d)).

Definition selectPendingBlockingItemRows (d : db) (runId : string) : list PendingBlockingItemRow :=
  if negb (hasReviewItemsTable d) then [] else shape_pending <$> pending_rows d runId.

(** [source LIKE 'prefix%'], false for a NULL source. *)
Definition source_like (prefix : string) (v : review_row) : bool :=
  match v.(v_source) with Some s => like_prefix prefix s | None => false end.

Definition countRunPendingFindings (d : db) (runId : string) : nat :=
  if negb (hasReviewItemsTable d) then 0
  else sql_count (λ _ v, bool_decide (v.(v_run_id) = Some runId)
                         && bool_decide (v.(v_kind) = k_finding) && review_pending v
                         && human_audience v && source_like "agent:" v) (items_of d).

(** ** The operations as one command language *)

Inductive fold_command :=
  | CoWritePermission (freshId approvalId runId toolName : string) (input : json) (source : string)
  | CoWriteDecision (freshId : string) (args : decision_args)
  | ResolvePermission (approvalId who : string) (resolution : option string) (runId : option string)
  | SetBlocking (approvalId : string) (blocking : bool)
  | ResolveById (id who : string) (resolution : option string) (runId : option string)
  | DismissById (id who : string) (resolution : option string) (runId : option string).

Definition run_command (c : fold_command * instant) : dbM (option string) :=
  let now := c.2 in
  match c.1 with
  | CoWritePermission f a r t i s => coWritePermissionReviewItem f a r t i s now
  | CoWriteDecision f args => coWriteDecisionReviewItem f args
  | ResolvePermission a w res r => resolvePermissionReviewItem a w res now r
  | SetBlocking a b => setPermissionReviewItemBlocking a b now
  | ResolveById i w res r => resolveReviewItemById i w res now r
  | DismissById i w res r => dismissReviewItemById i w res now r
  end.

(** ** The audit trail

    Replaying the deltas of an item's events gives the item's row, and the
    sequence numbers of an entity are 1, 2, 3, ... *)

Definition apply_deltas (f : string) (acc : option field_value) (l : list field_delta)
    : option field_value :=
  foldl (λ a δ, if decide (δ.(fd_field) = f) then Some δ.(fd_to) else a) acc l.

Definition replay (f : string) (l : list entity_event) : option field_value :=
  apply_deltas f None (flat_map e_changes l).

Definition item_events (d : db) (id : string) : list entity_event :=
  events_of ENTITY_EVENT_TYPE id d.(entity_events).

Record audited (d : db) : Prop := {
  audited_status id :
    replay "status" (item_events d id)
    = (λ v, VStr (review_status_string v.(v_status))) <$> items_of d !! id;
  audited_blocking id :
    replay "blocking" (item_events d id) = (λ v, VBool v.(v_blocking)) <$> items_of d !! id;
  audited_seq id : e_seq <$> item_events d id = seq 1 (length (item_events d id))
}.

Lemma replay_app f l e : replay f (l ++ [e]) = apply_deltas f (replay f l) e.(e_changes).
Proof.
  unfold replay, apply_deltas. by rewrite flat_map_app, foldl_app; simpl; rewrite app_nil_r.
Qed.

Lemma max_seq_seq l : e_seq <$> l = seq 1 (length l) → max_seq l = length l.
Proof.
  enough (∀ n, e_seq <$> l = seq n (length l) → max_seq l = match l with [] => 0 | _ => n + length l - 1 end)
    as H by (intros Hl; rewrite (H 1 Hl); destruct l; simpl; lia).
  induction l as [|e l IH]; intros n; simpl; [done|]. intros [= -> Hl].
  rewrite (IH (S n) Hl). destruct l; simpl; lia.
Qed.

Lemma item_events_append id kind runId deltas now d k :
  item_events (append_event id kind runId deltas now d) k
  = if decide (k = id)
    then item_events d k ++ [mk_event ENTITY_EVENT_TYPE id (S (max_seq (item_events d id))) kind
                               FOLD_ACTOR runId deltas now]
    else item_events d k.
Proof.
  unfold item_events, append_event, events_of. simpl. rewrite filter_app, filter_cons, filter_nil.
  simpl. case_decide as Hd; case_decide as Hk; simplify_eq; try done.
  - by destruct Hd.
  - tauto.
  - by rewrite app_nil_r.
Qed.

(** The one step every operation is made of: write a row and log the deltas
    that lead to it. *)
Lemma audited_write d t id v' kind runId deltas now :
  audited d → d.(review_items) = Some t →
  apply_deltas "status" ((λ v, VStr (review_status_string v.(v_status))) <$> t !! id) deltas
  = Some (VStr (review_status_string v'.(v_status))) →
  apply_deltas "blocking" ((λ v, VBool v.(v_blocking)) <$> t !! id) deltas
  = Some (VBool v'.(v_blocking)) →
  audited (append_event id kind runId deltas now (set_review_items (<[id := v']> t) d)).
Proof.
  intros [Hs Hb Hq] Ht Ds Db.
  assert (∀ k, items_of d !! k = t !! k) as Hitems by (intros; unfold items_of; by rewrite Ht).
  split; intros k; rewrite item_events_append;
    change (item_events (set_review_items _ _)) with (item_events d);
    change (items_of (append_event _ _ _ _ _ _)) with (<[id := v']> t).
  - case_decide as Hk; [subst|].
    + by rewrite replay_app, Hs, Hitems, lookup_insert_eq.
    + by rewrite Hs, Hitems, lookup_insert_ne by done.
  - case_decide as Hk; [subst|].
    + by rewrite replay_app, Hb, Hitems, lookup_insert_eq.
    + by rewrite Hb, Hitems, lookup_insert_ne by done.
  - case_decide as Hk; [subst|done].
    rewrite fmap_app, length_app, Nat.add_1_r, seq_S, Hq. simpl.
    by rewrite (max_seq_seq _ (Hq id)).
Qed.

(** ** The operations, branch by branch *)

Lemma update_review_item_eq id p f t d :
  d.(review_items) = Some t →
  update_review_item id p f d
  = match t !! id with
    | Some v => if p v then (Ok 1, set_review_items (<[id := f v]> t) d) else (Ok 0, d)
    | None => (Ok 0, d)
    end.
Proof.
  intros Ht. unfold update_review_item, sql_update_id. rewrite Ht.
  destruct (t !! id) as [v|]; [destruct (p v)|]; try done; unfold set_review_items;
    destruct d; simpl in *; by subst.
Qed.

Lemma transitionReviewItemRow_eq id status who resolution now runId t d :
  d.(review_items) = Some t →
  transitionReviewItemRow id status who resolution now runId d
  = match t !! id with
    | Some v =>
        if review_pending v
        then (Ok (Some id),
              append_event id (review_status_string status) runId
                (mk_delta "status" (VStr "pending") (VStr (review_status_string status))
                 :: match resolution with
                    | Some r => [mk_delta "resolution" VNull (VStr r)]
                    | None => []
                    end) now
                (set_review_items (<[id := triage status who resolution now v]> t) d))
        else (Ok None, d)
    | None => (Ok None, d)
    end.
Proof.
  intros Ht. unfold transitionReviewItemRow, mbind. rewrite (update_review_item_eq _ _ _ t) by done.
  destruct (t !! id) as [v|]; [|done]. by destruct (review_pending v).
Qed.

Lemma co_write_eq freshId runId projectId kind title body source payload now t d :
  d.(review_items) = Some t →
  co_write freshId runId projectId kind title body source payload now d
  = match t !! freshId with
    | Some _ => (Throw (SqlUniqueViolation "review_items" freshId), d)
    | None =>
        (Ok (Some freshId),
         append_event freshId "created" (Some runId)
           [mk_delta "kind" VNull (VStr (review_kind_string kind));
            mk_delta "status" VNull (VStr "pending");
            mk_delta "title" VNull (VStr title);
            mk_delta "blocking" VNull (VBool true)] now
           (set_review_items
              (<[freshId := mk_review projectId (Some runId) kind rv_pending true title body None
                   (Some source) (Some "human") payload now now None None]> t) d))
    end.
Proof.
  intros Ht. unfold co_write, mbind, insert_review_item. rewrite Ht.
  by destruct (t !! freshId).
Qed.

Lemma find_permission_Some d approvalId id v :
  find_permission d approvalId = Some (id, v) →
  items_of d !! id = Some v ∧ linked_permission approvalId v = true.
Proof.
  unfold find_permission. destruct (head _) as [[i w]|] eqn:Hh; [|done].
  destruct (String.eqb i ""); [done|]. intros [= -> ->].
  apply (elem_of_sql_select (λ _ v, linked_permission approvalId v)).
  destruct (sql_select _ _) as [|x l]; simplify_eq/=. by left.
Qed.

Lemma linked_permission_pending a v : linked_permission a v = true → review_pending v = true.
Proof. unfold linked_permission. intros H. bool_hyps. by destruct (review_pending v). Qed.

Lemma setPermissionReviewItemBlocking_eq approvalId blocking now t d :
  d.(review_items) = Some t →
  setPermissionReviewItemBlocking approvalId blocking now d
  = match find_permission d approvalId with
    | Some (id, v) =>
        if Bool.eqb v.(v_blocking) blocking then (Ok None, d)
        else (Ok (Some id),
              append_event id "mutated" v.(v_run_id)
                [mk_delta "blocking" (VBool v.(v_blocking)) (VBool blocking)] now
                (set_review_items (<[id := set_blocking blocking now v]> t) d))
    | None => (Ok None, d)
    end.
Proof.
  intros Ht. unfold setPermissionReviewItemBlocking. unfold mbind at 1, get.
  unfold hasReviewItemsTable. rewrite Ht. simpl.
  destruct (find_permission d approvalId) as [[id v]|] eqn:Hf; [|done].
  destruct (Bool.eqb v.(v_blocking) blocking); [done|].
  apply find_permission_Some in Hf as [Hv Hl%linked_permission_pending].
  unfold items_of in Hv. rewrite Ht in Hv. simpl in Hv.
  unfold mbind. rewrite (update_review_item_eq _ _ _ t) by done. by rewrite Hv, Hl.
Qed.

(** ** Preservation of the audit trail *)

Definition audit_mono (d d' : db) : Prop := audited d → audited d'.

#[export] Instance audit_mono_preorder : PreOrder audit_mono.
Proof. split; [by intros d ?|]. intros d1 d2 d3 H12 H23 ?. by apply H23, H12. Qed.

Lemma transitionReviewItemRow_audit id status who resolution now runId d t :
  d.(review_items) = Some t →
  audit_mono d (transitionReviewItemRow id status who resolution now runId d).2.
Proof.
  intros Ht Ha. rewrite (transitionReviewItemRow_eq _ _ _ _ _ _ t) by done.
  destruct (t !! id) as [v|] eqn:Hv; [|done]. destruct (review_pending v); [|done].
  apply audited_write; [done|done|by destruct resolution|]. rewrite Hv. by destruct resolution.
Qed.

Lemma co_write_audit freshId runId projectId kind title body source payload now d t :
  d.(review_items) = Some t →
  audit_mono d (co_write freshId runId projectId kind title body source payload now d).2.
Proof.
  intros Ht Ha. rewrite (co_write_eq _ _ _ _ _ _ _ _ _ t) by done.
  destruct (t !! freshId) eqn:Hf; [done|]. by apply audited_write.
Qed.

(** Every operation first looks for the table. *)
Lemma table_guard_audit {A} (d : db) (m : dbM A) (a : A) :
  (∀ t, d.(review_items) = Some t → audit_mono d (m d).2) →
  audit_mono d ((if negb (hasReviewItemsTable d) then mret a else m) d).2.
Proof.
  intros H. unfold hasReviewItemsTable. destruct (d.(review_items)) as [t|]; simpl; [|done].
  by apply (H t).
Qed.

Lemma run_command_audit c : preserves audit_mono (run_command c).
Proof.
  intros d. destruct c as [c now]. unfold run_command.
  destruct c; simpl; apply table_guard_audit; intros t Ht.
  - destruct (projectIdForRun d runId); [|done]. by apply (co_write_audit _ _ _ _ _ _ _ _ _ _ t).
  - destruct (projectIdForRun d _); [|done]. by apply (co_write_audit _ _ _ _ _ _ _ _ _ _ t).
  - destruct (find_permission d approvalId) as [[id v]|]; [|done].
    by apply (transitionReviewItemRow_audit _ _ _ _ _ _ _ t).
  - intros Ha. assert (hasReviewItemsTable d = true) as Hh by (unfold hasReviewItemsTable; by rewrite Ht).
    pose proof (setPermissionReviewItemBlocking_eq approvalId blocking now t d Ht) as Heq.
    unfold setPermissionReviewItemBlocking, mbind at 1, get in Heq. rewrite Hh in Heq. simpl in Heq.
    rewrite Heq. destruct (find_permission d approvalId) as [[id v]|] eqn:Hf; [|done].
    destruct (Bool.eqb v.(v_blocking) blocking); [done|].
    apply find_permission_Some in Hf as [Hv _]. unfold items_of in Hv. rewrite Ht in Hv. simpl in Hv.
    apply audited_write; [done|done| |done]. by rewrite Hv.
  - by apply (transitionReviewItemRow_audit _ _ _ _ _ _ _ t).
  - by apply (transitionReviewItemRow_audit _ _ _ _ _ _ _ t).
Qed.

(** Every sequence of inbox writes keeps the audit trail complete: the events of each
    review item are numbered without gaps, and replaying their field deltas yields the
    status, blocking flag and resolution the row has. *)
Theorem fold_commands_audited (cs : list (fold_command * instant)) d :
  audited d → audited (exec (mapM_ (λ c, _ <- run_command c ;; mret tt) cs) d).
Proof.
  apply (preserves_mapM_ audit_mono). intros c.
  apply preserves_bind; [typeclasses eauto|apply run_command_audit|].
  intros _. apply preserves_ret, _.
Qed.

(** No inbox write changes an item that has already been resolved or dismissed. *)
Theorem triage_is_final c d d' id v :
  exec (run_command c) d = d' →
  items_of d !! id = Some v → review_pending v = false → items_of d' !! id = Some v.
Proof.
  intros <- Hv Hp. unfold exec.
  destruct (d.(review_items)) as [t|] eqn:Ht.
  2: { unfold items_of in Hv. by rewrite Ht in Hv. }
  assert (t !! id = Some v) as Hv' by (unfold items_of in Hv; by rewrite Ht in Hv).
  assert (∀ i st who res now run,
    items_of (transitionReviewItemRow i st who res now run d).2 !! id = Some v) as Htr.
  { intros. rewrite (transitionReviewItemRow_eq _ _ _ _ _ _ t) by done.
    destruct (t !! i) as [w|] eqn:Hw; [|done]. destruct (review_pending w) eqn:Hwp; [|done].
    simpl. unfold items_of. simpl. rewrite lookup_insert_ne; [done|congruence]. }
  assert (∀ f run p k ti b s pl now,
    items_of (co_write f run p k ti b s pl now d).2 !! id = Some v) as Hco.
  { intros. rewrite (co_write_eq _ _ _ _ _ _ _ _ _ t) by done.
    destruct (t !! f) as [w|] eqn:Hw; [done|].
    simpl. unfold items_of. simpl. rewrite lookup_insert_ne; [done|congruence]. }
  destruct c as [[f a r ti i s|f args|a w res r|a b|i w res r|i w res r] now];
    unfold run_command; simpl.
  4: { rewrite (setPermissionReviewItemBlocking_eq a b now t) by done.
       destruct (find_permission d a) as [[i w]|] eqn:Hf; [|done].
       destruct (Bool.eqb w.(v_blocking) b); [done|].
       apply find_permission_Some in Hf as [Hw Hl%linked_permission_pending].
       simpl. unfold items_of in *. rewrite Ht in Hw. simpl in *.
       rewrite lookup_insert_ne; [done|congruence]. }
  all: unfold coWritePermissionReviewItem, coWriteDecisionReviewItem, resolvePermissionReviewItem,
         resolveReviewItemById, dismissReviewItemById, resolveReviewItemRow, mbind, get,
         hasReviewItemsTable; rewrite Ht; simpl; try case_match; simpl; auto.
  case_match; simpl; auto.
Qed.

Lemma resolve_done id who res now run d d' t :
  d.(review_items) = Some t →
  transitionReviewItemRow id rv_resolved who res now run d = (Ok (Some id), d') →
  ∃ v t', d'.(review_items) = Some t' ∧ t' !! id = Some v ∧ v.(v_status) = rv_resolved.
Proof.
  intros Ht. rewrite (transitionReviewItemRow_eq _ _ _ _ _ _ t) by done.
  destruct (t !! id) as [v|]; [|done]. destruct (review_pending v); [|done].
  intros [= <-]. eexists _, _. split; [done|]. rewrite lookup_insert_eq. done.
Qed.

(** Once an item has been resolved by id, resolving or dismissing it again writes
    nothing and returns null. *)
Theorem resolve_idempotent id who res now run who' res' now' run' d d' :
  resolveReviewItemById id who res now run d = (Ok (Some id), d') →
  resolveReviewItemById id who' res' now' run' d' = (Ok None, d')
  ∧ dismissReviewItemById id who' res' now' run' d' = (Ok None, d').
Proof.
  unfold resolveReviewItemById at 1, mbind, get, hasReviewItemsTable.
  destruct (d.(review_items)) as [t|] eqn:Ht; simpl; [|done]. intros H.
  apply (resolve_done _ _ _ _ _ _ _ t) in H as (v & t' & Ht' & Hv & Hst); [|done].
  unfold resolveReviewItemById, dismissReviewItemById, resolveReviewItemRow, mbind, get,
    hasReviewItemsTable.
  rewrite Ht'. simpl. rewrite !(transitionReviewItemRow_eq _ _ _ _ _ _ t') by done.
  rewrite Hv. unfold review_pending. rewrite Hst. done.
Qed.

(** ** The reads *)

Lemma hasTable_items d : hasReviewItemsTable d = false → items_of d = ∅.
Proof. unfold hasReviewItemsTable, items_of. by destruct (d.(review_items)). Qed.

Lemma count_zero_spec d runId exclude :
  countPendingBlockingReviewItems d runId exclude = 0
  ↔ ∀ id v, items_of d !! id = Some v → pending_blocking runId v = true →
            id ∈ exclude ∧ id ≠ "".
Proof.
  unfold countPendingBlockingReviewItems. destruct (hasReviewItemsTable d) eqn:Hh; simpl.
  2: { apply hasTable_items in Hh. rewrite Hh. split; [|done]. intros _ id v Hv.
       by rewrite lookup_empty in Hv. }
  rewrite sql_count_zero. split; intros H id v Hv.
  - intros Hp. specialize (H id v Hv). rewrite Hp in H. simpl in H.
    apply negb_false_iff, bool_decide_eq_true, list_elem_of_filter in H. tauto.
  - destruct (pending_blocking runId v) eqn:Hp; [|done]. simpl.
    apply negb_false_iff, bool_decide_eq_true, list_elem_of_filter.
    destruct (H id v Hv Hp). done.
Qed.

#[export] Instance oldest_first_total : Total oldest_first.
Proof.
  intros [i v] [j w]. unfold oldest_first. simpl.
  destruct (Z.lt_total v.(v_created_at) w.(v_created_at)) as [?|[Heq|?]]; [by left; left| |by right; left].
  destruct (String.leb_total i j); [left|right]; by right.
Qed.

Lemma pending_rows_perm d runId :
  Permutation (pending_rows d runId) (sql_select (λ _ v, pending_blocking runId v) (items_of d)).
Proof. apply merge_sort_Permutation. Qed.

(** The blocking-items list and the blocking count agree: the list has as many rows as
    the count, is sorted by creation time then id, and holds exactly the pending blocking
    human-facing items of the run. *)
Theorem pending_count_is_list d runId :
  length (selectPendingBlockingItemRows d runId) = countPendingBlockingReviewItems d runId []
  ∧ Sorted oldest_first (pending_rows d runId)
  ∧ (∀ row, row ∈ selectPendingBlockingItemRows d runId ↔
       ∃ id v, items_of d !! id = Some v ∧ pending_blocking runId v = true
               ∧ row = shape_pending (id, v)).
Proof.
  split_and!.
  - unfold selectPendingBlockingItemRows, countPendingBlockingReviewItems.
    destruct (hasReviewItemsTable d); simpl; [|done].
    rewrite length_fmap, pending_rows_perm. unfold sql_count, sql_select. f_equal.
    apply list_filter_iff. intros [k v]. simpl. by rewrite andb_true_r.
  - apply Sorted_merge_sort, oldest_first_total.
  - intros row. unfold selectPendingBlockingItemRows.
    assert ((∃ id v, items_of d !! id = Some v ∧ pending_blocking runId v = true
              ∧ row = shape_pending (id, v)) ↔ row ∈ shape_pending <$> pending_rows d runId) as Hiff.
    { rewrite list_elem_of_fmap. setoid_rewrite pending_rows_perm. split.
      - intros (id & v & Hv & Hp & ->). exists (id, v). split; [done|]. by apply elem_of_sql_select.
      - intros ([id v] & -> & [Hv Hp]%elem_of_sql_select). eauto 6. }
    destruct (hasReviewItemsTable d) eqn:Hh; simpl; [by rewrite <- Hiff|].
    split; [by intros ?%not_elem_of_nil|]. intros (id & v & Hv & _).
    rewrite (hasTable_items d Hh), lookup_empty in Hv. done.
Qed.

(** The count that decides whether a run may go on is zero exactly when every pending
    blocking item of the run is either for machines or explicitly excluded (with a non-empty
    id). *)
Theorem unblock_count_spec d runId exclude :
  countPendingBlockingReviewItems d runId exclude = 0
  ↔ ∀ id v, items_of d !! id = Some v → v.(v_run_id) = Some runId → v.(v_blocking) = true →
            v.(v_status) = rv_pending → v.(v_audience) ≠ Some "machine" →
            id ∈ exclude ∧ id ≠ "".
Proof.
  rewrite count_zero_spec. unfold pending_blocking, review_pending, human_audience. split.
  - intros H id v Hv Hr Hb Hs Ha. apply (H id v Hv). rewrite Hr, Hb, Hs.
    rewrite !bool_decide_true by done. simpl. destruct (v.(v_audience)) as [a|]; [|done].
    apply negb_true_iff, String.eqb_neq. congruence.
  - intros H id v Hv Hp. bool_hyps. apply (H id v Hv); auto.
    intros Ha. rewrite Ha in *. by rewrite String.eqb_refl in *.
Qed.

(** ** What the operations leave alone *)

Definition items_frame (d d' : db) : Prop :=
  d'.(workflow_runs) = d.(workflow_runs) ∧ d'.(workflows) = d.(workflows)
  ∧ d'.(experiments) = d.(experiments) ∧ d'.(approvals) = d.(approvals)
  ∧ d'.(questions) = d.(questions) ∧ d'.(raw_events) = d.(raw_events).

#[export] Instance items_frame_preorder : PreOrder items_frame.
Proof.
  split; [by intros d|]. intros d1 d2 d3 H12 H23. unfold items_frame in *.
  destruct_and!. split_and!; congruence.
Qed.

Lemma update_review_item_frame id p f :
  preserves (E:=run_error) items_frame (update_review_item id p f).
Proof.
  intros d. unfold update_review_item. destruct (d.(review_items)); [|done].
  by destruct (sql_update_id _ _ _ _).
Qed.

Lemma insert_review_item_frame id v : preserves items_frame (insert_review_item id v).
Proof.
  intros d. unfold insert_review_item. destruct (d.(review_items)) as [t|]; [|done].
  by destruct (t !! id).
Qed.

Lemma insertReviewEvent_frame id k r ds now :
  preserves (E:=run_error) items_frame (insertReviewEvent id k r ds now).
Proof. by intros d. Qed.

Create HintDb frame.
#[export] Hint Resolve update_review_item_frame insert_review_item_frame
  insertReviewEvent_frame items_frame_preorder : frame.

Ltac solve_frame := intros; preserve_with ltac:(solve [eauto 2 with frame]); try typeclasses eauto.

Lemma transitionReviewItemRow_frame id st who res now r :
  preserves items_frame (transitionReviewItemRow id st who res now r).
Proof. unfold transitionReviewItemRow. solve_frame. Qed.

Lemma co_write_frame f r p k t b s pl now : preserves items_frame (co_write f r p k t b s pl now).
Proof. unfold co_write. solve_frame. Qed.

#[export] Hint Resolve transitionReviewItemRow_frame co_write_frame : frame.

Lemma run_command_frame c : preserves items_frame (run_command c).
Proof.
  destruct c as [[] now]; unfold run_command, coWritePermissionReviewItem,
    coWriteDecisionReviewItem, resolvePermissionReviewItem, setPermissionReviewItemBlocking,
    resolveReviewItemById, dismissReviewItemById, resolveReviewItemRow; simpl; solve_frame.
Qed.

Lemma items_frame_refines d d' : items_frame d d' → runs_refine d d'.
Proof. intros (H & Hw & _). by apply runs_refine_eq. Qed.

Lemma run_command_refines c : preserves runs_refine (run_command c).
Proof. intros d. apply items_frame_refines, run_command_frame. Qed.

Lemma coWritePermission_refines f a r t i s now :
  preserves runs_refine (coWritePermissionReviewItem f a r t i s now).
Proof. apply (run_command_refines (CoWritePermission f a r t i s, now)). Qed.
Lemma coWriteDecision_refines f args : preserves runs_refine (coWriteDecisionReviewItem f args).
Proof. apply (run_command_refines (CoWriteDecision f args, 0%Z)). Qed.
Lemma resolvePermission_refines a w res now r :
  preserves runs_refine (resolvePermissionReviewItem a w res now r).
Proof. apply (run_command_refines (ResolvePermission a w res r, now)). Qed.
Lemma setBlocking_refines a b now :
  preserves runs_refine (setPermissionReviewItemBlocking a b now).
Proof. apply (run_command_refines (SetBlocking a b, now)). Qed.
Lemma resolveById_refines i w res now r :
  preserves runs_refine (resolveReviewItemById i w res now r).
Proof. apply (run_command_refines (ResolveById i w res r, now)). Qed.
Lemma dismissById_refines i w res now r :
  preserves runs_refine (dismissReviewItemById i w res now r).
Proof. apply (run_command_refines (DismissById i w res r, now)). Qed.

Lemma emitReviewItemChangedById_refines id a :
  preserves sys_refine (emitReviewItemChangedById id a).
Proof. unfold emitReviewItemChangedById. solve_refine. Qed.

#[export] Hint Resolve coWritePermission_refines coWriteDecision_refines
  resolvePermission_refines setBlocking_refines resolveById_refines dismissById_refines
  emitReviewItemChangedById_refines : refine.

(** Triage never throws. *)
Lemma transitionReviewItemRow_ok id st who res now r d :
  ∃ x d', transitionReviewItemRow id st who res now r d = (Ok x, d').
Proof.
  destruct (d.(review_items)) as [t|] eqn:Ht.
  - rewrite (transitionReviewItemRow_eq _ _ _ _ _ _ t) by done.
    destruct (t !! id) as [v|]; [destruct (review_pending v)|]; eauto.
  - unfold transitionReviewItemRow, mbind, update_review_item. rewrite Ht. simpl. eauto.
Qed.

Lemma resolveById_ok id who res now r d :
  ∃ x d', resolveReviewItemById id who res now r d = (Ok x, d').
Proof.
  unfold resolveReviewItemById, mbind, get. destruct (negb (hasReviewItemsTable d)); [by eexists _, _|].
  apply transitionReviewItemRow_ok.
Qed.

Lemma dismissById_ok id who res now r d :
  ∃ x d', dismissReviewItemById id who res now r d = (Ok x, d').
Proof.
  unfold dismissReviewItemById, mbind, get. destruct (negb (hasReviewItemsTable d)); [by eexists _, _|].
  apply transitionReviewItemRow_ok.
Qed.

Lemma resolvePermission_ok a who res now r d :
  ∃ x d', resolvePermissionReviewItem a who res now r d = (Ok x, d').
Proof.
  unfold resolvePermissionReviewItem, mbind, get.
  destruct (negb (hasReviewItemsTable d)); [by eexists _, _|].
  destruct (find_permission d a) as [[id v]|]; [|by eexists _, _].
  apply transitionReviewItemRow_ok.
Qed.

(** Resolving by id, by cases on the item. *)
Lemma resolveById_spec i w res now run d :
  ∃ o d1, resolveReviewItemById i w res now run d = (Ok o, d1)
    ∧ (o ≠ None ↔ ∃ v, items_of d !! i = Some v ∧ review_pending v = true)
    ∧ (∀ v, items_of d !! i = Some v → review_pending v = true →
         items_of d1 = <[i := triage rv_resolved w res now v]> (items_of d)).
Proof.
  unfold resolveReviewItemById, mbind, get, hasReviewItemsTable, items_of.
  destruct (d.(review_items)) as [t|] eqn:Ht; simpl.
  2: { eexists _, _. split; [reflexivity|]. split; [|done]. split; [done|]. by intros (v & Hv & _). }
  unfold resolveReviewItemRow. rewrite (transitionReviewItemRow_eq _ _ _ _ _ _ t) by done.
  destruct (t !! i) as [v|] eqn:Hv; [destruct (review_pending v) eqn:Hp|];
    eexists _, _; (split; [reflexivity|]).
  - split; [split; [eauto|done]|]. by intros v' [= <-] _.
  - split; [|intros v' [= <-]; congruence]. split; [done|]. intros (v' & [= <-] & ?). congruence.
  - split; [|done]. split; [done|]. by intros (v' & ? & _).
Qed.

(** ** Concrete inputs *)

Lemma sample_audited l : audited (sample_db l).
Proof. split; intros id; [| |done]; unfold items_of; simpl; by rewrite lookup_empty. Qed.

Definition sample_commands : list (fold_command * instant) :=
  [(CoWritePermission "rvw_1" "a1" "r1" "Bash" "{}" "approval", 5%Z);
   (SetBlocking "a1" false, 6%Z);
   (ResolvePermission "a1" "user" (Some "approved") None, 7%Z);
   (DismissById "rvw_1" "system" None None, 8%Z)].

Lemma fold_commands_audited_witness :
  audited (exec (mapM_ (λ c, _ <- run_command c ;; mret tt) sample_commands)
             (sample_db [("r1", running)])).
Proof. apply fold_commands_audited, sample_audited. Defined.

(** The inbox after the item is folded and resolved. *)
Definition sample_resolved : db :=
  exec (mapM_ (λ c, _ <- run_command c ;; mret tt) (take 3 sample_commands))
    (sample_db [("r1", running)]).

Lemma triage_is_final_witness :
  ∃ v, items_of (exec (run_command (ResolveById "rvw_1" "user" None None, 9%Z)) sample_resolved)
       !! "rvw_1" = Some v ∧ v.(v_status) = rv_resolved.
Proof.
  eexists. split.
  - apply (triage_is_final (ResolveById "rvw_1" "user" None None, 9%Z) sample_resolved);
      [reflexivity|vm_compute; reflexivity|reflexivity].
  - reflexivity.
Defined.

Lemma resolve_idempotent_witness :
  let d := exec (mapM_ (λ c, _ <- run_command c ;; mret tt) (take 1 sample_commands))
             (sample_db [("r1", running)]) in
  let d' := exec (resolveReviewItemById "rvw_1" "user" None 6%Z None) d in
  resolveReviewItemById "rvw_1" "user" None 7%Z None d' = (Ok None, d')
  ∧ dismissReviewItemById "rvw_1" "user" None 7%Z None d' = (Ok None, d').
Proof.
  intros d d'. apply (resolve_idempotent "rvw_1" "user" None 6%Z None "user" None 7%Z None d).
  vm_compute. reflexivity.
Defined.
