(* ===== verification/ApprovalRouter.v ===== *)
(** * The approval router

    Models [main/src/orchestrator/approvalRouter.ts]: the gate a tool call
    raises ([requestApproval]), the human's answer ([respond]) and the ways a
    gate ends without one (termination, abandonment, orphaning, restart).

    The body of each per-run queue task is one computation; tasks of one run
    are serialized by the queue, so an interleaving is a list of them.  The
    Promise of a request and its socket are the log entries [EvResolve] and
    [EvSocketReply]. *)

From S2P Require Import Prelude RunStateMachine Database Samples JsString ReviewItems Transitions.

Open Scope js_scope.

Definition the_pending : sysM (list (string * pending_entry)) := gets sys_pending.

(** [this.pending.delete(id)], [this.pending.set(id, e)] *)
Definition pending_delete (id : string) : sysM unit :=
  modify (λ s, set_pending (map_delete id s.(sys_pending)) s).
Definition pending_set (id : string) (e : pending_entry) : sysM unit :=
  modify (λ s, set_pending (map_set id e s.(sys_pending)) s).

(** [try { m } catch { console.warn(...) }] *)
Definition swallow (m : sysM unit) : sysM unit := catch m (λ _, mret tt).

(** ** Requesting *)

Inductive grab_outcome := grabbed | wait.

(** The transaction of one attempt: [true] when it took the gate. *)
Definition grab_txn (freshId : string) (req : approval_request) (source : string) (now : instant)
    : dbM bool :=
  transaction
    (assertTransitionAllowed running awaiting_review (Some req.(ar_runId)) ;;;
     n <- update_run req.(ar_runId) (has_status running) (set_status awaiting_review now) ;;
     if decide (n = 0) then mret false
     else
       insert_approval req.(ar_id)
         (mk_approval req.(ar_runId) req.(ar_toolName) req.(ar_input) req.(ar_id) a_pending now
            None None true) ;;;
       coWritePermissionReviewItem freshId req.(ar_id) req.(ar_runId) req.(ar_toolName)
         req.(ar_input) source now ;;;
       mret true).

(** The queue task of one attempt. *)
Definition request_attempt (freshId : string) (req : approval_request) (source : string)
    (onCreated : bool) (now : instant) : sysM grab_outcome :=
  g <- in_db (grab_txn freshId req source now) ;;
  if g : bool then
    pending_set req.(ar_id) (mk_pending req source) ;;;
    (when onCreated do emit (EvOnCreated req.(ar_id))) ;;;
    emit (EvApprovalCreated req) ;;;
    mret grabbed
  else
    d <- gets sys_db ;;
    if decide (status_of d req.(ar_runId) = Some awaiting_review) then mret wait
    else throw (RunNotRunningError req.(ar_runId)).

(** The loop of [requestApproval].  Between an attempt that waits and the next
    one the rest of the process runs: [env] lists what it did to the state at
    each wait, and the instant of the retry.  [None] means the schedule ended
    with the call still waiting. *)
Fixpoint request_loop (freshId : string) (req : approval_request) (source : string)
    (onCreated : bool) (now : instant) (env : list ((sys → sys) * instant))
    : sysM (option grab_outcome) :=
  o <- request_attempt freshId req source onCreated now ;;
  match o with
  | grabbed => mret (Some grabbed)
  | wait =>
      match env with
      | [] => mret None
      | (f, now') :: env' =>
          modify f ;;; request_loop freshId req source onCreated now' env'
      end
  end.

(** [requestApproval]: the request object is minted once, before the loop. *)
Definition requestApproval (approvalId freshId runId toolName : string) (input : json)
    (source : string) (onCreated : bool) (now : instant) (env : list ((sys → sys) * instant))
    : sysM (option grab_outcome) :=
  request_loop freshId (mk_request approvalId runId toolName input now) source onCreated now env.

(** ** Responding *)

Definition deny_with (m : string) : approval_decision := mk_decision deny None (Some m).

Definition SUPERSEDED_MESSAGE : string :=
  "Run was canceled before approval could be processed".

(** [UPDATE approvals SET status, decided_at, decided_by WHERE id = ?] *)
Definition decide_any (id : string) (s : approval_status) (who : string) (now : instant)
    : dbM unit :=
  update_approval id (λ _, true) (decide_approval s now who) ;;; mret tt.

(** The same guarded by [status = 'pending']; returns [changes]. *)
Definition decide_pending (id : string) (s : approval_status) (who : string) (now : instant)
    : dbM nat :=
  update_approval id approval_pending (decide_approval s now who).

Definition restore_from (l : list run_status) (runId : string) (now : instant) : dbM nat :=
  update_run runId (has_status_in l) (λ r, set_stuck None None (set_status running now r)).

Definition resolve_linked (id who resolution : string) (now : instant) (runId : option string)
    : dbM unit :=
  resolvePermissionReviewItem id who (Some resolution) now runId ;;; mret tt.

(** The queue task of [respond]. *)
Definition respond_task (approvalId : string) (decision : approval_decision) (now : instant)
    : sysM unit :=
  pending <- the_pending ;;
  match map_get approvalId pending with
  | None => mret tt
  | Some entry =>
      let runId := entry.(pe_request).(ar_runId) in
      pending_delete approvalId ;;;
      match decision.(ad_behavior) with
      | allow =>
          in_db (assertTransitionAllowedFromAny [awaiting_review; running; stuck] running
                   (Some runId)) ;;;
          n <- in_db (restore_from [awaiting_review; running; stuck] runId now) ;;
          if decide (n = 0) then
            in_db (decide_any approvalId a_rejected "auto-policy" now) ;;;
            in_db (resolve_linked approvalId "auto-policy" "superseded" now (Some runId)) ;;;
            emit (EvResolve approvalId (deny_with SUPERSEDED_MESSAGE)) ;;;
            emit (EvApprovalDecided approvalId a_rejected)
          else
            in_db (decide_any approvalId a_approved "user" now) ;;;
            in_db (resolve_linked approvalId "user" "approved" now (Some runId)) ;;;
            emit (EvResolve approvalId decision) ;;;
            emit (EvSocketReply approvalId decision) ;;;
            emit (EvApprovalDecided approvalId a_approved) ;;;
            emit (EvApprovalUsage "approve" "single")
      | deny =>
          in_db (assertTransitionAllowedFromAny [awaiting_review; stuck] running (Some runId)) ;;;
          in_db (restore_from [awaiting_review; stuck] runId now) ;;;
          in_db (decide_any approvalId a_rejected "user" now) ;;;
          in_db (resolve_linked approvalId "user" "rejected" now (Some runId)) ;;;
          emit (EvResolve approvalId decision) ;;;
          emit (EvSocketReply approvalId decision) ;;;
          emit (EvApprovalDecided approvalId a_rejected) ;;;
          emit (EvApprovalUsage "reject" "single")
      end
  end.

Definition settleStalePendingApproval (approvalId : string) (decision : approval_decision)
    (now : instant) : sysM bool :=
  let '(status, label) := match decision.(ad_behavior) with
                          | allow => (a_approved, "approved")
                          | deny => (a_rejected, "rejected")
                          end in
  catch
    (n <- in_db (decide_pending approvalId status "user" now) ;;
     if decide (n = 0) then mret false
     else
       in_db (resolve_linked approvalId "user" label now None) ;;;
       emit (EvApprovalDecided approvalId status) ;;;
       mret true)
    (λ _, mret false).

(** [respond] when its queue task runs at once. *)
Definition respond (approvalId : string) (decision : approval_decision) (now : instant)
    : sysM unit :=
  pending <- the_pending ;;
  match map_get approvalId pending with
  | None =>
      b <- settleStalePendingApproval approvalId decision now ;;
      if b : bool then mret tt else throw (ApprovalNotFoundError approvalId)
  | Some _ => respond_task approvalId decision now
  end.

(** ** Settling without an answer *)

(** The part a settled entry shares: its row, its inbox item, its Promise. *)
Definition settle_entry (runId resolution : string) (denial : approval_decision) (now : instant)
    (approvalId : string) : sysM unit :=
  pending_delete approvalId ;;;
  swallow (in_db (decide_pending approvalId a_rejected "system" now ;;;
                  resolve_linked approvalId "system" resolution now (Some runId))) ;;;
  emit (EvResolve approvalId denial) ;;;
  emit (EvApprovalDecided approvalId a_rejected).

(** One row of the sweep over rows without an entry. *)
Definition sweep_row (runId resolution : string) (now : instant) (id : string) : sysM unit :=
  in_db (decide_pending id a_rejected "system" now ;;;
         resolve_linked id "system" resolution now (Some runId)) ;;;
  emit (EvApprovalDecided id a_rejected).

Definition restore_awaiting (runId : string) (now : instant) : dbM unit :=
  assertTransitionAllowed awaiting_review running (Some runId) ;;;
  update_run runId (has_status awaiting_review) (set_status running now) ;;;
  mret tt.

(** The ids of a run's entries, and of its pending rows. *)
Definition entries_of_run (runId : string) (p : list (string * pending_entry)) : list string :=
  (filter (λ kv, kv.2.(pe_request).(ar_runId) = runId) p).*1.
Definition pending_rows_of_run (runId : string) (d : db) : list string :=
  (sql_select (λ _ a, bool_decide (a.(a_run_id) = runId) && approval_pending a) d.(approvals)).*1.

Definition settlePendingForRun (runId : string) (restoreRunning : bool) (denyMessage : string)
    (now : instant) : sysM unit :=
  let resolution := if restoreRunning then "requester_disconnected" else "run_terminated" in
  pending <- the_pending ;;
  mapM_ (settle_entry runId resolution (deny_with denyMessage) now) (entries_of_run runId pending) ;;;
  swallow (d <- gets sys_db ;;
           mapM_ (sweep_row runId resolution now) (pending_rows_of_run runId d)) ;;;
  when restoreRunning do swallow (in_db (restore_awaiting runId now)).

Definition clearPendingForRun (runId : string) (now : instant) : sysM unit :=
  settlePendingForRun runId false "Run was terminated before approval could be processed" now.

Definition abandonPendingForRun (runId : string) (now : instant) : sysM unit :=
  settlePendingForRun runId true "Approval requester disconnected before a decision was made" now.

Definition orphanPendingForRun (runId : string) (now : instant) : sysM unit :=
  swallow (in_db (restore_awaiting runId now)).

Definition set_awaited (b : bool) (a : approval_row) : approval_row :=
  mk_approval a.(a_run_id) a.(a_tool_name) a.(a_tool_input_json) a.(a_tool_use_id) a.(a_status)
    a.(a_created_at) a.(a_decided_at) a.(a_decided_by) b.

Definition setAwaited (approvalId : string) (awaited : bool) (now : instant) : sysM unit :=
  swallow
    (n <- in_db (update_approval approvalId
                   (λ a, approval_pending a && negb (Bool.eqb a.(a_awaited) awaited))
                   (set_awaited awaited)) ;;
     if decide (n = 0) then mret tt
     else
       rid <- in_db (setPermissionReviewItemBlocking approvalId awaited now) ;;
       match rid with
       | Some id => emitReviewItemChangedById id "mutated"
       | None => mret tt
       end ;;;
       pending <- the_pending ;;
       match map_get approvalId pending with
       | Some e => emit (EvApprovalCreated e.(pe_request))
       | None => mret tt
       end).

Definition clearPendingForSource (runId source : string) (now : instant) : sysM unit :=
  pending <- the_pending ;;
  mapM_
    (settle_entry runId "invocation_terminated"
       (deny_with "Agent invocation ended before approval could be processed") now)
    (filter (λ kv, kv.2.(pe_request).(ar_runId) = runId ∧ kv.2.(pe_source) = source) pending).*1.

(** ** Restart recovery *)

(** [SELECT DISTINCT r.id ... JOIN approvals] *)
Definition stale_run_ids (d : db) : list string :=
  (sql_select
     (λ k r, has_status awaiting_review r
             && negb (bool_decide (pending_rows_of_run k d = [])))
     d.(workflow_runs)).*1.

Definition fail_interrupted (now : instant) (r : run_row) : run_row :=
  set_status failed (current_timestamp now)
    (set_lifecycle (Some "app_restart") (Some "interrupted") r.(r_started_at)
       (Some (current_timestamp now)) r).

Definition in_ids (ids : list string) (k : string) : bool := bool_decide (k ∈ ids).

(** The orphaned permission items of the recovered runs. *)
Definition orphaned_items (ids : list string) (d : db) : list (string * review_row) :=
  sql_select
    (λ _ v, bool_decide (v.(v_kind) = k_permission) && review_pending v
            && match v.(v_run_id) with Some r => in_ids ids r | None => false end)
    (items_of d).

Fixpoint resolve_orphans (l : list (string * review_row)) (now : instant) : dbM (list string) :=
  match l with
  | [] => mret []
  | (id, v) :: l' =>
      r <- resolveReviewItemById id "system" (Some "app_restart") now v.(v_run_id) ;;
      rs <- resolve_orphans l' now ;;
      mret (match r with Some i => i :: rs | None => rs end)
  end.

Definition recover_txn (now : instant) : dbM (nat * list string) :=
  transaction
    (d <- get ;;
     let ids := stale_run_ids d in
     if decide (ids = []) then mret (0, [])
     else
       modify (λ d, set_runs (sql_update (λ k _, in_ids ids k) (fail_interrupted now)
                                d.(workflow_runs)) d) ;;;
       modify (λ d, set_approvals
                      (sql_update (λ _ a, in_ids ids a.(a_run_id) && approval_pending a)
                         (decide_approval a_timed_out (current_timestamp now) "system")
                         d.(approvals)) d) ;;;
       d' <- get ;;
       resolved <- (if hasReviewItemsTable d' then resolve_orphans (orphaned_items ids d') now
                    else mret []) ;;
       mret (length ids, resolved)).

Definition recoverStaleAwaitingReview (now : instant) : sysM nat :=
  r <- in_db (recover_txn now) ;;
  mapM_ (λ id, swallow (emitReviewItemChangedById id "resolved")) r.2 ;;;
  mret r.1.

Definition getPending : sysM (list approval_request) :=
  pending <- the_pending ;; mret (pe_request ∘ snd <$> pending).

(** ** Every operation stays on legal edges *)

Lemma pending_delete_refines id : preserves sys_refine (pending_delete id).
Proof. by apply modify_refines. Qed.
Lemma pending_set_refines id e : preserves sys_refine (pending_set id e).
Proof. by apply modify_refines. Qed.
#[export] Hint Resolve pending_delete_refines pending_set_refines : refine.

Lemma swallow_refines m : preserves sys_refine m → preserves sys_refine (swallow m).
Proof. intros H. unfold swallow. apply preserves_catch; [typeclasses eauto|done|solve_refine]. Qed.

Lemma resolve_linked_refines id who res now r :
  preserves runs_refine (resolve_linked id who res now r).
Proof. unfold resolve_linked. solve_refine. Qed.
Lemma decide_any_refines id s who now : preserves runs_refine (decide_any id s who now).
Proof. unfold decide_any. solve_refine. Qed.
Lemma decide_pending_refines id s who now : preserves runs_refine (decide_pending id s who now).
Proof. apply update_approval_refines. Qed.
#[export] Hint Resolve resolve_linked_refines decide_any_refines decide_pending_refines : refine.

Lemma grab_txn_refines f req src now : preserves runs_refine (grab_txn f req src now).
Proof. unfold grab_txn. solve_refine. Qed.
#[export] Hint Resolve grab_txn_refines : refine.

Lemma request_attempt_refines f req src cb now :
  preserves sys_refine (request_attempt f req src cb now).
Proof. unfold request_attempt. solve_refine. Qed.

Lemma restore_from_refines l runId now :
  (∀ s, s ∈ l → edge s running ∨ s = running) → preserves runs_refine (restore_from l runId now).
Proof.
  intros Hl. apply update_run_refines. intros r Hr%bool_decide_eq_true.
  split; [by split_and!|]. simpl.
  destruct (Hl _ Hr) as [He|He]; [by apply rtc_once|by rewrite He].
Qed.

Lemma restore_allow_refines runId now :
  preserves runs_refine (restore_from [awaiting_review; running; stuck] runId now).
Proof. apply restore_from_refines. intros s. repeat rewrite elem_of_cons. rewrite elem_of_nil.
  intros [->|[->|[->|[]]]]; [left|by right|left]; by apply edge_spec. Qed.
Lemma restore_deny_refines runId now :
  preserves runs_refine (restore_from [awaiting_review; stuck] runId now).
Proof. apply restore_from_refines. intros s. repeat rewrite elem_of_cons. rewrite elem_of_nil.
  intros [->|[->|[]]]; left; by apply edge_spec. Qed.
Lemma restore_awaiting_refines runId now : preserves runs_refine (restore_awaiting runId now).
Proof. unfold restore_awaiting. solve_refine. Qed.
#[export] Hint Resolve restore_allow_refines restore_deny_refines restore_awaiting_refines : refine.

Lemma respond_task_refines id dec now : preserves sys_refine (respond_task id dec now).
Proof. unfold respond_task, the_pending. solve_refine. Qed.
Lemma settleStale_refines id dec now :
  preserves sys_refine (settleStalePendingApproval id dec now).
Proof. unfold settleStalePendingApproval. solve_refine. Qed.
#[export] Hint Resolve respond_task_refines settleStale_refines : refine.

Lemma respond_refines id dec now : preserves sys_refine (respond id dec now).
Proof. unfold respond, the_pending. solve_refine. Qed.

Lemma settle_entry_refines r res dn now id : preserves sys_refine (settle_entry r res dn now id).
Proof. unfold settle_entry, swallow. solve_refine. Qed.
Lemma sweep_row_refines r res now id : preserves sys_refine (sweep_row r res now id).
Proof. unfold sweep_row. solve_refine. Qed.
#[export] Hint Resolve settle_entry_refines sweep_row_refines : refine.

Lemma settlePendingForRun_refines r b m now : preserves sys_refine (settlePendingForRun r b m now).
Proof. unfold settlePendingForRun, the_pending, swallow. solve_refine. Qed.
Lemma orphan_refines r now : preserves sys_refine (orphanPendingForRun r now).
Proof. unfold orphanPendingForRun, swallow. solve_refine. Qed.
Lemma setAwaited_refines id b now : preserves sys_refine (setAwaited id b now).
Proof. unfold setAwaited, swallow, the_pending. solve_refine. Qed.
Lemma clearPendingForSource_refines r src now :
  preserves sys_refine (clearPendingForSource r src now).
Proof. unfold clearPendingForSource, the_pending. solve_refine. Qed.
#[export] Hint Resolve request_attempt_refines respond_refines settlePendingForRun_refines
  orphan_refines setAwaited_refines clearPendingForSource_refines : refine.

Lemma resolve_orphans_frame l now : preserves items_frame (resolve_orphans l now).
Proof.
  induction l as [|[id v] l IH]; simpl; [solve_frame|].
  apply preserves_bind; [typeclasses eauto| |intros; apply preserves_bind; [typeclasses eauto|done|solve_frame]].
  apply (run_command_frame (ResolveById id "system" (Some "app_restart") (v_run_id v), now)).
Qed.

Lemma resolve_orphans_ok l now d : ∃ x d', resolve_orphans l now d = (Ok x, d').
Proof.
  revert d. induction l as [|[id v] l IH]; intros d; simpl; [by eexists _, _|].
  unfold mbind.
  destruct (resolveById_ok id "system" (Some "app_restart") now (v_run_id v) d) as (x & d' & ->).
  destruct (IH d') as (y & d'' & ->). by eexists _, _.
Qed.

Lemma elem_of_stale_run_ids d k :
  k ∈ stale_run_ids d
  ↔ ∃ r, d.(workflow_runs) !! k = Some r ∧ r.(r_status) = awaiting_review
         ∧ ∃ id a, d.(approvals) !! id = Some a ∧ a.(a_run_id) = k ∧ a.(a_status) = a_pending.
Proof.
  unfold stale_run_ids. rewrite list_elem_of_fmap. split.
  - intros ([k' r] & -> & [Hr Hp]%elem_of_sql_select). unfold has_status in Hp. bool_hyps. simpl. exists r.
    split; [done|]. split; [done|].
    destruct (pending_rows_of_run k' d) as [|id l] eqn:Hl; [done|].
    assert (id ∈ pending_rows_of_run k' d) as Hin by (rewrite Hl; left).
    unfold pending_rows_of_run in Hin. apply list_elem_of_fmap in Hin as ([id' a] & -> & Ha).
    apply elem_of_sql_select in Ha as [Ha Hb]. bool_hyps. unfold approval_pending in *. bool_hyps. eauto 6.
  - intros (r & Hr & Hst & id & a & Ha & Hrun & Hp). exists (k, r). split; [done|].
    apply elem_of_sql_select. split; [done|]. unfold has_status. rewrite bool_decide_true by done.
    simpl. apply negb_true_iff, bool_decide_eq_false. intros Hnil.
    assert (id ∈ pending_rows_of_run k d) as Hin.
    { unfold pending_rows_of_run. apply list_elem_of_fmap. exists (id, a). split; [done|].
      apply elem_of_sql_select. split; [done|]. unfold approval_pending.
      by rewrite !bool_decide_true. }
    rewrite Hnil in Hin. by apply not_elem_of_nil in Hin.
Qed.

(** The state after the two bulk UPDATEs of the recovery. *)
Definition recovered_db (now : instant) (d : db) : db :=
  let ids := stale_run_ids d in
  set_approvals
    (sql_update (λ _ a, in_ids ids a.(a_run_id) && approval_pending a)
       (decide_approval a_timed_out (current_timestamp now) "system") d.(approvals))
    (set_runs (sql_update (λ k _, in_ids ids k) (fail_interrupted now) d.(workflow_runs)) d).

Lemma recover_txn_db now d :
  (∃ n l, (recover_txn now d).1 = Ok (n, l) ∧ n = length (stale_run_ids d))
  ∧ (if decide (stale_run_ids d = []) then (recover_txn now d).2 = d
     else items_frame (recovered_db now d) (recover_txn now d).2).
Proof.
  unfold recover_txn, transaction, mbind, get, modify. simpl.
  destruct (decide (stale_run_ids d = [])) as [Hn|Hn]; simpl.
  { rewrite Hn. split; [by eexists _, _|done]. }
  fold (recovered_db now d).
  destruct (hasReviewItemsTable (recovered_db now d)).
  - pose proof (resolve_orphans_frame (orphaned_items (stale_run_ids d) (recovered_db now d)) now
      (recovered_db now d)) as Hf.
    destruct (resolve_orphans_ok (orphaned_items (stale_run_ids d) (recovered_db now d)) now
      (recovered_db now d)) as (x & d'' & Hx).
    rewrite Hx in *. simpl in *. split; [by eexists _, _|done].
  - simpl. split; [by eexists _, _|reflexivity].
Qed.

Lemma recover_refines now : preserves sys_refine (recoverStaleAwaitingReview now).
Proof.
  unfold recoverStaleAwaitingReview, swallow. apply preserves_bind; [typeclasses eauto| |solve_refine].
  apply in_db_refines. intros d. destruct (recover_txn_db now d) as [_ H].
  case_decide as Hn; [rewrite H; reflexivity|].
  etransitivity; [|by apply items_frame_refines]. split; [done|]. intros k. unfold recovered_db. simpl.
  rewrite sql_update_lookup. destruct (d.(workflow_runs) !! k) as [r|] eqn:Hr; simpl; constructor.
  unfold in_ids. case_bool_decide as Hin; [|done]. split; [by split_and!|]. simpl.
  apply elem_of_stale_run_ids in Hin as (r' & Hr' & Hst & _). simplify_eq.
  rewrite Hst. apply rtc_once. by apply edge_spec.
Qed.
#[export] Hint Resolve recover_refines : refine.

(** Boot recovery fails exactly the runs awaiting review with a pending approval
    (stamped app_restart / interrupted) and leaves every other run untouched, leaves no
    pending approval row of the recovered runs, does not touch the in-memory map, and
    returns their number. *)
Theorem recoverStale_spec now s :
  let d := s.(sys_db) in
  let '(res, s') := recoverStaleAwaitingReview now s in
  res = Ok (length (stale_run_ids d))
  ∧ (∀ k, k ∈ stale_run_ids d ↔
       ∃ r, d.(workflow_runs) !! k = Some r ∧ r.(r_status) = awaiting_review
            ∧ ∃ id a, d.(approvals) !! id = Some a ∧ a.(a_run_id) = k ∧ a.(a_status) = a_pending)
  ∧ (∀ k r, d.(workflow_runs) !! k = Some r →
       s'.(sys_db).(workflow_runs) !! k
       = Some (if decide (k ∈ stale_run_ids d) then fail_interrupted now r else r))
  ∧ (∀ id a, s'.(sys_db).(approvals) !! id = Some a →
       a.(a_run_id) ∈ stale_run_ids d → a.(a_status) ≠ a_pending)
  ∧ s'.(sys_pending) = s.(sys_pending).
Proof.
  destruct s as [d p l q]. simpl. unfold recoverStaleAwaitingReview. unfold mbind at 1, in_db, zoom. simpl.
  destruct (recover_txn_db now d) as [(n & ids & Hres & ->) Hdb].
  destruct (recover_txn now d) as [res d'] eqn:Htx. simpl in Hres, Hdb. subst res. simpl.
  set (emits := mapM_ (λ id, swallow (emitReviewItemChangedById id "resolved")) ids).
  assert (∀ s, ∃ l', emits s = (Ok tt, mk_sys s.(sys_db) s.(sys_pending) l' s.(sys_questions))) as Hem.
  { unfold emits. clear. induction ids as [|i ids IH]; intros [d p l q]; simpl; [by eexists|].
    unfold mbind, swallow, catch, emitReviewItemChangedById, gets, mbind. simpl.
    destruct (items_of d !! i); simpl; [|by apply (IH (mk_sys d p l q))].
    apply (IH (mk_sys d p _ q)). }
  unfold mbind. destruct (Hem (set_db d' (mk_sys d p l q))) as [l' ->]. simpl.
  split_and!; [done|apply elem_of_stale_run_ids| | |done].
  - intros k r Hr. case_decide as Hn.
    + subst d'. rewrite Hn, Hr. case_decide as Hin; [by apply not_elem_of_nil in Hin|done].
    + destruct Hdb as [-> _]. unfold recovered_db. simpl. rewrite sql_update_lookup, Hr. simpl.
      unfold in_ids. case_bool_decide; by case_decide.
  - intros id a Ha Hin. case_decide as Hn; [rewrite Hn in Hin; by apply not_elem_of_nil in Hin|].
    destruct Hdb as (_ & _ & _ & Hap & _). rewrite Hap in Ha. unfold recovered_db in Ha. simpl in Ha.
    rewrite sql_update_lookup in Ha. destruct (d.(approvals) !! id) as [a0|]; simplify_eq/=.
    unfold in_ids, approval_pending in *. repeat case_bool_decide; simpl in *; try done; congruence.
Qed.

(** ** One attempt of [requestApproval] *)

Definition pending_approval (req : approval_request) (now : instant) : approval_row :=
  mk_approval req.(ar_runId) req.(ar_toolName) req.(ar_input) req.(ar_id) a_pending now None None
    true.

(** The database after the gate is taken and the row inserted. *)
Definition gated_db (req : approval_request) (now : instant) (r : run_row) (d : db) : db :=
  set_approvals (<[req.(ar_id) := pending_approval req now]> d.(approvals))
    (set_runs (<[req.(ar_runId) := set_status awaiting_review now r]> d.(workflow_runs)) d).

Lemma grab_txn_eq freshId req source now d :
  grab_txn freshId req source now d
  = match d.(workflow_runs) !! req.(ar_runId) with
    | Some r =>
        if has_status running r then
          match d.(approvals) !! req.(ar_id) with
          | Some _ => (Throw (SqlUniqueViolation "approvals" req.(ar_id)), d)
          | None =>
              match coWritePermissionReviewItem freshId req.(ar_id) req.(ar_runId)
                      req.(ar_toolName) req.(ar_input) source now (gated_db req now r d) with
              | (Ok _, d') => (Ok true, d')
              | (Throw e, _) => (Throw e, d)
              end
          end
        else (Ok false, d)
    | None => (Ok false, d)
    end.
Proof.
  unfold grab_txn, transaction. unfold mbind at 1. rewrite assertTransitionAllowed_ok by done.
  unfold mbind at 1. case_update_run.
  - rewrite Hr, Hp. unfold mbind at 1, insert_approval. simpl.
    destruct (d.(approvals) !! ar_id req); [done|]. unfold mbind. fold (pending_approval req now).
    fold (gated_db req now r d).
    by destruct (coWritePermissionReviewItem _ _ _ _ _ _ _ _) as [[?|?] ?].
  - destruct (d.(workflow_runs) !! ar_runId req) as [r|] eqn:Hl; [|done]. by rewrite (Hr r).
Qed.

Lemma request_attempt_eq freshId req source onCreated now s :
  request_attempt freshId req source onCreated now s
  = match s.(sys_db).(workflow_runs) !! req.(ar_runId) with
    | Some r =>
        if has_status running r then
          match s.(sys_db).(approvals) !! req.(ar_id) with
          | Some _ => (Throw (SqlUniqueViolation "approvals" req.(ar_id)), s)
          | None =>
              match coWritePermissionReviewItem freshId req.(ar_id) req.(ar_runId)
                      req.(ar_toolName) req.(ar_input) source now
                      (gated_db req now r s.(sys_db)) with
              | (Ok _, d') =>
                  (Ok grabbed,
                   mk_sys d' (map_set req.(ar_id) (mk_pending req source) s.(sys_pending))
                     (s.(sys_log) ++ (if onCreated then [EvOnCreated req.(ar_id)] else [])
                        ++ [EvApprovalCreated req]) s.(sys_questions))
              | (Throw e, _) => (Throw e, s)
              end
          end
        else if has_status awaiting_review r then (Ok wait, s)
        else (Throw (RunNotRunningError req.(ar_runId)), s)
    | None => (Throw (RunNotRunningError req.(ar_runId)), s)
    end.
Proof.
  destruct s as [d p l q]. unfold request_attempt. unfold mbind at 1, in_db, zoom. simpl.
  rewrite grab_txn_eq. destruct (d.(workflow_runs) !! ar_runId req) as [r|] eqn:Hr.
  - destruct (has_status running r) eqn:Hrun.
    + destruct (d.(approvals) !! ar_id req); [done|].
      destruct (coWritePermissionReviewItem _ _ _ _ _ _ _ _) as [[?|?] ?]; [|done].
      unfold mbind, pending_set, modify, emit, set_db, set_pending, add_log, mret. simpl.
      destruct onCreated; simpl; [|done]. by rewrite <- (assoc_L (++)).
    + simpl. unfold mbind, gets, set_db. simpl. unfold status_of. rewrite Hr. simpl.
      unfold has_status. case_decide as Hd; case_bool_decide; try done; congruence.
  - simpl. unfold mbind, gets, set_db. simpl. unfold status_of. rewrite Hr. simpl.
    done.
Qed.

(** One attempt to take a run's approval gate: it grabs it exactly from running, and
    then the run awaits review, the fresh row is pending, the entry is registered and (on a
    migrated database) a blocking inbox item is linked to it; it waits, changing nothing,
    when the run already awaits review; in every other case it throws and rolls everything
    back. *)
Theorem request_attempt_spec freshId req source onCreated now s :
  let d := s.(sys_db) in
  let '(res, s') := request_attempt freshId req source onCreated now s in
  match res with
  | Ok grabbed =>
      status_of d req.(ar_runId) = Some running
      ∧ status_of s'.(sys_db) req.(ar_runId) = Some awaiting_review
      ∧ d.(approvals) !! req.(ar_id) = None
      ∧ s'.(sys_db).(approvals) = <[req.(ar_id) := pending_approval req now]> d.(approvals)
      ∧ map_get req.(ar_id) s'.(sys_pending) = Some (mk_pending req source)
      ∧ (hasReviewItemsTable d = true → ∃ v,
           items_of s'.(sys_db) !! freshId = Some v ∧ linked_permission req.(ar_id) v = true
           ∧ pending_blocking req.(ar_runId) v = true)
  | Ok wait => s' = s ∧ status_of d req.(ar_runId) = Some awaiting_review
  | Throw _ => s' = s ∧ status_of d req.(ar_runId) ≠ Some awaiting_review
  end.
Proof.
  simpl. rewrite request_attempt_eq. unfold status_of.
  destruct (workflow_runs (sys_db s) !! ar_runId req) as [r|] eqn:Hr; [|by simpl].
  destruct (has_status running r) eqn:Hrun.
  - apply bool_decide_eq_true in Hrun. simpl.
    destruct (approvals (sys_db s) !! ar_id req) eqn:Ha; [simpl; split; congruence|].
    pose proof (run_command_frame
      (CoWritePermission freshId req.(ar_id) req.(ar_runId) req.(ar_toolName) req.(ar_input) source, now)
      (gated_db req now r (sys_db s))) as Hf. unfold run_command in Hf. simpl in Hf.
    destruct (coWritePermissionReviewItem _ _ _ _ _ _ _ _) as [[o|e] d'] eqn:Hco; simpl in *;
      [|split; congruence].
    destruct Hf as (Hruns & _ & _ & Happ & _). rewrite Hruns, Happ. simpl.
    rewrite lookup_insert_eq, map_get_set_eq. simpl. split_and!; try done; [congruence|].
    intros Ht. unfold coWritePermissionReviewItem, mbind, get in Hco. simpl in Hco.
    unfold hasReviewItemsTable in *. simpl in *.
    destruct (review_items (sys_db s)) as [t|] eqn:Hti; [|done]. simpl in Hco.
    unfold projectIdForRun in Hco. simpl in Hco. rewrite lookup_insert_eq in Hco. simpl in Hco.
    rewrite (co_write_eq _ _ _ _ _ _ _ _ _ t) in Hco by done.
    destruct (t !! freshId); simplify_eq/=. eexists. split; [unfold items_of; simpl; by rewrite lookup_insert_eq|].
    unfold linked_permission, pending_blocking, human_audience. simpl.
    by rewrite !bool_decide_true by done.
  - destruct (has_status awaiting_review r) eqn:Haw; simpl.
    + apply bool_decide_eq_true in Haw. split; [done|congruence].
    + apply bool_decide_eq_false in Haw. split; [done|congruence].
Qed.

(** ** The wait loop *)

(** The schedule keeps the run in [awaiting_review] at every retry but the
    last, which finds the state [s'] at the instant [now']. *)
Inductive waits (runId : string) : sys → instant → list ((sys → sys) * instant) → sys → instant → Prop :=
  | waits_nil s now : waits runId s now [] s now
  | waits_cons s now f now1 env s' now' :
      status_of s.(sys_db) runId = Some awaiting_review →
      waits runId (f s) now1 env s' now' →
      waits runId s now ((f, now1) :: env) s' now'.

Lemma request_attempt_waits freshId req source onCreated now s :
  status_of s.(sys_db) req.(ar_runId) = Some awaiting_review →
  request_attempt freshId req source onCreated now s = (Ok wait, s).
Proof.
  unfold status_of. intros Hst. rewrite request_attempt_eq.
  destruct (_ !! _) as [r|]; simplify_eq/=. unfold has_status.
  by rewrite bool_decide_false, bool_decide_true by congruence.
Qed.

(** A schedule that keeps the gate busy only delays the call: it never fails
    meanwhile, and it ends as the attempt on the state it finally finds. *)
Lemma request_loop_waits freshId req source onCreated s now env s' now' :
  waits req.(ar_runId) s now env s' now' →
  request_loop freshId req source onCreated now env s
  = (o <- request_attempt freshId req source onCreated now' ;;
     mret (match o with grabbed => Some grabbed | wait => None end)) s'.
Proof.
  induction 1 as [s now|s now f now1 env s' now' Hst Hw IH]; simpl; unfold mbind in *.
  - by destruct (request_attempt _ _ _ _ _ _) as [[[]|?] ?].
  - rewrite request_attempt_waits by done. unfold modify. by rewrite IH.
Qed.

(** C36: A request that finds the gate taken and waits gets it: after any schedule of waits
    at the end of which the run is running, requestApproval grabs the gate, the run awaits
    review and the entry is registered with the request minted at the start. *)
Theorem requestApproval_eventually approvalId freshId runId toolName input source onCreated now
    env s s' now' :
  waits runId s now env s' now' →
  status_of s'.(sys_db) runId = Some running →
  s'.(sys_db).(approvals) !! approvalId = None →
  items_of s'.(sys_db) !! freshId = None →
  let '(res, s'') :=
    requestApproval approvalId freshId runId toolName input source onCreated now env s in
  res = Ok (Some grabbed)
  ∧ status_of s''.(sys_db) runId = Some awaiting_review
  ∧ map_get approvalId s''.(sys_pending)
    = Some (mk_pending (mk_request approvalId runId toolName input now) source).
Proof.
  intros Hw Hrun Happ Hit. unfold requestApproval.
  set (req := mk_request approvalId runId toolName input now).
  rewrite (request_loop_waits freshId req source onCreated s now env s' now' Hw).
  unfold mbind. rewrite request_attempt_eq. simpl. unfold status_of in *.
  destruct (_ !! runId) as [r|] eqn:Hr; simplify_eq/=.
  unfold has_status. rewrite bool_decide_true by congruence. rewrite Happ.
  pose proof (run_command_frame
    (CoWritePermission freshId approvalId runId toolName input source, now')
    (gated_db req now' r (sys_db s'))) as Hf. unfold run_command in Hf. simpl in Hf.
  assert (∃ o d', coWritePermissionReviewItem freshId approvalId runId toolName input source now'
    (gated_db req now' r (sys_db s')) = (Ok o, d')) as (o & d' & Hco).
  { unfold coWritePermissionReviewItem, mbind, get. unfold hasReviewItemsTable, items_of in *. simpl.
    destruct (review_items (sys_db s')) as [t|] eqn:Ht; simpl in *; [|eauto].
    destruct (projectIdForRun _ _); simpl; [|eauto].
    rewrite (co_write_eq _ _ _ _ _ _ _ _ _ t) by done. rewrite Hit. eauto. }
  rewrite Hco in *. simpl in *. destruct Hf as (Hruns & _). rewrite Hruns. simpl.
  by rewrite lookup_insert_eq, map_get_set_eq.
Qed.

(** ** The exactly-once invariant

    Every approval is settled at most once, its socket hears at most one reply
    and only the decision its Promise was resolved with, and the row agrees
    with the decision. *)

Definition resolutions (id : string) (l : list effect) : list approval_decision :=
  omap (λ e, match e with EvResolve i d => if decide (i = id) then Some d else None | _ => None end) l.
Definition replies (id : string) (l : list effect) : list approval_decision :=
  omap (λ e, match e with EvSocketReply i d => if decide (i = id) then Some d else None | _ => None end) l.

Definition status_for (b : behavior) : approval_status :=
  match b with allow => a_approved | deny => a_rejected end.

Definition pending_row (ap : gmap string approval_row) (id runId : string) : Prop :=
  ∃ a, ap !! id = Some a ∧ a.(a_status) = a_pending ∧ a.(a_run_id) = runId.

(** What the invariant says of one approval. *)
Definition settled_once (ap : gmap string approval_row) (entry : option pending_entry)
    (res rep : list approval_decision) (id : string) : Prop :=
  match res with
  | [] => rep = []
  | [d] => entry = None
           ∧ (∃ a, ap !! id = Some a ∧ a.(a_status) = status_for d.(ad_behavior))
           ∧ (rep = [] ∨ rep = [d])
  | _ => False
  end.

Record router_inv (s : sys) : Prop := {
  ri_nodup : NoDup s.(sys_pending).*1;
  ri_entry id e : map_get id s.(sys_pending) = Some e →
    e.(pe_request).(ar_id) = id
    ∧ pending_row s.(sys_db).(approvals) id e.(pe_request).(ar_runId);
  ri_once id : settled_once s.(sys_db).(approvals) (map_get id s.(sys_pending))
                 (resolutions id s.(sys_log)) (replies id s.(sys_log)) id
}.

(** Effects that settle nothing. *)
Definition silent (e : effect) : bool :=
  match e with EvResolve _ _ | EvSocketReply _ _ => false | _ => true end.

Lemma silent_resolutions id l ev : forallb silent ev = true → resolutions id (l ++ ev) = resolutions id l.
Proof.
  intros H. unfold resolutions. rewrite omap_app.
  enough (omap (λ e, match e with EvResolve i d => if decide (i = id) then Some d else None
                     | _ => None end) ev = []) as -> by apply app_nil_r.
  induction ev as [|e ev IH]; [done|]. simpl in H. bool_hyps. simpl.
  destruct e; try done; by apply IH.
Qed.

Lemma silent_replies id l ev : forallb silent ev = true → replies id (l ++ ev) = replies id l.
Proof.
  intros H. unfold replies. rewrite omap_app.
  enough (omap (λ e, match e with EvSocketReply i d => if decide (i = id) then Some d else None
                     | _ => None end) ev = []) as -> by apply app_nil_r.
  induction ev as [|e ev IH]; [done|]. simpl in H. bool_hyps. simpl.
  destruct e; try done; by apply IH.
Qed.

(** Moves of the three kinds the operations are made of. *)

(** Rows change only where nothing was pending, and nothing is settled. *)
Lemma inv_quiet s s' ev :
  router_inv s → s'.(sys_pending) = s.(sys_pending) → s'.(sys_log) = s.(sys_log) ++ ev →
  forallb silent ev = true →
  (∀ id a, s.(sys_db).(approvals) !! id = Some a →
     ∃ a', s'.(sys_db).(approvals) !! id = Some a' ∧ a'.(a_run_id) = a.(a_run_id)
           ∧ (a'.(a_status) = a.(a_status)
              ∨ a.(a_status) = a_pending ∧ map_get id s.(sys_pending) = None)) →
  router_inv s'.
Proof.
  intros [Hnd He Ho] Hp Hl Hs Hrows. split; [by rewrite Hp| |]; intros id.
  - intros e Hg. rewrite Hp in Hg. destruct (He id e Hg) as [Hid (a & Ha & Hst & Hr)]. split; [done|].
    destruct (Hrows id a Ha) as (a' & Ha' & Hr' & [Hst'|[_ Hn]]); [|congruence].
    exists a'. split_and!; congruence.
  - rewrite Hl, silent_resolutions, silent_replies, Hp by done. specialize (Ho id).
    unfold settled_once in *. destruct (resolutions id (sys_log s)) as [|d [|]]; [done| |done].
    destruct Ho as (Hn & (a & Ha & Hst) & Hrep). split_and!; [done| |done].
    destruct (Hrows id a Ha) as (a' & Ha' & _ & [Hst'|[Hst' _]]).
    + exists a'. split; congruence.
    + rewrite Hst in Hst'. by destruct (ad_behavior d).
Qed.

(** One pending approval is settled. *)
Lemma inv_settle s s' id d entry rep ev :
  router_inv s → map_get id s.(sys_pending) = Some entry →
  s'.(sys_pending) = map_delete id s.(sys_pending) →
  s'.(sys_log) = s.(sys_log) ++ EvResolve id d :: rep ++ ev →
  rep = [] ∨ rep = [EvSocketReply id d] → forallb silent ev = true →
  (∃ a, s'.(sys_db).(approvals) !! id = Some a ∧ a.(a_status) = status_for d.(ad_behavior)) →
  (∀ j, j ≠ id → s'.(sys_db).(approvals) !! j = s.(sys_db).(approvals) !! j) →
  router_inv s'.
Proof.
  intros [Hnd He Ho] Hg Hp Hl Hrep Hs Hrow Hrest.
  assert (∀ j, resolutions j s'.(sys_log)
    = resolutions j s.(sys_log) ++ (if decide (id = j) then [d] else [])) as Hres.
  { intros j. rewrite Hl. change (EvResolve id d :: rep ++ ev) with (([EvResolve id d] ++ rep) ++ ev).
    rewrite (assoc_L (++)), silent_resolutions by done. unfold resolutions. rewrite omap_app.
    f_equal. destruct Hrep as [-> | ->]; simpl; by case_decide. }
  assert (∀ j, replies j s'.(sys_log)
    = replies j s.(sys_log) ++ (if decide (id = j) then match rep with [] => [] | _ => [d] end else [])) as Hrs.
  { intros j. rewrite Hl. change (EvResolve id d :: rep ++ ev) with (([EvResolve id d] ++ rep) ++ ev).
    rewrite (assoc_L (++)), silent_replies by done. unfold replies. rewrite omap_app.
    f_equal. destruct Hrep as [-> | ->]; simpl; by case_decide. }
  split; [by rewrite Hp; apply map_delete_NoDup| |]; intros j.
  - intros e Hj. rewrite Hp, map_get_delete in Hj. case_decide as Hd; [done|].
    destruct (He j e Hj) as [Hid (a & Ha & Hrest')]. split; [done|]. exists a.
    by rewrite Hrest by done.
  - rewrite Hp, Hres, Hrs, map_get_delete. specialize (Ho j). unfold settled_once in *.
    case_decide as Hd.
    + subst j. destruct (He id entry Hg) as [_ (a & Ha & Hst & _)].
      destruct (resolutions id (sys_log s)) as [|d' [|]]; simpl; [|by destruct Ho; congruence|done].
      rewrite Ho. simpl. split_and!; [done|done|]. by destruct Hrep as [-> | ->]; [left|right].
    + rewrite !app_nil_r. destruct (resolutions j (sys_log s)) as [|d' [|]]; [done| |done].
      destruct Ho as (? & (a & Ha & ?) & ?). split_and!; [done| |done]. exists a.
      by rewrite Hrest by done.
Qed.

(** ** The operations as moves *)

Lemma resolve_linked_keeps id who res now r d :
  ∃ d', resolve_linked id who res now r d = (Ok tt, d') ∧ items_frame d d'.
Proof.
  unfold resolve_linked, mbind.
  pose proof (run_command_frame (ResolvePermission id who (Some res) r, now) d) as Hf.
  unfold run_command in Hf. simpl in Hf.
  destruct (resolvePermission_ok id who (Some res) now r d) as (x & d' & Heq).
  rewrite Heq in *. by exists d'.
Qed.

Lemma restore_from_keeps l runId now d :
  ∃ n d', restore_from l runId now d = (Ok n, d') ∧ d'.(approvals) = d.(approvals).
Proof. unfold restore_from. case_update_run; by eexists _, _. Qed.

Lemma restore_awaiting_keeps runId now d :
  ∃ d', restore_awaiting runId now d = (Ok tt, d') ∧ d'.(approvals) = d.(approvals).
Proof.
  unfold restore_awaiting, mbind. rewrite assertTransitionAllowed_ok by done.
  case_update_run; by eexists.
Qed.

Lemma decide_any_eq id s who now d a :
  d.(approvals) !! id = Some a →
  decide_any id s who now d
  = (Ok tt, set_approvals (<[id := decide_approval s now who a]> d.(approvals)) d).
Proof.
  intros Ha. unfold decide_any, mbind, update_approval, sql_update_id. by rewrite Ha.
Qed.

Lemma decide_pending_eq id s who now d a :
  d.(approvals) !! id = Some a → a.(a_status) = a_pending →
  decide_pending id s who now d
  = (Ok 1, set_approvals (<[id := decide_approval s now who a]> d.(approvals)) d).
Proof.
  intros Ha Hp. unfold decide_pending, update_approval, sql_update_id. rewrite Ha.
  unfold approval_pending. by rewrite bool_decide_true.
Qed.

Lemma decide_pending_none id s who now d :
  (∀ a, d.(approvals) !! id = Some a → a.(a_status) ≠ a_pending) →
  decide_pending id s who now d = (Ok 0, d).
Proof.
  intros H. unfold decide_pending. case_update_approval; [|done].
  exfalso. apply (H a Ha). by apply bool_decide_eq_true in Hp.
Qed.

(** Step through a database computation inside the process. *)
Lemma in_db_step {A B} (m : dbM A) (k : A → sysM B) s a d' :
  m s.(sys_db) = (Ok a, d') → (a <- in_db m ;; k a) s = k a (set_db d' s).
Proof. intros H. unfold mbind, in_db, zoom. by rewrite H. Qed.

(** What settling an approval does, whoever settles it: the row takes [st], the
    Promise resolves with [d], the socket hears [rep]. *)
Definition settles (id : string) (st : approval_status) (who : string) (d : approval_decision)
    (rep : list effect) (s s' : sys) : Prop :=
  s'.(sys_pending) = map_delete id s.(sys_pending)
  ∧ (∃ a now, s.(sys_db).(approvals) !! id = Some a
       ∧ s'.(sys_db).(approvals) = <[id := decide_approval st now who a]> s.(sys_db).(approvals))
  ∧ (∃ ev, s'.(sys_log) = s.(sys_log) ++ EvResolve id d :: rep ++ ev ∧ forallb silent ev = true).

Lemma settles_inv id st who d rep entry s s' :
  router_inv s → map_get id s.(sys_pending) = Some entry →
  settles id st who d rep s s' → st = status_for d.(ad_behavior) →
  rep = [] ∨ rep = [EvSocketReply id d] → router_inv s'.
Proof.
  intros Hi Hg (Hp & (a & now & Ha & Hap) & ev & Hl & Hs) Hst Hrep.
  eapply (inv_settle s s' id d entry rep ev); try done.
  - exists (decide_approval st now who a). rewrite Hap, lookup_insert_eq. by subst.
  - intros j Hj. by rewrite Hap, lookup_insert_ne.
Qed.

(** The statuses an answer may restore a run from. *)
Definition answer_sources (b : behavior) : list run_status :=
  match b with allow => [awaiting_review; running; stuck] | deny => [awaiting_review; stuck] end.

(** Whether an [allow] finds its run alive. *)
Definition run_live (d : db) (runId : string) : bool :=
  match status_of d runId with Some st => status_in (answer_sources allow) st | None => false end.

Definition restored_runs (b : behavior) (runId : string) (now : instant) (d : db)
    : gmap string run_row :=
  (restore_from (answer_sources b) runId now d).2.(workflow_runs).

Lemma restore_allow_changes runId now d n d' :
  restore_from (answer_sources allow) runId now d = (Ok n, d') →
  run_live d runId = bool_decide (n ≠ 0).
Proof.
  unfold restore_from, run_live, status_of. case_update_run; intros [= <- <-].
  - rewrite Hr. simpl. unfold has_status_in in Hp. by rewrite Hp.
  - destruct (d.(workflow_runs) !! runId) as [r|]; [|done]. simpl.
    specialize (Hr r eq_refl). unfold has_status_in in Hr. by rewrite Hr.
Qed.

Lemma respond_task_settles id dec now s entry :
  router_inv s → map_get id s.(sys_pending) = Some entry →
  let runId := entry.(pe_request).(ar_runId) in
  ∃ s' st who d rep,
    respond_task id dec now s = (Ok tt, s')
    ∧ settles id st who d rep s s' ∧ st = status_for d.(ad_behavior)
    ∧ s'.(sys_db).(workflow_runs) = restored_runs dec.(ad_behavior) runId now s.(sys_db)
    ∧ (if bool_decide (dec.(ad_behavior) = allow) && negb (run_live s.(sys_db) runId)
       then d = deny_with SUPERSEDED_MESSAGE ∧ rep = []
       else d = dec ∧ rep = [EvSocketReply id dec] ∧ who = "user").
Proof.
  intros Hi Hg. destruct (ri_entry s Hi id entry Hg) as [Hid (a & Ha & Hst & Hrun)].
  destruct s as [d p l q]. unfold respond_task. unfold mbind at 1, the_pending, gets. simpl in *.
  rewrite Hg. unfold mbind at 1, pending_delete, modify, set_pending. simpl.
  set (runId := ar_runId (pe_request entry)) in *.
  destruct (ad_behavior dec) eqn:Hb; unfold restored_runs.
  - rewrite (in_db_step _ _ _ tt d) by done.
    change [awaiting_review; running; stuck] with (answer_sources allow).
    destruct (restore_from_keeps (answer_sources allow) runId now d) as (n & d1 & Hn & Ha1).
    rewrite (restore_allow_changes _ _ _ _ _ Hn), Hn.
    rewrite (in_db_step _ _ _ n d1) by done. simpl.
    destruct (decide (n = 0)) as [Hz|Hz].
    + rewrite (in_db_step _ _ _ tt
        (set_approvals (<[id := decide_approval a_rejected now "auto-policy" a]> d.(approvals)) d1))
        by (simpl; rewrite (decide_any_eq _ _ _ _ d1 a) by congruence; by rewrite Ha1).
      edestruct (resolve_linked_keeps id "auto-policy" "superseded" now (Some runId)) as (d2 & Hd2 & Hf).
      erewrite in_db_step by exact Hd2.
      eexists _, a_rejected, "auto-policy", (deny_with SUPERSEDED_MESSAGE), [].
      rewrite bool_decide_false by tauto.
      destruct Hf as (Hw & _ & _ & Hf & _). simpl in *.
      split; [reflexivity|]. split; [|simpl; by rewrite Hw]. split; [done|]. split; [by exists a, now|].
      exists [EvApprovalDecided id a_rejected]. simpl. by rewrite <- (assoc_L (++)).
    + rewrite (in_db_step _ _ _ tt
        (set_approvals (<[id := decide_approval a_approved now "user" a]> d.(approvals)) d1))
        by (simpl; rewrite (decide_any_eq _ _ _ _ d1 a) by congruence; by rewrite Ha1).
      edestruct (resolve_linked_keeps id "user" "approved" now (Some runId)) as (d2 & Hd2 & Hf).
      erewrite in_db_step by exact Hd2.
      eexists _, a_approved, "user", dec, [EvSocketReply id dec].
      rewrite bool_decide_true by done. destruct Hf as (Hw & _ & _ & Hf & _). simpl in *.
      split; [reflexivity|]. split; [|simpl; by rewrite Hb, Hw]. split; [done|]. split; [by exists a, now|].
      eexists [_; _]. simpl. by rewrite <- !(assoc_L (++)).
  - rewrite (in_db_step _ _ _ tt d) by done.
    change [awaiting_review; stuck] with (answer_sources deny).
    destruct (restore_from_keeps (answer_sources deny) runId now d) as (n & d1 & Hn & Ha1).
    rewrite Hn, (in_db_step _ _ _ n d1) by done. simpl.
    rewrite (in_db_step _ _ _ tt
      (set_approvals (<[id := decide_approval a_rejected now "user" a]> d.(approvals)) d1))
      by (simpl; rewrite (decide_any_eq _ _ _ _ d1 a) by congruence; by rewrite Ha1).
    edestruct (resolve_linked_keeps id "user" "rejected" now (Some runId)) as (d2 & Hd2 & Hf).
    erewrite in_db_step by exact Hd2.
    eexists _, a_rejected, "user", dec, [EvSocketReply id dec].
    destruct Hf as (Hw & _ & _ & Hf & _). simpl in *.
    split; [reflexivity|]. split; [|simpl; by rewrite Hb, Hw]. split; [done|]. split; [by exists a, now|].
    eexists [_; _]. simpl. by rewrite <- !(assoc_L (++)).
Qed.

Lemma settle_entry_settles runId res dn now id s entry :
  router_inv s → map_get id s.(sys_pending) = Some entry →
  ∃ s', settle_entry runId res dn now id s = (Ok tt, s')
        ∧ settles id a_rejected "system" dn [] s s'.
Proof.
  intros Hi Hg. destruct (ri_entry s Hi id entry Hg) as [Hid (a & Ha & Hst & Hrun)].
  destruct s as [d p l q]. simpl in *. unfold settle_entry.
  unfold mbind at 1, pending_delete, modify, set_pending. simpl.
  edestruct (resolve_linked_keeps id "system" res now (Some runId)
    (set_approvals (<[id := decide_approval a_rejected now "system" a]> d.(approvals)) d))
    as (d2 & Hd2 & Hf).
  unfold mbind at 1, swallow, catch, in_db, zoom. simpl. unfold mbind at 1.
  rewrite (decide_pending_eq _ _ _ _ d a) by done. rewrite Hd2.
  eexists. split; [reflexivity|]. split; [done|]. destruct Hf as (_ & _ & _ & Hf & _). simpl in *.
  split; [by exists a, now|]. eexists [_]. simpl. by rewrite <- !(assoc_L (++)).
Qed.

(** ** The router as a command language *)

Inductive router_cmd :=
  | RRequest (approvalId freshId runId toolName : string) (input : json) (source : string)
      (onCreated : bool)
  | RRespond (approvalId : string) (d : approval_decision)
  | RRespondTask (approvalId : string) (d : approval_decision)
  | RClear (runId : string)
  | RAbandon (runId : string)
  | ROrphan (runId : string)
  | RSetAwaited (approvalId : string) (awaited : bool)
  | RClearSource (runId source : string)
  | RCancel (runId : string).

(** One command at the instant [now]; a throw goes to the command's caller and
    the process goes on. *)
Definition run_router (c : router_cmd * instant) : sysM unit :=
  let now := c.2 in
  match c.1 with
  | RRequest a f r t i src cb =>
      swallow (_ <- request_attempt f (mk_request a r t i now) src cb now ;; mret tt)
  | RRespond a d => swallow (respond a d now)
  | RRespondTask a d => swallow (respond_task a d now)
  | RClear r => clearPendingForRun r now
  | RAbandon r => abandonPendingForRun r now
  | ROrphan r => orphanPendingForRun r now
  | RSetAwaited a b => setAwaited a b now
  | RClearSource r src => clearPendingForSource r src now
  | RCancel r => swallow (transitionToCanceled r now)
  end.

Definition run_commands (cs : list (router_cmd * instant)) : sysM unit := mapM_ run_router cs.

Definition inv_mono (s s' : sys) : Prop := router_inv s → router_inv s'.

#[export] Instance inv_mono_preorder : PreOrder inv_mono.
Proof. split; [by intros s ?|]. intros s1 s2 s3 H12 H23 ?. by apply H23, H12. Qed.

(** The rows keep their status and run: the database moved, nothing else. *)
Lemma inv_db s d' :
  router_inv s → d'.(approvals) = s.(sys_db).(approvals) → router_inv (set_db d' s).
Proof.
  intros Hi Ha. eapply (inv_quiet s _ []); [done|done|by rewrite app_nil_r|done|].
  intros id a Hid. simpl. rewrite Ha. eauto.
Qed.

Lemma inv_emit s e : silent e = true → router_inv s → router_inv (add_log e s).
Proof.
  intros He Hi. eapply (inv_quiet s _ [e]); [done|done|done| |by eauto].
  simpl. by rewrite He.
Qed.

Lemma inv_fresh s id :
  router_inv s → s.(sys_db).(approvals) !! id = None →
  map_get id s.(sys_pending) = None ∧ resolutions id s.(sys_log) = [].
Proof.
  intros [Hnd He Ho] Hn. split.
  - destruct (map_get id (sys_pending s)) as [e|] eqn:Hg; [|done].
    destruct (He id e Hg) as [_ (a & Ha & _)]. congruence.
  - specialize (Ho id). unfold settled_once in Ho.
    destruct (resolutions id (sys_log s)) as [|d [|]]; [done| |done].
    destruct Ho as (_ & (a & Ha & _) & _). congruence.
Qed.

Lemma request_attempt_inv f req src cb now : preserves inv_mono (request_attempt f req src cb now).
Proof.
  intros s Hi. rewrite request_attempt_eq.
  destruct (workflow_runs _ !! _) as [r|]; [|done].
  destruct (has_status running r); [|by destruct (has_status awaiting_review r)].
  destruct (approvals (sys_db s) !! ar_id req) eqn:Ha; [done|].
  pose proof (run_command_frame (CoWritePermission f req.(ar_id) req.(ar_runId) req.(ar_toolName)
    req.(ar_input) src, now) (gated_db req now r (sys_db s))) as Hf.
  unfold run_command in Hf. simpl in Hf.
  destruct (coWritePermissionReviewItem _ _ _ _ _ _ _ _) as [[o|e] d']; [|done]. simpl in *.
  destruct Hf as (_ & _ & _ & Hf & _). unfold gated_db in Hf. simpl in Hf.
  destruct (inv_fresh s (ar_id req) Hi Ha) as [Hg Hres].
  set (evs := (if cb then [EvOnCreated (ar_id req)] else []) ++ [EvApprovalCreated req]).
  assert (forallb silent evs = true) as Hsil by (by unfold evs; destruct cb).
  destruct Hi as [Hnd He Ho]. split; simpl.
  - by apply map_set_NoDup.
  - intros id e. rewrite map_get_set. case_decide as Hd.
    + intros [= <-]. subst. simpl. split; [done|]. exists (pending_approval req now).
      by rewrite Hf, lookup_insert_eq.
    + intros Hid. destruct (He id e Hid) as [? (a & Ha' & ?)]. split; [done|]. exists a.
      by rewrite Hf, lookup_insert_ne.
  - intros id. rewrite silent_resolutions, silent_replies, map_get_set by done. specialize (Ho id).
    unfold settled_once in *. case_decide as Hd.
    + subst. by rewrite Hres in *.
    + destruct (resolutions id (sys_log s)) as [|d [|]]; [done| |done].
      destruct Ho as (? & (a & Ha' & ?) & ?). split_and!; [done| |done]. exists a.
      by rewrite Hf, lookup_insert_ne by congruence.
Qed.

Lemma respond_task_inv id dec now : preserves inv_mono (respond_task id dec now).
Proof.
  intros s Hi. destruct (map_get id (sys_pending s)) as [entry|] eqn:Hg.
  - destruct (respond_task_settles id dec now s entry Hi Hg)
      as (s' & st & who & d & rep & -> & Hs & Hst & _ & Hc). simpl.
    eapply settles_inv; [done|done|done|done|].
    destruct (_ && _); [left|right]; naive_solver.
  - unfold respond_task, mbind, the_pending, gets. by rewrite Hg.
Qed.

Lemma settle_entry_inv r res dn now id s entry :
  dn.(ad_behavior) = deny → router_inv s → map_get id s.(sys_pending) = Some entry →
  router_inv (settle_entry r res dn now id s).2.
Proof.
  intros Hdn Hi Hg. destruct (settle_entry_settles r res dn now id s entry Hi Hg) as (s' & -> & Hs).
  simpl. eapply settles_inv; [done|done|done|by rewrite Hdn|by left].
Qed.

Lemma settles_resolutions id st who d rep s s' j :
  settles id st who d rep s s' → rep = [] ∨ rep = [EvSocketReply id d] →
  resolutions j s'.(sys_log) = resolutions j s.(sys_log) ++ (if decide (id = j) then [d] else []).
Proof.
  intros (_ & _ & ev & Hl & Hs) Hrep. rewrite Hl.
  change (EvResolve id d :: rep ++ ev) with (([EvResolve id d] ++ rep) ++ ev).
  rewrite (assoc_L (++)), silent_resolutions by done. unfold resolutions. rewrite omap_app.
  f_equal. destruct Hrep as [-> | ->]; simpl; by case_decide.
Qed.

Lemma settles_no_reply id st who d s s' j :
  settles id st who d [] s s' → replies j s'.(sys_log) = replies j s.(sys_log).
Proof.
  intros (_ & _ & ev & Hl & Hs). rewrite Hl.
  change (EvResolve id d :: [] ++ ev) with ([EvResolve id d] ++ ev).
  rewrite (assoc_L (++)), silent_replies by done. unfold replies. rewrite omap_app. simpl.
  apply app_nil_r.
Qed.

(** Settling a list of distinct entries. *)
Lemma settle_entries_run r res dn now ids s :
  dn.(ad_behavior) = deny → router_inv s → NoDup ids →
  (∀ id, id ∈ ids → is_Some (map_get id s.(sys_pending))) →
  ∃ s', mapM_ (settle_entry r res dn now) ids s = (Ok tt, s') ∧ router_inv s'
        ∧ (∀ id, map_get id s'.(sys_pending)
             = if decide (id ∈ ids) then None else map_get id s.(sys_pending))
        ∧ (∀ id, id ∉ ids → s'.(sys_db).(approvals) !! id = s.(sys_db).(approvals) !! id)
        ∧ (∀ id, resolutions id s'.(sys_log)
             = resolutions id s.(sys_log) ++ (if decide (id ∈ ids) then [dn] else []))
        ∧ (∀ id, replies id s'.(sys_log) = replies id s.(sys_log)).
Proof.
  intros Hdn. revert s. induction ids as [|i ids IH]; intros s Hi Hnd Hin; simpl.
  { exists s. split_and!; try done. intros id. by rewrite app_nil_r. }
  apply NoDup_cons in Hnd as [Hni Hnd].
  destruct (Hin i) as [entry Hg]; [by left|].
  destruct (settle_entry_settles r res dn now i s entry Hi Hg) as (s1 & Hs1 & Hset).
  assert (router_inv s1) as Hi1 by (eapply settles_inv; [done|done|done|by rewrite Hdn|by left]).
  assert (∀ j, resolutions j s1.(sys_log)
    = resolutions j s.(sys_log) ++ (if decide (i = j) then [dn] else [])) as Hres1
    by (intros j; by apply (settles_resolutions _ _ _ _ _ _ _ _ Hset); left).
  assert (∀ j, replies j s1.(sys_log) = replies j s.(sys_log)) as Hrep1
    by (intros j; exact (settles_no_reply _ _ _ _ _ _ _ Hset)).
  destruct Hset as (Hp1 & (a & t & Ha & Hap) & _).
  destruct (IH s1 Hi1 Hnd) as (s2 & Hs2 & Hi2 & Hp2 & Ha2 & Hr2 & Hrep2).
  { intros id Hid. rewrite Hp1, map_get_delete. case_decide; [congruence|]. apply Hin. by right. }
  exists s2. unfold mbind. rewrite Hs1, Hs2.
  split_and!; [done|done| | | |by intros id; rewrite Hrep2]; intros id.
  - rewrite Hp2, Hp1, map_get_delete. repeat case_decide; set_solver.
  - intros Hid. rewrite Ha2, Hap by set_solver. rewrite lookup_insert_ne; [done|set_solver].
  - rewrite Hr2, Hres1, <- (assoc_L (++)). f_equal.
    repeat case_decide; simpl; try done; set_solver.
Qed.

#[export] Instance pending_row_exists_dec (d : db) id :
  Decision (∃ a, d.(approvals) !! id = Some a ∧ a.(a_status) = a_pending).
Proof.
  destruct (d.(approvals) !! id) as [a|].
  - destruct (decide (a.(a_status) = a_pending)); [left; eauto|right; naive_solver].
  - right; naive_solver.
Defined.

(** The sweep settles rows nobody waits for. *)
Lemma sweep_row_exec r res now id s :
  router_inv s → map_get id s.(sys_pending) = None →
  ∃ s', sweep_row r res now id s = (Ok tt, s') ∧ router_inv s'
        ∧ s'.(sys_pending) = s.(sys_pending)
        ∧ s'.(sys_log) = s.(sys_log) ++ [EvApprovalDecided id a_rejected]
        ∧ (∀ j, j ≠ id → s'.(sys_db).(approvals) !! j = s.(sys_db).(approvals) !! j)
        ∧ (∀ a, s'.(sys_db).(approvals) !! id = Some a → a.(a_status) ≠ a_pending).
Proof.
  intros Hi Hg. destruct s as [d p l q]. simpl in *. unfold sweep_row.
  destruct (decide (∃ a, d.(approvals) !! id = Some a ∧ a.(a_status) = a_pending)) as [(a & Ha & Hst)|Hno].
  - edestruct (resolve_linked_keeps id "system" res now (Some r)
      (set_approvals (<[id := decide_approval a_rejected now "system" a]> d.(approvals)) d))
      as (d2 & Hd2 & Hf).
    rewrite (in_db_step _ _ _ tt d2)
      by (unfold mbind; simpl; rewrite (decide_pending_eq _ _ _ _ d a) by done; done).
    destruct Hf as (_ & _ & _ & Hf & _). simpl in Hf.
    eexists. split; [reflexivity|]. simpl. split_and!; try done.
    + eapply (inv_quiet _ _ [_]); [done|done|done|done|]. intros j b Hb. simpl in *. rewrite Hf.
      destruct (decide (j = id)) as [->|Hne].
      * rewrite lookup_insert_eq. simplify_eq. eexists. split; [done|]. auto.
      * rewrite lookup_insert_ne by done. eauto.
    + intros j Hj. by rewrite Hf, lookup_insert_ne.
    + intros b. rewrite Hf, lookup_insert_eq. by intros [= <-].
  - edestruct (resolve_linked_keeps id "system" res now (Some r) d) as (d2 & Hd2 & Hf).
    rewrite (in_db_step _ _ _ tt d2)
      by (unfold mbind; simpl; rewrite decide_pending_none by naive_solver; done).
    destruct Hf as (_ & _ & _ & Hf & _).
    eexists. split; [reflexivity|]. simpl. split_and!; try done.
    + eapply (inv_quiet _ _ [_]); [done|done|done|done|]. intros j b Hb. simpl in *. rewrite Hf. eauto.
    + intros j Hj. by rewrite Hf.
    + intros b. rewrite Hf. naive_solver.
Qed.

Lemma sweep_rows_exec r res now ids s :
  router_inv s → (∀ id, id ∈ ids → map_get id s.(sys_pending) = None) →
  ∃ s', mapM_ (sweep_row r res now) ids s = (Ok tt, s') ∧ router_inv s'
        ∧ s'.(sys_pending) = s.(sys_pending)
        ∧ (∀ j, resolutions j s'.(sys_log) = resolutions j s.(sys_log)
                ∧ replies j s'.(sys_log) = replies j s.(sys_log))
        ∧ (∀ j a, s'.(sys_db).(approvals) !! j = Some a →
             s.(sys_db).(approvals) !! j = Some a ∧ j ∉ ids ∨ a.(a_status) ≠ a_pending).
Proof.
  revert s. induction ids as [|i ids IH]; intros s Hi Hin; simpl.
  { exists s. split_and!; try done. intros j a Ha. left. split; [done|apply not_elem_of_nil]. }
  destruct (sweep_row_exec r res now i s Hi) as (s1 & Hs1 & Hi1 & Hp1 & Hl1 & Ho1 & Hst1);
    [apply Hin; by left|].
  destruct (IH s1 Hi1) as (s2 & Hs2 & Hi2 & Hp2 & Hl2 & Ha2).
  { intros id Hid. rewrite Hp1. apply Hin. by right. }
  exists s2. unfold mbind. rewrite Hs1, Hs2. split_and!; [done|done|congruence| |].
  - intros j. destruct (Hl2 j) as [-> ->]. by rewrite Hl1, silent_resolutions, silent_replies.
  - intros j a Hj. destruct (Ha2 j a Hj) as [[Hj1 Hni]|?]; [|by right].
    destruct (decide (j = i)) as [->|Hne]; [right; by apply Hst1|].
    left. split; [by rewrite <- Ho1|]. set_solver.
Qed.

Lemma elem_of_pending_rows id r d :
  id ∈ pending_rows_of_run r d ↔ pending_row d.(approvals) id r.
Proof.
  unfold pending_rows_of_run, pending_row, approval_pending. rewrite list_elem_of_fmap. split.
  - intros ([j a] & -> & [Ha Hp]%elem_of_sql_select). bool_hyps. eauto.
  - intros (a & Ha & Hst & Hr). exists (id, a). split; [done|]. apply elem_of_sql_select.
    split; [done|]. by rewrite !bool_decide_true.
Qed.

Lemma elem_of_filtered_entries (P : string * pending_entry → Prop) `{!∀ x, Decision (P x)} p id :
  NoDup p.*1 → id ∈ (filter P p).*1 ↔ ∃ e, map_get id p = Some e ∧ P (id, e).
Proof.
  intros Hnd. rewrite list_elem_of_fmap. split.
  - intros ([j e] & -> & [HP Hin]%list_elem_of_filter). exists e. split; [|done].
    by apply map_get_NoDup.
  - intros (e & Hg & HP). exists (id, e). split; [done|]. apply list_elem_of_filter.
    split; [done|]. by apply map_get_Some_elem.
Qed.

Lemma filter_keys_NoDup (P : string * pending_entry → Prop) `{!∀ x, Decision (P x)} p :
  NoDup p.*1 → NoDup (filter P p).*1.
Proof.
  intros Hp. eapply sublist_NoDup; [exact Hp|]. apply fmap_sublist, sublist_filter.
Qed.

Lemma settlePendingForRun_exec r b m now s :
  router_inv s →
  ∃ s', settlePendingForRun r b m now s = (Ok tt, s') ∧ router_inv s'
    ∧ (∀ id e, map_get id s'.(sys_pending) = Some e
         ↔ map_get id s.(sys_pending) = Some e ∧ e.(pe_request).(ar_runId) ≠ r)
    ∧ (∀ id, ¬ pending_row s'.(sys_db).(approvals) id r)
    ∧ (∀ id, resolutions id s'.(sys_log) = resolutions id s.(sys_log)
         ++ (if decide (id ∈ entries_of_run r s.(sys_pending)) then [deny_with m] else []))
    ∧ (∀ id, replies id s'.(sys_log) = replies id s.(sys_log)).
Proof.
  intros Hi. unfold settlePendingForRun.
  set (res := if b then "requester_disconnected" else "run_terminated").
  pose proof (ri_nodup s Hi) as Hnd.
  destruct (settle_entries_run r res (deny_with m) now (entries_of_run r s.(sys_pending)) s)
    as (s1 & Hs1 & Hi1 & Hp1 & Ha1 & Hr1 & Hrep1); [done|done|by apply filter_keys_NoDup| |].
  { intros id Hid. apply elem_of_filtered_entries in Hid as (e & ? & _); [|done]. eauto. }
  assert (∀ id e, map_get id s1.(sys_pending) = Some e
    ↔ map_get id s.(sys_pending) = Some e ∧ e.(pe_request).(ar_runId) ≠ r) as Hmap.
  { intros id e. rewrite Hp1. unfold entries_of_run. case_decide as Hd.
    - apply elem_of_filtered_entries in Hd as (e' & He' & Hrun); [|done]. simpl in Hrun.
      split; [done|]. intros [He Hne]. congruence.
    - split; [|by intros [? _]]. intros He. split; [done|]. intros Hrun. apply Hd.
      apply elem_of_filtered_entries; eauto. }
  destruct (sweep_rows_exec r res now (pending_rows_of_run r s1.(sys_db)) s1 Hi1)
    as (s2 & Hs2 & Hi2 & Hp2 & Hr2 & Ha2).
  { intros id (a & Ha & Hst & Hrun)%elem_of_pending_rows.
    destruct (map_get id (sys_pending s1)) as [e|] eqn:Hg; [|done]. exfalso.
    destruct (ri_entry s1 Hi1 id e Hg) as [_ (a' & Ha' & _ & Hrun')].
    apply Hmap in Hg as [_ Hne]. congruence. }
  assert (∀ id, ¬ pending_row s2.(sys_db).(approvals) id r) as Hno.
  { intros id (a & Ha & Hst & Hrun). destruct (Ha2 id a Ha) as [[Ha' Hni]|?]; [|done].
    apply Hni, elem_of_pending_rows. by exists a. }
  unfold mbind at 1, the_pending, gets. unfold mbind at 1. rewrite Hs1.
  unfold mbind at 1, swallow at 1, catch at 1, mbind at 1. simpl. rewrite Hs2.
  destruct b; simpl.
  - destruct (restore_awaiting_keeps r now (sys_db s2)) as (d' & Hd' & Hap').
    unfold swallow, catch, in_db, zoom. rewrite Hd'. eexists. split; [reflexivity|]. simpl.
    split_and!; [by apply inv_db| | | |].
    + intros id e. rewrite Hp2. apply Hmap.
    + intros id. rewrite Hap'. apply Hno.
    + intros id. destruct (Hr2 id) as [-> _]. by rewrite Hr1.
    + intros id. destruct (Hr2 id) as [_ ->]. by rewrite Hrep1.
  - exists s2. split_and!; [done|done| |done| |].
    + intros id e. rewrite Hp2. apply Hmap.
    + intros id. destruct (Hr2 id) as [-> _]. by rewrite Hr1.
    + intros id. destruct (Hr2 id) as [_ ->]. by rewrite Hrep1.
Qed.

Lemma clearPendingForSource_inv r src now : preserves inv_mono (clearPendingForSource r src now).
Proof.
  intros s Hi. unfold clearPendingForSource, mbind, the_pending, gets.
  pose proof (ri_nodup s Hi) as Hnd.
  match goal with |- context [mapM_ (settle_entry ?q ?res ?dn ?t) ?l s] =>
    destruct (settle_entries_run q res dn t l s) as (s1 & Hs1 & Hi1 & _);
      [done|done|by apply filter_keys_NoDup| |by rewrite Hs1]
  end.
  intros id Hid. apply elem_of_filtered_entries in Hid as (e & ? & _); [|done]. eauto.
Qed.

Lemma settleStale_inv id dec now s :
  router_inv s → map_get id s.(sys_pending) = None →
  ∃ b s', settleStalePendingApproval id dec now s = (Ok b, s') ∧ router_inv s'
    ∧ (b = true ↔ ∃ a, s.(sys_db).(approvals) !! id = Some a ∧ a.(a_status) = a_pending)
    ∧ (b = false → s' = s)
    ∧ (b = true → ∃ a, s'.(sys_db).(approvals) !! id = Some a
                       ∧ a.(a_status) = status_for dec.(ad_behavior)).
Proof.
  intros Hi Hg. destruct s as [d p l q]. simpl in *. unfold settleStalePendingApproval.
  destruct (match ad_behavior dec with allow => (a_approved, "approved") | deny => (a_rejected, "rejected") end)
    as [st lbl] eqn:Hst.
  assert (st = status_for (ad_behavior dec)) as -> by (by destruct (ad_behavior dec); simplify_eq).
  unfold catch.
  destruct (decide (∃ a, d.(approvals) !! id = Some a ∧ a.(a_status) = a_pending)) as [(a & Ha & Hp)|Hno].
  - rewrite (in_db_step _ _ _ 1
      (set_approvals (<[id := decide_approval (status_for (ad_behavior dec)) now "user" a]> d.(approvals)) d))
      by (by apply decide_pending_eq). simpl.
    edestruct (resolve_linked_keeps id "user" lbl now None) as (d2 & Hd2 & Hf).
    erewrite in_db_step by exact Hd2. destruct Hf as (_ & _ & _ & Hf & _). simpl in Hf.
    eexists true, _. split; [reflexivity|]. simpl. split_and!; [|naive_solver|done|].
    + eapply (inv_quiet _ _ [_]); [done|done|done|done|]. intros j b Hb. simpl in *. rewrite Hf.
      destruct (decide (j = id)) as [->|Hne].
      * rewrite lookup_insert_eq. simplify_eq. eexists. split; [done|]. auto.
      * rewrite lookup_insert_ne by done. eauto.
    + intros _. rewrite Hf, lookup_insert_eq. by eexists.
  - rewrite (in_db_step _ _ _ 0 d) by (apply decide_pending_none; naive_solver). simpl.
    eexists false, _. split; [reflexivity|]. by split_and!.
Qed.

Lemma respond_inv id dec now : preserves inv_mono (respond id dec now).
Proof.
  intros s Hi. unfold respond, mbind at 1, the_pending, gets.
  destruct (map_get id (sys_pending s)) as [e|] eqn:Hg; [by apply respond_task_inv|].
  destruct (settleStale_inv id dec now s Hi Hg) as (b & s' & Hs & Hi' & _).
  unfold mbind. rewrite Hs. by destruct b.
Qed.

(** Computations that settle nothing: they keep the pending map, only append
    silent effects, and keep every row's run and status. *)
Definition quiet_move (s s' : sys) : Prop :=
  s'.(sys_pending) = s.(sys_pending)
  ∧ (∃ ev, s'.(sys_log) = s.(sys_log) ++ ev ∧ forallb silent ev = true)
  ∧ (∀ id a, s.(sys_db).(approvals) !! id = Some a →
       ∃ a', s'.(sys_db).(approvals) !! id = Some a' ∧ a'.(a_run_id) = a.(a_run_id)
             ∧ a'.(a_status) = a.(a_status)).

#[export] Instance quiet_move_preorder : PreOrder quiet_move.
Proof.
  split.
  - intros s. split_and!; [done|exists []; by rewrite app_nil_r|eauto].
  - intros s1 s2 s3 (Hp1 & (e1 & Hl1 & Hs1) & Ha1) (Hp2 & (e2 & Hl2 & Hs2) & Ha2).
    split_and!; [congruence| |].
    + exists (e1 ++ e2). rewrite Hl2, Hl1, <- (assoc_L (++)), forallb_app, Hs1, Hs2. done.
    + intros id a Ha. destruct (Ha1 id a Ha) as (a' & Ha' & ? & ?).
      destruct (Ha2 id a' Ha') as (a'' & ? & ? & ?). exists a''. split_and!; congruence.
Qed.

Lemma quiet_inv s s' : quiet_move s s' → inv_mono s s'.
Proof.
  intros (Hp & (ev & Hl & Hs) & Ha) Hi. eapply inv_quiet; [done|done|done|done|].
  intros id a Hid. destruct (Ha id a Hid) as (a' & ? & ? & ?). eauto.
Qed.

(** A database computation that keeps the approvals is quiet. *)
Definition keeps_approvals {A} (m : dbM A) : Prop := ∀ d, (m d).2.(approvals) = d.(approvals).

Lemma in_db_quiet {A} (m : dbM A) : keeps_approvals m → preserves quiet_move (in_db m).
Proof.
  intros Hm s. unfold in_db, zoom. specialize (Hm (sys_db s)).
  destruct (m (sys_db s)) as [x d']. simpl in *.
  split_and!; simpl; [done|exists []; by rewrite app_nil_r|rewrite Hm; eauto].
Qed.

Lemma emit_quiet e : silent e = true → preserves (E:=run_error) quiet_move (emit e).
Proof.
  intros He s. split_and!; simpl; [done|exists [e]; simpl; by rewrite He|eauto].
Qed.

Lemma frame_keeps {A} (m : dbM A) : preserves items_frame m → keeps_approvals m.
Proof. intros H d. by destruct (H d) as (_ & _ & _ & ? & _). Qed.

Lemma restore_awaiting_quiet r now : preserves quiet_move (in_db (restore_awaiting r now)).
Proof.
  apply in_db_quiet. intros d. by destruct (restore_awaiting_keeps r now d) as (d' & -> & ?).
Qed.

Lemma emitReviewItemChangedById_quiet id act :
  preserves quiet_move (emitReviewItemChangedById id act).
Proof.
  unfold emitReviewItemChangedById. apply preserves_bind; [typeclasses eauto|by apply preserves_gets, _|].
  intros d. case_match; [by apply emit_quiet|by apply preserves_ret, _].
Qed.

Lemma update_approval_keeps_status id p b :
  preserves quiet_move (in_db (update_approval id p (set_awaited b))).
Proof.
  intros s. unfold in_db, zoom. case_update_approval.
  - split_and!; simpl; [done|exists []; by rewrite app_nil_r|].
    intros j x Hj. destruct (decide (j = id)) as [->|Hne].
    + rewrite lookup_insert_eq. simplify_eq. by eexists.
    + rewrite lookup_insert_ne by done. eauto.
  - split_and!; simpl; [done|exists []; by rewrite app_nil_r|eauto].
Qed.

Lemma setAwaited_quiet id b now : preserves quiet_move (setAwaited id b now).
Proof.
  unfold setAwaited, swallow, the_pending.
  preserve_with ltac:(first
    [ apply update_approval_keeps_status | apply emitReviewItemChangedById_quiet
    | by apply emit_quiet
    | apply in_db_quiet, frame_keeps, (run_command_frame (SetBlocking id b, now)) ]);
    try typeclasses eauto.
Qed.

Lemma orphan_quiet r now : preserves quiet_move (orphanPendingForRun r now).
Proof.
  unfold orphanPendingForRun, swallow.
  apply preserves_catch; [typeclasses eauto|apply restore_awaiting_quiet|by intros; apply preserves_ret, _].
Qed.

Lemma cancel_quiet r now : preserves quiet_move (transitionToCanceled r now).
Proof.
  unfold transitionToCanceled, emitRunCompletedUsage, notifyRunTerminal.
  apply preserves_bind; [typeclasses eauto| |].
  - apply in_db_quiet. intros d. unfold mbind. case_update_run; done.
  - intros _. preserve_with ltac:(by apply emit_quiet); try typeclasses eauto.
Qed.

Lemma swallow_inv m : preserves inv_mono m → preserves inv_mono (swallow m).
Proof.
  intros H. apply preserves_catch; [typeclasses eauto|done|by intros; apply preserves_ret, _].
Qed.

Lemma settlePendingForRun_inv r b m now : preserves inv_mono (settlePendingForRun r b m now).
Proof. intros s Hs. by destruct (settlePendingForRun_exec r b m now s Hs) as (s1 & -> & ? & _). Qed.

Lemma run_router_inv c : preserves inv_mono (run_router c).
Proof.
  destruct c as [c now]. unfold run_router. simpl. destruct c.
  - apply swallow_inv, preserves_bind; [typeclasses eauto|apply request_attempt_inv|].
    by intros; apply preserves_ret, _.
  - apply swallow_inv, respond_inv.
  - apply swallow_inv, respond_task_inv.
  - unfold clearPendingForRun. apply settlePendingForRun_inv.
  - unfold abandonPendingForRun. apply settlePendingForRun_inv.
  - intros s. apply quiet_inv, orphan_quiet.
  - intros s. apply quiet_inv, setAwaited_quiet.
  - apply clearPendingForSource_inv.
  - apply swallow_inv. intros s. apply quiet_inv, cancel_quiet.
Qed.

Lemma run_commands_inv cs : preserves inv_mono (run_commands cs).
Proof. apply preserves_mapM_; [typeclasses eauto|apply run_router_inv]. Qed.

Lemma boot_inv d : router_inv (mk_sys d [] [] []).
Proof. split; simpl; [constructor|done|done]. Qed.

(** The states the router reaches from a boot on any database. *)
Lemma reachable_inv cs d : router_inv (exec (run_commands cs) (mk_sys d [] [] [])).
Proof. exact (run_commands_inv cs _ (boot_inv d)). Qed.

(** C1: After any sequence of router operations (requests, responses, clears, abandons,
    orphanings, awaited flips, clears by source and concurrent cancellations) from a state
    with no pending entry and whatever database, the Promise of each approval has been
    resolved at most once and its socket answered at most once, every socket reply is the
    decision the Promise got, a resolved approval has a decided row of the matching status
    and no pending entry left, and a pending entry has never been resolved and always owns a
    row still pending for its run. *)
Theorem router_exactly_once (cs : list (router_cmd * instant)) (d : db) :
  let s := exec (run_commands cs) (mk_sys d [] [] []) in
  ∀ id,
    length (resolutions id s.(sys_log)) <= 1
    ∧ length (replies id s.(sys_log)) <= 1
    ∧ (∀ dec, dec ∈ replies id s.(sys_log) → dec ∈ resolutions id s.(sys_log))
    ∧ (∀ dec, dec ∈ resolutions id s.(sys_log) →
         (∃ a, s.(sys_db).(approvals) !! id = Some a ∧ a.(a_status) = status_for dec.(ad_behavior))
         ∧ map_get id s.(sys_pending) = None)
    ∧ (∀ e, map_get id s.(sys_pending) = Some e →
         resolutions id s.(sys_log) = []
         ∧ pending_row s.(sys_db).(approvals) id e.(pe_request).(ar_runId)).
Proof.
  intros s id.
  pose proof (reachable_inv cs d : router_inv s) as [_ He Ho]. clearbody s.
  specialize (Ho id). unfold settled_once in Ho.
  destruct (resolutions id (sys_log s)) as [|dec [|]] eqn:Hr; [| |done].
  - rewrite Ho. simpl. split_and!; [lia|lia| |by intros ? ?%not_elem_of_nil|].
    + by intros ? ?%not_elem_of_nil.
    + intros e Hg. split; [done|]. by apply (He id e).
  - destruct Ho as (Hg & Ha & Hrep). rewrite Hg. simpl.
    split_and!; [lia|by destruct Hrep as [-> | ->]; simpl; lia| | |done].
    + intros x. by destruct Hrep as [-> | ->]; [intros ?%not_elem_of_nil|].
    + by intros x ->%list_elem_of_singleton.
Qed.

Lemma restored_status b runId now d :
  r_status <$> restored_runs b runId now d !! runId
  = (λ st, if status_in (answer_sources b) st then running else st) <$> status_of d runId.
Proof.
  unfold restored_runs, restore_from, status_of. case_update_run.
  - rewrite lookup_insert_eq, Hr. simpl. unfold has_status_in in Hp. by rewrite Hp.
  - destruct (d.(workflow_runs) !! runId) as [r|]; [|done]. simpl.
    specialize (Hr r eq_refl). unfold has_status_in in Hr. by rewrite Hr.
Qed.

(** Answering a pending approval in any reachable state succeeds and settles it
    completely: the entry is gone, the Promise got exactly that decision (or the superseded
    denial when the run had already left a live status and the answer was allow, and then no
    socket reply at all), the socket got exactly that decision, the run is running again
    exactly when it stood in a status the answer may restore, and the approval row is
    approved or rejected accordingly. *)
Theorem respond_decides cs d0 id dec now entry :
  let s := exec (run_commands cs) (mk_sys d0 [] [] []) in
  map_get id s.(sys_pending) = Some entry →
  let runId := entry.(pe_request).(ar_runId) in
  let s' := exec (respond id dec now) s in
  let superseded := bool_decide (dec.(ad_behavior) = allow) && negb (run_live s.(sys_db) runId) in
  eval (respond id dec now) s = Ok tt
  ∧ map_get id s'.(sys_pending) = None
  ∧ resolutions id s'.(sys_log) = [if superseded then deny_with SUPERSEDED_MESSAGE else dec]
  ∧ replies id s'.(sys_log) = (if superseded then [] else [dec])
  ∧ status_of s'.(sys_db) runId
    = (λ st, if status_in (answer_sources dec.(ad_behavior)) st then running else st)
      <$> status_of s.(sys_db) runId
  ∧ (∃ a, s'.(sys_db).(approvals) !! id = Some a
       ∧ a.(a_status) = (if superseded then a_rejected else status_for dec.(ad_behavior))).
Proof.
  intros s Hg runId s' superseded.
  pose proof (reachable_inv cs d0 : router_inv s) as Hi. clearbody s.
  destruct (respond_task_settles id dec now s entry Hi Hg)
    as (s1 & st & who & d & rep & Hs1 & Hset & Hst & Hruns & Hc).
  assert (respond id dec now s = (Ok tt, s1)) as Heq.
  { unfold respond, mbind at 1, the_pending, gets. by rewrite Hg. }
  unfold eval, s', exec. rewrite Heq. simpl. fold runId in Hruns, Hc. fold superseded in Hc.
  assert (rep = [] ∨ rep = [EvSocketReply id d]) as Hrep.
  { destruct superseded; [left|right]; naive_solver. }
  pose proof (ri_once s Hi id) as Ho. unfold settled_once in Ho.
  destruct (resolutions id (sys_log s)) as [|x [|]] eqn:Hr; [|by destruct Ho; congruence|done].
  split; [done|]. pose proof (settles_resolutions _ _ _ _ _ _ _ id Hset Hrep) as Hres.
  destruct Hset as (Hp & (a & t & Ha & Hap) & ev & Hl & Hsil).
  rewrite Hp, map_get_delete_eq. split; [done|].
  rewrite Hres, Hr, decide_True by done. simpl.
  split; [destruct superseded; destruct Hc as [-> _]; done|]. split; [|split].
  - rewrite Hl. change (EvResolve id d :: rep ++ ev) with (([EvResolve id d] ++ rep) ++ ev).
    rewrite (assoc_L (++)), silent_replies by done. unfold replies in *. rewrite omap_app, Ho.
    destruct superseded; [by destruct Hc as [-> ->]|destruct Hc as (-> & -> & _)].
    simpl. by case_decide.
  - unfold status_of at 1. rewrite Hruns. apply restored_status.
  - exists (decide_approval st t who a). rewrite Hap, lookup_insert_eq. split; [done|].
    simpl. rewrite Hst. destruct superseded; destruct Hc as [-> _]; done.
Qed.

(** Settling a run's approvals (clear at termination, or abandon on disconnect) in a
    reachable state removes exactly the entries of that run, leaves no pending approval row
    of it (not even orphaned rows without an entry), resolves each removed entry once with
    the given denial, and answers no socket. *)
Theorem settle_run_spec cs d0 r b m now :
  let s := exec (run_commands cs) (mk_sys d0 [] [] []) in
  let s' := exec (settlePendingForRun r b m now) s in
  (∀ id e, map_get id s'.(sys_pending) = Some e
     ↔ map_get id s.(sys_pending) = Some e ∧ e.(pe_request).(ar_runId) ≠ r)
  ∧ (∀ id, ¬ pending_row s'.(sys_db).(approvals) id r)
  ∧ (∀ id e, map_get id s.(sys_pending) = Some e → e.(pe_request).(ar_runId) = r →
       resolutions id s'.(sys_log) = [deny_with m])
  ∧ (∀ id, replies id s'.(sys_log) = replies id s.(sys_log)).
Proof.
  intros s s'. pose proof (reachable_inv cs d0 : router_inv s) as Hi. clearbody s.
  destruct (settlePendingForRun_exec r b m now s Hi) as (s1 & Hs1 & _ & Hmap & Hno & Hres & Hrep).
  unfold s', exec. rewrite Hs1. simpl. split_and!; [done|done| |done].
  intros id e Hg Hr. rewrite Hres, decide_True.
  - pose proof (ri_once s Hi id) as Ho. unfold settled_once in Ho.
    destruct (resolutions id (sys_log s)) as [|x [|]]; [done|by destruct Ho; congruence|done].
  - apply elem_of_filtered_entries; [apply ri_nodup, Hi|]. by exists e.
Qed.

(** Settling a run's approvals never throws. *)
Lemma settlePendingForRun_total r b m now : total (settlePendingForRun r b m now).
Proof.
  unfold settlePendingForRun, the_pending, settle_entry, swallow, pending_delete, emit. solve_total.
Qed.

(** ** Concrete inputs *)

Definition sample_request_cmds : list (router_cmd * instant) :=
  [(RRequest "a1" "rvw_1" "r1" "Bash" "{}" "approval" false, 5%Z)].

Definition user_allow : approval_decision := mk_decision allow None None.

Lemma respond_decides_witness :
  let s := exec (run_commands sample_request_cmds) (sample_sys [("r1", running)]) in
  let s' := exec (respond "a1" user_allow 6%Z) s in
  replies "a1" s'.(sys_log) = [user_allow] ∧ status_of s'.(sys_db) "r1" = Some running.
Proof.
  intros s s'.
  destruct (respond_decides sample_request_cmds (sample_db [("r1", running)]) "a1" user_allow 6%Z
    (mk_pending (mk_request "a1" "r1" "Bash" "{}" 5%Z) "approval"))
    as (_ & _ & _ & Hrep & Hst & _); [vm_compute; reflexivity|].
  split; [exact Hrep|exact Hst].
Defined.

(** A sibling holds the gate for one wait, then its answer frees it. *)
Lemma requestApproval_eventually_witness :
  let s := exec (run_commands sample_request_cmds) (sample_sys [("r1", running)]) in
  let env := [(λ s, exec (respond "a1" user_allow 6%Z) s, 7%Z)] in
  eval (requestApproval "a2" "rvw_2" "r1" "Edit" "{}" "approval" false 6%Z env) s
  = Ok (Some grabbed).
Proof.
  intros s env.
  pose proof (requestApproval_eventually "a2" "rvw_2" "r1" "Edit" "{}" "approval" false 6%Z env s
    (exec (respond "a1" user_allow 6%Z) s) 7%Z) as H.
  unfold eval. destruct (requestApproval _ _ _ _ _ _ _ _ _ _) as [res s''].
  apply H; [|vm_compute; reflexivity..].
  apply waits_cons; [vm_compute; reflexivity|apply waits_nil].
Defined.
