(* ===== verification/QuestionAnswers.v ===== *)
(** * Answers of the AskUserQuestion gates

    The pure functions of [main/src/orchestrator/questionRouter.ts]: how an
    answer is assembled and redacted before it is stored, how a gate's answer
    is read as approve, reject or design-mode, and the tags of the self-heal
    report.  The router that uses them is [QuestionRouter]. *)

From stdpp Require Import pretty.
From Stdlib Require Import Ascii.
From S2P Require Import Prelude RunStateMachine Database JsString.

(** ** Self-heal telemetry *)

(** The argument is the age in milliseconds; the code divides by 1000 first. *)
Definition bucketGateAgeSeconds (ms : Z) : string :=
  if (ms <? 60 * 1000)%Z then "<60s"
  else if (ms <? 300 * 1000)%Z then "60-300s"
  else if (ms <? 540 * 1000)%Z then "300-540s"
  else if (ms <=? 660 * 1000)%Z then "540-660s"
  else if (ms <? 1800 * 1000)%Z then "660-1800s"
  else ">1800s".

Definition bucketPriorGateCount (count : nat) : string :=
  if (count =? 0)%nat then "0" else if (3 <=? count)%nat then "3+" else pretty count.

(** [Math.min(...l)] of a list that is not empty *)
Definition oldest (l : list instant) : option instant :=
  match l with [] => None | x :: l' => Some (foldl Z.min x l') end.

(** [wedgedCreatedAt] holds what [parseGateCreatedAtMs] makes of each row's
    [created_at]. *)
Definition buildSelfHealTags (wedgedCreatedAt : list (option instant)) (inMemoryCount : nat)
    (nowMs : instant) : list (string * string) :=
  let total := length wedgedCreatedAt in
  let orphanCount := total - inMemoryCount in
  let healSource :=
    if (total =? 0)%nat then "none"
    else if (0 <? inMemoryCount)%nat && (0 <? orphanCount)%nat then "mixed"
    else if (0 <? inMemoryCount)%nat then "in-memory"
    else "orphan-sweep" in
  let priorGateAge :=
    if (total =? 0)%nat then "none"
    else match oldest (omap id wedgedCreatedAt) with
         | None => "unknown"
         | Some oldestMs => bucketGateAgeSeconds (Z.max 0 (nowMs - oldestMs))
         end in
  [("healSource", healSource); ("priorGateCount", bucketPriorGateCount total);
   ("priorGateAge", priorGateAge)].

(** ** The answer handed to the agent and the answer stored *)

Definition newline : string := String nl "".

Definition attachments_block (paths : list string) : string :=
  newline +:+ newline +:+ "<attachments>" +:+ newline
  +:+ "Please look at these files which may provide additional instructions or context:" +:+ newline
  +:+ join newline paths +:+ newline +:+ "</attachments>".

Definition embedAttachmentsIntoAnswer (answer : question_answer) : question_answer :=
  match answer.(qa_attachments) with
  | None | Some [] => answer
  | Some paths =>
      let block := attachments_block paths in
      mk_answer
        (match answer.(qa_answers) with
         | (k, v) :: rest => (k, v +:+ block) :: rest
         | [] => [("__attachments__", trim_start block)]
         end)
        answer.(qa_annotations) None
  end.

Definition secret_questions (questions : list question_payload) : list string :=
  qp_question <$> filter (λ q, q.(qp_isSecret) = true) questions.

Definition redactSecretAnswers (effectiveAnswer : question_answer)
    (questions : list question_payload) : question_answer :=
  let secretQuestions := secret_questions questions in
  match secretQuestions with
  | [] => effectiveAnswer
  | _ =>
      mk_answer
        ((λ kv, (kv.1, if bool_decide (kv.1 ∈ secretQuestions) then "[redacted]" else kv.2))
           <$> effectiveAnswer.(qa_answers))
        effectiveAnswer.(qa_annotations) None
  end.

Definition empty_answer : question_answer := mk_answer [] None None.

(** [first?.question?.trim() || first?.header?.trim() || ''], cut at 120 *)
Definition deriveDecisionTitle (questions : list question_payload) : string :=
  let text := match questions with
              | [] => ""
              | q :: _ => if String.eqb (trim q.(qp_question)) "" then trim q.(qp_header)
                          else trim q.(qp_question)
              end in
  if String.eqb text "" then "Decision required"
  else if (120 <? String.length text)%nat then take_str 117 text +:+ "..." else text.

(** ** Reading a gate's answer *)

(** [Object.values(answer.answers).map((v) => v.trim().toLowerCase())] *)
Definition answer_values (answer : question_answer) : list string :=
  (λ kv, toLowerCase (trim kv.2)) <$> answer.(qa_answers).

Definition isApproveAnswer (answer : question_answer) : bool :=
  let values := answer_values answer in
  match values with
  | [] => false
  | _ => if existsb (λ v, includes "revise" v || includes "reject" v) values then false
         else existsb (startsWith "approve") values
  end.

(** The lower-cased option labels that satisfy [p]. *)
Definition option_labels (p : string → bool) (questions : list question_payload) : list string :=
  filter (λ l, p l = true) (flat_map (λ q, (λ o, toLowerCase (trim o)) <$> q.(qp_options)) questions).

Definition isRejectAnswer (answer : question_answer) (questions : list question_payload) : bool :=
  if isApproveAnswer answer then false
  else
    let values := answer_values answer in
    match values with
    | [] => false
    | _ =>
        match option_labels (startsWith "reject") questions with
        | [] => existsb (λ v, String.eqb v "reject" || String.eqb v "reject plan") values
        | rejectLabels => existsb (λ v, bool_decide (v ∈ rejectLabels)) values
        end
    end.

Definition isDesignModeForkAnswer (answer : question_answer) (questions : list question_payload)
    : bool :=
  let values := answer_values answer in
  match values with
  | [] => false
  | _ =>
      match option_labels (λ l, startsWith "approve" l && includes "design mode" l) questions with
      | [] => false
      | forkLabels => existsb (λ v, bool_decide (v ∈ forkLabels)) values
      end
  end.
