(* ===== verification/QuestionRouter.v ===== *)
(** * The question router

    Models the [QuestionRouter] of [main/src/orchestrator/questionRouter.ts]:
    the gate an AskUserQuestion call opens on its run, the answer, the teardown
    of a run with open gates, and the recovery at boot.

    A per-run queue task is one step.  The Promise of a gate and its socket are
    the log entries [EvAnswer] and [EvAnswerReply].  What an answer to a plan
    gate sets off in the task tables is the bag [PlanGateDeps]; its laws are the
    class [PlanGateLaws]. *)

From stdpp Require Import sorting.
From S2P Require Import Prelude RunStateMachine Database Samples JsString.
From S2P Require Import Transitions ReviewItems ApprovalRouter QuestionAnswers.

Open Scope js_scope.

Definition APPROVE_PLAN_STEP_ID : string := "approve-plan".
Definition APPROVE_IDEA_STEP_ID : string := "approve-idea".
Definition SHIP_WORKFLOW_NAME : string := "ship".
Definition STALE_RESUMABLE_RECOVERY_DAYS : Z := 7.

(** ** Statements on [questions] *)

Definition question_pending (q : question_row) : bool := bool_decide (q.(q_status) = qs_pending).

(** [SET status, answered_at, answer_json] *)
Definition settle_question (s : question_status) (t : instant) (json : option question_answer)
    (q : question_row) : question_row :=
  mk_question q.(q_run_id) q.(q_tool_use_id) q.(q_questions) s q.(q_created_at) (Some t) json.

(** [SET status = 'timed_out', answered_at = t] *)
Definition time_out (t : instant) (q : question_row) : question_row :=
  settle_question qs_timed_out t q.(q_answer_json) q.

Definition update_question (id : string) (p : question_row → bool) (f : question_row → question_row)
    : dbM nat :=
  λ d, let '(n, t) := sql_update_id id p f d.(questions) in (Ok n, set_questions t d).

(** [UPDATE questions SET status = 'timed_out' WHERE p AND status = 'pending'] *)
Definition time_out_where (p : question_row → bool) (t : instant) : dbM unit :=
  modify (λ d, set_questions (sql_update (λ _ q, p q && question_pending q) (time_out t)
                                d.(questions)) d).

Definition of_run (runId : string) (q : question_row) : bool := bool_decide (q.(q_run_id) = runId).

(** [INSERT]: a duplicate primary key throws. *)
Definition insert_question (id : string) (q : question_row) : dbM unit :=
  λ d, match d.(questions) !! id with
       | Some _ => (Throw (SqlUniqueViolation "questions" id), d)
       | None => (Ok tt, set_questions (<[id := q]> d.(questions)) d)
       end.

(** The ids a loop of resolutions collects. *)
Fixpoint collect {A} (f : A → dbM (option string)) (l : list A) : dbM (list string) :=
  match l with
  | [] => mret []
  | x :: l' =>
      r <- f x ;;
      rs <- collect f l' ;;
      mret (match r with Some i => i :: rs | None => rs end)
  end.

(** The pending folded items of a run's gates. *)
Definition question_item (inRun : string → bool) (v : review_row) : bool :=
  bool_decide (v.(v_kind) = k_decision) && review_pending v
  && bool_decide (v.(v_source) = Some "question")
  && match v.(v_run_id) with Some r => inRun r | None => false end.

Definition question_items (inRun : string → bool) (d : db) : list (string * review_row) :=
  sql_select (λ _ v, question_item inRun v) (items_of d).

(** ** The pending map *)

Definition open_questions : sysM (list (string * question_entry)) := gets sys_questions.
Definition question_delete (id : string) : sysM unit :=
  modify (λ s, set_open_questions (map_delete id s.(sys_questions)) s).
Definition question_set (id : string) (e : question_entry) : sysM unit :=
  modify (λ s, set_open_questions (map_set id e s.(sys_questions)) s).

(** The entries of a run, in insertion order. *)
Definition entries_for (runId : string) (m : list (string * question_entry))
    : list (string * question_entry) :=
  filter (λ kv, kv.2.(qe_request).(qr_runId) = runId) m.

(** ** Requesting *)

Record gate_txn := mk_gate_txn {
  gt_reviewItemId : option string;
  gt_superseded : list string;
  gt_resolved : list string;
  gt_healTags : option (list (string * string))
}.

(** One superseded entry: its row times out, its folded item is resolved. *)
Definition supersede_entry (runId : string) (now : instant) (kv : string * question_entry)
    : dbM (option string) :=
  update_question kv.1 question_pending (time_out now) ;;;
  match kv.2.(qe_reviewItemId) with
  | Some i => resolveReviewItemById i "system" (Some "superseded") now (Some runId)
  | None => mret None
  end.

(** The run already stood at [awaiting_input]: settle the gates that wedged it. *)
Definition self_heal (runId : string) (openEntries : list (string * question_entry)) (now : instant)
    : dbM (list string * list string * list (string * string)) :=
  d <- get ;;
  let wedged := sql_select (λ _ q, of_run runId q && question_pending q) d.(questions) in
  let superseded := entries_for runId openEntries in
  resolved1 <- collect (supersede_entry runId now) superseded ;;
  time_out_where (of_run runId) now ;;;
  d' <- get ;;
  resolved2 <- (if hasReviewItemsTable d'
                then collect (λ kv, resolveReviewItemById kv.1 "system" (Some "superseded") now
                                      (Some runId))
                       (question_items (String.eqb runId) d')
                else mret []) ;;
  mret (superseded.*1, resolved1 ++ resolved2,
        buildSelfHealTags ((λ kq, Some kq.2.(q_created_at)) <$> wedged) (length superseded) now).

Definition request_txn (freshId : string) (req : question_request)
    (openEntries : list (string * question_entry)) (now : instant) : dbM gate_txn :=
  let runId := req.(qr_runId) in
  transaction
    (assertTransitionAllowed running awaiting_input (Some runId) ;;;
     n <- update_run runId (has_status running) (set_status awaiting_input now) ;;
     heal <- (if decide (n = 0) then
                d <- get ;;
                if decide (status_of d runId = Some awaiting_input)
                then h <- self_heal runId openEntries now ;; mret (Some h)
                else throw (RunNotRunningError runId)
              else mret None) ;;
     insert_question req.(qr_id)
       (mk_question runId req.(qr_toolUseId) (Some req.(qr_questions)) qs_pending now None None) ;;;
     rid <- coWriteDecisionReviewItem freshId
              (mk_decision_args runId (deriveDecisionTitle req.(qr_questions)) None "question" None now) ;;
     mret (match heal with
           | Some (superseded, resolved, tags) => mk_gate_txn rid superseded resolved (Some tags)
           | None => mk_gate_txn rid [] [] None
           end)).

(** Settle a superseded entry's Promise with an empty answer. *)
Definition settle_superseded (id : string) : sysM unit :=
  question_delete id ;;;
  emit (EvAnswer id empty_answer) ;;;
  emit (EvQuestionAnswered id qs_timed_out).

(** Retire what the transaction superseded. *)
Definition retire_superseded (t : gate_txn) : sysM unit :=
  match t.(gt_healTags) with
  | Some tags => emit (EvSeamError "gate-hook-timeout" "gate-hook-timeout"
                         (("gateKind", "question") :: tags))
  | None => mret tt
  end ;;;
  mapM_ settle_superseded t.(gt_superseded) ;;;
  mapM_ (λ i, emitReviewItemChangedById i "resolved") t.(gt_resolved).

(** Open the entry of the new gate and announce it. *)
Definition open_entry (req : question_request) (reviewItemId : option string) : sysM unit :=
  question_set req.(qr_id) (mk_question_entry req reviewItemId) ;;;
  emit (EvQuestionCreated req) ;;;
  match reviewItemId with
  | Some i => emitReviewItemChangedById i "created"
  | None => mret tt
  end ;;;
  emit (EvRunStatusChanged req.(qr_runId) awaiting_input).

(** The queue task of [requestQuestion]. *)
Definition requestQuestion (questionId freshId runId toolUseId : string)
    (questions : list question_payload) (now : instant) : sysM unit :=
  let req := mk_question_request questionId runId toolUseId questions now in
  openEntries <- open_questions ;;
  t <- in_db (request_txn freshId req openEntries now) ;;
  retire_superseded t ;;;
  open_entry req t.(gt_reviewItemId).

(** ** What an answer sets off *)

(** The writes on the task and idea tables, and the design-session launch, by
    project and run. *)
Record PlanGateDeps := mk_plan_gate_deps {
  pg_revealRunDrafts : string → Z → sysM unit;
  pg_retireDecomposedIdeas : string → Z → sysM unit;
  pg_deleteRunCreatedEntities : string → Z → sysM unit;
  pg_launchDesignSession : option (string → Z → sysM unit)
}.

Section Answer.
Context (deps : PlanGateDeps).

(** The frame the fail-soft follow-ups share: the run's row at [stepId]. *)
Definition at_step (runId stepId : string) (k : run_row → sysM unit) : sysM unit :=
  swallow
    (d <- gets sys_db ;;
     match d.(workflow_runs) !! runId with
     | Some r => if decide (r.(r_current_step_id) = Some stepId) then k r else mret tt
     | None => mret tt
     end).

Definition promoteTasksOnPlanApproval (runId : string) (answer : question_answer) : sysM unit :=
  at_step runId APPROVE_PLAN_STEP_ID (λ r,
    when (isApproveAnswer answer) do deps.(pg_revealRunDrafts) runId r.(r_project_id)).

Definition retireShipIdeasOnPlanApproval (runId : string) (answer : question_answer) : sysM unit :=
  at_step runId APPROVE_PLAN_STEP_ID (λ r,
    if isApproveAnswer answer then
      d <- gets sys_db ;;
      if decide (workflow_name_of d runId = Some SHIP_WORKFLOW_NAME)
      then deps.(pg_retireDecomposedIdeas) runId r.(r_project_id)
      else mret tt
    else mret tt).

Definition deletePendingDraftsOnPlanDecline (runId : string) (answer : question_answer)
    (questions : list question_payload) : sysM unit :=
  at_step runId APPROVE_PLAN_STEP_ID (λ r,
    when (isRejectAnswer answer questions)
      do deps.(pg_deleteRunCreatedEntities) runId r.(r_project_id)).

(** The plan gate of any workflow but [ship] is a run's last step. *)
Definition completePlannerRunOnPlanApproval (runId : string) (answer : question_answer)
    (now : instant) : sysM unit :=
  at_step runId APPROVE_PLAN_STEP_ID (λ _,
    if isApproveAnswer answer then
      d <- gets sys_db ;;
      if decide (workflow_name_of d runId = Some SHIP_WORKFLOW_NAME) then mret tt
      else if (0 <? countPendingBlockingReviewItems d runId [])%nat then mret tt
      else
        in_db (assertTransitionAllowed running completed (Some runId)) ;;;
        n <- in_db (update_run runId (has_status running)
                      (λ r, set_status completed now (set_ended_at (current_timestamp now) r))) ;;
        (if decide (n = 0) then mret tt else emit (EvRunStatusChanged runId completed))
    else mret tt).

Definition launchDesignModeOnFork (runId : string) (answer : question_answer)
    (questions : list question_payload) : sysM unit :=
  at_step runId APPROVE_IDEA_STEP_ID (λ r,
    if isDesignModeForkAnswer answer questions then
      match deps.(pg_launchDesignSession) with
      | Some launch => launch runId r.(r_project_id)
      | None => mret tt
      end
    else mret tt).

(** ** Answering *)

(** Resolve an entry's folded item and announce it. *)
Definition resolve_folded (reviewItemId : option string) (who resolution : string) (now : instant)
    (runId : string) : sysM unit :=
  match reviewItemId with
  | Some i =>
      _ <- in_db (resolveReviewItemById i who (Some resolution) now (Some runId)) ;;
      emitReviewItemChangedById i "resolved"
  | None => mret tt
  end.

(** The run no longer waits: the gate is superseded. *)
Definition answer_superseded (questionId : string) (entry : question_entry) (now : instant) : sysM unit :=
  in_db (update_question questionId question_pending (time_out now)) ;;;
  resolve_folded entry.(qe_reviewItemId) "system" "superseded" now entry.(qe_request).(qr_runId) ;;;
  emit (EvAnswer questionId empty_answer) ;;;
  emit (EvQuestionAnswered questionId qs_timed_out).

(** The run was flipped back to [running]: the answer is committed. *)
Definition answer_committed (questionId : string) (entry : question_entry)
    (effectiveAnswer : question_answer) (now now' : instant) : sysM unit :=
  let runId := entry.(qe_request).(qr_runId) in
  let questions := entry.(qe_request).(qr_questions) in
  let persistedAnswer := redactSecretAnswers effectiveAnswer questions in
  in_db (update_question questionId (λ _, true)
           (settle_question qs_answered now (Some persistedAnswer))) ;;;
  resolve_folded entry.(qe_reviewItemId) "user" "answered" now runId ;;;
  emit (EvRunStatusChanged runId running) ;;;
  promoteTasksOnPlanApproval runId effectiveAnswer ;;;
  emit (EvAnswer questionId effectiveAnswer) ;;;
  emit (EvAnswerReply questionId effectiveAnswer) ;;;
  emit (EvQuestionAnswered questionId qs_answered) ;;;
  retireShipIdeasOnPlanApproval runId effectiveAnswer ;;;
  deletePendingDraftsOnPlanDecline runId effectiveAnswer questions ;;;
  completePlannerRunOnPlanApproval runId effectiveAnswer now' ;;;
  launchDesignModeOnFork runId effectiveAnswer questions.

(** The queue task of [respond]; [now'] is the instant of the last follow-up. *)
Definition answer_task (questionId : string) (answer : question_answer) (now now' : instant)
    : sysM unit :=
  m <- open_questions ;;
  match map_get questionId m with
  | None => mret tt
  | Some entry =>
      let runId := entry.(qe_request).(qr_runId) in
      let effectiveAnswer := embedAttachmentsIntoAnswer answer in
      question_delete questionId ;;;
      in_db (assertTransitionAllowed awaiting_input running (Some runId)) ;;;
      n <- in_db (update_run runId (has_status awaiting_input) (set_status running now)) ;;
      if decide (n = 0) then answer_superseded questionId entry now
      else answer_committed questionId entry effectiveAnswer now now'
  end.

(** [respond] when its queue task runs at once. *)
Definition respondQuestion (questionId : string) (answer : question_answer) (now now' : instant)
    : sysM unit :=
  m <- open_questions ;;
  match map_get questionId m with
  | None => throw (QuestionNotFoundError questionId)
  | Some _ => answer_task questionId answer now now'
  end.
End Answer.

(** ** Teardown of a run *)

(** The fail-soft writes of one closed entry; the id of the recovery gate it
    minted under [preserveGates]. *)
Definition close_writes (freshId : string) (runId : string) (preserveGates : bool) (now : instant)
    (questionId : string) (entry : question_entry) : sysM (option string) :=
  catch
    (n <- in_db (update_question questionId question_pending (time_out now)) ;;
     resolve_folded entry.(qe_reviewItemId) "system" "run_terminated" now runId ;;;
     if preserveGates && bool_decide (n ≠ 0)
     then in_db (coWriteDecisionReviewItem freshId
                   (buildAskUserQuestionRecoveryGate runId entry.(qe_request).(qr_questions) now))
     else mret None)
    (λ _, mret None).

(** [freshId] names the item minted for an entry. *)
Fixpoint close_entries (freshId : string → string) (runId : string) (preserveGates : bool)
    (now : instant) (toClose : list (string * question_entry)) : sysM (list string) :=
  match toClose with
  | [] => mret []
  | (questionId, entry) :: rest =>
      question_delete questionId ;;;
      minted <- close_writes (freshId questionId) runId preserveGates now questionId entry ;;
      emit (EvAnswer questionId empty_answer) ;;;
      emit (EvQuestionAnswered questionId qs_timed_out) ;;;
      more <- close_entries freshId runId preserveGates now rest ;;
      mret (match minted with Some i => i :: more | None => more end)
  end.

(** The run a teardown left at [awaiting_input] rests in [awaiting_review]. *)
Definition settle_owner (runId : string) (now : instant) : sysM unit :=
  n <- in_db (update_run runId (has_status awaiting_input) (set_status awaiting_review now)) ;;
  if decide (n = 0) then mret tt else emit (EvRunStatusChanged runId awaiting_review).

Definition clearPendingQuestions (freshId : string → string) (runId : string) (preserveGates : bool)
    (now : instant) : sysM unit :=
  m <- open_questions ;;
  minted <- close_entries freshId runId preserveGates now (entries_for runId m) ;;
  mapM_ (λ i, swallow (emitReviewItemChangedById i "created")) minted ;;;
  swallow (settle_owner runId now).

(** ** Recovery at boot *)

(** [julianday('now') - julianday(updated_at) <= 7] *)
Definition is_fresh (now : instant) (r : run_row) : bool :=
  (now - r.(r_updated_at) <=? STALE_RESUMABLE_RECOVERY_DAYS * 86400000)%Z.

Definition stale_inputs (d : db) : list (string * run_row) :=
  sql_select (λ _ r, has_status awaiting_input r) d.(workflow_runs).

(** [ORDER BY created_at ASC] *)
Definition created_first (a b : string * question_row) : Prop :=
  (a.2.(q_created_at) <= b.2.(q_created_at))%Z.
#[export] Instance created_first_dec : RelDecision created_first.
Proof. intros a b. unfold created_first. apply _. Defined.

(** The questions of the resumable runs, by run in the order first seen. *)
Definition recovered_questions (ids : list string) (d : db)
    : list (string * list question_payload) :=
  foldl (λ m kq, let q := kq.2 in
           map_set q.(q_run_id) (default [] (map_get q.(q_run_id) m) ++ default [] q.(q_questions)) m)
    [] (merge_sort created_first
          (sql_select (λ _ q, question_pending q && in_ids ids q.(q_run_id)) d.(questions))).

Definition rest_runs (ids : list string) (now : instant) : dbM unit :=
  modify (λ d, set_runs (sql_update (λ k _, in_ids ids k)
                           (set_status awaiting_review (current_timestamp now))
                           d.(workflow_runs)) d).
Definition fail_runs (ids : list string) (now : instant) : dbM unit :=
  modify (λ d, set_runs (sql_update (λ k _, in_ids ids k) (fail_interrupted now)
                           d.(workflow_runs)) d).

Section Recover.
(** Whether the invocation store holds a conversation to resume. *)
Context (target : string → bool) (freshId : string → string).

Definition isResumable (now : instant) (kr : string * run_row) : bool :=
  is_fresh now kr.2 && target kr.1.

Definition recover_input_txn (now : instant) : dbM ((nat * nat) * (list string * list string)) :=
  transaction
    (d <- get ;;
     let staleRuns := stale_inputs d in
     let resumableIds := (filter (λ kr, isResumable now kr = true) staleRuns).*1 in
     let failedIds := (filter (λ kr, isResumable now kr = false) staleRuns).*1 in
     let allIds := staleRuns.*1 in
     if decide (staleRuns = []) then mret ((0, 0), ([], []))
     else
       rest_runs resumableIds now ;;;
       fail_runs failedIds now ;;;
       d1 <- get ;;
       minted <- (if hasReviewItemsTable d1 then
                    collect (λ rq, coWriteDecisionReviewItem (freshId rq.1)
                                     (buildAskUserQuestionRecoveryGate rq.1 rq.2 now))
                      (recovered_questions resumableIds d1)
                  else mret []) ;;
       time_out_where (λ q, in_ids allIds q.(q_run_id)) (current_timestamp now) ;;;
       d2 <- get ;;
       resolved <- (if hasReviewItemsTable d2 then
                      collect (λ kv, resolveReviewItemById kv.1 "system" (Some "app_restart") now
                                       kv.2.(v_run_id))
                        (question_items (in_ids allIds) d2)
                    else mret []) ;;
       mret ((length resumableIds, length failedIds), (resolved, minted))).

Definition recoverStaleAwaitingInput (now : instant) : sysM (nat * nat) :=
  r <- in_db (recover_input_txn now) ;;
  mapM_ (λ i, emitReviewItemChangedById i "resolved") r.2.1 ;;;
  mapM_ (λ i, swallow (emitReviewItemChangedById i "created")) r.2.2 ;;;
  mret r.1.
End Recover.

Definition getPendingQuestions : sysM (list question_request) :=
  m <- open_questions ;; mret (qe_request ∘ snd <$> m).

(** ** Every operation stays on the status machine *)

(** The two teardown writes take a run from [awaiting_input] to
    [awaiting_review].  That is no edge of the table, only a path through
    [running]. *)
Lemma input_review_path : rtc edge awaiting_input awaiting_review ∧ ¬ edge awaiting_input awaiting_review.
Proof.
  split; [|by intros H%edge_spec].
  apply rtc_l with running; [by apply edge_spec|]. by apply rtc_once, edge_spec.
Qed.

Lemma update_question_refines id p f : preserves (E:=run_error) runs_refine (update_question id p f).
Proof.
  intros d. apply runs_refine_eq. unfold update_question. by destruct (sql_update_id _ _ _ _).
Qed.
Lemma insert_question_refines id q : preserves runs_refine (insert_question id q).
Proof. intros d. apply runs_refine_eq. unfold insert_question. by destruct (d.(questions) !! id). Qed.
Lemma time_out_where_refines p t : preserves (E:=run_error) runs_refine (time_out_where p t).
Proof. intros d. by apply runs_refine_eq. Qed.
Lemma question_delete_refines id : preserves sys_refine (question_delete id).
Proof. by apply modify_refines. Qed.
Lemma question_set_refines id e : preserves sys_refine (question_set id e).
Proof. by apply modify_refines. Qed.
#[export] Hint Resolve update_question_refines insert_question_refines time_out_where_refines
  question_delete_refines question_set_refines swallow_refines : refine.

Lemma collect_refines {A} (f : A → dbM (option string)) l :
  (∀ x, preserves runs_refine (f x)) → preserves runs_refine (collect f l).
Proof.
  intros H. induction l as [|x l IH]; simpl; [by apply preserves_ret, _|].
  apply preserves_bind; [typeclasses eauto|done|intros]. apply preserves_bind; [typeclasses eauto|done|].
  intros. apply preserves_ret, _.
Qed.

Lemma supersede_entry_refines r now kv : preserves runs_refine (supersede_entry r now kv).
Proof. unfold supersede_entry. solve_refine. Qed.
#[export] Hint Resolve supersede_entry_refines : refine.

Lemma self_heal_refines r m now : preserves runs_refine (self_heal r m now).
Proof.
  unfold self_heal.
  preserve_with ltac:(first [apply collect_refines; intros ?|refine_step]); try typeclasses eauto.
Qed.
#[export] Hint Resolve self_heal_refines : refine.

Lemma requestQuestion_refines i f r t qs now : preserves sys_refine (requestQuestion i f r t qs now).
Proof. unfold requestQuestion, open_questions, request_txn, settle_superseded. solve_refine. Qed.

Lemma resolve_folded_refines i w res now r : preserves sys_refine (resolve_folded i w res now r).
Proof. unfold resolve_folded. solve_refine. Qed.
#[export] Hint Resolve requestQuestion_refines resolve_folded_refines : refine.

Lemma rest_input_refines runId now :
  preserves runs_refine (update_run runId (has_status awaiting_input) (set_status awaiting_review now)).
Proof.
  apply update_run_refines. intros r Hr%bool_decide_eq_true. split; [by split_and!|]. simpl.
  rewrite Hr. apply input_review_path.
Qed.

Lemma clearPendingQuestions_refines f r b now :
  preserves sys_refine (clearPendingQuestions f r b now).
Proof.
  assert (∀ l, preserves sys_refine (close_entries f r b now l)) as Hc.
  { induction l as [|[i e] l IH]; simpl; [by apply preserves_ret, _|].
    unfold close_writes. preserve_with ltac:(first [exact IH|refine_step]); try typeclasses eauto. }
  unfold clearPendingQuestions, open_questions, settle_owner.
  preserve_with ltac:(first [apply Hc|apply in_db_refines, rest_input_refines|apply swallow_refines
                            |refine_step]); try typeclasses eauto.
Qed.
#[export] Hint Resolve clearPendingQuestions_refines : refine.

(** *** The recovery, as one map over the runs *)

Definition recovered_run (target : string → bool) (now : instant) (k : string) (r : run_row) : run_row :=
  if has_status awaiting_input r then
    if isResumable target now (k, r) then set_status awaiting_review (current_timestamp now) r
    else fail_interrupted now r
  else r.

Lemma collect_frame {A} (f : A → dbM (option string)) l :
  (∀ x, preserves items_frame (f x)) → preserves items_frame (collect f l).
Proof.
  intros H. induction l as [|x l IH]; simpl; [by apply preserves_ret, _|].
  apply preserves_bind; [typeclasses eauto|done|intros]. apply preserves_bind; [typeclasses eauto|done|].
  intros. apply preserves_ret, _.
Qed.

Lemma coWriteDecision_frame f a : preserves items_frame (coWriteDecisionReviewItem f a).
Proof. apply (run_command_frame (CoWriteDecision f a, 0%Z)). Qed.
Lemma resolveById_frame i w res now r : preserves items_frame (resolveReviewItemById i w res now r).
Proof. apply (run_command_frame (ResolveById i w res r, now)). Qed.

Lemma stale_filter target now d (b : bool) k :
  k ∈ (filter (λ kr, isResumable target now kr = b) (stale_inputs d)).*1
  ↔ ∃ r, d.(workflow_runs) !! k = Some r ∧ has_status awaiting_input r = true
         ∧ isResumable target now (k, r) = b.
Proof.
  rewrite list_elem_of_fmap. unfold stale_inputs. split.
  - intros ([j r] & -> & [Hb [? ?]%elem_of_sql_select]%list_elem_of_filter). eauto.
  - intros (r & ? & ? & ?). exists (k, r). split; [done|]. apply list_elem_of_filter.
    split; [done|]. by apply elem_of_sql_select.
Qed.

Lemma in_stale target now d (b : bool) k r :
  d.(workflow_runs) !! k = Some r →
  in_ids (filter (λ kr, isResumable target now kr = b) (stale_inputs d)).*1 k
  = has_status awaiting_input r && Bool.eqb (isResumable target now (k, r)) b.
Proof.
  intros Hr. unfold in_ids. apply eq_true_iff_eq. rewrite bool_decide_eq_true, stale_filter, andb_true_iff.
  rewrite eqb_true_iff. split; [intros (? & ? & ? & ?); by simplify_eq|intros []; eauto].
Qed.

Lemma recover_runs target now d :
  let ids b := (filter (λ kr, isResumable target now kr = b) (stale_inputs d)).*1 in
  ∀ k, (exec (rest_runs (ids true) now ;;; fail_runs (ids false) now) d).(workflow_runs) !! k
       = recovered_run target now k <$> d.(workflow_runs) !! k.
Proof.
  intros ids k. unfold exec, mbind, rest_runs, fail_runs, modify. simpl.
  rewrite !sql_update_lookup. destruct (d.(workflow_runs) !! k) as [r|] eqn:Hr; [|done]. simpl. f_equal.
  unfold ids. rewrite !(in_stale target now d _ k r) by done. unfold recovered_run.
  destruct (has_status awaiting_input r); [|done]. by destruct (isResumable target now (k, r)).
Qed.

(** What the recovery leaves of the rows it does not own. *)
Definition recovered_db' (target : string → bool) (now : instant) (d d' : db) : Prop :=
  (∀ k, d'.(workflow_runs) !! k = recovered_run target now k <$> d.(workflow_runs) !! k)
  ∧ d'.(workflows) = d.(workflows) ∧ d'.(approvals) = d.(approvals)
  ∧ (∀ id, d'.(questions) !! id
           = (λ q, if in_ids (stale_inputs d).*1 q.(q_run_id) && question_pending q
                   then time_out (current_timestamp now) q else q) <$> d.(questions) !! id).

Lemma recover_input_txn_db target f now d :
  match recover_input_txn target f now d with
  | (Ok ((n, m), _), d') =>
      recovered_db' target now d d'
      ∧ n = length (filter (λ kr, isResumable target now kr = true) (stale_inputs d))
      ∧ m = length (filter (λ kr, isResumable target now kr = false) (stale_inputs d))
  | (Throw _, d') => d' = d
  end.
Proof.
  unfold recover_input_txn, transaction. unfold mbind at 1, get at 1.
  destruct (decide (stale_inputs d = [])) as [Hn|Hn].
  { simpl. rewrite Hn. split; [|done]. unfold recovered_db'. split_and!; [|done|done|].
    - intros k. destruct (d.(workflow_runs) !! k) as [r|] eqn:Hr; [|done]. simpl. f_equal.
      unfold recovered_run. destruct (has_status awaiting_input r) eqn:Hs; [|done]. exfalso.
      assert ((k, r) ∈ stale_inputs d) as Hin by (by apply elem_of_sql_select).
      rewrite Hn in Hin. by apply not_elem_of_nil in Hin.
    - intros id. rewrite Hn. by destruct (d.(questions) !! id). }
  pose proof (recover_runs target now d) as Hruns.
  set (ids := λ b, (filter (λ kr, isResumable target now kr = b) (stale_inputs d)).*1) in *.
  simpl in Hruns. fold (ids true) (ids false) in Hruns |- *.
  set (d1 := exec (rest_runs (ids true) now ;;; fail_runs (ids false) now) d) in *.
  unfold mbind at 1, rest_runs, modify at 1. unfold mbind at 1, fail_runs, modify at 1.
  match goal with |- context [mbind get _ ?x] => change x with d1 end.
  assert (d1.(questions) = d.(questions) ∧ d1.(workflows) = d.(workflows) ∧ d1.(approvals) = d.(approvals))
    as (Hq1 & Hw1 & Ha1) by done.
  assert (∀ k, d1.(workflow_runs) !! k = recovered_run target now k <$> d.(workflow_runs) !! k)
    as Hr1 by exact Hruns.
  clearbody d1. unfold mbind at 1, get at 1.
  match goal with |- context [mbind ?m _ d1] => assert (preserves items_frame m) as Hm end.
  { case_match; [apply collect_frame; intros; apply coWriteDecision_frame|by apply preserves_ret, _]. }
  specialize (Hm d1). unfold mbind at 1.
  match type of Hm with items_frame _ (?m d1).2 => destruct (m d1) as [[minted|e] d2] end; [|done].
  simpl in Hm. unfold mbind at 1, time_out_where, modify at 1.
  set (d3 := set_questions _ d2). unfold mbind at 1, get at 1.
  match goal with |- context [mbind ?m _ d3] => assert (preserves items_frame m) as Hm3 end.
  { case_match; [apply collect_frame; intros; apply resolveById_frame|by apply preserves_ret, _]. }
  specialize (Hm3 d3). unfold mbind at 1.
  match type of Hm3 with items_frame _ (?m d3).2 => destruct (m d3) as [[resolved|e] d4] end; [|done].
  simpl in *. destruct Hm as (Hr2 & Hw2 & _ & Ha2 & Hq2 & _). destruct Hm3 as (Hr4 & Hw4 & _ & Ha4 & Hq4 & _).
  subst d3. simpl in *. unfold ids. rewrite !length_fmap. split; [|done]. unfold recovered_db'.
  split_and!; [|congruence|congruence|].
  - intros k. by rewrite Hr4, Hr2, Hr1.
  - intros id. by rewrite Hq4, sql_update_lookup, Hq2, Hq1.
Qed.

Lemma recoverStaleAwaitingInput_refines target f now :
  preserves sys_refine (recoverStaleAwaitingInput target f now).
Proof.
  unfold recoverStaleAwaitingInput. apply preserves_bind; [typeclasses eauto| |solve_refine].
  apply in_db_refines. intros d. pose proof (recover_input_txn_db target f now d) as H.
  destruct (recover_input_txn target f now d) as [[[[n m] x]|e] d']; [|by subst]. simpl.
  destruct H as [(Hr & Hw & _) _]. split; [done|]. intros k. rewrite Hr.
  destruct (d.(workflow_runs) !! k) as [r|]; simpl; constructor. unfold recovered_run.
  destruct (has_status awaiting_input r) eqn:Hs; [|reflexivity]. apply bool_decide_eq_true in Hs.
  destruct (isResumable target now (k, r)); (split; [by split_and!|]); simpl; rewrite Hs.
  - apply input_review_path.
  - by apply rtc_once, edge_spec.
Qed.
#[export] Hint Resolve recoverStaleAwaitingInput_refines : refine.

(** ** Moves that settle no gate *)

Definition gate_silent (e : effect) : bool :=
  match e with EvAnswer _ _ | EvAnswerReply _ _ => false | _ => true end.

(** The open gates and the questions stay, the log grows by silent effects. *)
Definition gate_quiet (s s' : sys) : Prop :=
  s'.(sys_questions) = s.(sys_questions)
  ∧ s'.(sys_db).(questions) = s.(sys_db).(questions)
  ∧ ∃ ev, s'.(sys_log) = s.(sys_log) ++ ev ∧ forallb gate_silent ev = true.

#[export] Instance gate_quiet_preorder : PreOrder gate_quiet.
Proof.
  split; [intros s; split_and!; [done|done|exists []; by rewrite app_nil_r]|].
  intros s1 s2 s3 (? & ? & e1 & Hl1 & He1) (? & ? & e2 & Hl2 & He2). split_and!; [congruence..|].
  exists (e1 ++ e2). by rewrite Hl2, Hl1, <- (assoc_L (++)), forallb_app, He1, He2.
Qed.

Lemma in_db_gate_quiet {A} (m : dbM A) :
  (∀ d, (m d).2.(questions) = d.(questions)) → preserves gate_quiet (in_db m).
Proof.
  intros H s. unfold in_db, zoom. specialize (H s.(sys_db)). destruct (m s.(sys_db)) as [x d'].
  split_and!; [done|done|exists []; by rewrite app_nil_r].
Qed.

Lemma frame_gate_quiet {A} (m : dbM A) : preserves items_frame m → preserves gate_quiet (in_db m).
Proof. intros H. apply in_db_gate_quiet. intros d. by destruct (H d) as (_ & _ & _ & _ & ? & _). Qed.

Lemma emit_gate_quiet e : gate_silent e = true → preserves (E:=run_error) gate_quiet (emit e).
Proof. intros He s. split_and!; [done|done|exists [e]; simpl; by rewrite He]. Qed.

Lemma update_run_gate_quiet k p f : preserves gate_quiet (in_db (update_run k p f)).
Proof. apply in_db_gate_quiet. intros d. by case_update_run. Qed.

Lemma assert_gate_quiet a b r : preserves gate_quiet (in_db (assertTransitionAllowed a b r)).
Proof. apply in_db_gate_quiet. intros d. unfold assertTransitionAllowed. by case_match. Qed.

Lemma swallow_gate_quiet m : preserves gate_quiet m → preserves gate_quiet (swallow m).
Proof. intros H. apply preserves_catch; [typeclasses eauto|done|by intros; apply preserves_ret, _]. Qed.

#[export] Hint Resolve frame_gate_quiet update_run_gate_quiet assert_gate_quiet swallow_gate_quiet
  coWriteDecision_frame resolveById_frame gate_quiet_preorder : gate.
#[export] Hint Extern 1 (preserves gate_quiet (emit _)) => by apply emit_gate_quiet : gate.

Ltac solve_quiet := intros; preserve_with ltac:(solve [eauto 3 with gate]); try typeclasses eauto.

Lemma emitReviewItem_gate_quiet i a : preserves gate_quiet (emitReviewItemChangedById i a).
Proof. unfold emitReviewItemChangedById. solve_quiet. Qed.
#[export] Hint Resolve emitReviewItem_gate_quiet : gate.

Lemma resolve_folded_gate_quiet i w res now r : preserves gate_quiet (resolve_folded i w res now r).
Proof. unfold resolve_folded. solve_quiet. Qed.

Lemma resolve_folded_total i w res now r : total (resolve_folded i w res now r).
Proof.
  intros s. unfold resolve_folded. destruct i as [i|]; [|by eexists _, _].
  unfold mbind at 1, in_db, zoom. destruct (resolveById_ok i w (Some res) now (Some r) s.(sys_db))
    as (o & d' & ->). unfold emitReviewItemChangedById, mbind, gets. case_match; by eexists _, _.
Qed.

Lemma settle_owner_gate_quiet r now : preserves gate_quiet (settle_owner r now).
Proof. unfold settle_owner. solve_quiet. Qed.
#[export] Hint Resolve resolve_folded_gate_quiet settle_owner_gate_quiet : gate.

(** ** The follow-ups of an answer *)

(** A follow-up keeps every run on its status machine and settles no gate. *)
Definition follow_up (m : sysM unit) : Prop := preserves sys_refine m ∧ preserves gate_quiet m.

Class PlanGateLaws (deps : PlanGateDeps) : Prop := {
  pgl_reveal r p : follow_up (deps.(pg_revealRunDrafts) r p);
  pgl_retire r p : follow_up (deps.(pg_retireDecomposedIdeas) r p);
  pgl_delete r p : follow_up (deps.(pg_deleteRunCreatedEntities) r p);
  pgl_launch f r p : deps.(pg_launchDesignSession) = Some f → follow_up (f r p)
}.

(** The bag whose members only leave a trace. *)
Definition traced_plan_gate_deps : PlanGateDeps :=
  mk_plan_gate_deps (λ r _, emit (EvCall "revealRunDrafts" r))
    (λ r _, emit (EvCall "retireIdeaToDecomposed" r))
    (λ r _, emit (EvCall "deleteRunCreatedEntities" r))
    (Some (λ r _, emit (EvCall "launchDesignSession" r))).

#[export] Instance traced_plan_gate_laws : PlanGateLaws traced_plan_gate_deps.
Proof.
  split; simpl; intros; simplify_eq; (split; [apply emit_refines|by apply emit_gate_quiet]).
Qed.

Lemma at_step_preserves (R : sys → sys → Prop) `{!PreOrder R} runId stepId k :
  (∀ r, preserves R (k r)) → preserves R (at_step runId stepId k).
Proof.
  intros H. unfold at_step, swallow.
  preserve_with ltac:(apply H); try typeclasses eauto.
Qed.

Section Follow.
Context (deps : PlanGateDeps) `{!PlanGateLaws deps}.

(** The five follow-ups of an answer, as one statement. *)
Definition follow_ups (runId : string) (answer : question_answer) (questions : list question_payload)
    (now : instant) : list (sysM unit) :=
  [promoteTasksOnPlanApproval deps runId answer; retireShipIdeasOnPlanApproval deps runId answer;
   deletePendingDraftsOnPlanDecline deps runId answer questions;
   completePlannerRunOnPlanApproval runId answer now;
   launchDesignModeOnFork deps runId answer questions].

Lemma follow_ups_preserve (R : sys → sys → Prop) `{!PreOrder R} runId answer qs now :
  (∀ m, follow_up m → preserves R m) →
  (∀ e, gate_silent e = true → preserves (E:=run_error) R (emit e)) →
  (∀ a b r, preserves R (in_db (assertTransitionAllowed a b r))) →
  preserves R (in_db (update_run runId (has_status running)
    (λ r, set_status completed now (set_ended_at (current_timestamp now) r)))) →
  Forall (preserves R) (follow_ups runId answer qs now).
Proof.
  intros Hf He Ha Hu. unfold follow_ups.
  repeat apply Forall_cons_2; [..|by apply Forall_nil_2];
    apply at_step_preserves; try done; intros r;
    preserve_with ltac:(first [apply Hu|apply Ha|by apply He|apply Hf, pgl_reveal|apply Hf, pgl_retire
                              |apply Hf, pgl_delete|by apply Hf, pgl_launch with (f := _)]); try done.
  all: apply Hf; eapply pgl_launch; done.
Qed.

Lemma follow_ups_refine runId answer qs now :
  Forall (preserves sys_refine) (follow_ups runId answer qs now).
Proof.
  apply follow_ups_preserve; [typeclasses eauto|by intros ? []|by intros; apply emit_refines| |].
  - intros. apply in_db_refines, assert_refines, _.
  - solve_refine.
Qed.

Lemma follow_ups_quiet runId answer qs now :
  Forall (preserves gate_quiet) (follow_ups runId answer qs now).
Proof.
  apply follow_ups_preserve; [typeclasses eauto|by intros ? []|by intros; apply emit_gate_quiet| |].
  - intros. apply assert_gate_quiet.
  - apply update_run_gate_quiet.
Qed.

Lemma answer_task_refines id answer now now' : preserves sys_refine (answer_task deps id answer now now').
Proof.
  unfold answer_task, open_questions.
  apply preserves_bind; [typeclasses eauto|apply preserves_gets, _|intros m].
  destruct (map_get id m) as [e|]; [|apply preserves_ret, _].
  pose proof (follow_ups_refine (qr_runId (qe_request e)) (embedAttachmentsIntoAnswer answer)
    (qr_questions (qe_request e)) now') as H.
  unfold follow_ups in H. rewrite !Forall_cons in H. destruct H as (H1 & H2 & H3 & H4 & H5 & _).
  preserve_with ltac:(first [done|refine_step]); typeclasses eauto.
Qed.

Lemma respondQuestion_refines id answer now now' :
  preserves sys_refine (respondQuestion deps id answer now now').
Proof.
  unfold respondQuestion, open_questions.
  preserve_with ltac:(first [apply answer_task_refines]); typeclasses eauto.
Qed.
End Follow.

(** ** The exactly-once invariant *)

Definition answers_of (id : string) (l : list effect) : list question_answer :=
  omap (λ e, match e with EvAnswer i a => if decide (i = id) then Some a else None | _ => None end) l.
Definition answer_replies (id : string) (l : list effect) : list question_answer :=
  omap (λ e, match e with EvAnswerReply i a => if decide (i = id) then Some a else None | _ => None end) l.

Lemma silent_answers id ev : forallb gate_silent ev = true → answers_of id ev = [] ∧ answer_replies id ev = [].
Proof. induction ev as [|e ev IH]; [done|]. simpl. intros He. bool_hyps. destruct e; try done; by apply IH. Qed.

Lemma answers_app id l1 l2 : answers_of id (l1 ++ l2) = answers_of id l1 ++ answers_of id l2.
Proof. apply omap_app. Qed.
Lemma replies_app id l1 l2 : answer_replies id (l1 ++ l2) = answer_replies id l1 ++ answer_replies id l2.
Proof. apply omap_app. Qed.

(** How a settled gate's row agrees with what its Promise and its socket got. *)
Definition settled_row (q : question_row) (a : question_answer) (rep : list question_answer) : Prop :=
  q.(q_status) = qs_answered ∧ rep = [a]
  ∨ q.(q_status) = qs_timed_out ∧ rep = [] ∧ a = empty_answer.

Definition answered_once (tbl : gmap string question_row) (entry : option question_entry)
    (ans rep : list question_answer) (id : string) : Prop :=
  match ans with
  | [] => rep = []
  | [a] => entry = None ∧ ∃ q, tbl !! id = Some q ∧ settled_row q a rep
  | _ => False
  end.

(** [K] holds the entries a self-heal has timed out and not settled yet; it is
    empty between operations. *)
Record gate_inv (K : list string) (s : sys) : Prop := {
  gi_nodup : NoDup s.(sys_questions).*1;
  gi_entry id e : map_get id s.(sys_questions) = Some e →
    e.(qe_request).(qr_id) = id
    ∧ ∃ q, s.(sys_db).(questions) !! id = Some q ∧ q.(q_run_id) = e.(qe_request).(qr_runId)
           ∧ q.(q_status) = (if decide (id ∈ K) then qs_timed_out else qs_pending);
  gi_once id : answered_once s.(sys_db).(questions) (map_get id s.(sys_questions))
                 (answers_of id s.(sys_log)) (answer_replies id s.(sys_log)) id
}.

Lemma gate_inv_quiet K s s' : gate_quiet s s' → gate_inv K s → gate_inv K s'.
Proof.
  intros (Hq & Hd & ev & Hl & Hs) [Hn He Ho]. split; rewrite ?Hq, ?Hd; [done|done|].
  intros id. rewrite Hl, answers_app, replies_app. destruct (silent_answers id ev Hs) as [-> ->].
  rewrite !app_nil_r. apply Ho.
Qed.

Lemma gate_inv_open K s id e :
  gate_inv K s → map_get id s.(sys_questions) = Some e →
  answers_of id s.(sys_log) = [] ∧ answer_replies id s.(sys_log) = [].
Proof.
  intros [_ _ Ho] Hg. specialize (Ho id). unfold answered_once in Ho.
  destruct (answers_of id (sys_log s)) as [|a [|]]; [done| |done]. destruct Ho as [Hn _]. congruence.
Qed.

(** Settling one gate: from the state in which it was open, by way of a row
    write and of moves that settle nothing. *)
Lemma gate_inv_settle K K' s s' id e a (reply : bool) ev ev' :
  gate_inv K s → map_get id s.(sys_questions) = Some e →
  (∀ j, j ≠ id → j ∈ K ↔ j ∈ K') →
  s'.(sys_questions) = map_delete id s.(sys_questions) →
  (∀ j, j ≠ id → s'.(sys_db).(questions) !! j = s.(sys_db).(questions) !! j) →
  (∃ q, s'.(sys_db).(questions) !! id = Some q ∧ settled_row q a (if reply then [a] else [])) →
  s'.(sys_log) = s.(sys_log) ++ ev ++ EvAnswer id a :: (if reply then [EvAnswerReply id a] else []) ++ ev' →
  forallb gate_silent ev = true → forallb gate_silent ev' = true →
  gate_inv K' s'
  ∧ answers_of id s'.(sys_log) = [a] ∧ answer_replies id s'.(sys_log) = (if reply then [a] else []).
Proof.
  intros Hi Hg HK Hq Hd Hrow Hl Hs Hs'. destruct (gate_inv_open K s id e Hi Hg) as [Ha0 Hr0].
  assert (∀ j, answers_of j s'.(sys_log) = answers_of j s.(sys_log) ++ (if decide (id = j) then [a] else [])) as Ha.
  { intros j. rewrite Hl. change (EvAnswer id a :: ?l) with ([EvAnswer id a] ++ l). rewrite !answers_app.
    destruct (silent_answers j ev Hs) as [-> _]. destruct (silent_answers j ev' Hs') as [-> _].
    rewrite app_nil_r, app_nil_l. f_equal. destruct reply; simpl; by case_decide. }
  assert (∀ j, answer_replies j s'.(sys_log)
    = answer_replies j s.(sys_log) ++ (if decide (id = j) then (if reply then [a] else []) else [])) as Hr.
  { intros j. rewrite Hl. change (EvAnswer id a :: ?l) with ([EvAnswer id a] ++ l). rewrite !replies_app.
    destruct (silent_answers j ev Hs) as [_ ->]. destruct (silent_answers j ev' Hs') as [_ ->].
    rewrite app_nil_r, app_nil_l. f_equal. destruct reply; simpl; by case_decide. }
  destruct Hi as [Hn He Ho]. split.
  - split; [by rewrite Hq; apply map_delete_NoDup| |]; intros j.
    + intros e' Hj. rewrite Hq, map_get_delete in Hj. case_decide as Hne; [done|].
      destruct (He j e' Hj) as [Hid (q & Hqr & Hrun & Hst)]. split; [done|]. exists q.
      rewrite Hd by congruence. split_and!; [done..|]. rewrite Hst. specialize (HK j (not_eq_sym Hne)).
      by repeat case_decide; naive_solver.
    + rewrite Ha, Hr, Hq, map_get_delete. case_decide as Hne.
      * subst j. rewrite Ha0, Hr0. simpl. split; [done|]. by destruct reply.
      * rewrite !app_nil_r. specialize (Ho j). unfold answered_once in *. by rewrite Hd by congruence.
  - rewrite Ha, Hr, Ha0, Hr0. by rewrite !decide_True.
Qed.

(** ** Answering, by cases *)

Lemma update_question_eq id p f d q :
  d.(questions) !! id = Some q → p q = true →
  update_question id p f d = (Ok 1, set_questions (<[id := f q]> d.(questions)) d).
Proof. intros Hq Hp. unfold update_question, sql_update_id. by rewrite Hq, Hp. Qed.

(** A quiet total statement, followed by its continuation. *)
Lemma quiet_step {A} (m : sysM unit) (k : unit → sysM A) s :
  total m → preserves gate_quiet m → ∃ s1, (x <- m ;; k x) s = k tt s1 ∧ gate_quiet s s1.
Proof.
  intros Ht Hq. destruct (Ht s) as ([] & s1 & Hm). specialize (Hq s). unfold mbind. rewrite Hm in *.
  by exists s1.
Qed.

Lemma at_step_total r st k : total (at_step r st k).
Proof. apply total_catch. intros _. apply total_ret. Qed.

Lemma emit_total' e : total (E:=run_error) (emit e).
Proof. apply total_modify. Qed.

(** Step over a quiet total statement at the head of the goal's computation. *)
Ltac quiet_next :=
  match goal with
  | |- context [mbind ?m ?k ?s] =>
      let s1 := fresh "s" in let He := fresh "He" in let Hs := fresh "Hs" in
      destruct (quiet_step m k s) as (s1 & He & Hs);
      [ first [apply resolve_folded_total|apply at_step_total|apply emit_total']
      | first [assumption|apply resolve_folded_gate_quiet|by apply emit_gate_quiet]
      | rewrite He; clear He ]
  end.

Section AnswerSpec.
Context (deps : PlanGateDeps) `{!PlanGateLaws deps}.

(** Whether an answer finds its run waiting for it. *)
Definition gate_live (d : db) (runId : string) : bool :=
  bool_decide (status_of d runId = Some awaiting_input).

(** The row an answer leaves. *)
Definition answered_row (d : db) (entry : question_entry) (answer : question_answer) (now : instant)
    (q : question_row) : question_row :=
  if gate_live d entry.(qe_request).(qr_runId)
  then settle_question qs_answered now
         (Some (redactSecretAnswers (embedAttachmentsIntoAnswer answer) entry.(qe_request).(qr_questions))) q
  else time_out now q.

Lemma answer_committed_exec id a now now' s s0 entry q :
  gate_inv [] s → map_get id s.(sys_questions) = Some entry → s.(sys_db).(questions) !! id = Some q →
  s0.(sys_questions) = map_delete id s.(sys_questions) →
  s0.(sys_db).(questions) = s.(sys_db).(questions) → s0.(sys_log) = s.(sys_log) →
  ∃ s', answer_committed deps id entry a now now' s0 = (Ok tt, s') ∧ gate_inv [] s'
    ∧ answers_of id s'.(sys_log) = [a] ∧ answer_replies id s'.(sys_log) = [a]
    ∧ s'.(sys_questions) = map_delete id s.(sys_questions)
    ∧ s'.(sys_db).(questions) = <[id := settle_question qs_answered now
         (Some (redactSecretAnswers a entry.(qe_request).(qr_questions))) q]> s.(sys_db).(questions).
Proof.
  intros Hi Hg Hq Hsq Hd Hl. unfold answer_committed.
  pose proof (follow_ups_quiet deps (qr_runId (qe_request entry)) a (qr_questions (qe_request entry)) now') as Hf.
  unfold follow_ups in Hf. rewrite !Forall_cons in Hf. destruct Hf as (Hf1 & Hf2 & Hf3 & Hf4 & Hf5 & _).
  rewrite (in_db_step _ _ _ 1 _) by (apply (update_question_eq _ _ _ _ q); [congruence|done]). simpl.
  do 3 quiet_next. do 3 (unfold mbind at 1, emit at 1, modify at 1). do 3 quiet_next.
  assert (total (launchDesignModeOnFork deps (qr_runId (qe_request entry)) a
    (qr_questions (qe_request entry)))) as Ht by apply at_step_total.
  destruct (Ht s6) as ([] & s7 & Hs7). specialize (Hf5 s6). rewrite Hs7 in *. simpl in Hf5.
  match type of Hs with gate_quiet ?x _ => assert (gate_quiet x s3) as (Hq3 & Hd3 & ev & Hl3 & He)
    by (transitivity s1; [done|by transitivity s2]) end.
  match type of Hs2 with gate_quiet ?x _ => assert (gate_quiet x s7) as (Hq7 & Hd7 & ev' & Hl7 & He')
    by (transitivity s4; [done|]; transitivity s5; [done|]; by transitivity s6) end.
  simpl in *. exists s7.
  destruct (gate_inv_settle [] [] s s7 id entry a true ev (EvQuestionAnswered id qs_answered :: ev'))
    as (Hi7 & Ha7 & Hr7); try done.
  - congruence.
  - intros j Hj. by rewrite Hd7, Hd3, Hd, lookup_insert_ne.
  - rewrite Hd7, Hd3, lookup_insert_eq. eexists. split; [done|]. by left.
  - rewrite Hl7, Hl3, Hl. by rewrite <- !(assoc_L (++)).
  - split_and!; try done; congruence.
Qed.

Lemma answer_superseded_exec id now s s0 entry q :
  gate_inv [] s → map_get id s.(sys_questions) = Some entry → s.(sys_db).(questions) !! id = Some q →
  question_pending q = true →
  s0.(sys_questions) = map_delete id s.(sys_questions) →
  s0.(sys_db).(questions) = s.(sys_db).(questions) → s0.(sys_log) = s.(sys_log) →
  ∃ s', answer_superseded id entry now s0 = (Ok tt, s') ∧ gate_inv [] s'
    ∧ answers_of id s'.(sys_log) = [empty_answer] ∧ answer_replies id s'.(sys_log) = []
    ∧ s'.(sys_questions) = map_delete id s.(sys_questions)
    ∧ s'.(sys_db).(questions) = <[id := time_out now q]> s.(sys_db).(questions).
Proof.
  intros Hi Hg Hq Hp Hsq Hd Hl. unfold answer_superseded.
  rewrite (in_db_step _ _ _ 1 _) by (apply (update_question_eq _ _ _ _ q); [congruence|done]). simpl.
  quiet_next. destruct Hs as (Hq1 & Hd1 & ev & Hl1 & He). simpl in *.
  eexists. split; [reflexivity|]. simpl.
  edestruct (gate_inv_settle [] [] s (add_log (EvQuestionAnswered id qs_timed_out)
    (add_log (EvAnswer id empty_answer) s1)) id entry empty_answer false ev
    [EvQuestionAnswered id qs_timed_out]) as (Hi7 & Ha7 & Hr7); try done.
  - simpl. congruence.
  - intros j Hj. simpl. by rewrite Hd1, Hd, lookup_insert_ne.
  - simpl. rewrite Hd1, lookup_insert_eq. eexists. split; [done|]. by right.
  - simpl. rewrite Hl1, Hl. by rewrite <- !(assoc_L (++)).
  - split_and!; try done; congruence.
Qed.

Lemma gate_live_spec d r :
  gate_live d r = match d.(workflow_runs) !! r with
                  | Some row => has_status awaiting_input row | None => false end.
Proof.
  unfold gate_live, status_of, has_status. destruct (workflow_runs d !! r) as [row|]; simpl; [|done].
  apply bool_decide_ext. by split; [intros [= ->]|intros ->].
Qed.

Lemma answer_task_exec id answer now now' s entry :
  gate_inv [] s → map_get id s.(sys_questions) = Some entry →
  let live := gate_live s.(sys_db) entry.(qe_request).(qr_runId) in
  let a := if live then embedAttachmentsIntoAnswer answer else empty_answer in
  ∃ s' q, answer_task deps id answer now now' s = (Ok tt, s') ∧ gate_inv [] s'
    ∧ answers_of id s'.(sys_log) = [a]
    ∧ answer_replies id s'.(sys_log) = (if live then [a] else [])
    ∧ s'.(sys_questions) = map_delete id s.(sys_questions)
    ∧ s.(sys_db).(questions) !! id = Some q
    ∧ s'.(sys_db).(questions) = <[id := answered_row s.(sys_db) entry answer now q]> s.(sys_db).(questions).
Proof.
  intros Hi Hg live a. destruct (gi_entry [] s Hi id entry Hg) as [_ (q & Hq & _ & Hst)].
  rewrite decide_False in Hst by apply not_elem_of_nil.
  unfold answer_task. unfold mbind at 1, open_questions, gets at 1. rewrite Hg.
  unfold mbind at 1, question_delete, modify at 1. rewrite (in_db_step _ _ _ tt s.(sys_db)) by done.
  unfold mbind at 1, in_db at 1, zoom at 1. simpl.
  pose proof (gate_live_spec s.(sys_db) (qr_runId (qe_request entry))) as Hlive.
  unfold answered_row. fold live in Hlive |- *. subst a. clearbody live.
  case_update_run.
  - rewrite Hr, Hp in Hlive. subst live.
    edestruct (answer_committed_exec id (embedAttachmentsIntoAnswer answer) now now' s)
      as (s' & Hs' & H); [..|exists s', q; rewrite Hs'; by destruct_and!]; done.
  - assert (live = false) as -> by (rewrite Hlive; destruct (workflow_runs _ !! _); [by apply Hr|done]).
    edestruct (answer_superseded_exec id now s) as (s' & Hs' & H);
      [..|exists s', q; rewrite Hs'; by destruct_and!]; try done. by apply bool_decide_eq_true.
Qed.
End AnswerSpec.

(** ** Requesting, by cases *)

(** Runs and foreign rows stay; a row of the run may have timed out. *)
Definition heals (runId : string) (now : instant) (d d' : db) : Prop :=
  d'.(workflow_runs) = d.(workflow_runs)
  ∧ ∀ j, d'.(questions) !! j = d.(questions) !! j
         ∨ ∃ q, d.(questions) !! j = Some q ∧ of_run runId q && question_pending q = true
                ∧ d'.(questions) !! j = Some (time_out now q).

#[export] Instance heals_preorder r now : PreOrder (heals r now).
Proof.
  split; [intros d; split; [done|by left]|]. intros d1 d2 d3 [Hr12 H12] [Hr23 H23].
  split; [congruence|]. intros j. destruct (H12 j) as [Hj|(q & Hq & Hp & Hj)].
  - destruct (H23 j) as [Hj'|(q & Hq & Hp & Hj')]; [left; congruence|]. right. exists q. by rewrite <- Hj.
  - right. exists q. split_and!; [done..|]. destruct (H23 j) as [Hj'|(q' & Hq' & Hp' & _)]; [congruence|].
    rewrite Hj in Hq'. simplify_eq. unfold question_pending in Hp'. bool_hyps. done.
Qed.

Lemma frame_heals r now d d' : items_frame d d' → heals r now d d'.
Proof. intros (Hr & _ & _ & _ & Hq & _). split; [done|]. intros j. left. congruence. Qed.

Lemma heals_run r now d d' j :
  heals r now d d' → q_run_id <$> d'.(questions) !! j = q_run_id <$> d.(questions) !! j.
Proof. intros [_ H]. destruct (H j) as [->|(q & -> & _ & ->)]; done. Qed.

Lemma supersede_entry_heals r now kv d :
  (∀ q, d.(questions) !! kv.1 = Some q → q.(q_run_id) = r) →
  ∃ o d', supersede_entry r now kv d = (Ok o, d') ∧ heals r now d d'.
Proof.
  intros Hrun. unfold supersede_entry, mbind at 1, update_question.
  destruct (sql_update_id_cases kv.1 question_pending (time_out now) d.(questions))
    as [(q & Hq & Hp & ->)|[Hn ->]].
  - assert (heals r now d (set_questions (<[kv.1 := time_out now q]> d.(questions)) d)) as Hh.
    { split; [done|]. intros j. simpl. destruct (decide (j = kv.1)) as [->|Hne].
      - right. exists q. split_and!; [done| |by rewrite lookup_insert_eq].
        unfold of_run. by rewrite (Hrun q Hq), bool_decide_true.
      - left. by rewrite lookup_insert_ne. }
    destruct (qe_reviewItemId kv.2) as [i|]; [|by eexists _, _].
    edestruct resolveById_ok as (o & d' & Ho). rewrite Ho. eexists _, _. split; [done|].
    etransitivity; [exact Hh|]. apply frame_heals.
    match type of Ho with resolveReviewItemById ?i ?w ?x ?t ?y ?d1 = _ =>
      pose proof (resolveById_frame i w x t y d1) as Hf end. by rewrite Ho in Hf.
  - destruct (qe_reviewItemId kv.2) as [i|].
    2: { eexists _, _. split; [reflexivity|]. apply frame_heals. by split_and!. }
    edestruct resolveById_ok as (o & d' & Ho). rewrite Ho. eexists _, _. split; [done|].
    apply frame_heals. match type of Ho with resolveReviewItemById ?i ?w ?x ?t ?y ?d1 = _ =>
      pose proof (resolveById_frame i w x t y d1) as Hf end. rewrite Ho in Hf.
    etransitivity; [|exact Hf]. by split_and!.
Qed.

Lemma collect_supersede r now l d :
  (∀ kv q, kv ∈ l → d.(questions) !! kv.1 = Some q → q.(q_run_id) = r) →
  ∃ rs d', collect (supersede_entry r now) l d = (Ok rs, d') ∧ heals r now d d'.
Proof.
  revert d. induction l as [|kv l IH]; intros d Hl; simpl; [by eexists _, _|].
  destruct (supersede_entry_heals r now kv d) as (o & d1 & Ho & H1); [intros; eapply Hl; [by left|done]|].
  destruct (IH d1) as (rs & d2 & Hrs & H2).
  { intros kv' q Hin Hq. pose proof (heals_run _ _ _ _ kv'.1 H1) as Hrun. rewrite Hq in Hrun.
    destruct (d.(questions) !! kv'.1) as [q0|] eqn:Hq0; [|done]. simpl in Hrun. injection Hrun as ->.
    eapply Hl; [by right|done]. }
  unfold mbind. rewrite Ho, Hrs. eexists _, _. split; [done|]. by etransitivity.
Qed.

Lemma collect_total {A} (f : A → dbM (option string)) l : (∀ x, total (f x)) → total (collect f l).
Proof.
  intros H. induction l as [|x l IH]; simpl; [apply total_ret|].
  apply total_bind; [done|intros]. apply total_bind; [done|intros]. apply total_ret.
Qed.

(** Every pending question of the run timed out, nothing else. *)
Definition healed (runId : string) (now : instant) (d d' : db) : Prop :=
  d'.(workflow_runs) = d.(workflow_runs)
  ∧ ∀ j, d'.(questions) !! j
         = (λ q, if of_run runId q && question_pending q then time_out now q else q) <$> d.(questions) !! j.

Lemma self_heal_spec r m now d :
  (∀ kv q, kv ∈ entries_for r m → d.(questions) !! kv.1 = Some q → q.(q_run_id) = r) →
  ∃ rs tags d', self_heal r m now d = (Ok ((entries_for r m).*1, rs, tags), d') ∧ healed r now d d'.
Proof.
  intros Hm. destruct (collect_supersede r now _ d Hm) as (rs & d1 & Hrs & [Hr1 H1]).
  unfold self_heal. unfold mbind at 1, get at 1. unfold mbind at 1. rewrite Hrs.
  unfold mbind at 1, time_out_where, modify at 1. set (d2 := set_questions _ d1).
  assert (healed r now d d2) as [Hr2 H2].
  { split; [done|]. intros j. subst d2. simpl. rewrite sql_update_lookup.
    destruct (H1 j) as [->|(q & -> & Hp & ->)]; [done|]. simpl. rewrite Hp.
    unfold question_pending. simpl. by rewrite andb_false_r. }
  clearbody d2. unfold mbind at 1, get at 1.
  match goal with |- context [mbind ?m _ d2] =>
    assert (total m) as Ht; [|assert (preserves items_frame m) as Hf] end.
  - case_match; [apply collect_total; intros x y; apply resolveById_ok|apply total_ret].
  - case_match; [apply collect_frame; intros; apply resolveById_frame|by apply preserves_ret, _].
  - destruct (Ht d2) as (rs2 & d3 & H3). specialize (Hf d2). unfold mbind at 1. rewrite H3 in *.
    destruct Hf as (Hr3 & _ & _ & _ & Hq3 & _). simpl in *. eexists _, _, _. split; [reflexivity|].
    split; [congruence|]. intros j. by rewrite Hq3.
Qed.

Definition new_question (req : question_request) (now : instant) : question_row :=
  mk_question req.(qr_runId) req.(qr_toolUseId) (Some req.(qr_questions)) qs_pending now None None.

(** The two inserts that end the transaction. *)
Lemma open_row_spec f req now (mk : option string → gate_txn) d :
  match (insert_question req.(qr_id) (new_question req now) ;;;
         rid <- coWriteDecisionReviewItem f
                  (mk_decision_args req.(qr_runId) (deriveDecisionTitle req.(qr_questions)) None
                     "question" None now) ;;
         mret (mk rid)) d with
  | (Ok t, d') =>
      d.(questions) !! req.(qr_id) = None
      ∧ d'.(questions) = <[req.(qr_id) := new_question req now]> d.(questions)
      ∧ d'.(workflow_runs) = d.(workflow_runs) ∧ ∃ rid, t = mk rid
  | (Throw _, _) => True
  end.
Proof.
  unfold mbind at 1, insert_question. destruct (d.(questions) !! qr_id req) eqn:Hq; [done|].
  unfold mbind. match goal with |- context [coWriteDecisionReviewItem ?f ?a ?d1] =>
    pose proof (coWriteDecision_frame f a d1) as Hf;
    destruct (coWriteDecisionReviewItem f a d1) as [[rid|e] d2] end; [|done].
  destruct Hf as (Hr & _ & _ & _ & Hq2 & _). simpl in *. split_and!; [done..|by exists rid].
Qed.

Lemma request_txn_spec f req m now d :
  (∀ kv q, kv ∈ entries_for req.(qr_runId) m → d.(questions) !! kv.1 = Some q →
     q.(q_run_id) = req.(qr_runId)) →
  match request_txn f req m now d with
  | (Ok t, d') =>
      d.(questions) !! req.(qr_id) = None
      ∧ status_of d' req.(qr_runId) = Some awaiting_input
      ∧ ∃ d1, d'.(questions) = <[req.(qr_id) := new_question req now]> d1.(questions)
        ∧ if gate_live d req.(qr_runId)
          then t.(gt_superseded) = (entries_for req.(qr_runId) m).*1 ∧ healed req.(qr_runId) now d d1
          else t.(gt_superseded) = [] ∧ d1.(questions) = d.(questions)
               ∧ status_of d req.(qr_runId) = Some running
  | (Throw _, d') => d' = d
  end.
Proof.
  intros Hm. unfold request_txn, transaction. unfold mbind at 1. rewrite assertTransitionAllowed_ok by done.
  unfold mbind at 1. set (r := qr_runId req) in *.
  case_update_run.
  - unfold mbind at 1. simpl.
    pose proof (open_row_spec f req now (λ rid, mk_gate_txn rid [] [] None)
      (set_runs (<[r := set_status awaiting_input now r0]> d.(workflow_runs)) d)) as H.
    destruct (mbind (insert_question (qr_id req) (new_question req now)) _ _) as [[t|e] d'] eqn:He;
      unfold new_question in He; fold r in He; rewrite He; [|done].
    destruct H as (Hq & Hq' & Hr' & rid & ->). simpl in *. split; [done|].
    unfold gate_live, status_of. rewrite Hr', lookup_insert_eq, Hr. split; [done|].
    apply bool_decide_eq_true in Hp. exists d. split; [done|]. simpl. rewrite Hp. by rewrite bool_decide_false.
  - destruct (self_heal_spec r m now d Hm) as (rs & tags & d1 & Hh & Hd1).
    unfold mbind at 1. unfold mbind at 1, get at 1.
    destruct (decide (status_of d r = Some awaiting_input)) as [Hs|Hs]; [|done].
    unfold mbind at 1. rewrite Hh. simpl.
    pose proof (open_row_spec f req now (λ rid, mk_gate_txn rid (entries_for r m).*1 rs (Some tags)) d1) as H.
    destruct (mbind (insert_question (qr_id req) (new_question req now)) _ _) as [[t|e] d'] eqn:He;
      unfold new_question in He; fold r in He; rewrite He; [|done].
    destruct H as (Hq & Hq' & Hr' & rid & ->). destruct Hd1 as [Hr1 Hd1]. simpl in *.
    split. { rewrite Hd1 in Hq. by destruct (d.(questions) !! qr_id req). }
    unfold status_of in *. rewrite Hr', Hr1. split; [done|]. exists d1. split; [done|].
      unfold gate_live, status_of. by rewrite Hs, bool_decide_true.
Qed.

Lemma elem_of_entries r (m : list (string * question_entry)) j :
  NoDup m.*1 →
  j ∈ (entries_for r m).*1 ↔ ∃ e, map_get j m = Some e ∧ e.(qe_request).(qr_runId) = r.
Proof.
  intros Hnd. unfold entries_for. rewrite list_elem_of_fmap. split.
  - intros ([k e] & -> & [HP Hin]%list_elem_of_filter). exists e. split; [|done]. by apply map_get_NoDup.
  - intros (e & Hg & HP). exists (j, e). split; [done|]. apply list_elem_of_filter.
    split; [done|]. by apply map_get_Some_elem.
Qed.

Lemma entries_for_NoDup r (m : list (string * question_entry)) : NoDup m.*1 → NoDup (entries_for r m).*1.
Proof. intros H. eapply sublist_NoDup; [exact H|]. apply fmap_sublist, sublist_filter. Qed.

Lemma entries_for_rows K s r kv q :
  gate_inv K s → kv ∈ entries_for r s.(sys_questions) →
  s.(sys_db).(questions) !! kv.1 = Some q → q.(q_run_id) = r.
Proof.
  intros Hi Hin Hq. assert (kv.1 ∈ (entries_for r s.(sys_questions)).*1) as Hk.
  { apply list_elem_of_fmap. by exists kv. }
  apply elem_of_entries in Hk as (e & Hg & Hr); [|apply Hi].
  destruct (gi_entry K s Hi kv.1 e Hg) as [_ (q' & Hq' & Hrun & _)]. congruence.
Qed.

Lemma gate_fresh K s id :
  gate_inv K s → s.(sys_db).(questions) !! id = None →
  map_get id s.(sys_questions) = None ∧ answers_of id s.(sys_log) = [] ∧ answer_replies id s.(sys_log) = [].
Proof.
  intros Hi Hn. split.
  - destruct (map_get id (sys_questions s)) as [e|] eqn:Hg; [|done].
    destruct (gi_entry K s Hi id e Hg) as [_ (q & Hq & _)]. congruence.
  - pose proof (gi_once K s Hi id) as Ho. unfold answered_once in Ho.
    destruct (answers_of id (sys_log s)) as [|a [|]]; [done| |done]. destruct Ho as (_ & q & Hq & _). congruence.
Qed.

(** Settle the superseded entries one after the other. *)
Lemma settle_all L s :
  gate_inv L s → NoDup L → (∀ i, i ∈ L → ∃ e, map_get i s.(sys_questions) = Some e) →
  ∃ s', mapM_ settle_superseded L s = (Ok tt, s') ∧ gate_inv [] s' ∧ s'.(sys_db) = s.(sys_db)
    ∧ (∀ j, map_get j s'.(sys_questions) = if decide (j ∈ L) then None else map_get j s.(sys_questions))
    ∧ (∀ j, answers_of j s'.(sys_log) = if decide (j ∈ L) then [empty_answer] else answers_of j s.(sys_log))
    ∧ (∀ j, answer_replies j s'.(sys_log) = answer_replies j s.(sys_log)).
Proof.
  revert s. induction L as [|i L IH]; intros s Hi Hnd Hin; simpl.
  { exists s. split_and!; try done; intros j; by rewrite decide_False by apply not_elem_of_nil. }
  apply NoDup_cons in Hnd as [Hni Hnd]. destruct (Hin i) as (e & Hg); [by left|].
  destruct (gi_entry _ s Hi i e Hg) as [_ (q & Hq & _ & Hst)]. rewrite decide_True in Hst by (by left).
  destruct (gate_inv_open _ s i e Hi Hg) as [Ha0 Hr0].
  unfold mbind at 1. unfold settle_superseded at 1. unfold mbind at 1, question_delete, modify at 1.
  unfold mbind at 1, emit at 1, modify at 1. unfold emit at 1, modify at 1.
  set (s1 := add_log _ _).
  destruct (gate_inv_settle (i :: L) L s s1 i e empty_answer false [] [EvQuestionAnswered i qs_timed_out])
    as (Hi1 & Ha1 & Hr1); try done.
  { intros j Hj. rewrite elem_of_cons. naive_solver. }
  { exists q. split; [done|]. by right. }
  { simpl. by rewrite <- (assoc_L (++)). }
  assert (∀ j, j ≠ i → answers_of j s1.(sys_log) = answers_of j s.(sys_log)) as Haj.
  { intros j Hj. simpl. rewrite !answers_app. simpl. rewrite decide_False by congruence. by rewrite !app_nil_r. }
  assert (∀ j, answer_replies j s1.(sys_log) = answer_replies j s.(sys_log)) as Hrj.
  { intros j. simpl. rewrite !replies_app. simpl. by rewrite !app_nil_r. }
  assert (∀ j, map_get j s1.(sys_questions) = if decide (i = j) then None else map_get j s.(sys_questions)) as Hm.
  { intros j. simpl. apply map_get_delete. }
  assert (s1.(sys_db) = s.(sys_db)) as Hdb by done. clearbody s1.
  destruct (IH s1 Hi1 Hnd) as (s2 & -> & Hi2 & Hdb2 & Hm2 & Ha2 & Hr2).
  { intros j Hj. destruct (Hin j) as (e' & He'); [by right|]. exists e'. rewrite Hm.
    by rewrite decide_False by congruence. }
  exists s2. split_and!; [done|done|congruence| | |].
  - intros j. rewrite Hm2, Hm. repeat case_decide; try done; set_solver.
  - intros j. rewrite Ha2. destruct (decide (j = i)) as [->|Hne].
    + rewrite decide_False by done. rewrite decide_True by (by left). done.
    + rewrite Haj by done. repeat case_decide; try done; set_solver.
  - intros j. by rewrite Hr2, Hrj.
Qed.

Lemma gate_inv_open_new s id e :
  gate_inv [] s → map_get id s.(sys_questions) = None →
  answers_of id s.(sys_log) = [] → answer_replies id s.(sys_log) = [] →
  e.(qe_request).(qr_id) = id →
  (∃ q, s.(sys_db).(questions) !! id = Some q ∧ q.(q_run_id) = e.(qe_request).(qr_runId)
        ∧ q.(q_status) = qs_pending) →
  gate_inv [] (set_open_questions (map_set id e s.(sys_questions)) s).
Proof.
  intros Hi Hn Ha Hr Hid Hq. destruct Hi as [Hnd He Ho]. split; simpl; [by apply map_set_NoDup| |].
  - intros j e'. rewrite map_get_set. case_decide as Hj; [|by apply He]. subst j. intros [= <-].
    split; [done|]. destruct Hq as (q & ? & ? & ?). exists q. by split_and!.
  - intros j. rewrite map_get_set. case_decide as Hj; [|by apply Ho]. subst j. by rewrite Ha, Hr.
Qed.

(** The announcements around a request settle nothing. *)
Lemma announce_step {A} (o : option string) act (k : unit → sysM A) s :
  ∃ s1, (x <- match o with Some i => emitReviewItemChangedById i act | None => mret tt end ;; k x) s = k tt s1
    ∧ gate_quiet s s1 ∧ s1.(sys_db) = s.(sys_db).
Proof.
  unfold mbind at 1. destruct o as [i|]; [|by exists s].
  pose proof (emitReviewItem_gate_quiet i act s) as Hq. unfold emitReviewItemChangedById, mbind, gets in *.
  destruct (items_of (sys_db s) !! i); by eexists.
Qed.

Lemma announce_all {A} act l (k : unit → sysM A) s :
  ∃ s1, (x <- mapM_ (λ i, emitReviewItemChangedById i act) l ;; k x) s = k tt s1
    ∧ gate_quiet s s1 ∧ s1.(sys_db) = s.(sys_db).
Proof.
  revert s. induction l as [|i l IH]; intros s; [by exists s|].
  destruct (announce_step (Some i) act (λ _, x <- mapM_ (λ i, emitReviewItemChangedById i act) l ;; k x) s)
    as (s1 & H1 & Hq1 & Hd1). simpl in H1.
  destruct (IH s1) as (s2 & H2 & Hq2 & Hd2). exists s2. split; [|split; [by etransitivity|congruence]].
  rewrite <- H2, <- H1. unfold mbind. simpl. unfold mbind. by destruct (emitReviewItemChangedById i act s) as [[?|?] ?].
Qed.

Lemma quiet_logs s s' j :
  gate_quiet s s' → answers_of j s'.(sys_log) = answers_of j s.(sys_log)
                    ∧ answer_replies j s'.(sys_log) = answer_replies j s.(sys_log).
Proof.
  intros (_ & _ & ev & -> & He). rewrite answers_app, replies_app.
  destruct (silent_answers j ev He) as [-> ->]. by rewrite !app_nil_r.
Qed.

(** The transaction's rows, seen with the entries it superseded. *)
Lemma request_txn_inv i r now (live : bool) L q0 s d' d1 :
  gate_inv [] s → s.(sys_db).(questions) !! i = None →
  d'.(questions) = <[i := q0]> d1.(questions) →
  (if live then L = (entries_for r s.(sys_questions)).*1 ∧ healed r now s.(sys_db) d1
   else L = [] ∧ d1.(questions) = s.(sys_db).(questions)) →
  gate_inv L (set_db d' s).
Proof.
  intros Hi Hn Hd' Hcase. destruct (gate_fresh [] s i Hi Hn) as (Hm0 & Ha0 & Hr0).
  assert (∀ j q, j ≠ i → s.(sys_db).(questions) !! j = Some q → d'.(questions) !! j
    = Some (if live && of_run r q && question_pending q then time_out now q else q)) as Hrow.
  { intros j q Hj Hq. rewrite Hd', lookup_insert_ne by done. destruct live.
    - destruct Hcase as [_ [_ Hh]]. by rewrite Hh, Hq.
    - destruct Hcase as [_ ->]. done. }
  split; simpl; [apply Hi| |].
  - intros j e Hg. assert (j ≠ i) as Hj by congruence.
    destruct (gi_entry [] s Hi j e Hg) as [Hid (q & Hq & Hrun & Hst)]. split; [done|].
    rewrite (Hrow j q Hj Hq). eexists. split; [done|].
    assert (live && of_run r q && question_pending q = bool_decide (j ∈ L)) as ->.
    { simpl in Hst. unfold of_run, question_pending. rewrite Hst, (bool_decide_true (qs_pending = _)) by done.
      rewrite andb_true_r. destruct live; destruct Hcase as [-> _]; simpl.
      2: done.
      apply eq_true_iff_eq. rewrite !bool_decide_eq_true, elem_of_entries by apply Hi.
      rewrite Hrun. split; [intros; by exists e|intros (e' & ? & ?); congruence]. }
    case_bool_decide as Hl; [rewrite decide_True by done|rewrite decide_False by done]; by split.
  - intros j. pose proof (gi_once [] s Hi j) as Ho. unfold answered_once in *.
    destruct (answers_of j (sys_log s)) as [|a [|]] eqn:Haj; [done| |done].
    destruct Ho as (Hg & q & Hq & Hset). split; [done|].
    assert (j ≠ i) as Hj by congruence. rewrite (Hrow j q Hj Hq). exists q. split; [|done].
    assert (question_pending q = false) as ->; [|by rewrite andb_false_r].
    unfold question_pending. apply bool_decide_eq_false. by destruct Hset as [[-> _]|[-> _]].
Qed.

Lemma retire_superseded_exec t s :
  gate_inv t.(gt_superseded) s → NoDup t.(gt_superseded) →
  (∀ i, i ∈ t.(gt_superseded) → ∃ e, map_get i s.(sys_questions) = Some e) →
  ∃ s', retire_superseded t s = (Ok tt, s') ∧ gate_inv [] s' ∧ s'.(sys_db) = s.(sys_db)
    ∧ (∀ j, map_get j s'.(sys_questions)
            = if decide (j ∈ t.(gt_superseded)) then None else map_get j s.(sys_questions))
    ∧ (∀ j, answers_of j s'.(sys_log)
            = if decide (j ∈ t.(gt_superseded)) then [empty_answer] else answers_of j s.(sys_log))
    ∧ (∀ j, answer_replies j s'.(sys_log) = answer_replies j s.(sys_log)).
Proof.
  intros Hi Hnd Hin. unfold retire_superseded.
  set (seam := match gt_healTags t with Some _ => _ | None => _ end).
  assert (∃ s1, (∀ k : unit → sysM unit, (x <- seam ;; k x) s = k tt s1)
    ∧ gate_quiet s s1 ∧ s1.(sys_db) = s.(sys_db)) as (s1 & -> & Hq1 & Hd1).
  { subst seam. destruct (gt_healTags t) as [tags|]; [|by exists s]. eexists. split; [reflexivity|].
    split; [|done]. exact (emit_gate_quiet (EvSeamError "gate-hook-timeout" "gate-hook-timeout"
      (("gateKind", "question") :: tags)) eq_refl s). }
  assert (∀ j, map_get j s1.(sys_questions) = map_get j s.(sys_questions)) as Hm1
    by (intros j; by destruct Hq1 as (-> & _)).
  destruct (settle_all t.(gt_superseded) s1) as (s2 & Hs2 & Hi2 & Hd2 & Hm2 & Ha2 & Hr2);
    [by eapply gate_inv_quiet|done|intros i; rewrite Hm1; apply Hin|].
  unfold mbind at 1. rewrite Hs2.
  destruct (announce_all "resolved" t.(gt_resolved) (λ _, mret tt) s2) as (s3 & H3 & Hq3 & Hd3).
  unfold mbind in H3. destruct (mapM_ _ _ s2) as [[[]|] s4]; [|done]. injection H3 as ->.
  exists s3. split_and!; [done|by eapply gate_inv_quiet|congruence|..]; intros j;
    destruct (quiet_logs s2 s3 j Hq3) as [Ha Hr]; destruct (quiet_logs s s1 j Hq1) as [Ha1 Hr1].
  - destruct Hq3 as (-> & _). by rewrite Hm2, Hm1.
  - by rewrite Ha, Ha2, Ha1.
  - by rewrite Hr, Hr2, Hr1.
Qed.

Lemma open_entry_exec req rid q s :
  let i := req.(qr_id) in
  gate_inv [] s → map_get i s.(sys_questions) = None →
  answers_of i s.(sys_log) = [] → answer_replies i s.(sys_log) = [] →
  s.(sys_db).(questions) !! i = Some q → q.(q_run_id) = req.(qr_runId) → q.(q_status) = qs_pending →
  ∃ s', open_entry req rid s = (Ok tt, s') ∧ gate_inv [] s' ∧ s'.(sys_db) = s.(sys_db)
    ∧ s'.(sys_questions) = map_set i (mk_question_entry req rid) s.(sys_questions)
    ∧ ∀ j, answers_of j s'.(sys_log) = answers_of j s.(sys_log).
Proof.
  intros i Hi Hn Ha Hr Hq Hrun Hst. unfold open_entry. fold i.
  unfold mbind at 1, question_set, modify at 1. unfold mbind at 1, emit at 1, modify at 1.
  set (s1 := set_open_questions _ s).
  assert (gate_inv [] s1) as Hi1 by (apply gate_inv_open_new; [done..|by exists q]).
  match goal with |- context [mbind (match _ with _ => _ end) ?k (add_log ?e s1)] =>
    destruct (announce_step rid "created" k (add_log e s1)) as (s2 & -> & Hq2 & Hd2) end.
  unfold emit, modify. eexists. split; [reflexivity|].
  assert (gate_quiet s1 (add_log (EvRunStatusChanged (qr_runId req) awaiting_input) s2)) as Hq5.
  { transitivity (add_log (EvQuestionCreated req) s1); [by apply (emit_gate_quiet (EvQuestionCreated req))|].
    transitivity s2; [done|by apply (emit_gate_quiet (EvRunStatusChanged (qr_runId req) awaiting_input))]. }
  split_and!; [by eapply gate_inv_quiet|done|simpl; by destruct Hq2 as (-> & _)|].
  intros j. by destruct (quiet_logs _ _ j Hq5) as [-> _].
Qed.

Lemma requestQuestion_exec i f r t qs now s :
  gate_inv [] s →
  let req := mk_question_request i r t qs now in
  match requestQuestion i f r t qs now s with
  | (Ok _, s') =>
      gate_inv [] s' ∧ s.(sys_db).(questions) !! i = None
      ∧ status_of s'.(sys_db) r = Some awaiting_input
      ∧ s'.(sys_db).(questions) !! i = Some (new_question req now)
      ∧ (∃ rid, map_get i s'.(sys_questions) = Some (mk_question_entry req rid))
      ∧ if gate_live s.(sys_db) r
        then (∀ j, j ≠ i → map_get j s'.(sys_questions)
                = if decide (j ∈ (entries_for r s.(sys_questions)).*1) then None
                  else map_get j s.(sys_questions))
             ∧ (∀ j, j ∈ (entries_for r s.(sys_questions)).*1 → answers_of j s'.(sys_log) = [empty_answer])
             ∧ (∀ j q, j ≠ i → s'.(sys_db).(questions) !! j = Some q → q.(q_run_id) = r →
                  q.(q_status) ≠ qs_pending)
        else status_of s.(sys_db) r = Some running
             ∧ (∀ j, j ≠ i → map_get j s'.(sys_questions) = map_get j s.(sys_questions))
  | (Throw _, s') => s' = s
  end.
Proof.
  intros Hi req. unfold requestQuestion. fold req. unfold mbind at 1, open_questions, gets at 1.
  pose proof (request_txn_spec f req s.(sys_questions) now s.(sys_db)) as Ht.
  unfold mbind at 1, in_db, zoom. simpl in Ht.
  destruct (request_txn f req s.(sys_questions) now s.(sys_db)) as [[g|e] d'].
  2: { rewrite Ht; [by destruct s|]. intros. by eapply entries_for_rows. }
  destruct Ht as (Hfresh & Hst & d1 & Hd' & Hcase); [intros; by eapply entries_for_rows|].
  destruct (gate_fresh [] s i Hi Hfresh) as (Hm0 & Ha0 & Hr0). simpl in *.
  assert (gate_inv g.(gt_superseded) (set_db d' s)) as Hi1.
  { eapply (request_txn_inv i r now (gate_live s.(sys_db) r)); [done..|].
    destruct (gate_live (sys_db s) r); destruct_and!; done. }
  assert (d'.(questions) !! i = Some (new_question req now)) as Hrow by (by rewrite Hd', lookup_insert_eq).
  assert (gt_superseded g = [] ∨ gt_superseded g = (entries_for r s.(sys_questions)).*1) as HL.
  { destruct (gate_live (sys_db s) r); [right|left]; by destruct_and!. }
  assert (∀ j, j ∈ g.(gt_superseded) → ∃ e, map_get j s.(sys_questions) = Some e) as Hsup.
  { intros j Hj. destruct HL as [HL|HL]; rewrite HL in Hj; [by apply not_elem_of_nil in Hj|].
    apply elem_of_entries in Hj as (e & ? & _); [by exists e|apply Hi]. }
  destruct (retire_superseded_exec g (set_db d' s) Hi1) as (s3 & Hs3 & Hi3 & Hd3 & Hm3 & Ha3 & Hr3); [|done|].
  { destruct HL as [-> | ->]; [constructor|]. apply entries_for_NoDup, Hi. }
  assert (¬ i ∈ g.(gt_superseded)) as HiL by (intros (e & He)%Hsup; congruence).
  destruct (open_entry_exec req g.(gt_reviewItemId) (new_question req now) s3) as (s7 & Hs7 & Hi7 & Hd7 & Hm7 & Ha7);
    [done|by rewrite Hm3, decide_False|by rewrite Ha3, decide_False|by rewrite Hr3|by rewrite Hd3|done|done|].
  unfold mbind. rewrite Hs3, Hs7. rewrite Hd3 in Hd7. simpl in Hd7. change (qr_id req) with i in Hm7.
  assert (∀ j, j ≠ i → map_get j s7.(sys_questions)
    = if decide (j ∈ g.(gt_superseded)) then None else map_get j s.(sys_questions)) as Hm.
  { intros j Hj. by rewrite Hm7, map_get_set_ne by congruence. }
  split_and!; [done|done|by rewrite Hd7|by rewrite Hd7| |].
  { exists g.(gt_reviewItemId). rewrite Hm7. apply map_get_set_eq. }
  destruct (gate_live (sys_db s) r).
  - destruct Hcase as [HLe [_ Hh]]. rewrite HLe in *. split_and!; [done| |].
    + intros j Hj. by rewrite Ha7, Ha3, decide_True.
    + intros j q Hj. rewrite Hd7, Hd', lookup_insert_ne by done. rewrite Hh.
      destruct (questions (sys_db s) !! j) as [q0|]; [|done]. simpl. intros [= <-].
      destruct (of_run r q0 && question_pending q0) eqn:Hp; [done|]. intros Hr Hst'.
      apply andb_false_iff in Hp as [Hp|Hp]; apply bool_decide_eq_false in Hp; done.
  - destruct Hcase as (HLe & _ & Hrun). rewrite HLe in *. split; [done|]. intros j Hj.
    by rewrite Hm, decide_False by (done || apply not_elem_of_nil).
Qed.

(** ** Teardown, by cases *)

Definition runs_same (s s' : sys) : Prop := s'.(sys_db).(workflow_runs) = s.(sys_db).(workflow_runs).
#[export] Instance runs_same_preorder : PreOrder runs_same.
Proof. split; [by intros s|]. unfold runs_same. intros s1 s2 s3. congruence. Qed.

Lemma emit_runs_same e : preserves (E:=run_error) runs_same (emit e).
Proof. by intros s. Qed.
Lemma frame_runs_same {A} (m : dbM A) : preserves items_frame m → preserves runs_same (in_db m).
Proof.
  intros H s. unfold in_db, zoom. destruct (H s.(sys_db)) as [Hr _]. unfold runs_same.
  by destruct (m s.(sys_db)) as [x d'].
Qed.
Lemma update_question_runs_same id p f : preserves runs_same (in_db (update_question id p f)).
Proof.
  intros s. unfold in_db, zoom, update_question. by destruct (sql_update_id _ _ _ _).
Qed.
Lemma announce_runs_same i a : preserves runs_same (emitReviewItemChangedById i a).
Proof. unfold emitReviewItemChangedById. intros s. unfold mbind, gets. by destruct (items_of _ !! i). Qed.
Lemma question_delete_runs_same i : preserves runs_same (question_delete i).
Proof. by intros s. Qed.

Lemma close_entries_runs_same f r b now l : preserves runs_same (close_entries f r b now l).
Proof.
  induction l as [|[i e] l IH]; simpl; [by apply preserves_ret, _|].
  unfold close_writes, resolve_folded.
  preserve_with ltac:(first
    [ exact IH | apply emit_runs_same | apply update_question_runs_same | apply announce_runs_same
    | apply question_delete_runs_same | apply frame_runs_same, resolveById_frame
    | apply frame_runs_same, coWriteDecision_frame ]); typeclasses eauto.
Qed.

Lemma close_writes_exec f r b now i e s q :
  s.(sys_db).(questions) !! i = Some q → question_pending q = true →
  ∃ o s', close_writes f r b now i e s = (Ok o, s')
    ∧ gate_quiet (set_db (set_questions (<[i := time_out now q]> s.(sys_db).(questions)) s.(sys_db)) s) s'.
Proof.
  intros Hq Hp. unfold close_writes, catch.
  rewrite (in_db_step _ _ _ 1 _) by (by apply (update_question_eq _ _ _ _ q)). set (s1 := set_db _ s).
  match goal with |- context [match ?m s1 with _ => _ end] => assert (preserves gate_quiet m) as Hm end.
  { apply preserves_bind; [typeclasses eauto|apply resolve_folded_gate_quiet|intros _].
    case_match; [apply frame_gate_quiet, coWriteDecision_frame|by apply preserves_ret, _]. }
  specialize (Hm s1). match type of Hm with gate_quiet _ (?m s1).2 => destruct (m s1) as [[o|x] s2] end;
    by eexists _, _.
Qed.

Lemma close_entries_exec f r b now l s :
  gate_inv [] s → NoDup l.*1 → (∀ j e, (j, e) ∈ l → map_get j s.(sys_questions) = Some e) →
  ∃ ms s', close_entries f r b now l s = (Ok ms, s') ∧ gate_inv [] s'
    ∧ (∀ j, map_get j s'.(sys_questions) = if decide (j ∈ l.*1) then None else map_get j s.(sys_questions))
    ∧ (∀ j, answers_of j s'.(sys_log) = if decide (j ∈ l.*1) then [empty_answer] else answers_of j s.(sys_log))
    ∧ (∀ j, answer_replies j s'.(sys_log) = answer_replies j s.(sys_log)).
Proof.
  revert s. induction l as [|[i e] l IH]; intros s Hi Hnd Hl; simpl in *.
  { eexists _, s. split; [reflexivity|]. split_and!; try done; intros j; by rewrite decide_False by apply not_elem_of_nil. }
  apply NoDup_cons in Hnd as [Hni Hnd]. assert (map_get i s.(sys_questions) = Some e) as Hg by (apply Hl; by left).
  destruct (gi_entry [] s Hi i e Hg) as [_ (q & Hq & _ & Hst)]. rewrite decide_False in Hst by apply not_elem_of_nil.
  destruct (gate_inv_open _ s i e Hi Hg) as [Ha0 Hr0].
  unfold mbind at 1, question_delete, modify at 1. set (s1 := set_open_questions _ s).
  destruct (close_writes_exec (f i) r b now i e s1 q) as (o & s2 & Hc & Hq2); [done|by apply bool_decide_eq_true|].
  unfold mbind at 1. rewrite Hc. unfold mbind at 1, emit at 1, modify at 1. unfold mbind at 1, emit at 1, modify at 1.
  set (s3 := add_log (EvQuestionAnswered i qs_timed_out) (add_log (EvAnswer i empty_answer) s2)).
  destruct Hq2 as (Hsq & Hdq & ev & Hlq & Hev). simpl in *.
  destruct (gate_inv_settle [] [] s s3 i e empty_answer false ev [EvQuestionAnswered i qs_timed_out])
    as (Hi3 & Ha3 & Hr3); try done.
  { intros j Hj. simpl. by rewrite Hdq, lookup_insert_ne. }
  { simpl. rewrite Hdq, lookup_insert_eq. eexists. split; [done|]. by right. }
  { simpl. rewrite Hlq. by rewrite <- !(assoc_L (++)). }
  assert (∀ j, map_get j s3.(sys_questions) = if decide (i = j) then None else map_get j s.(sys_questions)) as Hm3.
  { intros j. simpl. rewrite Hsq. apply map_get_delete. }
  assert (∀ j, j ≠ i → answers_of j s3.(sys_log) = answers_of j s.(sys_log)) as Haj.
  { intros j Hj. simpl. rewrite Hlq, !answers_app. destruct (silent_answers j ev Hev) as [-> _].
    simpl. rewrite decide_False by congruence. by rewrite !app_nil_r. }
  assert (∀ j, answer_replies j s3.(sys_log) = answer_replies j s.(sys_log)) as Hrj.
  { intros j. simpl. rewrite Hlq, !replies_app. destruct (silent_answers j ev Hev) as [_ ->].
    simpl. by rewrite !app_nil_r. }
  clearbody s3. destruct (IH s3 Hi3 Hnd) as (ms & s4 & H4 & Hi4 & Hm4 & Ha4 & Hr4).
  { intros j e' Hin. rewrite Hm3, decide_False; [apply Hl; by right|]. intros ->. apply Hni.
    apply list_elem_of_fmap. by exists (j, e'). }
  unfold mbind. rewrite H4. eexists _, s4. split; [reflexivity|]. split_and!; [done| | |].
  - intros j. rewrite Hm4, Hm3. repeat case_decide; try done; set_solver.
  - intros j. rewrite Ha4. destruct (decide (j = i)) as [->|Hne].
    + rewrite decide_False by done. rewrite decide_True by (by left). done.
    + rewrite Haj by done. repeat case_decide; try done; set_solver.
  - intros j. by rewrite Hr4, Hrj.
Qed.

Lemma announce_swallowed act l :
  preserves gate_quiet (mapM_ (λ i, swallow (emitReviewItemChangedById i act)) l)
  ∧ preserves runs_same (mapM_ (λ i, swallow (emitReviewItemChangedById i act)) l)
  ∧ total (mapM_ (λ i, swallow (emitReviewItemChangedById i act)) l).
Proof.
  split_and!.
  - apply preserves_mapM_; [typeclasses eauto|intros]. apply swallow_gate_quiet, emitReviewItem_gate_quiet.
  - apply preserves_mapM_; [typeclasses eauto|intros]. apply preserves_catch; [typeclasses eauto|apply announce_runs_same|].
    intros. apply preserves_ret, _.
  - apply total_mapM_. intros. apply total_catch. intros. apply total_ret.
Qed.

Lemma clearPendingQuestions_exec f r b now s :
  gate_inv [] s →
  ∃ s', clearPendingQuestions f r b now s = (Ok tt, s') ∧ gate_inv [] s'
    ∧ (∀ j e, map_get j s'.(sys_questions) = Some e
         ↔ map_get j s.(sys_questions) = Some e ∧ e.(qe_request).(qr_runId) ≠ r)
    ∧ (∀ j e, map_get j s.(sys_questions) = Some e → e.(qe_request).(qr_runId) = r →
         answers_of j s'.(sys_log) = [empty_answer])
    ∧ (∀ j, answer_replies j s'.(sys_log) = answer_replies j s.(sys_log))
    ∧ status_of s'.(sys_db) r
      = if gate_live s.(sys_db) r then Some awaiting_review else status_of s.(sys_db) r.
Proof.
  intros Hi. pose proof (gi_nodup _ s Hi) as Hnd.
  destruct (close_entries_exec f r b now (entries_for r s.(sys_questions)) s Hi) as (ms & s1 & H1 & Hi1 & Hm1 & Ha1 & Hr1).
  { by apply entries_for_NoDup. }
  { intros j e [_ Hin]%list_elem_of_filter. by apply map_get_NoDup. }
  pose proof (close_entries_runs_same f r b now (entries_for r s.(sys_questions)) s) as Hs1. rewrite H1 in Hs1.
  unfold clearPendingQuestions. unfold mbind at 1, open_questions, gets. unfold mbind at 1. rewrite H1.
  destruct (announce_swallowed "created" ms) as (Hq2 & Hs2 & Ht2). specialize (Hq2 s1). specialize (Hs2 s1).
  unfold mbind at 1. destruct (Ht2 s1) as ([] & s2 & H2). rewrite H2 in *.
  assert (total (swallow (settle_owner r now))) as Ht3 by (apply total_catch; intros; apply total_ret).
  pose proof (swallow_gate_quiet _ (settle_owner_gate_quiet r now) s2) as Hq3.
  destruct (Ht3 s2) as ([] & s3 & H3). rewrite H3 in *. simpl in *. exists s3.
  assert (gate_quiet s1 s3) as Hq by (by transitivity s2). split; [done|].
  split_and!; [by apply (gate_inv_quiet _ _ _ Hq)| | | |].
  - intros j e. destruct Hq as (-> & _). rewrite Hm1. case_decide as Hin.
    + apply elem_of_entries in Hin as (e' & He' & Hrun); [|done]. split; [done|]. intros []. congruence.
    + split; [|by intros []]. intros He. split; [done|]. intros Hrun. apply Hin, elem_of_entries; eauto.
  - intros j e He Hrun. destruct (quiet_logs s1 s3 j Hq) as [-> _]. rewrite Ha1, decide_True; [done|].
    apply elem_of_entries; eauto.
  - intros j. destruct (quiet_logs s1 s3 j Hq) as [_ ->]. by rewrite Hr1.
  - assert (s2.(sys_db).(workflow_runs) = s.(sys_db).(workflow_runs)) as Hruns by congruence.
    revert H3. unfold swallow, catch, settle_owner, mbind, in_db, zoom, gate_live, status_of.
    rewrite <- Hruns. case_update_run; intros [= <-]; simpl.
    + rewrite lookup_insert_eq, Hr. simpl. apply bool_decide_eq_true in Hp. by rewrite Hp, bool_decide_true.
    + destruct (s2.(sys_db).(workflow_runs) !! r) as [x|]; [|by rewrite bool_decide_false].
      specialize (Hr x eq_refl). apply bool_decide_eq_false in Hr. simpl.
      rewrite bool_decide_false; [done|]. by intros [= ?].
Qed.

Lemma close_entries_total f r b now l : total (close_entries f r b now l).
Proof.
  induction l as [|[i e] l IH]; simpl; [apply total_ret|].
  repeat first [ exact IH | apply total_modify | apply total_ret
               | unfold close_writes; apply total_catch; intros; apply total_ret
               | apply total_bind; [|intros ?] ].
Qed.

(** A teardown never rejects. *)
Lemma clearPendingQuestions_total f r b now : total (clearPendingQuestions f r b now).
Proof.
  unfold clearPendingQuestions.
  repeat first [ apply close_entries_total | apply total_gets | apply announce_swallowed
               | apply total_catch; intros; apply total_ret | apply total_bind; [|intros ?] ].
Qed.

(** ** The histories of the router *)

(** From a boot on any database, with or without its recovery, through the
    router's operations and any move of another component. *)
Inductive gate_reach : sys → Prop :=
  | gr_boot d : gate_reach (mk_sys d [] [] [])
  | gr_recover target f now d :
      gate_reach (exec (recoverStaleAwaitingInput target f now) (mk_sys d [] [] []))
  | gr_request i f r t qs now s :
      gate_reach s → gate_reach (exec (requestQuestion i f r t qs now) s)
  | gr_answer deps i a now now' s :
      PlanGateLaws deps → gate_reach s → gate_reach (exec (respondQuestion deps i a now now') s)
  | gr_answer_task deps i a now now' s :
      PlanGateLaws deps → gate_reach s → gate_reach (exec (answer_task deps i a now now') s)
  | gr_clear f r b now s : gate_reach s → gate_reach (exec (clearPendingQuestions f r b now) s)
  | gr_elsewhere s s' : gate_reach s → gate_quiet s s' → gate_reach s'.

Lemma gate_boot_inv d : gate_inv [] (mk_sys d [] [] []).
Proof. split; simpl; [constructor|done|done]. Qed.

Lemma recover_boot_inv target f now d :
  gate_inv [] (exec (recoverStaleAwaitingInput target f now) (mk_sys d [] [] [])).
Proof.
  unfold exec, recoverStaleAwaitingInput. unfold mbind at 1, in_db, zoom. simpl.
  destruct (recover_input_txn target f now d) as [[r|e] d']; [|apply gate_boot_inv].
  eapply gate_inv_quiet; [|apply (gate_boot_inv d')].
  match goal with |- gate_quiet ?s0 (?m _).2 => enough (preserves gate_quiet m) as H by exact (H s0) end.
  apply preserves_bind; [typeclasses eauto| |intros _; apply preserves_bind; [typeclasses eauto| |intros _]].
  - apply preserves_mapM_; [typeclasses eauto|intros; apply emitReviewItem_gate_quiet].
  - apply announce_swallowed.
  - apply preserves_ret, _.
Qed.

Lemma answer_task_inv deps i a now now' s :
  PlanGateLaws deps → gate_inv [] s → gate_inv [] (exec (answer_task deps i a now now') s).
Proof.
  intros Hl Hi. destruct (map_get i s.(sys_questions)) as [e|] eqn:Hg.
  - unfold exec. by destruct (answer_task_exec deps i a now now' s e Hi Hg) as (s' & q & -> & ? & _).
  - unfold exec, answer_task, mbind at 1, open_questions, gets. by rewrite Hg.
Qed.

Lemma gate_reach_inv s : gate_reach s → gate_inv [] s.
Proof.
  induction 1 as [d|target f now d|i f r t qs now s _ IH|deps i a now now' s Hl _ IH
                 |deps i a now now' s Hl _ IH|f r b now s _ IH|s s' _ IH Hq].
  - apply gate_boot_inv.
  - apply recover_boot_inv.
  - pose proof (requestQuestion_exec i f r t qs now s IH) as H. unfold exec.
    destruct (requestQuestion i f r t qs now s) as [[x|e] s']; [by destruct H|by simpl in H; subst].
  - unfold exec, respondQuestion, mbind at 1, open_questions, gets.
    destruct (map_get i (sys_questions s)); [by apply answer_task_inv|done].
  - by apply answer_task_inv.
  - unfold exec. by destruct (clearPendingQuestions_exec f r b now s IH) as (s' & -> & ? & _).
  - by eapply gate_inv_quiet.
Qed.

(** C32: From a boot on any database, through any sequence of question-router operations
    (requests with self-heal, answers, queued answer tasks, teardowns, boot recovery) and of
    moves of other components, each gate's Promise is resolved at most once; every socket
    reply is the answer the Promise got; a resolved gate has no open entry left and its row
    is answered (with exactly that socket reply) or timed out (with the empty answer and no
    reply); and an open entry has never been resolved and owns a row still pending for its
    run. *)
Theorem question_exactly_once s :
  gate_reach s → ∀ id,
    length (answers_of id s.(sys_log)) <= 1
    ∧ (∀ a, a ∈ answer_replies id s.(sys_log) → a ∈ answers_of id s.(sys_log))
    ∧ (∀ a, a ∈ answers_of id s.(sys_log) →
         map_get id s.(sys_questions) = None
         ∧ ∃ q, s.(sys_db).(questions) !! id = Some q
                ∧ settled_row q a (answer_replies id s.(sys_log)))
    ∧ (∀ e, map_get id s.(sys_questions) = Some e →
         answers_of id s.(sys_log) = []
         ∧ ∃ q, s.(sys_db).(questions) !! id = Some q ∧ q.(q_status) = qs_pending
                ∧ q.(q_run_id) = e.(qe_request).(qr_runId)).
Proof.
  intros Hs%gate_reach_inv id. pose proof (gi_once _ s Hs id) as Ho. unfold answered_once in Ho.
  assert (∀ e, map_get id s.(sys_questions) = Some e → answers_of id s.(sys_log) = []
    ∧ ∃ q, s.(sys_db).(questions) !! id = Some q ∧ q.(q_status) = qs_pending
           ∧ q.(q_run_id) = e.(qe_request).(qr_runId)) as He.
  { intros e Hg. destruct (gate_inv_open _ s id e Hs Hg) as [Ha _]. split; [done|].
    destruct (gi_entry _ s Hs id e Hg) as [_ (q & Hq & Hr & Hst)]. exists q.
    by rewrite decide_False in Hst by apply not_elem_of_nil. }
  destruct (answers_of id (sys_log s)) as [|a [|]]; simpl; [| |done].
  - rewrite Ho. split_and!; [lia|done| |done]. by intros a ?%not_elem_of_nil.
  - destruct Ho as (Hn & q & Hq & Hrow). split_and!; [lia| | |done].
    + intros b Hb. destruct Hrow as [(_ & Hl)|(_ & Hl & _)]; rewrite Hl in Hb; [done|by apply not_elem_of_nil in Hb].
    + intros b ->%list_elem_of_singleton. eauto.
Qed.

Lemma redacted_secret (answer : question_answer) qs k v :
  (k, v) ∈ (redactSecretAnswers answer qs).(qa_answers) → k ∈ secret_questions qs → v = "[redacted]".
Proof.
  unfold redactSecretAnswers. destruct (secret_questions qs) as [|x l] eqn:Hs; [by intros _ ?%not_elem_of_nil|].
  simpl. intros ([k' v'] & [= -> ->] & _)%list_elem_of_fmap Hk. simpl in *. by rewrite bool_decide_true.
Qed.

(** Answering an open gate in a reachable state succeeds and settles it once, whatever
    the plan-gate follow-ups do: when the run still awaits input, Promise and socket get the
    user's answer with its attachments embedded, the row is answered and stores no secret
    (every question marked secret is stored as [redacted]); when the run moved on, the
    Promise gets the empty answer, the socket nothing, and the row times out. No other gate
    or row changes, and the run moves only along the status machine. *)
Theorem question_answer_spec deps id answer now now' s entry :
  PlanGateLaws deps → gate_reach s → map_get id s.(sys_questions) = Some entry →
  let runId := entry.(qe_request).(qr_runId) in
  let questions_ := entry.(qe_request).(qr_questions) in
  let live := gate_live s.(sys_db) runId in
  let s' := exec (respondQuestion deps id answer now now') s in
  eval (respondQuestion deps id answer now now') s = Ok tt
  ∧ map_get id s'.(sys_questions) = None
  ∧ answers_of id s'.(sys_log) = [if live then embedAttachmentsIntoAnswer answer else empty_answer]
  ∧ answer_replies id s'.(sys_log) = (if live then [embedAttachmentsIntoAnswer answer] else [])
  ∧ (∃ q, s'.(sys_db).(questions) !! id = Some q
       ∧ if live
         then q.(q_status) = qs_answered
              ∧ ∃ stored, q.(q_answer_json) = Some stored
                  ∧ ∀ k v, (k, v) ∈ stored.(qa_answers) → k ∈ secret_questions questions_ → v = "[redacted]"
         else q.(q_status) = qs_timed_out)
  ∧ (∀ j, j ≠ id → map_get j s'.(sys_questions) = map_get j s.(sys_questions)
                  ∧ s'.(sys_db).(questions) !! j = s.(sys_db).(questions) !! j)
  ∧ (∀ st, status_of s.(sys_db) runId = Some st → ∃ st', status_of s'.(sys_db) runId = Some st' ∧ rtc edge st st').
Proof.
  intros Hl Hs%gate_reach_inv Hg runId qs live.
  destruct (answer_task_exec deps id answer now now' s entry Hs Hg) as (s' & q & He & _ & Ha & Hr & Hq & Hrow & Hdb).
  assert (respondQuestion deps id answer now now' s = (Ok tt, s')) as Hresp.
  { unfold respondQuestion, mbind at 1, open_questions, gets. by rewrite Hg. }
  pose proof (respondQuestion_refines deps id answer now now' s) as Href.
  unfold eval, exec. rewrite Hresp in *. simpl in *. fold runId in Ha, Hr. fold live in Ha, Hr.
  split_and!; [done|by rewrite Hq, map_get_delete_eq|done|by rewrite Hr; destruct live| | |].
  - rewrite Hdb, lookup_insert_eq. eexists. split; [done|]. unfold answered_row. fold runId. fold live.
    destruct live; [|done]. split; [done|]. eexists. split; [done|]. apply redacted_secret.
  - intros j Hj. rewrite Hq, Hdb. by rewrite map_get_delete_ne, lookup_insert_ne by congruence.
  - intros st Hst. by apply (refine_status s.(sys_db)).
Qed.

(** A question request in a reachable state either throws and changes nothing at all,
    or leaves the run awaiting input with a fresh pending row and an open entry. It opens
    from running, or from a run already awaiting input, in which case it self-heals: every
    gate the run had open is resolved with the empty answer, and afterwards the new gate is
    the only open entry and the only pending row of that run. *)
Theorem question_request_spec i f r t qs now s :
  gate_reach s →
  let d := s.(sys_db) in
  match requestQuestion i f r t qs now s with
  | (Ok _, s') =>
      status_of s'.(sys_db) r = Some awaiting_input
      ∧ (∃ q rid, s'.(sys_db).(questions) !! i = Some q ∧ q.(q_status) = qs_pending ∧ q.(q_run_id) = r
           ∧ map_get i s'.(sys_questions)
             = Some (mk_question_entry (mk_question_request i r t qs now) rid))
      ∧ (status_of d r = Some running
         ∨ status_of d r = Some awaiting_input
           ∧ (∀ j e, map_get j s.(sys_questions) = Some e → e.(qe_request).(qr_runId) = r →
                answers_of j s'.(sys_log) = [empty_answer])
           ∧ (∀ j e, map_get j s'.(sys_questions) = Some e → e.(qe_request).(qr_runId) = r → j = i)
           ∧ (∀ j q, s'.(sys_db).(questions) !! j = Some q → q.(q_run_id) = r →
                q.(q_status) = qs_pending → j = i))
  | (Throw _, s') => s' = s
  end.
Proof.
  intros Hs%gate_reach_inv d. pose proof (requestQuestion_exec i f r t qs now s Hs) as H.
  destruct (requestQuestion i f r t qs now s) as [[x|e] s']; [|done].
  destruct H as (Hi & _ & Hst & Hrow & (rid & Hent) & Hcase). fold d in Hcase.
  split_and!; [done|by exists (new_question (mk_question_request i r t qs now) now), rid|].
  unfold gate_live in Hcase. destruct (decide (status_of d r = Some awaiting_input)) as [Hl|Hl].
  - rewrite bool_decide_true in Hcase by done. destruct Hcase as (Hm & Ha & Hp). right. split_and!; [done| | |].
    + intros j e He Hr. apply Ha, elem_of_entries; [apply Hs|eauto].
    + intros j e He Hr. destruct (decide (j = i)) as [|Hne]; [done|]. rewrite Hm in He by done.
      case_decide as Hin; [done|]. exfalso. apply Hin, elem_of_entries; [apply Hs|eauto].
    + intros j q Hq Hr Hp'. destruct (decide (j = i)) as [|Hne]; [done|]. by destruct (Hp j q Hne Hq Hr).
  - rewrite bool_decide_false in Hcase by done. left. apply Hcase.
Qed.

(** Tearing a run down never rejects and removes exactly the entries of that run,
    resolving each with the empty answer and no socket reply; the run moves to
    awaiting_review exactly when it was awaiting input, an edge the transition table does
    not have, and otherwise keeps its status. *)
Theorem question_clear_spec f r b now s :
  gate_reach s →
  let s' := exec (clearPendingQuestions f r b now) s in
  eval (clearPendingQuestions f r b now) s = Ok tt
  ∧ (∀ j e, map_get j s'.(sys_questions) = Some e
       ↔ map_get j s.(sys_questions) = Some e ∧ e.(qe_request).(qr_runId) ≠ r)
  ∧ (∀ j e, map_get j s.(sys_questions) = Some e → e.(qe_request).(qr_runId) = r →
       answers_of j s'.(sys_log) = [empty_answer])
  ∧ (∀ j, answer_replies j s'.(sys_log) = answer_replies j s.(sys_log))
  ∧ (status_of s.(sys_db) r = Some awaiting_input →
       status_of s'.(sys_db) r = Some awaiting_review ∧ isTransitionAllowed awaiting_input awaiting_review = false)
  ∧ (status_of s.(sys_db) r ≠ Some awaiting_input → status_of s'.(sys_db) r = status_of s.(sys_db) r).
Proof.
  intros Hs%gate_reach_inv. unfold exec, eval.
  destruct (clearPendingQuestions_exec f r b now s Hs) as (s' & -> & _ & Hm & Ha & Hr & Hst). simpl.
  split_and!; [done|done|done|done| |]; intros Hi; rewrite Hst; unfold gate_live.
  - by rewrite bool_decide_true.
  - by rewrite bool_decide_false.
Qed.

Lemma stale_inputs_count target now d :
  length (filter (λ kr, isResumable target now kr = true) (stale_inputs d))
  + length (filter (λ kr, isResumable target now kr = false) (stale_inputs d))
  = sql_count (λ _ r, has_status awaiting_input r) d.(workflow_runs).
Proof.
  unfold sql_count. fold (stale_inputs d). generalize (stale_inputs d). intros l.
  induction l as [|kr l IH]; [done|]. rewrite !filter_cons.
  destruct (isResumable target now kr); simpl; lia.
Qed.

Lemma recoverStaleAwaitingInput_exec target f now s :
  match recoverStaleAwaitingInput target f now s with
  | (Ok (n, m), s') =>
      ((∀ k, s'.(sys_db).(workflow_runs) !! k = recovered_run target now k <$> s.(sys_db).(workflow_runs) !! k)
       ∧ ∀ id, s'.(sys_db).(questions) !! id
           = (λ q, if in_ids (stale_inputs s.(sys_db)).*1 q.(q_run_id) && question_pending q
                   then time_out (current_timestamp now) q else q) <$> s.(sys_db).(questions) !! id)
      ∧ n + m = sql_count (λ _ r, has_status awaiting_input r) s.(sys_db).(workflow_runs)
  | (Throw _, s') => s' = s
  end.
Proof.
  destruct s as [d p l q0]. unfold recoverStaleAwaitingInput. unfold mbind at 1, in_db, zoom. simpl.
  pose proof (recover_input_txn_db target f now d) as H.
  destruct (recover_input_txn target f now d) as [[[[n m] [rs ms]]|e] d']; [|by rewrite H].
  destruct H as [(Hr & _ & _ & Hq) [-> ->]]. simpl.
  destruct (announce_all "resolved" rs (λ _, mapM_ (λ i, swallow (emitReviewItemChangedById i "created")) ms ;;;
    mret (length (filter (λ kr, isResumable target now kr = true) (stale_inputs d)),
          length (filter (λ kr, isResumable target now kr = false) (stale_inputs d))))
    (set_db d' (mk_sys d p l q0))) as (s1 & H1 & Hq1 & Hd1).
  erewrite H1. destruct (announce_swallowed "created" ms) as (Hg & Hs & Ht). destruct (Ht s1) as ([] & s2 & Hs2).
  specialize (Hg s1). specialize (Hs s1). rewrite Hs2 in Hg, Hs. unfold mbind. rewrite Hs2. simpl in *.
  split; [|apply stale_inputs_count].
  destruct Hg as (_ & Hg & _). unfold runs_same in Hs. by rewrite Hs, Hg, Hd1.
Qed.

(** The boot recovery of question gates either throws and changes nothing or handles
    every run awaiting input: the ones touched within seven days that have a conversation to
    resume rest in awaiting_review, the others fail with app_restart / interrupted, no other
    run changes, no run stays awaiting input, no question of a recovered run stays pending,
    and the two counts it returns add up to the number of such runs. *)
Theorem question_recover_spec target f now s :
  let d := s.(sys_db) in
  match recoverStaleAwaitingInput target f now s with
  | (Ok (resumed, interrupted), s') =>
      (∀ k r, d.(workflow_runs) !! k = Some r →
         s'.(sys_db).(workflow_runs) !! k
         = Some (if decide (r.(r_status) = awaiting_input) then
                   if is_fresh now r && target k then set_status awaiting_review (current_timestamp now) r
                   else fail_interrupted now r
                 else r))
      ∧ (∀ k, status_of s'.(sys_db) k ≠ Some awaiting_input)
      ∧ (∀ id q r, s'.(sys_db).(questions) !! id = Some q → d.(workflow_runs) !! q.(q_run_id) = Some r →
           r.(r_status) = awaiting_input → q.(q_status) ≠ qs_pending)
      ∧ resumed + interrupted = sql_count (λ _ r, has_status awaiting_input r) d.(workflow_runs)
  | (Throw _, s') => s' = s
  end.
Proof.
  pose proof (recoverStaleAwaitingInput_exec target f now s) as H. intros d.
  destruct (recoverStaleAwaitingInput target f now s) as [[[n m]|e] s']; [|done].
  destruct H as [(Hr & Hq) ->]. split_and!; [| | |done].
  - intros k r Hk. rewrite Hr. fold d. rewrite Hk. simpl. f_equal. unfold recovered_run, has_status.
    by destruct (decide (r_status r = awaiting_input)) as [E|E]; [rewrite bool_decide_true by done|rewrite bool_decide_false by done].
  - intros k. unfold status_of. rewrite Hr. destruct (workflow_runs (sys_db s) !! k) as [r|]; [|done].
    simpl. unfold recovered_run, has_status. case_bool_decide as E; [|congruence]. by destruct (isResumable _ _ _).
  - intros id q r Hid Hk Hst. rewrite Hq in Hid. fold d in Hid.
    destruct (d.(questions) !! id) as [q'|] eqn:E; [|done]. simpl in Hid. injection Hid as <-.
    destruct (in_ids _ _ && question_pending q') eqn:Ht; [done|]. simpl in *.
    intros Hp. apply andb_false_iff in Ht as [Ht|Ht].
    + assert (in_ids (stale_inputs d).*1 (q_run_id q') = true); [|congruence].
      apply bool_decide_eq_true, list_elem_of_fmap. exists (q_run_id q', r). split; [done|].
      apply elem_of_sql_select. split; [done|]. simpl. by apply bool_decide_eq_true.
    + unfold question_pending in Ht. by rewrite bool_decide_true in Ht.
Qed.

(** ** Concrete inputs *)

Definition sample_question : question_payload := mk_question_payload "API key?" "Key" true [] "{}".
Definition sample_answer : question_answer := mk_answer [("API key?", "k-123")] None None.

(** A run that opens the gate [q1]. *)
Definition sample_gate : sys :=
  exec (requestQuestion "q1" "ri1" "r1" "tool-1" [sample_question] 5%Z) (sample_sys [("r1", running)]).
Definition sample_gate_entry : question_entry :=
  mk_question_entry (mk_question_request "q1" "r1" "tool-1" [sample_question] 5%Z) (Some "ri1").

Lemma sample_gate_reach : gate_reach sample_gate.
Proof. apply gr_request. apply (gr_boot (sample_db [("r1", running)])). Qed.

Lemma question_exactly_once_witness :
  let s := exec (respondQuestion traced_plan_gate_deps "q1" sample_answer 6%Z 7%Z) sample_gate in
  length (answers_of "q1" s.(sys_log)) = 1 ∧ map_get "q1" s.(sys_questions) = None.
Proof.
  intros s.
  assert (gate_reach s) as Hs.
  { apply gr_answer; [apply traced_plan_gate_laws|apply sample_gate_reach]. }
  destruct (question_exactly_once s Hs "q1") as (_ & _ & H & _).
  split; [vm_compute; reflexivity|].
  destruct (H sample_answer) as [Hn _]; [|exact Hn].
  replace (answers_of "q1" s.(sys_log)) with [sample_answer] by (vm_compute; reflexivity).
  apply list_elem_of_here.
Defined.

(** The agent reads the key, the stored row does not. *)
Lemma question_answer_spec_witness :
  let s' := exec (respondQuestion traced_plan_gate_deps "q1" sample_answer 6%Z 7%Z) sample_gate in
  answers_of "q1" s'.(sys_log) = [sample_answer]
  ∧ ∃ q stored, s'.(sys_db).(questions) !! "q1" = Some q ∧ q.(q_answer_json) = Some stored
      ∧ ∀ v, ("API key?", v) ∈ stored.(qa_answers) → v = "[redacted]".
Proof.
  destruct (question_answer_spec traced_plan_gate_deps "q1" sample_answer 6%Z 7%Z sample_gate
    sample_gate_entry traced_plan_gate_laws sample_gate_reach) as (_ & _ & Ha & _ & Hq & _);
    [vm_compute; reflexivity|].
  split; [exact Ha|]. destruct Hq as (q & Hq & _ & stored & Hst & Hred).
  exists q, stored. split; [exact Hq|]. split; [exact Hst|].
  intros v Hv. apply (Hred "API key?" v Hv). apply list_elem_of_here.
Defined.

(** A second gate of the same run supersedes the first. *)
Lemma question_request_spec_witness :
  let s' := exec (requestQuestion "q2" "ri2" "r1" "tool-2" [sample_question] 8%Z) sample_gate in
  answers_of "q1" s'.(sys_log) = [empty_answer] ∧ status_of s'.(sys_db) "r1" = Some awaiting_input.
Proof.
  pose proof (question_request_spec "q2" "ri2" "r1" "tool-2" [sample_question] 8%Z sample_gate
    sample_gate_reach) as H. unfold exec. cbv zeta in H.
  destruct (requestQuestion "q2" "ri2" "r1" "tool-2" [sample_question] 8%Z sample_gate)
    as [[x|e] s'] eqn:E; [|vm_compute in E; discriminate E].
  destruct H as (Hst & _ & [Hr|(_ & Ha & _)]); [vm_compute in Hr; discriminate Hr|].
  split; [|exact Hst]. apply (Ha "q1" sample_gate_entry); vm_compute; reflexivity.
Defined.

Lemma question_clear_spec_witness :
  let s' := exec (clearPendingQuestions (λ i, i) "r1" false 9%Z) sample_gate in
  answers_of "q1" s'.(sys_log) = [empty_answer] ∧ status_of s'.(sys_db) "r1" = Some awaiting_review.
Proof.
  destruct (question_clear_spec (λ i, i) "r1" false 9%Z sample_gate sample_gate_reach)
    as (_ & _ & Ha & _ & Hst & _).
  split.
  - apply (Ha "q1" sample_gate_entry); vm_compute; reflexivity.
  - apply Hst. vm_compute. reflexivity.
Defined.
