(* ===== verification/HumanSteps.v ===== *)
(** * Human gates of a workflow run

    Models [main/src/orchestrator/humanStepManager.ts]: the blocking decision
    item a programmatic step opens, its resolution with the aggregate-unblock
    rule, the parking and resuming of a run, and the cleanup of a canceled run.

    The texts other modules compose from tables this development does not hold
    (the adversarial-review body, the partial-sprint body, the batch's idea
    references) are arguments of [openHumanGate]; the artifact mint awaited
    before a gate is the effect [EvCall]. *)

From stdpp Require Import pretty.
From S2P Require Import Prelude RunStateMachine Database JsString ReviewItems.

Open Scope js_scope.

Definition HUMAN_GATE_SOURCE : string := "gate:human-step".
Definition SYSTEMIC_PAUSE_SOURCE : string := "gate:systemic-pause".
Definition APPROVE_DESIGN_STEP_ID : string := "approve-design".

Definition sourceForStep (stepId : string) : string := HUMAN_GATE_SOURCE +:+ ":" +:+ stepId.

(** What other modules read for a gate's card. *)
Record gate_texts := mk_gate_texts {
  gt_adversarial : option string;   (* composeAdversarialReviewGateBody *)
  gt_partialSprint : option string; (* composePartialSprintGateBody *)
  gt_ideaRefs : list string         (* listApproveIdeasBatchRows(...).map(row => row.ref) *)
}.

Definition composeGateBody (d : db) (runId stepId : string) (x : gate_texts) : string :=
  let lead :=
    default ("Workflow step '" +:+ stepId
             +:+ "' requires a human decision before the run can advance.")
      (coalesce (if String.eqb stepId APPROVE_DESIGN_STEP_ID then x.(gt_adversarial) else None)
         x.(gt_partialSprint)) in
  let pending := countRunPendingFindings d runId in
  if decide (pending = 0) then lead
  else lead +:+ String nl (String nl "") +:+ "**Pending findings:** " +:+ pretty pending
       +:+ " finding" +:+ (if decide (pending = 1) then "" else "s")
       +:+ " filed by this run still await triage.".

Definition composeGatePayload (stepId : string) (reviewReportedSinceMs : option instant)
    (x : gate_texts) : option decision_payload :=
  if String.eqb stepId APPROVE_DESIGN_STEP_ID then
    match reviewReportedSinceMs with
    | None => None
    | Some t => Some (mk_decision_payload "approve-design" None None None (Some t) None None None
                        None None None None)
    end
  else if negb (String.eqb stepId "approve-ideas") then None
  else match x.(gt_ideaRefs) with
       | [] => None
       | refs => Some (mk_decision_payload "approve-ideas" None None (Some refs) None None None
                         None None None None None)
       end.

(** The pending decision items of a run whose source satisfies [p]. *)
Definition pending_decision (runId : string) (p : review_row → bool) (v : review_row) : bool :=
  bool_decide (v.(v_run_id) = Some runId) && bool_decide (v.(v_kind) = k_decision)
  && review_pending v && p v.
Definition source_is (source : string) (v : review_row) : bool :=
  bool_decide (v.(v_source) = Some source).

(** [SELECT id ... LIMIT 1] *)
Definition first_item (d : db) (p : review_row → bool) : option (string * review_row) :=
  head (sql_select (λ _ v, p v) (items_of d)).

Definition findPendingItemBySource (d : db) (runId source : string) : option string :=
  if negb (hasReviewItemsTable d) then None
  else fst <$> first_item d (pending_decision runId (source_is source)).

Definition findPendingGate (d : db) (runId stepId : string) : option string :=
  findPendingItemBySource d runId (sourceForStep stepId).

Definition findPendingSystemicPauseItem (d : db) (runId : string)
    : option (string * Z * option review_payload) :=
  if negb (hasReviewItemsTable d) then None
  else match first_item d (pending_decision runId (source_like (SYSTEMIC_PAUSE_SOURCE +:+ ":"))) with
       | Some (id, v) =>
           if String.eqb id "" then None else Some (id, v.(v_project_id), v.(v_payload))
       | None => None
       end.

(** [HumanGateItemSnapshot] *)
Record gate_snapshot := mk_snapshot {
  gs_title : string;
  gs_body : string;
  gs_status : review_status;
  gs_resolution : option string
}.

Definition readGateItem (d : db) (reviewItemId : string) : option gate_snapshot :=
  if negb (hasReviewItemsTable d) then None
  else (λ v, mk_snapshot v.(v_title) (default "" v.(v_body)) v.(v_status) v.(v_resolution))
       <$> items_of d !! reviewItemId.

(** ** Opening *)

(** The transaction: whether the run was parked, and the item minted. *)
Definition open_txn (freshId runId stepId stepName : string) (gateHeader : option string)
    (since : option instant) (x : gate_texts) (now : instant) : dbM (bool * option string) :=
  transaction
    (assertTransitionAllowedFromAny [running; awaiting_review] awaiting_review (Some runId) ;;;
     n <- update_run runId (has_status_in [running; awaiting_review])
            (set_status awaiting_review now) ;;
     if decide (n = 0) then mret (false, None)
     else
       d <- get ;;
       id <- coWriteDecisionReviewItem freshId
               (mk_decision_args runId ("Human gate: " +:+ default stepName gateHeader)
                  (Some (composeGateBody d runId stepId x)) (sourceForStep stepId)
                  (composeGatePayload stepId since x) now) ;;
       mret (true, id)).

Definition emit_opt (id : option string) (action : string) : sysM unit :=
  match id with Some i => emitReviewItemChangedById i action | None => mret tt end.

(** The queue task. *)
Definition open_task (freshId runId stepId stepName : string) (gateHeader : option string)
    (since : option instant) (x : gate_texts) (now : instant) : sysM (option string) :=
  d <- gets sys_db ;;
  let existing := match first_item d (pending_decision runId (source_is (sourceForStep stepId))) with
                  | Some (i, _) => negb (String.eqb i "")
                  | None => false
                  end in
  if existing : bool then mret None
  else
    r <- in_db (open_txn freshId runId stepId stepName gateHeader since x now) ;;
    (when (fst r) do emit (EvRunStatusChanged runId awaiting_review)) ;;;
    emit_opt r.2 "created" ;;;
    mret r.2.

Definition openHumanGate (freshId runId stepId stepName : string) (gateHeader : option string)
    (since : option instant) (x : gate_texts) (now : instant) : sysM (option string) :=
  d <- gets sys_db ;;
  if negb (hasReviewItemsTable d) then mret None
  else emit (EvCall "handleEntityWrite" runId) ;;;
       open_task freshId runId stepId stepName gateHeader since x now.

(** ** Resolving, parking, resuming *)

(** [UPDATE ... SET status = 'running' ... WHERE status = 'awaiting_review'] *)
Definition unpark (runId : string) (now : instant) : dbM bool :=
  assertTransitionAllowed awaiting_review running (Some runId) ;;;
  n <- update_run runId (has_status awaiting_review) (set_status running now) ;;
  mret (bool_decide (n ≠ 0)).

Definition resolve_txn (runId reviewItemId resolvedBy : string) (resolution : option string)
    (now : instant) : dbM (bool * bool) :=
  transaction
    (id <- resolveReviewItemById reviewItemId resolvedBy resolution now (Some runId) ;;
     let resolved := match id with Some _ => true | None => false end in
     d <- get ;;
     if decide (countPendingBlockingReviewItems d runId [] = 0)
     then resumed <- unpark runId now ;; mret (resolved, resumed)
     else mret (resolved, false)).

(** [if (resolved) emitReviewItemChangedById(db, id, 'resolved')] *)
Definition emit_if (resolved : bool) (reviewItemId : string) : sysM unit :=
  when resolved do emitReviewItemChangedById reviewItemId "resolved".

Definition resolveHumanGate (runId reviewItemId resolvedBy : string) (resolution : option string)
    (now : instant) : sysM (bool * bool) :=
  r <- in_db (resolve_txn runId reviewItemId resolvedBy resolution now) ;;
  emit_if r.1 reviewItemId ;;;
  (when (snd r) do emit (EvRunStatusChanged runId running)) ;;;
  mret r.

Definition hasPendingBlockingItems (d : db) (runId : string) : bool :=
  if negb (hasReviewItemsTable d) then false
  else (0 <? countPendingBlockingReviewItems d runId [])%nat.

Definition listPendingBlockingItems (d : db) (runId : string) : list PendingBlockingItemRow :=
  selectPendingBlockingItemRows d runId.

Definition park_task (runId : string) (now : instant) : sysM bool :=
  d <- gets sys_db ;;
  if decide (countPendingBlockingReviewItems d runId [] = 0) then mret false
  else
    in_db (assertTransitionAllowed running awaiting_review (Some runId)) ;;;
    n <- in_db (update_run runId (has_status running) (set_status awaiting_review now)) ;;
    let parked := bool_decide (n ≠ 0) in
    (when parked do emit (EvRunStatusChanged runId awaiting_review)) ;;;
    mret parked.

Definition parkForBlockingReview (runId : string) (now : instant) : sysM bool :=
  d <- gets sys_db ;;
  if negb (hasReviewItemsTable d) then mret false
  else emit (EvCall "handleEntityWrite" runId) ;;; park_task runId now.

Definition maybeResumeRun (runId : string) (now : instant) : sysM bool :=
  d <- gets sys_db ;;
  if negb (hasReviewItemsTable d) then mret false
  else if decide (countPendingBlockingReviewItems d runId [] ≠ 0) then mret false
  else
    resumed <- in_db (unpark runId now) ;;
    (when resumed do emit (EvRunStatusChanged runId running)) ;;;
    mret resumed.

(** ** Cleanup *)

Definition gate_source (v : review_row) : bool :=
  source_like (HUMAN_GATE_SOURCE +:+ ":") v || source_like (SYSTEMIC_PAUSE_SOURCE +:+ ":") v.

Fixpoint dismiss_all (ids : list string) (runId : string) (now : instant) : sysM nat :=
  match ids with
  | [] => mret 0
  | id :: ids' =>
      r <- in_db (dismissReviewItemById id "system" (Some "canceled") now (Some runId)) ;;
      emit_opt r "dismissed" ;;;
      n <- dismiss_all ids' runId now ;;
      mret (match r with Some _ => S n | None => n end)
  end.

Definition clearPendingGates (runId : string) (now : instant) : sysM nat :=
  d <- gets sys_db ;;
  if negb (hasReviewItemsTable d) then mret 0
  else dismiss_all (sql_select (λ _ v, pending_decision runId gate_source v) (items_of d)).*1 runId now.

(** ** Every operation stays on legal edges *)

Lemma open_txn_refines f r st sn h si x now : preserves runs_refine (open_txn f r st sn h si x now).
Proof. unfold open_txn. solve_refine. Qed.
Lemma unpark_refines r now : preserves runs_refine (unpark r now).
Proof. unfold unpark. solve_refine. Qed.
#[export] Hint Resolve open_txn_refines unpark_refines : refine.
Lemma resolve_txn_refines r i w res now : preserves runs_refine (resolve_txn r i w res now).
Proof. unfold resolve_txn. solve_refine. Qed.
Lemma emit_opt_refines id act : preserves sys_refine (emit_opt id act).
Proof. unfold emit_opt. solve_refine. Qed.
#[export] Hint Resolve resolve_txn_refines emit_opt_refines : refine.

Lemma openHumanGate_refines f r st sn h si x now :
  preserves sys_refine (openHumanGate f r st sn h si x now).
Proof. unfold openHumanGate, open_task. solve_refine. Qed.
Lemma resolveHumanGate_refines r i w res now : preserves sys_refine (resolveHumanGate r i w res now).
Proof. unfold resolveHumanGate, emit_if. solve_refine. Qed.
Lemma parkForBlockingReview_refines r now : preserves sys_refine (parkForBlockingReview r now).
Proof. unfold parkForBlockingReview, park_task. solve_refine. Qed.
Lemma maybeResumeRun_refines r now : preserves sys_refine (maybeResumeRun r now).
Proof. unfold maybeResumeRun. solve_refine. Qed.
Lemma dismiss_all_refines ids r now : preserves sys_refine (dismiss_all ids r now).
Proof. induction ids; simpl; solve_refine. Qed.
#[export] Hint Resolve dismiss_all_refines : refine.
Lemma clearPendingGates_refines r now : preserves sys_refine (clearPendingGates r now).
Proof. unfold clearPendingGates. solve_refine. Qed.
#[export] Hint Resolve openHumanGate_refines resolveHumanGate_refines
  parkForBlockingReview_refines maybeResumeRun_refines clearPendingGates_refines : refine.

(** ** Opening, branch by branch *)

Definition gate_row (d : db) (projectId : Z) (runId stepId stepName : string)
    (gateHeader : option string) (since : option instant) (x : gate_texts) (now : instant)
    : review_row :=
  mk_review projectId (Some runId) k_decision rv_pending true
    ("Human gate: " +:+ default stepName gateHeader) (Some (composeGateBody d runId stepId x)) None
    (Some (sourceForStep stepId)) (Some "human") (DecisionPayload <$> composeGatePayload stepId since x)
    now now None None.

(** The database after the run is parked and the gate's item minted. *)
Definition opened_db (f r st sn : string) (h : option string) (si : option instant) (x : gate_texts)
    (now : instant) (row : run_row) (t : gmap string review_row) (d : db) : db :=
  append_event f "created" (Some r)
    [mk_delta "kind" VNull (VStr "decision"); mk_delta "status" VNull (VStr "pending");
     mk_delta "title" VNull (VStr ("Human gate: " +:+ default sn h));
     mk_delta "blocking" VNull (VBool true)] now
    (set_review_items (<[f := gate_row d row.(r_project_id) r st sn h si x now]> t)
       (set_runs (<[r := set_status awaiting_review now row]> d.(workflow_runs)) d)).

Lemma open_txn_eq f r st sn h si x now d t :
  d.(review_items) = Some t →
  open_txn f r st sn h si x now d
  = match d.(workflow_runs) !! r with
    | Some row =>
        if has_status_in [running; awaiting_review] row then
          match t !! f with
          | Some _ => (Throw (SqlUniqueViolation "review_items" f), d)
          | None => (Ok (true, Some f), opened_db f r st sn h si x now row t d)
          end
        else (Ok (false, None), d)
    | None => (Ok (false, None), d)
    end.
Proof.
  intros Ht. unfold open_txn, transaction. unfold mbind at 1.
  change (assertTransitionAllowedFromAny [running; awaiting_review] awaiting_review (Some r) d)
    with (Ok (E:=run_error) tt, d).
  unfold mbind at 1. case_update_run.
  - rewrite Hr, Hp. unfold mbind at 1, get. unfold mbind at 1, coWriteDecisionReviewItem.
    unfold mbind at 1, get. simpl.
    unfold hasReviewItemsTable. simpl. rewrite Ht. simpl.
    unfold projectIdForRun. simpl. rewrite lookup_insert_eq. simpl.
    rewrite (co_write_eq _ _ _ _ _ _ _ _ _ t) by done.
    by destruct (t !! f).
  - destruct (d.(workflow_runs) !! r) as [row|]; [|done]. by rewrite (Hr row).
Qed.

(** Opening a human gate creates one pending blocking decision item under the step's
    source and parks the run, only from running or awaiting_review and only if no gate of
    that step was pending; in every other case, errors included, the database is unchanged.
    *)
Theorem openHumanGate_spec freshId runId stepId stepName gateHeader since x now s :
  let d := s.(sys_db) in
  let '(res, s') := openHumanGate freshId runId stepId stepName gateHeader since x now s in
  match res with
  | Ok (Some id) =>
      id = freshId
      ∧ (∃ st, status_of d runId = Some st ∧ st ∈ [running; awaiting_review])
      ∧ (∀ i, findPendingGate d runId stepId = Some i → i = "")
      ∧ status_of s'.(sys_db) runId = Some awaiting_review
      ∧ (∃ v, items_of s'.(sys_db) !! id = Some v ∧ pending_blocking runId v = true
              ∧ pending_decision runId (source_is (sourceForStep stepId)) v = true)
      ∧ hasPendingBlockingItems s'.(sys_db) runId = true
  | _ => s'.(sys_db) = d
  end.
Proof.
  destruct s as [d p l q]. simpl. unfold openHumanGate. unfold mbind at 1, gets. simpl.
  destruct (hasReviewItemsTable d) eqn:Hh; simpl; [|done].
  unfold mbind at 1, emit, modify. unfold open_task. unfold mbind at 1, gets. simpl.
  destruct (match first_item d _ with Some (i, _) => negb (String.eqb i "") | None => false end) eqn:Hex;
    [done|].
  unfold hasReviewItemsTable in Hh. destruct (d.(review_items)) as [t|] eqn:Ht; [|done].
  unfold mbind at 1, in_db, zoom. simpl.
  rewrite (open_txn_eq _ _ _ _ _ _ _ _ d t) by done.
  destruct (d.(workflow_runs) !! runId) as [row|] eqn:Hr; [|done].
  destruct (has_status_in _ row) eqn:Hst; [|done].
  destruct (t !! freshId) as [w|] eqn:Hf; [done|].
  set (d' := opened_db _ _ _ _ _ _ _ _ _ _ _).
  assert (d'.(workflow_runs) = <[runId := set_status awaiting_review now row]> d.(workflow_runs)
    ∧ items_of d' = <[freshId := gate_row d row.(r_project_id) runId stepId stepName gateHeader since x now]> t
    ∧ hasReviewItemsTable d' = true) as (Hruns & Hitems & Htab) by done.
  clearbody d'. simpl.
  unfold mbind, emit, modify, add_log, set_db, emit_opt, emitReviewItemChangedById, gets, mbind. simpl.
  rewrite Hitems, lookup_insert_eq. simpl. unfold status_of. rewrite Hr, Hruns, lookup_insert_eq. simpl.
  assert (pending_blocking runId (gate_row d (r_project_id row) runId stepId stepName gateHeader since x now) = true)
    as Hpb by (unfold pending_blocking; simpl; by rewrite bool_decide_true).
  split_and!; [done| | |done| |].
  - exists (r_status row). split; [done|]. by apply bool_decide_eq_true in Hst.
  - intros i. unfold findPendingGate, findPendingItemBySource, hasReviewItemsTable. rewrite Ht. simpl.
    destruct (first_item d _) as [[j v]|]; [|done]. simpl. intros [= <-].
    by apply negb_false_iff, String.eqb_eq in Hex.
  - eexists. split; [by rewrite Hitems, lookup_insert_eq|]. split; [done|].
    unfold pending_decision, source_is. cbn -[gate_row composeGateBody composeGatePayload pending_blocking]. by rewrite !bool_decide_true.
  - unfold hasPendingBlockingItems. rewrite Htab. simpl. apply Nat.ltb_lt.
    destruct (countPendingBlockingReviewItems d' runId []) eqn:Hn; [|lia]. exfalso.
    rewrite count_zero_spec in Hn. edestruct (Hn freshId) as [Hin _]; [|exact Hpb|].
    + by rewrite Hitems, lookup_insert_eq.
    + by apply not_elem_of_nil in Hin.
Qed.

(** ** The aggregate-unblock rule *)

Lemma unpark_eq r now d :
  unpark r now d
  = match d.(workflow_runs) !! r with
    | Some row => if has_status awaiting_review row
                  then (Ok true, set_runs (<[r := set_status running now row]> d.(workflow_runs)) d)
                  else (Ok false, d)
    | None => (Ok false, d)
    end.
Proof.
  unfold unpark. unfold mbind at 1. rewrite assertTransitionAllowed_ok by done. unfold mbind at 1.
  case_update_run.
  - by rewrite Hr, Hp.
  - destruct (d.(workflow_runs) !! r) as [row|]; [|done]. by rewrite (Hr row).
Qed.

Lemma unpark_spec r now d :
  ∃ b d', unpark r now d = (Ok b, d')
    ∧ status_of d' r = (if b then Some running else status_of d r)
    ∧ (b = true ↔ status_of d r = Some awaiting_review)
    ∧ (∀ k, countPendingBlockingReviewItems d' k [] = countPendingBlockingReviewItems d k [])
    ∧ items_of d' = items_of d.
Proof.
  rewrite unpark_eq. unfold status_of. destruct (d.(workflow_runs) !! r) as [row|] eqn:Hr; simpl.
  - destruct (has_status awaiting_review row) eqn:Hs; eexists _, _; (split; [reflexivity|]); simpl.
    + rewrite lookup_insert_eq. apply bool_decide_eq_true in Hs. rewrite Hs. by split_and!.
    + rewrite Hr. simpl. apply bool_decide_eq_false in Hs. split_and!; try done.
      split; [done|]. intros [= ?]. done.
  - eexists _, _. split; [reflexivity|]. simpl. rewrite Hr. by split_and!.
Qed.

Lemma resolve_txn_spec r i w res now d :
  ∃ resolved resumed d', resolve_txn r i w res now d = (Ok (resolved, resumed), d')
    ∧ (resumed = true ↔ status_of d r = Some awaiting_review
                        ∧ countPendingBlockingReviewItems d' r [] = 0)
    ∧ status_of d' r = (if resumed then Some running else status_of d r)
    ∧ (resolved = true ↔ ∃ v, items_of d !! i = Some v ∧ review_pending v = true)
    ∧ (∀ v, items_of d !! i = Some v → review_pending v = true →
         items_of d' = <[i := triage rv_resolved w res now v]> (items_of d)).
Proof.
  unfold resolve_txn, transaction. unfold mbind at 1.
  pose proof (run_command_frame (ResolveById i w res (Some r), now) d) as Hf.
  unfold run_command in Hf. simpl in Hf.
  destruct (resolveById_spec i w res now (Some r) d) as (o & d1 & Hres & Ho & Hit).
  rewrite Hres in *. simpl in *. destruct Hf as (Hruns & _).
  unfold mbind at 1, get.
  assert (∀ b : bool, (b = true ↔ ∃ v, items_of d !! i = Some v ∧ review_pending v = true)
    ↔ (b = true ↔ o ≠ None)) as Hob by (intros b; by rewrite Ho).
  assert (status_of d1 r = status_of d r) as Hst by (unfold status_of; by rewrite Hruns).
  destruct (decide (countPendingBlockingReviewItems d1 r [] = 0)) as [Hz|Hz].
  - destruct (unpark_spec r now d1) as (b & d2 & Hu & Hs2 & Hb & Hc & Hi2).
    unfold mbind. rewrite Hu. eexists _, b, d2. split; [reflexivity|]. rewrite Hs2, Hb, Hc, Hst, Hi2.
    split_and!; [tauto|done| |done]. apply Hob. by destruct o.
  - eexists _, false, d1. split; [reflexivity|]. split_and!; [|done| |done].
    + split; [done|]. by intros [_ ?].
    + apply Hob. by destruct o.
Qed.

(** Resolving a gate always returns; it resolves the item exactly when it was pending,
    and resumes the run exactly when it awaited review and no human-facing blocking item of
    the run is pending any more, announcing the status change when it does. *)
Theorem resolveHumanGate_spec runId reviewItemId who resolution now s :
  let d := s.(sys_db) in
  let '(res, s') := resolveHumanGate runId reviewItemId who resolution now s in
  let d' := s'.(sys_db) in
  ∃ resolved resumed, res = Ok (resolved, resumed)
    ∧ (resumed = true ↔ status_of d runId = Some awaiting_review
                        ∧ countPendingBlockingReviewItems d' runId [] = 0)
    ∧ status_of d' runId = (if resumed then Some running else status_of d runId)
    ∧ (resolved = true ↔ ∃ v, items_of d !! reviewItemId = Some v ∧ review_pending v = true)
    ∧ (resumed = true → EvRunStatusChanged runId running ∈ s'.(sys_log)).
Proof.
  destruct s as [d p l q]. simpl. unfold resolveHumanGate. unfold mbind at 1, in_db, zoom. simpl.
  destruct (resolve_txn_spec runId reviewItemId who resolution now d)
    as (resolved & resumed & d' & -> & Hres & Hst & Hr & _). simpl.
  assert (∃ l1, emit_if resolved reviewItemId (mk_sys d' p l q) = (Ok tt, mk_sys d' p l1 q)) as [l1 Hl1].
  { unfold emit_if, emitReviewItemChangedById, mbind, gets. destruct resolved; [|by eexists]. simpl.
    destruct (items_of d' !! reviewItemId); by eexists. }
  unfold mbind, set_db. simpl. rewrite Hl1.
  destruct resumed; simpl; exists resolved; eexists; (split; [done|]);
    (split_and!; [done|done|done|]); [|done].
  intros _. apply elem_of_app. right. by left.
Qed.

(** maybeResumeRun resumes a run exactly when it awaits review and no blocking human-
    facing item of it is pending, reports that truthfully, and changes no item. *)
Theorem maybeResumeRun_spec runId now s :
  let d := s.(sys_db) in
  let '(res, s') := maybeResumeRun runId now s in
  ∃ b, res = Ok b
    ∧ (b = true ↔ hasReviewItemsTable d = true ∧ status_of d runId = Some awaiting_review
         ∧ ∀ id v, items_of d !! id = Some v → pending_blocking runId v = false)
    ∧ status_of s'.(sys_db) runId = (if b then Some running else status_of d runId)
    ∧ items_of s'.(sys_db) = items_of d.
Proof.
  destruct s as [d p l q]. simpl. unfold maybeResumeRun. unfold mbind at 1, gets. simpl.
  destruct (hasReviewItemsTable d) eqn:Hh; simpl.
  2: { exists false. split_and!; [done| |done|done]. split; [done|]. by intros []. }
  assert (countPendingBlockingReviewItems d runId [] = 0
    ↔ ∀ id v, items_of d !! id = Some v → pending_blocking runId v = false) as Hc.
  { rewrite count_zero_spec. split; intros H id v Hv.
    - destruct (pending_blocking runId v) eqn:Hp; [|done].
      destruct (H id v Hv Hp) as [Hin _]. by apply not_elem_of_nil in Hin.
    - intros Hp. by rewrite (H id v Hv) in Hp. }
  destruct (decide (countPendingBlockingReviewItems d runId [] ≠ 0)) as [Hz|Hz]; simpl.
  - exists false. split_and!; [done| |done|done]. split; [done|]. intros (_ & _ & H).
    exfalso. by apply Hz, Hc.
  - apply dec_stable in Hz. unfold mbind, in_db, zoom. simpl.
    destruct (unpark_spec runId now d) as (b & d' & -> & Hst & Hb & _ & Hi).
    destruct b; simpl; eexists; (split; [done|]); rewrite Hst, Hi;
      (split_and!; [|done|done]); rewrite Hb; split; try tauto.
Qed.

(** ** Cleanup *)

Lemma dismiss_pending id r now d v :
  items_of d !! id = Some v → review_pending v = true →
  ∃ d', dismissReviewItemById id "system" (Some "canceled") now r d = (Ok (Some id), d')
    ∧ items_of d' = <[id := triage rv_dismissed "system" (Some "canceled") now v]> (items_of d)
    ∧ d'.(workflow_runs) = d.(workflow_runs).
Proof.
  unfold items_of, dismissReviewItemById, mbind, get, hasReviewItemsTable.
  destruct (d.(review_items)) as [t|] eqn:Ht; simpl; [|done]. intros Hv Hp.
  rewrite (transitionReviewItemRow_eq _ _ _ _ _ _ t) by done. rewrite Hv, Hp.
  by eexists.
Qed.

Lemma emit_opt_db id act s : ∃ l, emit_opt id act s = (Ok tt, mk_sys s.(sys_db) s.(sys_pending) l s.(sys_questions)).
Proof.
  unfold emit_opt. destruct id as [i|]; [|by destruct s; eexists].
  unfold emitReviewItemChangedById, mbind, gets. destruct s as [d p l q]. simpl.
  destruct (items_of d !! i); by eexists.
Qed.

Lemma dismiss_all_spec ids r now s :
  NoDup ids →
  (∀ id, id ∈ ids → ∃ v, items_of s.(sys_db) !! id = Some v ∧ review_pending v = true) →
  ∃ s', dismiss_all ids r now s = (Ok (length ids), s')
    ∧ (∀ k, items_of s'.(sys_db) !! k
         = if decide (k ∈ ids)
           then triage rv_dismissed "system" (Some "canceled") now <$> items_of s.(sys_db) !! k
           else items_of s.(sys_db) !! k)
    ∧ s'.(sys_db).(workflow_runs) = s.(sys_db).(workflow_runs).
Proof.
  revert s. induction ids as [|i ids IH]; intros s Hnd Hin; simpl.
  { exists s. by split_and!. }
  apply NoDup_cons in Hnd as [Hni Hnd].
  destruct (Hin i) as (v & Hv & Hp); [by left|].
  destruct (dismiss_pending i (Some r) now s.(sys_db) v Hv Hp) as (d1 & Hd1 & Hi1 & Hr1).
  unfold mbind at 1, in_db, zoom. rewrite Hd1.
  destruct (emit_opt_db (Some i) "dismissed" (set_db d1 s)) as [l Hl].
  unfold mbind at 1. rewrite Hl. simpl.
  destruct (IH (mk_sys d1 s.(sys_pending) l s.(sys_questions))) as (s2 & Hs2 & Hi2 & Hr2); [done| |].
  { intros id Hid. simpl. rewrite Hi1. destruct (decide (id = i)) as [->|Hne]; [done|].
    rewrite lookup_insert_ne by done. apply Hin. by right. }
  unfold mbind. rewrite Hs2. eexists. split; [reflexivity|]. split; [|simpl in *; congruence].
  intros k. rewrite Hi2. simpl. rewrite Hi1. destruct (decide (k = i)) as [->|Hne].
  - rewrite decide_False, lookup_insert_eq, Hv by done. rewrite decide_True by (by left). done.
  - rewrite lookup_insert_ne by done. repeat case_decide; set_solver.
Qed.

Lemma sql_select_keys_NoDup {R} (p : string → R → bool) (t : gmap string R) : NoDup (sql_select p t).*1.
Proof.
  unfold sql_select. eapply sublist_NoDup; [apply (NoDup_fst_map_to_list t)|].
  apply fmap_sublist, sublist_filter.
Qed.

(** Clearing a run's human gates dismisses exactly its pending gate and systemic-pause
    decisions, as canceled by the system, returns their number, and changes neither other
    items nor any run. *)
Theorem clearPendingGates_spec runId now s :
  let gates := pending_decision runId gate_source in
  let '(res, s') := clearPendingGates runId now s in
  res = Ok (sql_count (λ _ v, gates v) (items_of s.(sys_db)))
  ∧ (∀ id v, items_of s'.(sys_db) !! id = Some v → gates v = false)
  ∧ (∀ id v, items_of s.(sys_db) !! id = Some v →
       items_of s'.(sys_db) !! id
       = Some (if gates v then triage rv_dismissed "system" (Some "canceled") now v else v))
  ∧ s'.(sys_db).(workflow_runs) = s.(sys_db).(workflow_runs).
Proof.
  intros gates. unfold clearPendingGates, mbind, gets.
  destruct (hasReviewItemsTable (sys_db s)) eqn:Hh; simpl.
  2: { apply hasTable_items in Hh. rewrite Hh. split_and!; try done; intros id v Hv;
         by rewrite lookup_empty in Hv. }
  fold gates. set (sel := sql_select (λ _ v, gates v) (items_of (sys_db s))).
  assert (∀ k, k ∈ sel.*1 ↔ ∃ v, items_of (sys_db s) !! k = Some v ∧ gates v = true) as Hsel.
  { intros k. rewrite list_elem_of_fmap. split.
    - intros ([j v] & -> & [? ?]%elem_of_sql_select). eauto.
    - intros (v & ? & ?). exists (k, v). split; [done|]. by apply elem_of_sql_select. }
  assert (∀ v, gates v = true → review_pending v = true) as Hgp.
  { intros v Hv. unfold gates, pending_decision in Hv. bool_hyps. by destruct (review_pending v). }
  destruct (dismiss_all_spec sel.*1 runId now s) as (s' & -> & Hi & Hr).
  { apply sql_select_keys_NoDup. }
  { intros id (v & Hv & Hg)%Hsel. eauto. }
  assert (∀ id v, items_of (sys_db s) !! id = Some v → items_of (sys_db s') !! id
       = Some (if gates v then triage rv_dismissed "system" (Some "canceled") now v else v)) as Hall.
  { intros id v Hv. rewrite Hi, Hv. case_decide as Hd.
    - apply Hsel in Hd as (v' & Hv' & Hg). simplify_eq/=. by rewrite Hg.
    - destruct (gates v) eqn:Hg; [|done]. exfalso. apply Hd, Hsel. eauto. }
  split_and!; [by rewrite length_fmap| |done|done].
  intros id v Hv. destruct (items_of (sys_db s) !! id) as [w|] eqn:Hw.
  - rewrite (Hall id w Hw) in Hv. simplify_eq. destruct (gates w) eqn:Hg; [|done].
    unfold gates, pending_decision, review_pending. simpl. by rewrite andb_false_r.
  - rewrite Hi, Hw in Hv. by case_decide.
Qed.
