(* ===== verification/RunControls.v ===== *)
(** * Cancel, pause and resume

    Models [cancelRunHandler.ts], [pauseRunHandler.ts] and [resumeRunHandler.ts]
    of [main/src/orchestrator].  Each handler receives its collaborators in a
    dependency bag; the bag is a Record of computations here, and the laws a
    bag is used under are a class, discharged by the wiring the process uses.

    The part of a handler inside the per-run queue and the part outside are
    sequenced as the handler awaits them. *)

From S2P Require Import Prelude RunStateMachine Database Samples Transitions.
From S2P Require Import ReviewItems ApprovalRouter QuestionRouter HumanSteps.

Open Scope js_scope.

Inductive control_result :=
  | success
  | delivered
  | noOp (reason : string).

(** [dep?.(x)] *)
Definition call_opt (f : option (string → sysM unit)) (x : string) : sysM unit :=
  match f with Some g => g x | None => mret tt end.

(** [try { await dep(x) } catch { logger.error }] *)
Definition fail_soft (m : sysM unit) : sysM unit := swallow m.

(** ** Cancel *)

Record CancelRunDeps := mk_cancel_deps {
  cd_stopLiveRun : string → sysM unit;
  cd_clearPendingApprovalsForRun : string → sysM unit;
  cd_clearPendingQuestionsForRun : option (string → sysM unit);
  cd_clearPendingHumanGatesForRun : option (string → sysM unit);
  cd_markBatchTerminal : option (string → sysM unit);
  cd_recomputeTasksForBatch : option (string → sysM unit);
  cd_recomputeTask : option (string → sysM unit);
  cd_deletePendingDraftsForRun : option (string → sysM unit);
  cd_cancelVerificationsForRun : option (string → sysM unit);
  cd_reapPrototypeServers : option (string → sysM unit)
}.

(** The guarded write; [false] when it lost the race to another terminal write. *)
Definition cancel_txn (runId : string) (now : instant) : dbM bool :=
  transaction
    (n <- update_run runId (has_status_in (allowedSourcesFor canceled))
            (λ r, set_status canceled now (set_ended_at now r)) ;;
     if decide (n = 0) then mret false
     else
       update_run runId (λ r, match r.(r_outcome) with None => true | Some _ => false end)
         (λ r, set_status r.(r_status) now (set_outcome (Some "canceled") r)) ;;;
       mret true).

(** [if (id) ...]: a null or empty id is skipped. *)
Definition with_id (id : option string) (f : string → sysM unit) : sysM unit :=
  match id with
  | Some i => if String.eqb i "" then mret tt else f i
  | None => mret tt
  end.

Section Cancel.
Context (deps : CancelRunDeps).

(** Before the write, outside the run's queue. *)
Definition cancel_teardown (runId : string) : sysM unit :=
  deps.(cd_clearPendingApprovalsForRun) runId ;;;
  call_opt deps.(cd_clearPendingQuestionsForRun) runId ;;;
  fail_soft (deps.(cd_stopLiveRun) runId) ;;;
  fail_soft (call_opt deps.(cd_clearPendingHumanGatesForRun) runId) ;;;
  fail_soft (call_opt deps.(cd_cancelVerificationsForRun) runId) ;;;
  fail_soft (call_opt deps.(cd_reapPrototypeServers) runId).

(** After a successful write. *)
Definition cancel_closeout (runId : string) (batchId taskId : option string) : sysM unit :=
  emit (EvCall "rollupRunUsage" runId) ;;;
  with_id batchId (λ b,
    fail_soft (call_opt deps.(cd_markBatchTerminal) b) ;;;
    fail_soft (call_opt deps.(cd_recomputeTasksForBatch) b)) ;;;
  with_id taskId (λ t, fail_soft (call_opt deps.(cd_recomputeTask) t)) ;;;
  fail_soft (call_opt deps.(cd_deletePendingDraftsForRun) runId).

Definition cancelRunHandler (runId : string) (now : instant) : sysM control_result :=
  d <- gets sys_db ;;
  match d.(workflow_runs) !! runId with
  | None => mret (noOp "not_found")
  | Some row =>
      if is_terminal row.(r_status) then mret (noOp "already_terminal")
      else
        cancel_teardown runId ;;;
        changed <- in_db (cancel_txn runId now) ;;
        if changed : bool then
          emit (EvRunStatusChanged runId canceled) ;;;
          cancel_closeout runId row.(r_batch_id) row.(r_task_id) ;;;
          mret success
        else mret (noOp "race")
  end.
End Cancel.

(** ** Pause *)

Record PauseRunDeps := mk_pause_deps {
  pd_stopLiveRun : string → sysM unit;
  pd_abortProgrammaticWalk : option (string → sysM unit);
  pd_clearPendingApprovalsForRun : string → sysM unit;
  pd_clearPendingQuestionsForRun : option (string → sysM unit)
}.

Definition is_programmatic (r : run_row) : bool :=
  bool_decide (r.(r_execution_model) = Some "programmatic").
Definition is_sdk (r : run_row) : bool := bool_decide (r.(r_substrate) = Some "sdk").

Definition PAUSABLE_STATUSES : list run_status := [running; awaiting_review].

Definition pause_txn (runId : string) (now : instant) : dbM nat :=
  transaction
    (assertTransitionAllowedFromAny PAUSABLE_STATUSES paused (Some runId) ;;;
     update_run runId (has_status_in PAUSABLE_STATUSES)
       (set_status paused (current_timestamp now))).

Section Pause.
Context (deps : PauseRunDeps).
(** Whether the invocation store holds a conversation to resume
    ([AgentInvocationStore.getLatestTopLevelResumeTarget]). *)
Context (has_resume_target : db → string → bool).

Definition pause_teardown (runId : string) (row : run_row) : sysM unit :=
  deps.(pd_clearPendingApprovalsForRun) runId ;;;
  call_opt deps.(pd_clearPendingQuestionsForRun) runId ;;;
  (when (is_programmatic row) do call_opt deps.(pd_abortProgrammaticWalk) runId) ;;;
  fail_soft (deps.(pd_stopLiveRun) runId).

Definition pauseRunHandler (runId : string) (now : instant) : sysM control_result :=
  d <- gets sys_db ;;
  match d.(workflow_runs) !! runId with
  | None => mret (noOp "not_found")
  | Some row =>
      if negb (is_sdk row) then mret (noOp "interactive_unsupported")
      else if negb (has_status_in PAUSABLE_STATUSES row) then mret (noOp "not_pausable")
      else if negb (is_programmatic row) && negb (has_resume_target d runId)
      then mret (noOp "no_session")
      else
        pause_teardown runId row ;;;
        n <- in_db (pause_txn runId now) ;;
        if decide (n = 0) then mret (noOp "race")
        else emit (EvRunStatusChanged runId paused) ;;; mret success
  end.
End Pause.

(** ** Resume *)

(** [ResumeRunExecutorLike], and the completed steps the database derives. *)
Record ResumeRunDeps := mk_resume_deps {
  rd_setPendingResume : string → sysM unit;
  rd_setPendingResumeStep : string → string → sysM unit;
  rd_setPendingCompletedSteps : string → list string → sysM unit;
  rd_execute : string → sysM unit;
  rd_completedStepIds : option (db → string → list string)
}.

Definition resume_flip (runId : string) (now : instant) : dbM nat :=
  transaction
    (assertTransitionAllowed paused running (Some runId) ;;;
     update_run runId (has_status paused) (set_status running (current_timestamp now))).

Section Resume.
Context (deps : ResumeRunDeps) (has_resume_target : db → string → bool).

(** Phase 1, in the queue: the guards and the flip. *)
Definition resume_guard (runId : string) (now : instant)
    : sysM (string + (bool * option string)) :=
  d <- gets sys_db ;;
  match d.(workflow_runs) !! runId with
  | None => mret (inl "not_found")
  | Some row =>
      if negb (is_sdk row) then mret (inl "interactive_unsupported")
      else if negb (has_status paused row) then mret (inl "not_paused")
      else if negb (is_programmatic row) && negb (has_resume_target d runId)
      then mret (inl "no_session")
      else
        n <- in_db (resume_flip runId now) ;;
        if decide (n = 0) then mret (inl "race")
        else mret (inr (is_programmatic row, row.(r_current_step_id)))
  end.

(** Phase 2 for a programmatic run: the pointers, then the walk enqueued
    without waiting for it. *)
Definition redrive_programmatic (runId : string) (currentStepId : option string)
    : sysM control_result :=
  with_id currentStepId (deps.(rd_setPendingResumeStep) runId) ;;;
  d <- gets sys_db ;;
  let completed := match deps.(rd_completedStepIds) with Some f => f d runId | None => [] end in
  (when (bool_decide (completed ≠ [])) do deps.(rd_setPendingCompletedSteps) runId completed) ;;;
  emit (EvCall "runQueues.add(execute)" runId) ;;;
  mret delivered.

Definition redrive_orchestrated (runId : string) : sysM control_result :=
  deps.(rd_setPendingResume) runId ;;;
  catch (deps.(rd_execute) runId ;;; mret delivered) (λ _, mret (noOp "execute_failed")).

Definition resumeRunHandler (runId : string) (now : instant) : sysM control_result :=
  g <- resume_guard runId now ;;
  match g with
  | inl reason => mret (noOp reason)
  | inr (isProgrammatic, currentStepId) =>
      emit (EvRunStatusChanged runId running) ;;;
      if isProgrammatic : bool then redrive_programmatic runId currentStepId
      else redrive_orchestrated runId
  end.
End Resume.

(** ** The laws of a bag

    A collaborator may do anything to the state that keeps every run on its
    status machine. *)

Class LegalCollaborator (f : string → sysM unit) : Prop :=
  legal_collaborator x : preserves sys_refine (f x).

Definition legal_opt (f : option (string → sysM unit)) : Prop :=
  match f with Some g => LegalCollaborator g | None => True end.

Class CancelLaws (deps : CancelRunDeps) : Prop := {
  cl_stop : LegalCollaborator deps.(cd_stopLiveRun);
  cl_approvals : LegalCollaborator deps.(cd_clearPendingApprovalsForRun);
  cl_questions : legal_opt deps.(cd_clearPendingQuestionsForRun);
  cl_gates : legal_opt deps.(cd_clearPendingHumanGatesForRun);
  cl_batch : legal_opt deps.(cd_markBatchTerminal);
  cl_lanes : legal_opt deps.(cd_recomputeTasksForBatch);
  cl_task : legal_opt deps.(cd_recomputeTask);
  cl_drafts : legal_opt deps.(cd_deletePendingDraftsForRun);
  cl_verify : legal_opt deps.(cd_cancelVerificationsForRun);
  cl_servers : legal_opt deps.(cd_reapPrototypeServers)
}.

Class PauseLaws (deps : PauseRunDeps) : Prop := {
  pl_stop : LegalCollaborator deps.(pd_stopLiveRun);
  pl_walk : legal_opt deps.(pd_abortProgrammaticWalk);
  pl_approvals : LegalCollaborator deps.(pd_clearPendingApprovalsForRun);
  pl_questions : legal_opt deps.(pd_clearPendingQuestionsForRun)
}.

Class ResumeLaws (deps : ResumeRunDeps) : Prop := {
  rl_resume : LegalCollaborator deps.(rd_setPendingResume);
  rl_step r : LegalCollaborator (deps.(rd_setPendingResumeStep) r);
  rl_steps r l : preserves sys_refine (deps.(rd_setPendingCompletedSteps) r l);
  rl_execute : LegalCollaborator deps.(rd_execute)
}.

(** The three gate collaborators the process wires in discharge the law. *)
#[export] Instance router_clear_legal now : LegalCollaborator (λ r, clearPendingForRun r now).
Proof. intros r. unfold clearPendingForRun. auto with refine. Qed.

#[export] Instance question_clear_legal now :
  LegalCollaborator (λ r, clearPendingQuestions (λ i, i) r false now).
Proof. intros r. auto with refine. Qed.

#[export] Instance human_gates_legal now :
  LegalCollaborator (λ r, _ <- clearPendingGates r now ;; mret tt).
Proof.
  intros r. apply preserves_bind; [typeclasses eauto|auto with refine|].
  intros. apply preserves_ret, _.
Qed.

(** A collaborator that only leaves a trace. *)
Definition traced (name : string) (x : string) : sysM unit := emit (EvCall name x).
#[export] Instance traced_legal name : LegalCollaborator (traced name).
Proof. intros x. apply emit_refines. Qed.

(** The bag with the routers and the gate manager of this development, the
    other collaborators traced. *)
Definition wired_cancel_deps (now : instant) : CancelRunDeps :=
  mk_cancel_deps (traced "stopLiveRun") (λ r, clearPendingForRun r now)
    (Some (λ r, clearPendingQuestions (λ i, i) r false now))
    (Some (λ r, _ <- clearPendingGates r now ;; mret tt))
    (Some (traced "markBatchTerminal")) (Some (traced "recomputeTasksForBatch"))
    (Some (traced "recomputeTask")) (Some (traced "deletePendingDraftsForRun"))
    (Some (traced "cancelVerificationsForRun")) (Some (traced "reapPrototypeServers")).

#[export] Instance wired_cancel_laws now : CancelLaws (wired_cancel_deps now).
Proof. split; simpl; apply _. Qed.

Definition wired_pause_deps (now : instant) : PauseRunDeps :=
  mk_pause_deps (traced "stopLiveRun") (Some (traced "abortProgrammaticWalk"))
    (λ r, clearPendingForRun r now) (Some (λ r, clearPendingQuestions (λ i, i) r false now)).

#[export] Instance wired_pause_laws now : PauseLaws (wired_pause_deps now).
Proof. split; simpl; apply _. Qed.

Definition wired_resume_deps : ResumeRunDeps :=
  mk_resume_deps (traced "setPendingResume") (λ r s, traced ("setPendingResumeStep:" +:+ r) s)
    (λ r l, traced ("setPendingCompletedSteps:" +:+ r) (join "," l)) (traced "execute") None.

#[export] Instance wired_resume_laws : ResumeLaws wired_resume_deps.
Proof. split; simpl; intros; try apply _. apply emit_refines. Qed.

(** ** Every handler stays on legal edges *)

Lemma call_opt_refines f x : legal_opt f → preserves sys_refine (call_opt f x).
Proof. destruct f as [g|]; simpl; [intros H; apply H|intros _; apply preserves_ret, _]. Qed.

Lemma fail_soft_refines m : preserves sys_refine m → preserves sys_refine (fail_soft m).
Proof. apply swallow_refines. Qed.

Lemma with_id_refines id f :
  (∀ x, preserves sys_refine (f x)) → preserves sys_refine (with_id id f).
Proof. intros H. unfold with_id. repeat case_match; try apply H; apply preserves_ret, _. Qed.

Lemma cancel_sources s : status_in (allowedSourcesFor canceled) s = negb (is_terminal s).
Proof. by destruct s. Qed.

Lemma cancel_txn_refines runId now : preserves runs_refine (cancel_txn runId now).
Proof.
  unfold cancel_txn. solve_refine.
Qed.
#[export] Hint Resolve cancel_txn_refines : refine.

Ltac collaborator_step :=
  first [ apply fail_soft_refines | apply with_id_refines; intros ?
        | apply call_opt_refines; apply _ | apply legal_collaborator | refine_step ].

Section CancelLegal.
Context (deps : CancelRunDeps) `{!CancelLaws deps}.

Lemma cancel_teardown_refines runId : preserves sys_refine (cancel_teardown deps runId).
Proof.
  unfold cancel_teardown.
  preserve_with ltac:(first [ apply fail_soft_refines
    | apply call_opt_refines; first [apply cl_questions|apply cl_gates|apply cl_verify|apply cl_servers]
    | apply cl_approvals | apply cl_stop ]); try typeclasses eauto.
Qed.

Lemma cancel_closeout_refines runId b t : preserves sys_refine (cancel_closeout deps runId b t).
Proof.
  unfold cancel_closeout.
  preserve_with ltac:(first [ apply with_id_refines; intros ? | apply fail_soft_refines
    | apply call_opt_refines; first [apply cl_batch|apply cl_lanes|apply cl_task|apply cl_drafts]
    | apply emit_refines ]); try typeclasses eauto.
Qed.

Lemma cancelRunHandler_refines runId now : preserves sys_refine (cancelRunHandler deps runId now).
Proof.
  unfold cancelRunHandler.
  preserve_with ltac:(first [ apply cancel_teardown_refines | apply cancel_closeout_refines
    | refine_step ]); try typeclasses eauto.
Qed.
End CancelLegal.

(** What the guarded write of a cancel does. *)
Definition canceled_row (now : instant) (r : run_row) : run_row :=
  let r' := set_status canceled now (set_ended_at now r) in
  match r.(r_outcome) with
  | None => set_status canceled now (set_outcome (Some "canceled") r')
  | Some _ => r'
  end.

Lemma cancel_txn_eq runId now d :
  cancel_txn runId now d
  = match d.(workflow_runs) !! runId with
    | Some r =>
        if is_terminal r.(r_status) then (Ok false, d)
        else (Ok true, set_runs (<[runId := canceled_row now r]> d.(workflow_runs)) d)
    | None => (Ok false, d)
    end.
Proof.
  unfold cancel_txn, transaction. unfold mbind at 1. case_update_run.
  - rewrite Hr. unfold has_status_in in Hp. rewrite cancel_sources in Hp. apply negb_true_iff in Hp.
    rewrite Hp. unfold mbind, update_run, sql_update_id. simpl. rewrite lookup_insert_eq. simpl.
    unfold canceled_row. destruct (r_outcome r) eqn:Ho; simpl; unfold set_runs; simpl; [done|].
    by rewrite insert_insert_eq.
  - destruct (d.(workflow_runs) !! runId) as [r|]; [|done]. specialize (Hr r eq_refl).
    unfold has_status_in in Hr. rewrite cancel_sources in Hr. apply negb_false_iff in Hr. by rewrite Hr.
Qed.

(** ** Totality of a handler *)

Lemma fail_soft_total m : total (fail_soft m).
Proof. unfold fail_soft, swallow. apply total_catch. intros e. apply total_ret. Qed.

Lemma with_id_total id f : (∀ x, total (f x)) → total (with_id id f).
Proof. intros H. unfold with_id. repeat case_match; try apply H; apply total_ret. Qed.

Lemma emit_total e : total (E:=run_error) (emit e).
Proof. apply total_modify. Qed.

Definition total_opt (f : option (string → sysM unit)) : Prop :=
  match f with Some g => ∀ x, total (g x) | None => True end.

Lemma call_opt_total f x : total_opt f → total (call_opt f x).
Proof. destruct f as [g|]; simpl; [intros H; apply H|intros _; apply total_ret]. Qed.

(** The two collaborators a cancel or a pause calls outside any [try]. *)
Lemma cancel_teardown_total deps runId :
  (∀ x, total (deps.(cd_clearPendingApprovalsForRun) x)) →
  total_opt deps.(cd_clearPendingQuestionsForRun) → total (cancel_teardown deps runId).
Proof.
  intros Ha Hq. unfold cancel_teardown.
  repeat first [ apply fail_soft_total | apply Ha | apply call_opt_total, Hq
               | apply total_bind; [|intros ?] ].
Qed.

Lemma cancel_closeout_total deps runId b t : total (cancel_closeout deps runId b t).
Proof.
  unfold cancel_closeout.
  repeat first [ apply fail_soft_total | apply emit_total | apply with_id_total; intros ?
               | apply total_bind; [|intros ?] ].
Qed.

(** Run a total step of a handler, keeping where it led. *)
Lemma total_step {A B} (m : sysM A) (k : A → sysM B) s :
  total m → preserves sys_refine m →
  ∃ a s', (a <- m ;; k a) s = k a s' ∧ sys_refine s s'.
Proof.
  intros Ht Hp. destruct (Ht s) as (a & s' & Hm). exists a, s'. unfold mbind. rewrite Hm.
  split; [done|]. specialize (Hp s). by rewrite Hm in Hp.
Qed.

(** C33: cancelRunHandler never rejects, whatever its fail-soft collaborators throw: on an
    unknown or an already terminal run it is a no-op that touches nothing, and in every
    other case the run is in a terminal status when it returns, canceled when it reports
    success and otherwise finished first by a concurrent writer (race). *)
Theorem cancel_reaches_terminal deps runId now s :
  CancelLaws deps →
  (∀ x, total (deps.(cd_clearPendingApprovalsForRun) x)) →
  total_opt deps.(cd_clearPendingQuestionsForRun) →
  ∃ res s', cancelRunHandler deps runId now s = (Ok res, s') ∧
    match status_of s.(sys_db) runId with
    | None => res = noOp "not_found" ∧ s' = s
    | Some st =>
        if is_terminal st then res = noOp "already_terminal" ∧ s' = s
        else ∃ st', status_of s'.(sys_db) runId = Some st' ∧ is_terminal st' = true
                    ∧ (res = success ∧ st' = canceled ∨ res = noOp "race")
    end.
Proof.
  intros Hlaws Ha Hq. unfold cancelRunHandler. unfold mbind at 1, gets. unfold status_of at 1.
  destruct (workflow_runs (sys_db s) !! runId) as [row|] eqn:Hr; simpl; [|by eexists _, s].
  destruct (is_terminal (r_status row)) eqn:Ht; [by eexists _, s|].
  destruct (total_step (cancel_teardown deps runId) (λ _,
    changed <- in_db (cancel_txn runId now) ;;
    if changed : bool then
      emit (EvRunStatusChanged runId canceled) ;;;
      cancel_closeout deps runId row.(r_batch_id) row.(r_task_id) ;;; mret success
    else mret (noOp "race")) s) as (u & s1 & Heq & Href);
    [by apply cancel_teardown_total|by apply cancel_teardown_refines|].
  rewrite Heq. clear Heq. assert (status_of (sys_db s) runId = Some (r_status row)) as Hst
    by (unfold status_of; by rewrite Hr).
  destruct (refine_status _ _ _ _ Href Hst) as (st1 & Hst1 & _).
  unfold status_of in Hst1. destruct (workflow_runs (sys_db s1) !! runId) as [r1|] eqn:Hr1; [|done].
  simplify_eq/=. unfold mbind at 1, in_db, zoom. rewrite cancel_txn_eq, Hr1.
  destruct (is_terminal (r_status r1)) eqn:Ht1; simpl.
  { eexists _, _. split; [reflexivity|]. exists (r_status r1). split; [|by auto].
    unfold status_of. simpl. by rewrite Hr1. }
  set (d2 := set_runs _ _). unfold mbind at 1, emit at 1, modify at 1.
  destruct (total_step (cancel_closeout deps runId row.(r_batch_id) row.(r_task_id))
    (λ _, mret success) (add_log (EvRunStatusChanged runId canceled) (set_db d2 s1)))
    as (u2 & s3 & Heq & Href3); [apply cancel_closeout_total|by apply cancel_closeout_refines|].
  rewrite Heq. eexists _, _. split; [reflexivity|]. exists canceled. split; [|by auto].
  eapply refine_terminal; [exact Href3| |done]. unfold status_of, d2. simpl.
  rewrite lookup_insert_eq. simpl. unfold canceled_row. by destruct (r_outcome r1).
Qed.

(** ** Pause *)

Section PauseLegal.
Context (deps : PauseRunDeps) `{!PauseLaws deps} (target : db → string → bool).

Lemma pause_teardown_refines runId row : preserves sys_refine (pause_teardown deps runId row).
Proof.
  unfold pause_teardown.
  preserve_with ltac:(first [ apply fail_soft_refines
    | apply call_opt_refines; first [apply pl_questions|apply pl_walk]
    | apply pl_approvals | apply pl_stop ]); try typeclasses eauto.
Qed.

Lemma pause_txn_refines runId now : preserves runs_refine (pause_txn runId now).
Proof. unfold pause_txn, PAUSABLE_STATUSES. solve_refine. Qed.

Lemma pauseRunHandler_refines runId now :
  preserves sys_refine (pauseRunHandler deps target runId now).
Proof.
  unfold pauseRunHandler.
  preserve_with ltac:(first [ apply pause_teardown_refines
    | apply in_db_refines, pause_txn_refines | refine_step ]); try typeclasses eauto.
Qed.
End PauseLegal.

Lemma pause_txn_eq runId now d :
  pause_txn runId now d
  = match d.(workflow_runs) !! runId with
    | Some r =>
        if has_status_in PAUSABLE_STATUSES r
        then (Ok 1, set_runs (<[runId := set_status paused (current_timestamp now) r]>
                                d.(workflow_runs)) d)
        else (Ok 0, d)
    | None => (Ok 0, d)
    end.
Proof.
  unfold pause_txn, transaction. unfold mbind at 1.
  change (assertTransitionAllowedFromAny PAUSABLE_STATUSES paused (Some runId) d)
    with (Ok (E:=run_error) tt, d).
  cbn beta iota. case_update_run.
  - by rewrite Hr, Hp.
  - destruct (d.(workflow_runs) !! runId) as [r|]; [|done]. by rewrite (Hr r).
Qed.

Lemma pause_teardown_total deps runId row :
  (∀ x, total (deps.(pd_clearPendingApprovalsForRun) x)) →
  total_opt deps.(pd_clearPendingQuestionsForRun) → total_opt deps.(pd_abortProgrammaticWalk) →
  total (pause_teardown deps runId row).
Proof.
  intros Ha Hq Hw. unfold pause_teardown.
  repeat first [ apply fail_soft_total | apply Ha | apply call_opt_total, Hq
               | apply call_opt_total, Hw | apply total_bind; [|intros ?]
               | case_match | apply total_ret ].
Qed.

(** The guards of a pause, in the order the handler tests them. *)
Definition pause_refusal (target : db → string → bool) (d : db) (runId : string) : option string :=
  match d.(workflow_runs) !! runId with
  | None => Some "not_found"
  | Some row =>
      if negb (is_sdk row) then Some "interactive_unsupported"
      else if negb (has_status_in PAUSABLE_STATUSES row) then Some "not_pausable"
      else if negb (is_programmatic row) && negb (target d runId) then Some "no_session"
      else None
  end.

(** pauseRunHandler always returns: a refusal (unknown run, not SDK, not pausable, no
    session) changes nothing; otherwise the run ends up paused from running or
    awaiting_review, or the report is a race and the run had left the pausable statuses. *)
Theorem pause_spec deps target runId now s :
  (∀ x, total (deps.(pd_clearPendingApprovalsForRun) x)) →
  total_opt deps.(pd_clearPendingQuestionsForRun) → total_opt deps.(pd_abortProgrammaticWalk) →
  ∃ res s', pauseRunHandler deps target runId now s = (Ok res, s') ∧
    match pause_refusal target s.(sys_db) runId with
    | Some reason => res = noOp reason ∧ s' = s
    | None =>
        res = success ∧ status_of s'.(sys_db) runId = Some paused
        ∧ (∃ r, s'.(sys_db).(workflow_runs) !! runId = Some (set_status paused (current_timestamp now) r)
                ∧ r.(r_status) ∈ PAUSABLE_STATUSES)
        ∨ res = noOp "race" ∧ (∀ st, status_of s'.(sys_db) runId = Some st → st ∉ PAUSABLE_STATUSES)
    end.
Proof.
  intros Ha Hq Hw. unfold pauseRunHandler, pause_refusal. unfold mbind at 1, gets.
  destruct (workflow_runs (sys_db s) !! runId) as [row|] eqn:Hr; simpl; [|by eexists _, s].
  destruct (negb (is_sdk row)); [by eexists _, s|].
  destruct (negb (has_status_in PAUSABLE_STATUSES row)); [by eexists _, s|].
  destruct (negb (is_programmatic row) && negb (target (sys_db s) runId)); [by eexists _, s|].
  destruct (pause_teardown_total deps runId row Ha Hq Hw s) as ([] & s1 & Hs1).
  unfold mbind at 1. rewrite Hs1. unfold mbind at 1, in_db, zoom. rewrite pause_txn_eq.
  destruct (workflow_runs (sys_db s1) !! runId) as [r1|] eqn:Hr1; simpl.
  2: { eexists _, _. split; [reflexivity|]. right. split; [done|]. unfold status_of. simpl.
       by rewrite Hr1. }
  destruct (has_status_in PAUSABLE_STATUSES r1) eqn:Hp; simpl.
  - eexists _, _. split; [reflexivity|]. left. split; [done|]. unfold status_of. simpl.
    rewrite lookup_insert_eq. split; [done|]. exists r1. split; [done|].
    by apply bool_decide_eq_true in Hp.
  - eexists _, _. split; [reflexivity|]. right. split; [done|]. unfold status_of. simpl.
    rewrite Hr1. intros st [= <-]. by apply bool_decide_eq_false in Hp.
Qed.

(** ** Resume *)

Lemma resume_flip_eq runId now d :
  resume_flip runId now d
  = match d.(workflow_runs) !! runId with
    | Some r =>
        if has_status paused r
        then (Ok 1, set_runs (<[runId := set_status running (current_timestamp now) r]>
                                d.(workflow_runs)) d)
        else (Ok 0, d)
    | None => (Ok 0, d)
    end.
Proof.
  unfold resume_flip, transaction. unfold mbind at 1. rewrite assertTransitionAllowed_ok by done.
  case_update_run.
  - by rewrite Hr, Hp.
  - destruct (d.(workflow_runs) !! runId) as [r|]; [|done]. by rewrite (Hr r).
Qed.

Section ResumeLegal.
Context (deps : ResumeRunDeps) `{!ResumeLaws deps} (target : db → string → bool).

Lemma resume_guard_refines runId now : preserves sys_refine (resume_guard target runId now).
Proof. unfold resume_guard, resume_flip. solve_refine. Qed.

Lemma redrive_programmatic_refines runId step :
  preserves sys_refine (redrive_programmatic deps runId step).
Proof.
  unfold redrive_programmatic.
  preserve_with ltac:(first [ apply with_id_refines; intros ? | apply rl_step | apply rl_steps
                            | apply emit_refines ]); try typeclasses eauto.
Qed.

Lemma redrive_orchestrated_refines runId : preserves sys_refine (redrive_orchestrated deps runId).
Proof.
  unfold redrive_orchestrated.
  preserve_with ltac:(first [ apply rl_resume | apply rl_execute ]); try typeclasses eauto.
Qed.

Lemma resumeRunHandler_refines runId now :
  preserves sys_refine (resumeRunHandler deps target runId now).
Proof.
  unfold resumeRunHandler.
  preserve_with ltac:(first [ apply resume_guard_refines | apply redrive_programmatic_refines
    | apply redrive_orchestrated_refines | apply emit_refines ]); try typeclasses eauto.
Qed.
End ResumeLegal.

Definition resume_refusal (target : db → string → bool) (d : db) (runId : string) : option string :=
  match d.(workflow_runs) !! runId with
  | None => Some "not_found"
  | Some row =>
      if negb (is_sdk row) then Some "interactive_unsupported"
      else if negb (has_status paused row) then Some "not_paused"
      else if negb (is_programmatic row) && negb (target d runId) then Some "no_session"
      else None
  end.

(** The state the re-drive starts from. *)
Definition resumed_sys (runId : string) (now : instant) (row : run_row) (s : sys) : sys :=
  add_log (EvRunStatusChanged runId running)
    (set_db (set_runs (<[runId := set_status running (current_timestamp now) row]>
                         s.(sys_db).(workflow_runs)) s.(sys_db)) s).

(** resumeRunHandler is exactly its contract: a refusal is reported with the state
    untouched, and an accepted resume flips paused to running, announces it and then re-
    drives the run through the programmatic or the orchestrated path. *)
Theorem resume_spec deps target runId now s :
  resumeRunHandler deps target runId now s
  = match resume_refusal target s.(sys_db) runId, s.(sys_db).(workflow_runs) !! runId with
    | None, Some row =>
        (if is_programmatic row then redrive_programmatic deps runId row.(r_current_step_id)
         else redrive_orchestrated deps runId) (resumed_sys runId now row s)
    | Some reason, _ => (Ok (noOp reason), s)
    | None, None => (Ok (noOp "not_found"), s)
    end
  ∧ (∀ row, s.(sys_db).(workflow_runs) !! runId = Some row →
       resume_refusal target s.(sys_db) runId = None →
       status_of s.(sys_db) runId = Some paused
       ∧ status_of (resumed_sys runId now row s).(sys_db) runId = Some running).
Proof.
  split.
  - unfold resumeRunHandler, resume_refusal. unfold mbind at 1, resume_guard, mbind at 1, gets.
    destruct (workflow_runs (sys_db s) !! runId) as [row|] eqn:Hr; simpl; [|done].
    destruct (negb (is_sdk row)); [done|].
    destruct (has_status paused row) eqn:Hp; simpl; [|done].
    destruct (negb (is_programmatic row) && negb (target (sys_db s) runId)); [done|].
    unfold mbind at 1, in_db, zoom. rewrite resume_flip_eq, Hr, Hp. simpl.
    unfold mbind at 1, emit, modify. by destruct (is_programmatic row).
  - intros row Hr Href. unfold resume_refusal in Href. rewrite Hr in Href.
    destruct (negb (is_sdk row)); [done|].
    destruct (has_status paused row) eqn:Hp; simpl in Href; [|done].
    unfold status_of. simpl. rewrite Hr, lookup_insert_eq. simpl.
    apply bool_decide_eq_true in Hp. by rewrite Hp.
Qed.

(** ** Concrete inputs *)

Lemma clearPendingForRun_total r now : total (clearPendingForRun r now).
Proof. unfold clearPendingForRun. apply settlePendingForRun_total. Qed.

Lemma traced_total name x : total (traced name x).
Proof. apply emit_total. Qed.

Lemma cancel_reaches_terminal_witness :
  let s := sample_sys [("r1", awaiting_review)] in
  ∃ res s', cancelRunHandler (wired_cancel_deps 5%Z) "r1" 6%Z s = (Ok res, s')
            ∧ ∃ st, status_of s'.(sys_db) "r1" = Some st ∧ is_terminal st = true.
Proof.
  intros s.
  destruct (cancel_reaches_terminal (wired_cancel_deps 5%Z) "r1" 6%Z s) as (res & s' & Heq & H).
  - apply wired_cancel_laws.
  - intros x. exact (clearPendingForRun_total x 5%Z).
  - intros x. exact (clearPendingQuestions_total (λ i, i) x false 5%Z).
  - exists res, s'. split; [exact Heq|]. simpl in H. destruct H as (st & Hst & Ht & _).
    exists st. split; [exact Hst|exact Ht].
Defined.

Lemma pause_spec_witness :
  let s := sample_sys [("r1", running)] in
  ∃ res s', pauseRunHandler (wired_pause_deps 5%Z) (λ _ _, false) "r1" 6%Z s = (Ok res, s')
            ∧ (res = success ∨ res = noOp "race").
Proof.
  intros s.
  destruct (pause_spec (wired_pause_deps 5%Z) (λ _ _, false) "r1" 6%Z s) as (res & s' & Heq & H).
  - intros x. exact (clearPendingForRun_total x 5%Z).
  - intros x. exact (clearPendingQuestions_total (λ i, i) x false 5%Z).
  - intros x. exact (traced_total _ x).
  - exists res, s'. split; [exact Heq|].
    assert (pause_refusal (λ _ _, false) s.(sys_db) "r1" = None) as Hn by (vm_compute; reflexivity).
    rewrite Hn in H. destruct H as [[H _]|[H _]]; [left|right]; exact H.
Defined.
