(* ===== verification/StuckDetector.v ===== *)
(** * The stuck detector

    Models [main/src/orchestrator/stuckDetector.ts] and
    [isLatestRunTurnCompleted] of [runQueries.ts]: the queries of a scan, the
    rungs of the classification and the two guarded stamps.

    [active] is [claudeManager.hasActiveRunForId], the process registry behind
    the detector's interface.  The order in which SQLite returns the rows of an
    unordered SELECT is the table's order here. *)

From S2P Require Import Prelude RunStateMachine Database Samples.

Open Scope js_scope.

Definition STALE_THRESHOLD_MS : Z := 45 * 60 * 1000.

Inductive StuckReason :=
  | orphan_pty
  | self_deadlock
  | cross_run_deadlock (conflictingRunId : string)
  | parked_no_gate.

Definition reason_kind (r : StuckReason) : string :=
  match r with
  | orphan_pty => "orphan_pty"
  | self_deadlock => "self_deadlock"
  | cross_run_deadlock _ => "cross_run_deadlock"
  | parked_no_gate => "parked_no_gate"
  end.

Definition conflicting_run (r : StuckReason) : option string :=
  match r with cross_run_deadlock c => Some c | _ => None end.

(** ** The queries *)

(** [status = 'pending' AND awaited = 1] *)
Definition awaited_pending (a : approval_row) : bool := approval_pending a && a.(a_awaited).

(** [... AND unixepoch(created_at) < unixepoch(cutoff)] *)
Definition stale (cutoff : instant) (a : approval_row) : bool :=
  awaited_pending a && (unixepoch a.(a_created_at) <? unixepoch cutoff)%Z.

Definition staleApprovals (d : db) (cutoff : instant) : list (string * approval_row) :=
  sql_select (λ _ a, stale cutoff a) d.(approvals).

Definition selfDeadlockCount (d : db) (runId approvalId : string) : nat :=
  sql_count (λ id a, bool_decide (a.(a_run_id) = runId) && awaited_pending a
                     && negb (String.eqb id approvalId)) d.(approvals).

Definition holds_stale (d : db) (cutoff : instant) (runId : string) : bool :=
  (0 <? sql_count (λ _ a, bool_decide (a.(a_run_id) = runId) && stale cutoff a) d.(approvals))%nat.

Definition crossRunDeadlock (d : db) (runId : string) (cutoff : instant) : option string :=
  fst <$> head (sql_select (λ k r, has_status awaiting_review r && negb (String.eqb k runId)
                                   && holds_stale d cutoff k) d.(workflow_runs)).

(** [MAX(unixepoch(created_at))] of a run's events *)
Definition last_event_epoch (d : db) (runId : string) : option Z :=
  foldr (λ e m, if decide (e.(re_run_id) = runId)
                then Some (match m with
                           | Some z => Z.max z (unixepoch e.(re_created_at))
                           | None => unixepoch e.(re_created_at)
                           end)
                else m) None d.(raw_events).

Definition open_question (runId : string) (q : question_row) : bool :=
  bool_decide (q.(q_run_id) = runId) && bool_decide (q.(q_status) = qs_pending).

Definition parked (d : db) (cutoff : instant) (k : string) (r : run_row) : bool :=
  has_status running r
  && (sql_count (λ _ a, bool_decide (a.(a_run_id) = k) && awaited_pending a) d.(approvals) =? 0)%nat
  && (sql_count (λ _ q, open_question k q) d.(questions) =? 0)%nat
  && (default (unixepoch r.(r_created_at)) (last_event_epoch d k) <? unixepoch cutoff)%Z.

Definition parkedNoGateRuns (d : db) (cutoff : instant) : list string :=
  (sql_select (parked d cutoff) d.(workflow_runs)).*1.

Definition TURN_RESULT_EVENT_TYPES : list string := ["result"; "agent_result"].

(** The type of the run's last event ([ORDER BY id DESC LIMIT 1]). *)
Definition last_event_type (d : db) (runId : string) : option string :=
  re_event_type <$> last (filter (λ e, e.(re_run_id) = runId) d.(raw_events)).

Definition isLatestRunTurnCompleted (d : db) (runId : string) : bool :=
  match d.(workflow_runs) !! runId with
  | None => false
  | Some r =>
      if bool_decide (r.(r_execution_model) = Some "programmatic") then false
      else match last_event_type d runId with
           | Some t => if String.eqb t "" then false else bool_decide (t ∈ TURN_RESULT_EVENT_TYPES)
           | None => false
           end
  end.

(** ** A scan *)

Section Scan.
Context (active : string → bool).

Definition classifyStaleApproval (d : db) (approvalId : string) (a : approval_row)
    (cutoff : instant) : option StuckReason :=
  let runId := a.(a_run_id) in
  if negb (active runId) then Some orphan_pty
  else if (0 <? selfDeadlockCount d runId approvalId)%nat then Some self_deadlock
  else match crossRunDeadlock d runId cutoff with
       | Some c => Some (cross_run_deadlock c)
       | None => None
       end.

(** The stamp: [updated_at] is left alone. *)
Definition stamp (reason : StuckReason) (detectedAt : instant) (r : run_row) : run_row :=
  set_stuck (Some (reason_kind reason)) (Some detectedAt) (set_status stuck r.(r_updated_at) r).

Definition transition_from (from : run_status) (runId : string) (approvalId : option string)
    (reason : StuckReason) (detectedAt : instant) : sysM unit :=
  n <- in_db (update_run runId (has_status from) (stamp reason detectedAt)) ;;
  if decide (n = 1) then
    emit (EvRunStuck runId approvalId (reason_kind reason) (conflicting_run reason) detectedAt) ;;;
    emit (EvSeamError "run-stuck-detected" (reason_kind reason)
            [("stuckReason", reason_kind reason)])
  else mret tt.

Definition transitionToStuck (approvalId : string) (a : approval_row) (reason : StuckReason)
    (now : instant) : sysM unit :=
  transition_from awaiting_review a.(a_run_id) (Some approvalId) reason now.

Definition transitionRunningToStuck (runId : string) (reason : StuckReason) (now : instant)
    : sysM unit :=
  transition_from running runId None reason now.

Definition scan_approval (cutoff now : instant) (kv : string * approval_row) : sysM unit :=
  d <- gets sys_db ;;
  match classifyStaleApproval d kv.1 kv.2 cutoff with
  | None => mret tt
  | Some reason => transitionToStuck kv.1 kv.2 reason now
  end.

Definition scan_parked (now : instant) (runId : string) : sysM unit :=
  d <- gets sys_db ;;
  if active runId && negb (isLatestRunTurnCompleted d runId) then mret tt
  else transitionRunningToStuck runId parked_no_gate now.

Definition scan (now : instant) : sysM unit :=
  catch
    (let cutoff := (now - STALE_THRESHOLD_MS)%Z in
     d <- gets sys_db ;;
     mapM_ (scan_approval cutoff now) (staleApprovals d cutoff) ;;;
     d' <- gets sys_db ;;
     mapM_ (scan_parked now) (parkedNoGateRuns d' cutoff))
    (λ _, mret tt).
End Scan.

(** ** Every stamp is a legal edge *)

Lemma transition_from_refines from k a reason now :
  edge from stuck → preserves sys_refine (transition_from from k a reason now).
Proof.
  intros He. unfold transition_from. apply preserves_bind; [typeclasses eauto| |solve_refine].
  apply in_db_refines, update_run_refines. intros r Hr%bool_decide_eq_true.
  split; [by split_and!|]. simpl.
  rewrite Hr. by apply rtc_once.
Qed.

Lemma scan_refines active now : preserves sys_refine (scan active now).
Proof.
  unfold scan, scan_approval, scan_parked, transitionToStuck, transitionRunningToStuck.
  preserve_with ltac:(apply transition_from_refines; by apply edge_spec); try typeclasses eauto.
Qed.
#[export] Hint Resolve scan_refines : refine.

(** ** What a stamp needs

    The facts of the state a scan starts from that justify a reason. *)
Inductive evidence (active : string → bool) (d : db) (cutoff : instant) (k : string)
    : StuckReason → Prop :=
  | ev_orphan r id a :
      d.(workflow_runs) !! k = Some r → r.(r_status) = awaiting_review →
      d.(approvals) !! id = Some a → a.(a_run_id) = k → stale cutoff a = true →
      active k = false → evidence active d cutoff k orphan_pty
  | ev_self r id a id' a' :
      d.(workflow_runs) !! k = Some r → r.(r_status) = awaiting_review →
      d.(approvals) !! id = Some a → a.(a_run_id) = k → stale cutoff a = true →
      d.(approvals) !! id' = Some a' → a'.(a_run_id) = k → awaited_pending a' = true → id' ≠ id →
      evidence active d cutoff k self_deadlock
  | ev_cross r id a c rc id' a' :
      d.(workflow_runs) !! k = Some r → r.(r_status) = awaiting_review →
      d.(approvals) !! id = Some a → a.(a_run_id) = k → stale cutoff a = true →
      c ≠ k → d.(workflow_runs) !! c = Some rc → rc.(r_status) = awaiting_review →
      d.(approvals) !! id' = Some a' → a'.(a_run_id) = c → stale cutoff a' = true →
      evidence active d cutoff k (cross_run_deadlock c)
  | ev_parked r :
      d.(workflow_runs) !! k = Some r → parked d cutoff k r = true →
      active k = false ∨ isLatestRunTurnCompleted d k = true →
      evidence active d cutoff k parked_no_gate.

(** A scan in progress: the tables it reads are the ones it started from, and
    every run is as it was or stamped for a reason. *)
Definition stamped (active : string → bool) (now : instant) (d : db) (k : string) (r r' : run_row)
    : Prop :=
  r' = r ∨ ∃ reason, evidence active d (now - STALE_THRESHOLD_MS)%Z k reason ∧ r' = stamp reason now r.

Record scanning (active : string → bool) (now : instant) (d0 d : db) : Prop := {
  sc_approvals : d.(approvals) = d0.(approvals);
  sc_questions : d.(questions) = d0.(questions);
  sc_events : d.(raw_events) = d0.(raw_events);
  sc_runs k : option_Forall2 (stamped active now d0 k) (d0.(workflow_runs) !! k) (d.(workflow_runs) !! k)
}.

Section ScanSound.
Context (active : string → bool) (now : instant) (d0 : db).
Notation cutoff := (now - STALE_THRESHOLD_MS)%Z.
Notation I := (scanning active now d0).

Lemma scanning_refl : I d0.
Proof.
  split; try done. intros k. destruct (d0.(workflow_runs) !! k); constructor. by left.
Qed.

(** A run not yet stuck is the row the scan started from. *)
Lemma scanning_row d k r' :
  I d → d.(workflow_runs) !! k = Some r' → r'.(r_status) ≠ stuck →
  d0.(workflow_runs) !! k = Some r'.
Proof.
  intros Hi Hk Hst. pose proof (sc_runs _ _ _ _ Hi k) as H. rewrite Hk in H.
  inversion H as [r0 r1 Hs Heq|]; subst. destruct Hs as [->|(reason & _ & ->)]; [done|].
  by simpl in Hst.
Qed.

Lemma scanning_stamp d k from r reason :
  I d → d.(workflow_runs) !! k = Some r → r.(r_status) = from → from ≠ stuck →
  evidence active d0 cutoff k reason →
  I (set_runs (<[k := stamp reason now r]> d.(workflow_runs)) d).
Proof.
  intros Hi Hk Hst Hne Hev. destruct Hi as [Ha Hq He Hr] eqn:Hi'.
  assert (d0.(workflow_runs) !! k = Some r) as Hk0 by (eapply scanning_row; eauto; congruence).
  split; try done. intros j. simpl. destruct (decide (j = k)) as [->|Hj].
  - rewrite Hk0, lookup_insert_eq. constructor. right. eauto.
  - rewrite lookup_insert_ne by done. apply Hr.
Qed.

Lemma transition_from_I from k aid reason s :
  I s.(sys_db) → from ≠ stuck →
  (∀ r, s.(sys_db).(workflow_runs) !! k = Some r → r.(r_status) = from →
     evidence active d0 cutoff k reason) →
  I (transition_from from k aid reason now s).2.(sys_db).
Proof.
  intros Hi Hne Hev. destruct s as [d p l q]. unfold transition_from, mbind at 1, in_db, zoom.
  simpl in *. case_update_run; [|done].
  apply bool_decide_eq_true in Hp. eapply scanning_stamp; eauto.
Qed.

Lemma sql_count_gt0 {R} p (t : gmap string R) :
  (0 <? sql_count p t)%nat = true → ∃ k r, t !! k = Some r ∧ p k r = true.
Proof. intros H%Nat.ltb_lt. apply sql_count_pos. lia. Qed.

Lemma scan_approval_I kv s :
  I s.(sys_db) → kv ∈ staleApprovals d0 cutoff →
  I (scan_approval active cutoff now kv s).2.(sys_db).
Proof.
  destruct kv as [id a]. intros Hi [Ha Hstale]%elem_of_sql_select.
  unfold scan_approval, mbind at 1, gets. simpl.
  unfold classifyStaleApproval. destruct (active (a_run_id a)) eqn:Hact; simpl.
  2: { apply transition_from_I; [done|done|]. intros r Hr Hst. econstructor; eauto.
       eapply scanning_row; eauto. congruence. }
  destruct (0 <? selfDeadlockCount _ _ _)%nat eqn:Hself.
  { apply transition_from_I; [done|done|]. intros r Hr Hst.
    apply sql_count_gt0 in Hself as (id' & a' & Ha' & Hp). rewrite (sc_approvals _ _ _ _ Hi) in Ha'.
    bool_hyps. match goal with H : (_ =? _)%string = false |- _ => apply String.eqb_neq in H end.
    eapply (ev_self _ _ _ _ r id a id' a'); eauto. eapply scanning_row; eauto. congruence. }
  destruct (crossRunDeadlock _ _ _) as [c|] eqn:Hc; [|done].
  apply transition_from_I; [done|done|]. intros r Hr Hst.
  unfold crossRunDeadlock in Hc. destruct (head _) as [[c' rc]|] eqn:Hh; simplify_eq/=.
  assert ((c, rc) ∈ sql_select (λ k r, has_status awaiting_review r && negb (k =? a_run_id a)%string
    && holds_stale (sys_db s) cutoff k) (workflow_runs (sys_db s))) as Hin.
  { destruct (sql_select _ _); simplify_eq/=. by left. }
  apply elem_of_sql_select in Hin as [Hrc Hp]. unfold has_status in Hp. bool_hyps.
  match goal with H : (_ =? _)%string = false |- _ => apply String.eqb_neq in H end.
  match goal with H : holds_stale _ _ _ = true |- _ => apply sql_count_gt0 in H as (id' & a' & Ha' & Hp') end.
  rewrite (sc_approvals _ _ _ _ Hi) in Ha'. bool_hyps.
  eapply (ev_cross _ _ _ _ r id a c rc id' a'); eauto; eapply scanning_row; eauto; congruence.
Qed.

Lemma last_event_same d k : I d → last_event_type d k = last_event_type d0 k.
Proof. intros Hi. unfold last_event_type. by rewrite (sc_events _ _ _ _ Hi). Qed.

(** The parked query sees on an unstamped row what it saw at the start. *)
Lemma parked_same d k r : I d → parked d cutoff k r = parked d0 cutoff k r.
Proof.
  intros Hi. unfold parked, last_event_epoch.
  by rewrite (sc_approvals _ _ _ _ Hi), (sc_questions _ _ _ _ Hi), (sc_events _ _ _ _ Hi).
Qed.

Lemma scan_parked_I k d1 s :
  I d1 → I s.(sys_db) → k ∈ parkedNoGateRuns d1 cutoff →
  I (scan_parked active now k s).2.(sys_db).
Proof.
  intros Hd1 Hi Hin. unfold parkedNoGateRuns in Hin.
  apply list_elem_of_fmap in Hin as ([k' r1] & -> & [Hr1 Hp1]%elem_of_sql_select). simpl in *.
  unfold scan_parked, mbind at 1, gets.
  destruct (active k' && negb (isLatestRunTurnCompleted (sys_db s) k')) eqn:Hg; [done|].
  apply transition_from_I; [done|done|]. intros r Hr Hst.
  assert (d0.(workflow_runs) !! k' = Some r) as Hr0 by (eapply scanning_row; eauto; congruence).
  assert (r1.(r_status) = running) as Hst1.
  { unfold parked, has_status in Hp1. by bool_hyps. }
  assert (d0.(workflow_runs) !! k' = Some r1) as Hr10 by (apply (scanning_row d1); [done|done|congruence]).
  simplify_eq. apply (ev_parked _ _ _ _ r); [done|by rewrite <- (parked_same d1)|].
  apply andb_false_iff in Hg as [Hg|Hg]; [by left|right]. apply negb_false_iff in Hg.
  unfold isLatestRunTurnCompleted in *. rewrite Hr in Hg. rewrite Hr0.
  by rewrite <- (last_event_same (sys_db s)).
Qed.

Lemma mapM_I {A} (f : A → sysM unit) l s :
  (∀ x s, x ∈ l → I s.(sys_db) → I (f x s).2.(sys_db)) →
  I s.(sys_db) → I (mapM_ f l s).2.(sys_db).
Proof.
  revert s. induction l as [|x l IH]; intros s Hf Hs; simpl; [done|]. unfold mbind.
  pose proof (Hf x s ltac:(left) Hs) as Hx. destruct (f x s) as [[?|?] s1]; simpl in *; [|done].
  apply IH; [|done]. intros y s2 Hy. apply Hf. by right.
Qed.

Lemma scan_I p l q : I (scan active now (mk_sys d0 p l q)).2.(sys_db).
Proof.
  unfold scan, catch. set (m := mbind (gets sys_db) _).
  assert (I (m (mk_sys d0 p l q)).2.(sys_db)) as H; [|by destruct (m _) as [[?|?] ?]].
  unfold m, mbind at 1, gets. simpl. unfold mbind at 1.
  pose proof (mapM_I (scan_approval active cutoff now) (staleApprovals d0 cutoff) (mk_sys d0 p l q)) as H1.
  destruct (mapM_ (scan_approval active cutoff now) _ _) as [[u|e] s1]; simpl in *.
  - assert (I s1.(sys_db)) as Hs1 by (apply H1; [intros; by apply scan_approval_I|apply scanning_refl]).
    unfold mbind, gets. apply mapM_I; [|done]. intros k s Hk Hs. by apply (scan_parked_I _ s1.(sys_db)).
  - apply H1; [intros; by apply scan_approval_I|apply scanning_refl].
Qed.
End ScanSound.

(** A scan changes a run's status only with evidence in the database it started from (a
    stale awaited approval of an awaiting run whose process is gone, which has a second
    pending awaited approval, or which sees another run with a stale one; or a running run
    without gate or recent event), and then only stamps stuck with that reason. *)
Theorem scan_sound active now s k :
  let s' := exec (scan active now) s in
  status_of s'.(sys_db) k ≠ status_of s.(sys_db) k →
  ∃ r reason,
    s.(sys_db).(workflow_runs) !! k = Some r
    ∧ evidence active s.(sys_db) (now - STALE_THRESHOLD_MS)%Z k reason
    ∧ s'.(sys_db).(workflow_runs) !! k = Some (stamp reason now r).
Proof.
  destruct s as [d p l q]. simpl. unfold exec. intros Hne.
  pose proof (sc_runs _ _ _ _ (scan_I active now d p l q) k) as H. unfold status_of in Hne.
  simpl in *. inversion H as [r r' Hs Hr Hr'|Hr Hr']; rewrite <- Hr, <- Hr' in Hne; simpl in Hne; [|done].
  destruct Hs as [->|(reason & Hev & ->)]; [done|]. by exists r, reason.
Qed.

(** ** Orphaned gates are always flagged *)

(** No step of a scan brings a run back to [awaiting_review]. *)
Definition leaves_review (k : string) (s s' : sys) : Prop :=
  status_of s.(sys_db) k ≠ Some awaiting_review → status_of s'.(sys_db) k ≠ Some awaiting_review.

#[export] Instance leaves_review_preorder k : PreOrder (leaves_review k).
Proof. split; [by intros s ?|]. intros s1 s2 s3 H12 H23 H. by apply H23, H12. Qed.

Lemma transition_from_leaves k from j aid reason now :
  preserves (leaves_review k) (transition_from from j aid reason now).
Proof.
  intros [d p l q]. unfold leaves_review, transition_from, mbind at 1, in_db, zoom. simpl.
  case_update_run; [|done]. unfold status_of. simpl. intros H.
  destruct (decide (k = j)) as [->|Hne]; [by rewrite lookup_insert_eq|by rewrite lookup_insert_ne].
Qed.

Lemma scan_approval_leaves active c now kv k : preserves (leaves_review k) (scan_approval active c now kv).
Proof.
  unfold scan_approval, transitionToStuck.
  preserve_with ltac:(apply transition_from_leaves); try typeclasses eauto.
Qed.

Lemma scan_parked_leaves active now j k : preserves (leaves_review k) (scan_parked active now j).
Proof.
  unfold scan_parked, transitionRunningToStuck.
  preserve_with ltac:(apply transition_from_leaves); try typeclasses eauto.
Qed.

Lemma scan_approval_total active c now kv : total (scan_approval active c now kv).
Proof.
  intros [d p l q]. unfold scan_approval, mbind at 1, gets. simpl.
  destruct (classifyStaleApproval active d kv.1 kv.2 c); [|by eexists _, _].
  unfold transitionToStuck, transition_from, mbind at 1, in_db, zoom. simpl.
  case_update_run; by eexists _, _.
Qed.

Lemma scan_approval_orphan active c now id a s :
  active a.(a_run_id) = false →
  status_of (scan_approval active c now (id, a) s).2.(sys_db) a.(a_run_id) ≠ Some awaiting_review.
Proof.
  intros Hact. destruct s as [d p l q]. unfold scan_approval, mbind at 1, gets, classifyStaleApproval.
  simpl. rewrite Hact. simpl. unfold transitionToStuck, transition_from, mbind at 1, in_db, zoom. simpl.
  unfold status_of. case_update_run.
  - by rewrite lookup_insert_eq.
  - destruct (d.(workflow_runs) !! a_run_id a) as [r|]; [|done]. simpl.
    specialize (Hr r eq_refl). apply bool_decide_eq_false in Hr. congruence.
Qed.

Lemma mapM_visits {A} (f : A → sysM unit) l x k s :
  (∀ y, preserves (leaves_review k) (f y)) → (∀ y, total (f y)) → x ∈ l →
  (∀ s, status_of (f x s).2.(sys_db) k ≠ Some awaiting_review) →
  status_of (mapM_ f l s).2.(sys_db) k ≠ Some awaiting_review.
Proof.
  intros Hp Ht Hin Hx. revert s. induction l as [|y l IH]; intros s; [by apply not_elem_of_nil in Hin|].
  simpl. unfold mbind. apply elem_of_cons in Hin as [<-|Hin].
  - specialize (Hx s). destruct (Ht x s) as (u & s1 & Hs1). rewrite Hs1 in *. simpl in *.
    by apply (preserves_mapM_ (leaves_review k) f l Hp s1).
  - destruct (Ht y s) as (u & s1 & ->). by apply IH.
Qed.

(** A run awaiting review with a stale awaited pending approval whose process is gone
    is stuck after the next scan. *)
Theorem scan_flags_orphans active now s k r id a :
  s.(sys_db).(workflow_runs) !! k = Some r → r.(r_status) = awaiting_review →
  s.(sys_db).(approvals) !! id = Some a → a.(a_run_id) = k →
  stale (now - STALE_THRESHOLD_MS)%Z a = true → active k = false →
  status_of (exec (scan active now) s).(sys_db) k = Some stuck.
Proof.
  intros Hr Hst Ha Hk Hstale Hact.
  assert (status_of (exec (scan active now) s).(sys_db) k ≠ Some awaiting_review) as Hne.
  { unfold exec, scan, catch. set (m := mbind (gets sys_db) _).
    assert (status_of (m s).2.(sys_db) k ≠ Some awaiting_review) as H; [|by destruct (m s) as [[?|?] ?]].
    unfold m, mbind at 1, gets. unfold mbind at 1.
    pose proof (mapM_visits (scan_approval active (now - STALE_THRESHOLD_MS)%Z now)
      (staleApprovals s.(sys_db) (now - STALE_THRESHOLD_MS)%Z) (id, a) k s) as Hv.
    destruct (total_mapM_ (scan_approval active (now - STALE_THRESHOLD_MS)%Z now)
      (staleApprovals s.(sys_db) (now - STALE_THRESHOLD_MS)%Z)
      (scan_approval_total active _ now) s) as (u & s1 & Hs1).
    rewrite Hs1 in *. simpl in Hv. unfold mbind, gets.
    apply (preserves_mapM_ (leaves_review k)); [intros; apply scan_parked_leaves|].
    apply Hv; [intros; apply scan_approval_leaves|intros; apply scan_approval_total| |].
    - by apply elem_of_sql_select.
    - intros s2. rewrite <- Hk. apply scan_approval_orphan. by rewrite Hk. }
  destruct s as [d p l q]. unfold exec in *.
  pose proof (sc_runs _ _ _ _ (scan_I active now d p l q) k) as H. simpl in *.
  unfold status_of in *. inversion H as [r0 r1 Hs Hr0 Hr1|Hr0 Hr1]; rewrite <- Hr1 in *; [|congruence].
  simpl in *. rewrite Hr in Hr0. simplify_eq. destruct Hs as [->|(reason & _ & ->)]; [congruence|done].
Qed.

(** ** Concrete inputs *)

(** A run waiting for an hour on an approval whose process is gone. *)
Definition sample_orphan : sys :=
  mk_sys (set_approvals {[ "a1" := sample_approval "r1" 0%Z ]} (sample_db [("r1", awaiting_review)])) [] [] [].

Lemma scan_sound_witness :
  ∃ r reason,
    sample_orphan.(sys_db).(workflow_runs) !! "r1" = Some r
    ∧ evidence (λ _, false) sample_orphan.(sys_db) (3600000 - STALE_THRESHOLD_MS)%Z "r1" reason.
Proof.
  destruct (scan_sound (λ _, false) 3600000%Z sample_orphan "r1") as (r & reason & Hr & Hev & _).
  - vm_compute. discriminate.
  - exists r, reason. split; [exact Hr|exact Hev].
Defined.

Lemma scan_flags_orphans_witness :
  status_of (exec (scan (λ _, false) 3600000%Z) sample_orphan).(sys_db) "r1" = Some stuck.
Proof.
  apply (scan_flags_orphans (λ _, false) 3600000%Z sample_orphan "r1" (sample_run awaiting_review) "a1"
    (sample_approval "r1" 0%Z)); reflexivity.
Defined.
