(* ===== verification/PermissionRules.v ===== *)
(** * Permission rules of a tool call

    Models [main/src/orchestrator/permissionRules.ts]: the rule parser, the
    quote-aware splitter of shell commands, the matcher with its two
    quantifiers, the decision [isToolAllowed] and the merge of the settings
    files under the trust of the project.

    The platform's URL parser ([new URL(url).hostname]) is a parameter; the
    settings files are the rule arrays they parse to. *)

From S2P Require Import Prelude JsString Regex.
From Stdlib Require Import Ascii String.

(** ** Rules *)

Record ParsedRule := mk_rule { toolName : string; content : option string }.

Definition open_paren : ascii := "("%char.

Definition parsePermissionRule (rule : string) : option ParsedRule :=
  let trimmed := trim rule in
  if String.eqb trimmed "" then None
  else match indexOf open_paren trimmed with
       | None => Some (mk_rule trimmed None)
       | Some i =>
           if negb (endsWith ")" trimmed) then None
           else
             let name := trim (take_str i trimmed) in
             let c := trim (drop_last 1 (drop_str (i + 1) trimmed)) in
             if String.eqb name "" then None
             else Some (mk_rule name (if String.eqb c "" then None else Some c))
       end.

(** ** Splitting a command *)

Definition is_newline (c : ascii) : bool := Ascii.eqb c nl || Ascii.eqb c cr.
Definition is_quote (c : ascii) : bool := Ascii.eqb c squote || Ascii.eqb c dquote.
Definition semicolon : ascii := ";"%char.
Definition pipe : ascii := "|"%char.
Definition ampersand : ascii := "&"%char.

(** Whether the two-character operator [&&] or [||] starts here. *)
Definition starts_double (c : ascii) (s : string) : bool :=
  match s with
  | String c' _ => Ascii.eqb c c' && (Ascii.eqb c ampersand || Ascii.eqb c pipe)
  | EmptyString => false
  end.

(** The scan: [quote] is the open quote, [cur] the segment so far, [skip] is
    set when the previous character was the first of a double operator. *)
Fixpoint split_scan (quote : option ascii) (cur : string) (skip : bool) (s : string) : list string :=
  match s with
  | EmptyString => [cur]
  | String ch s' =>
      if skip then split_scan quote cur false s'
      else match quote with
           | Some q => split_scan (if Ascii.eqb ch q then None else Some q) (cur +:+ String ch "") false s'
           | None =>
               if is_quote ch then split_scan (Some ch) (cur +:+ String ch "") false s'
               else if starts_double ch s' then cur :: split_scan None "" true s'
               else if Ascii.eqb ch semicolon || Ascii.eqb ch pipe || is_newline ch
               then cur :: split_scan None "" false s'
               else split_scan None (cur +:+ String ch "") false s'
           end
  end.

Definition splitShellSegments (command : string) : list string :=
  filter (λ s, s ≠ "") (trim <$> split_scan None "" false command).

Definition hasCommandSubstitution (segment : string) : bool :=
  includes "$(" segment || includes (String backtick "") segment.

(** ** Matching *)

Definition matchBashSpecifier (content segment : string) : bool :=
  if endsWith ":*" content then
    let prefix := trim (drop_last 2 content) in
    if String.eqb prefix "" then false
    else String.eqb segment prefix || startsWith (prefix +:+ " ") segment
  else String.eqb segment content.

Definition bashCommandAllowed (command : string) (bashContents : list string) : bool :=
  let segments := splitShellSegments command in
  match segments with
  | [] => false
  | _ => forallb (λ segment, if hasCommandSubstitution segment then false
                             else existsb (λ c, matchBashSpecifier c segment) bashContents) segments
  end.

Definition bashCommandSuppressed (command : string) (bashContents : list string) : bool :=
  existsb (λ segment, existsb (λ c, matchBashSpecifier c segment) bashContents)
    (splitShellSegments command).

(** The fields of a tool input the matcher reads, when they are strings. *)
Record tool_input := mk_input { in_command : option string; in_url : option string }.

Inductive match_mode := grant | suppress.

(** [/^domain:(.+)$/.exec(c)] *)
Definition domain_of (c : string) : option string :=
  if startsWith "domain:" c then
    let m := drop_str 7 c in
    if negb (String.eqb m "") && str_forall is_dot m then Some m else None
  else None.

(** ** Settings *)

Record MergedPermissionRules := mk_rules { allow : list string; deny : list string; ask : list string }.

(** The three arrays of one settings file; a missing or malformed file has
    none. *)
Definition settings_file := MergedPermissionRules.
Definition no_settings : settings_file := mk_rules [] [] [].

(** A JavaScript [Set] of strings in insertion order. *)
Definition set_add (x : string) (l : list string) : list string :=
  if decide (x ∈ l) then l else l ++ [x].
Definition set_add_all (xs l : list string) : list string := foldl (λ acc x, set_add x acc) l xs.

Section Match.
Context (hostname : string → option string).

Definition matchesAny (tool : string) (input : tool_input) (rules : list ParsedRule)
    (mode : match_mode) : bool :=
  let forTool := filter (λ r, r.(toolName) = tool) rules in
  if bool_decide (forTool = []) then false
  else if existsb (λ r, match r.(content) with None => true | Some _ => false end) forTool then true
  else if String.eqb tool "Bash" then
    let command := trim (default "" input.(in_command)) in
    if String.eqb command "" then false
    else
      let contents := omap content forTool in
      match mode with
      | suppress => bashCommandSuppressed command contents
      | grant => bashCommandAllowed command contents
      end
  else if String.eqb tool "WebFetch" then
    match hostname (default "" input.(in_url)) with
    | None => false
    | Some host =>
        existsb (λ r, match r.(content) with
                      | None => false
                      | Some c => match domain_of c with
                                  | Some m => String.eqb host m || endsWith ("." +:+ m) host
                                  | None => false
                                  end
                      end) forTool
    end
  else false.

Definition parse_rules (raw : list string) : list ParsedRule := omap parsePermissionRule raw.

Definition isToolAllowed (tool : string) (input : tool_input) (rules : MergedPermissionRules) : bool :=
  if matchesAny tool input (parse_rules rules.(deny)) suppress then false
  else if matchesAny tool input (parse_rules rules.(ask)) suppress then false
  else matchesAny tool input (parse_rules rules.(allow)) grant.
End Match.

(** The resolver's answer: [None] when it throws. *)
Definition project_trusted (env_override : bool) (resolver : option bool) : bool :=
  env_override || default false resolver.

Definition projectSettingsContainAllowRules (projectFiles : list settings_file) : bool :=
  existsb (λ f, negb (bool_decide (f.(allow) = []))) projectFiles.

Definition merge_project_file (trustProject : bool) (acc : MergedPermissionRules)
    (file : settings_file) : MergedPermissionRules :=
  mk_rules
    (if trustProject then set_add_all file.(allow) acc.(allow) else acc.(allow))
    (set_add_all file.(deny) acc.(deny))
    (set_add_all file.(ask) acc.(ask)).

Definition loadMergedPermissionRules (trustProject : bool) (user : settings_file)
    (projectFiles : list settings_file) : MergedPermissionRules :=
  foldl (merge_project_file trustProject)
    (mk_rules (set_add_all user.(allow) []) (set_add_all user.(deny) []) (set_add_all user.(ask) []))
    projectFiles.

(** ** The splitter *)

(** The quote state after a character. *)
Definition next_quote (q : option ascii) (ch : ascii) : option ascii :=
  match q with
  | Some c => if Ascii.eqb ch c then None else Some c
  | None => if is_quote ch then Some ch else None
  end.

Fixpoint quote_after (q : option ascii) (s : string) : option ascii :=
  match s with EmptyString => q | String ch s' => quote_after (next_quote q ch) s' end.

(** A separator outside quotes, scanning from the quote state [q]. *)
Fixpoint unquoted_separator (q : option ascii) (s : string) : bool :=
  match s with
  | EmptyString => false
  | String ch s' =>
      bool_decide (q = None)
      && (starts_double ch s' || Ascii.eqb ch semicolon || Ascii.eqb ch pipe || is_newline ch)
      || unquoted_separator (next_quote q ch) s'
  end.

(** The text ends in an ampersand outside quotes. *)
Fixpoint trailing_amp (q : option ascii) (s : string) : bool :=
  match s with
  | EmptyString => false
  | String ch EmptyString => bool_decide (q = None) && Ascii.eqb ch ampersand
  | String ch s' => trailing_amp (next_quote q ch) s'
  end.

Lemma quote_after_snoc q s c : quote_after q (s +:+ String c "") = next_quote (quote_after q s) c.
Proof. revert q. induction s as [|d s IH]; intros q; [done|]. rewrite str_app_cons. apply IH. Qed.

Lemma trailing_amp_snoc q s c :
  trailing_amp q (s +:+ String c "") = bool_decide (quote_after q s = None) && Ascii.eqb c ampersand.
Proof.
  revert q. induction s as [|d s IH]; intros q; [done|]. rewrite str_app_cons. simpl. rewrite <- IH.
  by destruct s.
Qed.

Definition is_separator (c : ascii) : bool :=
  Ascii.eqb c semicolon || Ascii.eqb c pipe || is_newline c.

(** Appending a character adds a separator only if it is one there, or if it
    completes a double operator. *)
Lemma unquoted_snoc q s c :
  unquoted_separator q s = false →
  (quote_after q s = None → is_separator c = false) →
  (trailing_amp q s = true → c ≠ ampersand) →
  unquoted_separator q (s +:+ String c "") = false.
Proof.
  unfold is_separator. revert q. induction s as [|d s IH]; intros q Hs Hc Hl.
  - simpl in *. destruct q as [x|]; [done|]. rewrite bool_decide_true by done. simpl.
    by rewrite Hc.
  - rewrite str_app_cons. simpl in Hs |- *. apply orb_false_iff in Hs as [Hd Hs].
    rewrite IH; [|done|done|by destruct s]. rewrite orb_false_r.
    destruct q as [x|]; [done|]. rewrite bool_decide_true in * by done. simpl in *.
    repeat (apply orb_false_iff in Hd as [Hd ?]).
    assert (starts_double d (s +:+ String c "") = false) as ->.
    { destruct s as [|e s]; [|done]. simpl. destruct (Ascii.eqb_spec d c) as [->|]; [|done]. simpl.
      apply orb_false_iff. split; [|done]. apply Ascii.eqb_neq. intros ->. by apply Hl. }
    by repeat match goal with H : _ = false |- _ => rewrite H; clear H end.
Qed.

Lemma split_scan_clean q cur skip s :
  unquoted_separator None cur = false → quote_after None cur = q →
  (skip = false → trailing_amp None cur = true → ∀ s', s ≠ String ampersand s') →
  (skip = true → cur = "") →
  Forall (λ seg, unquoted_separator None seg = false) (split_scan q cur skip s).
Proof.
  revert q cur skip. induction s as [|ch s IH]; intros q cur skip Hcur Hq Hamp Hskip; simpl.
  { by repeat constructor. }
  destruct skip.
  { rewrite (Hskip eq_refl) in *. by apply IH. }
  assert (trailing_amp None cur = true → ch ≠ ampersand) as Hamp'.
  { intros Ht ->. by apply (Hamp eq_refl Ht s). }
  destruct q as [x|]; [|destruct (is_quote ch) eqn:Hqu].
  - apply IH; [apply unquoted_snoc; [done|by rewrite Hq|done]| | |done].
    + by rewrite quote_after_snoc, Hq.
    + intros _. by rewrite trailing_amp_snoc, Hq.
  - apply IH; [apply unquoted_snoc; [done| |done]| | |done].
    + intros _. unfold is_separator, is_newline. unfold is_quote in Hqu.
      apply orb_true_iff in Hqu as [->%Ascii.eqb_eq| ->%Ascii.eqb_eq]; done.
    + rewrite quote_after_snoc, Hq. simpl. by rewrite Hqu.
    + intros _. rewrite trailing_amp_snoc. intros [_ ->%Ascii.eqb_eq]%andb_true_iff. done.
  - destruct (starts_double ch s) eqn:Hd; [constructor; [done|by apply IH]|].
    destruct (_ || is_newline ch) eqn:Hsep; [constructor; [done|by apply IH]|].
    apply IH; [apply unquoted_snoc; [done|done|done]| | |done].
    + rewrite quote_after_snoc, Hq. simpl. by rewrite Hqu.
    + intros _. rewrite trailing_amp_snoc. intros [_ ->%Ascii.eqb_eq]%andb_true_iff s' ->.
      by simpl in Hd.
Qed.

(** A text without separators keeps none when white space around it goes. *)
Lemma unquoted_trim_start s :
  unquoted_separator None s = false → unquoted_separator None (trim_start s) = false.
Proof.
  induction s as [|c s IH]; [done|]. intros H. cbn [trim_start].
  destruct (is_ws c) eqn:Hw; [|done]. apply IH. simpl in H. apply orb_false_iff in H as [_ H].
  destruct (is_quote c) eqn:Hq; [|done].
  unfold is_quote in Hq. apply orb_true_iff in Hq as [->%Ascii.eqb_eq| ->%Ascii.eqb_eq]; done.
Qed.

Lemma unquoted_trim_end q s :
  unquoted_separator q s = false → unquoted_separator q (trim_end s) = false.
Proof.
  revert q. induction s as [|c s IH]; intros q H; [done|]. cbn [trim_end].
  simpl in H. apply orb_false_iff in H as [Hc Hs]. specialize (IH _ Hs).
  assert (∀ t, (t = "" ∨ ∃ d t' s', t = String d t' ∧ s = String d s') →
    starts_double c t = true → starts_double c s = true) as Hdbl.
  { intros t [->|(d & t' & s' & -> & ->)]; [done|]. done. }
  assert (∀ t, (t = "" ∨ ∃ d t' s', t = String d t' ∧ s = String d s') →
    unquoted_separator (next_quote q c) t = false →
    unquoted_separator q (String c t) = false) as Hgo.
  { intros t Ht Hu. simpl. rewrite Hu, orb_false_r. destruct (bool_decide (q = None)); [|done].
    simpl in *. repeat (apply orb_false_iff in Hc as [Hc ?]).
    destruct (starts_double c t) eqn:Hd; [apply Hdbl in Hd; [congruence|done]|].
    by repeat match goal with H : _ = false |- _ => rewrite H; clear H end. }
  destruct (trim_end s) as [|d t] eqn:Ht.
  - destruct (is_ws c); [done|]. apply Hgo; [by left|done].
  - apply Hgo; [|done]. right. apply trim_end_head in Ht as [s' ->]. eauto 6.
Qed.

Lemma split_segment_clean command seg :
  seg ∈ splitShellSegments command → unquoted_separator None seg = false.
Proof.
  unfold splitShellSegments. rewrite list_elem_of_filter, list_elem_of_fmap.
  intros [Hne (raw & -> & Hraw)].
  assert (Forall (λ seg, unquoted_separator None seg = false) (split_scan None "" false command)) as H.
  { by apply split_scan_clean. }
  rewrite Forall_forall in H. specialize (H raw Hraw).
  by apply unquoted_trim_end, unquoted_trim_start.
Qed.

(** Every segment splitShellSegments returns is non-empty, trimmed and contains no
    separator (&&, ||, ;, |, newline) outside quotes. *)
Theorem split_no_unquoted_separator command seg :
  seg ∈ splitShellSegments command → unquoted_separator None seg = false ∧ seg ≠ "" ∧ trim seg = seg.
Proof.
  intros Hseg. split; [by apply (split_segment_clean command)|].
  unfold splitShellSegments in Hseg. apply list_elem_of_filter in Hseg as [Hne Hseg].
  apply list_elem_of_fmap in Hseg as (raw & -> & _). split; [done|apply trim_idem].
Qed.

(** ** The matcher *)

Lemma matchBashSpecifier_spec content segment :
  matchBashSpecifier content segment = true ↔
  (endsWith ":*" content = false ∧ segment = content)
  ∨ ∃ prefix, endsWith ":*" content = true ∧ prefix = trim (drop_last 2 content) ∧ prefix ≠ ""
       ∧ (segment = prefix ∨ ∃ rest, segment = prefix +:+ " " +:+ rest).
Proof.
  unfold matchBashSpecifier. destruct (endsWith ":*" content) eqn:He.
  - destruct (String.eqb_spec (trim (drop_last 2 content)) "") as [Hp|Hp].
    + split; [done|]. intros [[? _]|(p & _ & -> & ? & _)]; done.
    + rewrite orb_true_iff, String.eqb_eq, startsWith_spec. setoid_rewrite str_app_assoc. split.
      * intros H. right. eexists. split_and!; [done|done|done|]. destruct H as [->|[t ->]]; [by left|].
        right. by exists t.
      * intros [[? _]|(p & _ & -> & _ & [->|[t ->]])]; [done|by left|]. right. by exists t.
  - rewrite String.eqb_eq. split; [by left|]. intros [[_ ?]|(p & ? & _)]; done.
Qed.

Section Monotone.
Context (hostname : string → option string).

Lemma existsb_mono {A} (f : A → bool) (l l' : list A) :
  l ⊆ l' → existsb f l = true → existsb f l' = true.
Proof.
  intros Hl. rewrite !existsb_exists. setoid_rewrite <- list_elem_of_In.
  intros (x & Hx & Hf). eauto.
Qed.

Lemma existsb_false {A} (f : A → bool) (l : list A) :
  existsb f l = false ↔ ∀ x, x ∈ l → f x = false.
Proof.
  induction l as [|y l IH]; simpl.
  - split; [by intros _ x ?%not_elem_of_nil|done].
  - rewrite orb_false_iff, IH. setoid_rewrite elem_of_cons. naive_solver.
Qed.

Lemma forTool_mono tool (l l' : list ParsedRule) :
  l ⊆ l' → filter (λ r, toolName r = tool) l ⊆ filter (λ r, toolName r = tool) l'.
Proof. intros Hl r. rewrite !list_elem_of_filter. naive_solver. Qed.

Lemma contents_mono (l l' : list ParsedRule) : l ⊆ l' → omap content l ⊆ omap content l'.
Proof. intros Hl c. rewrite !list_elem_of_omap. naive_solver. Qed.

Lemma grant_mono command (l l' : list string) :
  l ⊆ l' → bashCommandAllowed command l = true → bashCommandAllowed command l' = true.
Proof.
  intros Hl. unfold bashCommandAllowed. destruct (splitShellSegments command) as [|x xs]; [done|].
  rewrite !forallb_forall. intros H seg Hseg. specialize (H seg Hseg).
  destruct (hasCommandSubstitution seg); [done|]. by apply (existsb_mono _ l).
Qed.

Lemma suppress_mono command (l l' : list string) :
  l ⊆ l' → bashCommandSuppressed command l = true → bashCommandSuppressed command l' = true.
Proof.
  intros Hl. unfold bashCommandSuppressed. rewrite !existsb_exists.
  intros (seg & Hseg & H). exists seg. split; [done|]. by apply (existsb_mono _ l).
Qed.

(** More rules match at least as much, in either mode. *)
Lemma matchesAny_mono tool input (l l' : list ParsedRule) mode :
  l ⊆ l' → matchesAny hostname tool input l mode = true → matchesAny hostname tool input l' mode = true.
Proof.
  intros Hl. apply (forTool_mono tool) in Hl as Hf. unfold matchesAny.
  destruct (bool_decide (filter (λ r, toolName r = tool) l = [])) eqn:Hn; [done|].
  apply bool_decide_eq_false in Hn. rewrite bool_decide_false.
  2: { intros Hn'. rewrite Hn' in Hf. apply Hn. by apply list_nil_subseteq. }
  destruct (existsb _ (filter _ l)) eqn:Hb.
  { intros _. by rewrite (existsb_mono _ _ _ Hf Hb). }
  destruct (existsb _ (filter (λ r, toolName r = tool) l')); [done|].
  destruct (String.eqb tool "Bash").
  - destruct (String.eqb _ ""); [done|]. apply contents_mono in Hf.
    destruct mode; [by apply grant_mono|by apply suppress_mono].
  - destruct (String.eqb tool "WebFetch"); [|done]. destruct (hostname _); [|done].
    by apply existsb_mono.
Qed.

Lemma parse_mono (l l' : list string) : l ⊆ l' → parse_rules l ⊆ parse_rules l'.
Proof. intros Hl r. unfold parse_rules. rewrite !list_elem_of_omap. naive_solver. Qed.

Lemma isToolAllowed_spec tool input rules :
  isToolAllowed hostname tool input rules = true ↔
  matchesAny hostname tool input (parse_rules rules.(deny)) suppress = false
  ∧ matchesAny hostname tool input (parse_rules rules.(ask)) suppress = false
  ∧ matchesAny hostname tool input (parse_rules rules.(allow)) grant = true.
Proof. unfold isToolAllowed. repeat case_match; naive_solver. Qed.

Lemma isToolAllowed_mono tool input (rules rules' : MergedPermissionRules) :
  rules.(allow) ⊆ rules'.(allow) → rules'.(deny) ⊆ rules.(deny) → rules'.(ask) ⊆ rules.(ask) →
  isToolAllowed hostname tool input rules = true →
  isToolAllowed hostname tool input rules' = true.
Proof.
  intros Ha Hd Hk. rewrite !isToolAllowed_spec. intros (Hnd & Hnk & Hal). split_and!.
  - apply not_true_is_false. intros H. apply (matchesAny_mono _ _ _ _ _ (parse_mono _ _ Hd)) in H. congruence.
  - apply not_true_is_false. intros H. apply (matchesAny_mono _ _ _ _ _ (parse_mono _ _ Hk)) in H. congruence.
  - by apply (matchesAny_mono _ _ _ _ _ (parse_mono _ _ Ha)).
Qed.

(** ** The merge *)

Lemma elem_of_set_add_all xs l x : x ∈ set_add_all xs l ↔ x ∈ l ∨ x ∈ xs.
Proof.
  unfold set_add_all. revert l. induction xs as [|y xs IH]; intros l; simpl.
  - rewrite elem_of_nil. tauto.
  - rewrite IH, elem_of_cons. unfold set_add. case_decide; [naive_solver|].
    rewrite elem_of_app, list_elem_of_singleton. tauto.
Qed.

(** What an untrusted merge holds: the user's grants, everybody's suppressors. *)
Lemma merged_rules trust user files x :
  let m := loadMergedPermissionRules trust user files in
  (x ∈ m.(allow) ↔ x ∈ user.(allow) ∨ trust = true ∧ ∃ f, f ∈ files ∧ x ∈ f.(allow))
  ∧ (x ∈ m.(deny) ↔ x ∈ user.(deny) ∨ ∃ f, f ∈ files ∧ x ∈ f.(deny))
  ∧ (x ∈ m.(ask) ↔ x ∈ user.(ask) ∨ ∃ f, f ∈ files ∧ x ∈ f.(ask)).
Proof.
  unfold loadMergedPermissionRules.
  assert (∀ acc, let m := foldl (merge_project_file trust) acc files in
    (x ∈ m.(allow) ↔ x ∈ acc.(allow) ∨ trust = true ∧ ∃ f, f ∈ files ∧ x ∈ f.(allow))
    ∧ (x ∈ m.(deny) ↔ x ∈ acc.(deny) ∨ ∃ f, f ∈ files ∧ x ∈ f.(deny))
    ∧ (x ∈ m.(ask) ↔ x ∈ acc.(ask) ∨ ∃ f, f ∈ files ∧ x ∈ f.(ask))) as H.
  { induction files as [|f files IH]; intros acc; simpl.
    - repeat setoid_rewrite elem_of_nil. naive_solver.
    - destruct (IH (merge_project_file trust acc f)) as (-> & -> & ->). simpl.
      repeat setoid_rewrite elem_of_cons. repeat setoid_rewrite elem_of_set_add_all.
      destruct trust; [repeat setoid_rewrite elem_of_set_add_all|]; naive_solver. }
  destruct (H (mk_rules (set_add_all (allow user) []) (set_add_all (deny user) [])
    (set_add_all (ask user) []))) as (-> & -> & ->). simpl.
  repeat setoid_rewrite elem_of_set_add_all. setoid_rewrite elem_of_nil. naive_solver.
Qed.

(** Settings checked in by an untrusted project can only narrow permissions: every tool
    call granted with them is granted by the user's own settings alone. *)
Theorem untrusted_project_only_narrows tool input user files env :
  isToolAllowed hostname tool input
    (loadMergedPermissionRules (project_trusted false env) user files) = true →
  env ≠ Some true →
  isToolAllowed hostname tool input (loadMergedPermissionRules false user []) = true.
Proof.
  intros H He.
  assert (project_trusted false env = false) as Hf by (destruct env as [[]|]; naive_solver).
  rewrite Hf in H. revert H.
  apply isToolAllowed_mono; intros x;
    destruct (merged_rules false user files x) as (Ha & Hd & Hk);
    destruct (merged_rules false user [] x) as (Ha' & Hd' & Hk').
  - rewrite Ha, Ha'. intros [?|[? _]]; [by left|done].
  - rewrite Hd, Hd'. intros [?|(f & Hn%not_elem_of_nil & _)]; [by left|done].
  - rewrite Hk, Hk'. intros [?|(f & Hn%not_elem_of_nil & _)]; [by left|done].
Qed.

(** C37: A Bash command is granted only if no deny or ask rule of Bash is bare or matches
    one of its shell segments, and either a bare Bash rule allows everything or the command
    has segments and each of them is free of command substitution and matched by some Bash
    allow specifier. *)
Theorem bash_grant_covers_every_segment input rules :
  isToolAllowed hostname "Bash" input rules = true →
  let segments := splitShellSegments (trim (default "" input.(in_command))) in
  (∀ raw r, raw ∈ rules.(deny) ++ rules.(ask) → parsePermissionRule raw = Some r →
     r.(toolName) = "Bash" →
     ∃ c, r.(content) = Some c
          ∧ ∀ seg, seg ∈ segments → matchBashSpecifier c seg = false)
  ∧ ((∃ raw, raw ∈ rules.(allow) ∧ parsePermissionRule raw = Some (mk_rule "Bash" None))
     ∨ segments ≠ []
       ∧ ∀ seg, seg ∈ segments →
           hasCommandSubstitution seg = false
           ∧ ∃ raw c, raw ∈ rules.(allow) ∧ parsePermissionRule raw = Some (mk_rule "Bash" (Some c))
                      ∧ matchBashSpecifier c seg = true).
Proof.
  rewrite isToolAllowed_spec. intros (Hd & Hk & Ha). intros segments. split.
  - intros raw r Hraw Hr Htool.
    assert (∃ l, matchesAny hostname "Bash" input (parse_rules l) suppress = false ∧ raw ∈ l) as (l & Hl & Hin).
    { apply elem_of_app in Hraw as [?|?]; eauto. }
    assert (r ∈ filter (λ r, toolName r = "Bash") (parse_rules l)) as Hf.
    { apply list_elem_of_filter. split; [done|]. apply list_elem_of_omap. eauto. }
    unfold matchesAny in Hl. rewrite bool_decide_false in Hl.
    2: { intros Hn. rewrite Hn in Hf. by apply not_elem_of_nil in Hf. }
    destruct (existsb _ (filter _ _)) eqn:Hb; [done|].
    rewrite existsb_false in Hb. pose proof (Hb r Hf) as Hc.
    destruct (content r) as [c|] eqn:Hrc; [|done]. exists c. split; [done|]. simpl in Hl.
    intros seg Hseg. fold segments in Hl.
    destruct (String.eqb_spec (trim (default "" (in_command input))) "") as [He|He].
    { unfold segments in Hseg. rewrite He in Hseg. by apply not_elem_of_nil in Hseg. }
    unfold bashCommandSuppressed in Hl. rewrite existsb_false in Hl. specialize (Hl seg Hseg).
    simpl in Hl. rewrite existsb_false in Hl. apply Hl. apply list_elem_of_omap. eauto.
  - unfold matchesAny in Ha.
    destruct (bool_decide (filter _ _ = [])) eqn:Hn; [done|]. clear Hn.
    destruct (existsb _ (filter _ _)) eqn:Hb.
    + left. apply existsb_exists in Hb as (r & Hr & Hc). apply list_elem_of_In in Hr.
      apply list_elem_of_filter in Hr as [Ht Hr]. apply list_elem_of_omap in Hr as (raw & Hraw & Hp).
      exists raw. split; [done|]. destruct r as [t [c|]]; simpl in *; [done|]. by subst.
    + right. simpl in Ha. destruct (String.eqb _ ""); [done|].
      unfold bashCommandAllowed in Ha. fold segments in Ha.
      destruct segments as [|x xs] eqn:Hs; [done|]. split; [done|]. intros seg Hseg.
      rewrite forallb_forall in Ha. specialize (Ha seg (proj1 (list_elem_of_In _ _) Hseg)).
      destruct (hasCommandSubstitution seg); [done|]. split; [done|].
      apply existsb_exists in Ha as (c & Hc & Hm). apply list_elem_of_In in Hc.
      apply list_elem_of_omap in Hc as (r & Hr & Hrc).
      apply list_elem_of_filter in Hr as [Ht Hr]. apply list_elem_of_omap in Hr as (raw & Hraw & Hp).
      exists raw, c. split_and!; [done| |done]. destruct r; simpl in *; by subst.
Qed.
End Monotone.

(** ** Where the splitter and the shell disagree *)

(** A single [&] separates commands for the shell and not for the splitter: a
    denied command placed after it is granted by a rule for the command before
    it. *)
Lemma background_operator_not_split hostname :
  splitShellSegments "git status & rm -rf ~" = ["git status & rm -rf ~"]
  ∧ isToolAllowed hostname "Bash" (mk_input (Some "git status & rm -rf ~") None)
      (mk_rules ["Bash(git status:*)"] ["Bash(rm:*)"] []) = true.
Proof. done. Qed.

(** An escaped quote opens a quotation for the splitter and not for the shell. *)
Definition escaped_quote_command : string :=
  "git log \" +:+ String dquote " ; rm -rf ~".

Lemma escaped_quote_hides_separator hostname :
  splitShellSegments escaped_quote_command = [escaped_quote_command]
  ∧ isToolAllowed hostname "Bash" (mk_input (Some escaped_quote_command) None)
      (mk_rules ["Bash(git log:*)"] ["Bash(rm:*)"] []) = true.
Proof. done. Qed.

(** ** Concrete inputs *)

(** A repository that grants itself every shell command. *)
Definition hostile_settings : settings_file := mk_rules ["Bash"] [] [].
Definition user_settings : settings_file := mk_rules ["Bash(git status:*)"; "Bash(ls)"] [] [].

Lemma untrusted_project_only_narrows_witness :
  isToolAllowed (λ _, None) "Bash" (mk_input (Some "git status && ls") None)
    (loadMergedPermissionRules false user_settings []) = true.
Proof.
  apply (untrusted_project_only_narrows (λ _, None) "Bash" (mk_input (Some "git status && ls") None)
    user_settings [hostile_settings] None); [vm_compute; reflexivity|discriminate].
Defined.

Lemma bash_grant_covers_every_segment_witness :
  splitShellSegments "git status && ls" = ["git status"; "ls"]
  ∧ hasCommandSubstitution "ls" = false.
Proof.
  split; [reflexivity|].
  destruct (bash_grant_covers_every_segment (λ _, None) (mk_input (Some "git status && ls") None)
    user_settings) as [_ [(raw & Hraw & Hp)|[_ H]]].
  - vm_compute. reflexivity.
  - reflexivity.
  - apply (H "ls"). vm_compute. right. left.
Defined.

Lemma split_no_unquoted_separator_witness :
  unquoted_separator None "ls -la" = false.
Proof.
  apply (split_no_unquoted_separator "git status ; ls -la"). vm_compute. right. left.
Defined.
