(* ===== verification/SafeCommands.v ===== *)
(** * The read-only command classifier

    Models [main/src/orchestrator/safeCommandClassifier.ts]: which tool calls
    the [acceptEdits] mode approves without asking. *)

From S2P Require Import Prelude JsString PermissionRules.
From Stdlib Require Import Ascii String.

Definition ACCEPT_EDITS_SAFE_READONLY_TOOLS : list string :=
  ["Read"; "Glob"; "Grep"; "LS"; "NotebookRead"; "TodoWrite"].

Definition ALWAYS_READONLY_GIT_SUBCOMMANDS : list string :=
  ["status"; "diff"; "log"; "show"; "blame"; "shortlog"; "reflog"; "rev-parse"; "rev-list";
   "describe"; "ls-files"; "ls-tree"; "cat-file"; "grep"; "show-branch"; "whatchanged"; "name-rev";
   "merge-base"; "count-objects"; "verify-commit"; "verify-tag"; "var"].

Definition MUTATING_BRANCH_FLAGS : list string :=
  ["-d"; "-D"; "-m"; "-M"; "-c"; "-C"; "--delete"; "--move"; "--copy"; "--force";
   "--edit-description"; "--set-upstream-to"; "-u"; "--unset-upstream"].

Definition SAFE_READONLY_SHELL_PROGRAMS : list string :=
  ["ls"; "pwd"; "cat"; "head"; "tail"; "wc"; "echo"; "printf"; "which"; "whoami"; "id"; "date";
   "hostname"; "uname"; "basename"; "dirname"; "realpath"; "readlink"; "tree"; "stat"; "file"; "du";
   "df"; "grep"; "egrep"; "fgrep"; "rg"; "ag"; "sort"; "uniq"; "cut"; "column"; "nl"; "diff"; "cmp";
   "comm"].

Definition mem (x : string) (l : list string) : bool := bool_decide (x ∈ l).

Definition tokenize (segment : string) : list string := split_ws (trim segment).

Definition flagName (token : string) : string :=
  match indexOf "="%char token with None => token | Some eq => take_str eq token end.

Definition is_flag (t : string) : bool := startsWith "-" t.

(** [l.length > 0 && allowed.includes(l[0])] *)
Definition first_in (allowed l : list string) : bool :=
  match l with [] => false | x :: _ => mem x allowed end.

Definition isSafeReadOnlyGitInvocation (args : list string) : bool :=
  match args with
  | [] => false
  | sub :: subArgs =>
      if is_flag sub then false
      else if mem sub ALWAYS_READONLY_GIT_SUBCOMMANDS then true
      else if String.eqb sub "branch" then
        forallb is_flag subArgs
        && negb (existsb (λ t, mem (flagName t) MUTATING_BRANCH_FLAGS) subArgs)
      else if String.eqb sub "tag" then forallb is_flag subArgs
      else if String.eqb sub "remote" then
        bool_decide (subArgs = []) || first_in ["-v"; "--verbose"; "show"; "get-url"] subArgs
      else if String.eqb sub "config" then
        first_in ["--get"; "--get-all"; "--get-regexp"; "--list"; "-l"] subArgs
      else if String.eqb sub "stash" then first_in ["list"; "show"] subArgs
      else false
  end.

(** [/[<>&]/.test(segment)] *)
Definition is_redirection (c : ascii) : bool :=
  Ascii.eqb c "<" || Ascii.eqb c ">" || Ascii.eqb c ampersand.

Definition isSafeReadOnlySegment (segment : string) : bool :=
  if hasCommandSubstitution segment then false
  else if str_exists is_redirection segment then false
  else match tokenize segment with
       | [] => false
       | program :: args =>
           if String.eqb program "git" then isSafeReadOnlyGitInvocation args
           else mem program SAFE_READONLY_SHELL_PROGRAMS
       end.

Definition isSafeReadOnlyBashCommand (rawCommand : string) : bool :=
  let command := trim rawCommand in
  if String.eqb command "" then false
  else if str_exists is_newline command then false
  else match splitShellSegments command with
       | [] => false
       | segments => forallb isSafeReadOnlySegment segments
       end.

Definition isSafeReadOnlyToolCall (toolName : string) (toolInput : tool_input) : bool :=
  if mem toolName ACCEPT_EDITS_SAFE_READONLY_TOOLS then true
  else if String.eqb toolName "Bash" then
    match toolInput.(in_command) with
    | Some command => isSafeReadOnlyBashCommand command
    | None => false
    end
  else false.

(** ** What an approval without a prompt guarantees *)

(** A command word and its arguments the classifier stands for. *)
Inductive read_only_words : list string → Prop :=
  | ro_program p args :
      p ∈ SAFE_READONLY_SHELL_PROGRAMS → read_only_words (p :: args)
  | ro_git sub args :
      sub ∈ ALWAYS_READONLY_GIT_SUBCOMMANDS → read_only_words ("git" :: sub :: args)
  | ro_branch args :
      Forall (λ t, is_flag t = true ∧ flagName t ∉ MUTATING_BRANCH_FLAGS) args →
      read_only_words ("git" :: "branch" :: args)
  | ro_tag args : Forall (λ t, is_flag t = true) args → read_only_words ("git" :: "tag" :: args)
  | ro_remote : read_only_words ["git"; "remote"]
  | ro_remote_read v args :
      v ∈ ["-v"; "--verbose"; "show"; "get-url"] → read_only_words ("git" :: "remote" :: v :: args)
  | ro_config v args :
      v ∈ ["--get"; "--get-all"; "--get-regexp"; "--list"; "-l"] →
      read_only_words ("git" :: "config" :: v :: args)
  | ro_stash v args : v ∈ ["list"; "show"] → read_only_words ("git" :: "stash" :: v :: args).

Lemma mem_true x l : mem x l = true ↔ x ∈ l.
Proof. apply bool_decide_eq_true. Qed.

Lemma first_in_true allowed l : first_in allowed l = true ↔ ∃ v args, l = v :: args ∧ v ∈ allowed.
Proof.
  destruct l as [|v args]; simpl; [split; [done|by intros (? & ? & ? & _)]|].
  rewrite mem_true. split; [eauto|by intros (? & ? & [= -> ->] & ?)].
Qed.

Lemma forallb_Forall' {A} (f : A → bool) l : forallb f l = true → Forall (λ x, f x = true) l.
Proof. rewrite forallb_forall, Forall_forall. setoid_rewrite list_elem_of_In. done. Qed.

Lemma git_words args : isSafeReadOnlyGitInvocation args = true → read_only_words ("git" :: args).
Proof.
  unfold isSafeReadOnlyGitInvocation. destruct args as [|sub subArgs]; [done|].
  destruct (is_flag sub); [done|].
  destruct (mem sub ALWAYS_READONLY_GIT_SUBCOMMANDS) eqn:Hm.
  { intros _. by apply ro_git, mem_true. }
  destruct (String.eqb_spec sub "branch") as [->|_].
  { intros [Hf Hx]%andb_true_iff. apply negb_true_iff in Hx. apply ro_branch.
    apply forallb_Forall' in Hf. apply Forall_forall. intros t Ht.
    rewrite Forall_forall in Hf. split; [by apply Hf|]. intros Hin.
    rewrite existsb_false in Hx. specialize (Hx t Ht). simpl in Hx.
    apply mem_true in Hin. congruence. }
  destruct (String.eqb_spec sub "tag") as [->|_].
  { intros Hf. by apply ro_tag, forallb_Forall'. }
  destruct (String.eqb_spec sub "remote") as [->|_].
  { intros H. destruct subArgs as [|v a]; [exact ro_remote|]. simpl in H.
    by apply ro_remote_read, mem_true. }
  destruct (String.eqb_spec sub "config") as [->|_].
  { intros (v & a & -> & ?)%first_in_true. by apply ro_config. }
  destruct (String.eqb_spec sub "stash") as [->|_]; [|done].
  intros (v & a & -> & ?)%first_in_true. by apply ro_stash.
Qed.

Lemma str_exists_false p s : str_exists p s = false ↔ str_forall (λ c, negb (p c)) s = true.
Proof. unfold str_exists. by rewrite negb_false_iff. Qed.

(** C38: A command the classifier auto-approves has no newline, has at least one segment,
    and every segment is free of substitution, redirection, background and unquoted
    separators and has the words of a listed read-only program or of a git invocation in
    read form. *)
Theorem safe_command_sound rawCommand :
  isSafeReadOnlyBashCommand rawCommand = true →
  str_forall (λ c, negb (is_newline c)) (trim rawCommand) = true
  ∧ splitShellSegments (trim rawCommand) ≠ []
  ∧ ∀ seg, seg ∈ splitShellSegments (trim rawCommand) →
      hasCommandSubstitution seg = false
      ∧ str_forall (λ c, negb (is_redirection c)) seg = true
      ∧ unquoted_separator None seg = false
      ∧ read_only_words (tokenize seg).
Proof.
  unfold isSafeReadOnlyBashCommand. destruct (String.eqb (trim rawCommand) ""); [done|].
  destruct (str_exists is_newline (trim rawCommand)) eqn:Hnl; [done|].
  apply str_exists_false in Hnl.
  destruct (splitShellSegments (trim rawCommand)) as [|x xs] eqn:Hs; [done|].
  intros H. split; [done|]. split; [done|]. intros seg Hseg.
  assert (seg ∈ splitShellSegments (trim rawCommand)) as Hin by (by rewrite Hs).
  rewrite forallb_forall in H. specialize (H seg (proj1 (list_elem_of_In _ _) Hseg)).
  unfold isSafeReadOnlySegment in H. destruct (hasCommandSubstitution seg); [done|].
  destruct (str_exists is_redirection seg) eqn:Hr; [done|]. apply str_exists_false in Hr.
  split_and!; [done|done|by apply (split_segment_clean (trim rawCommand))|].
  destruct (tokenize seg) as [|program args]; [done|].
  destruct (String.eqb_spec program "git") as [->|_]; [by apply git_words|].
  by apply ro_program, mem_true.
Qed.

(** ** Where a read-only word writes *)

(** [sort -o] writes its output file. *)
Lemma sort_output_is_approved : isSafeReadOnlyBashCommand "sort -o package.json /dev/null" = true.
Proof. done. Qed.

(** [git grep -O] runs the program it names. *)
Lemma git_grep_pager_is_approved : isSafeReadOnlyBashCommand "git grep -Osh x" = true.
Proof. done. Qed.

(** An escaped quote hides the separator before a command that is not read-only. *)
Lemma escaped_quote_is_approved :
  isSafeReadOnlyBashCommand ("echo \" +:+ String dquote " ; rm -rf ~") = true.
Proof. done. Qed.

(** ** Concrete inputs *)

Lemma safe_command_sound_witness : read_only_words (tokenize "git log --oneline").
Proof.
  destruct (safe_command_sound "ls -la | wc ; git log --oneline") as (_ & _ & H).
  - vm_compute. reflexivity.
  - apply (H "git log --oneline"). vm_compute. right. right. left.
Defined.
