(* ===== verification/Lifecycle.v ===== *)
(** * The lifecycle of a run across the whole process

    One step relation over every modelled operation that can write
    [workflow_runs], in any interleaving, and what its reachable states have in
    common.  The abstract specification is the status machine of
    [RunStateMachine]; the simulation is [row_refine] of [Database]. *)

From S2P Require Import Prelude RunStateMachine Database Samples Transitions.
From S2P Require Import ReviewItems ApprovalRouter QuestionRouter HumanSteps RunControls StuckDetector.

Open Scope js_scope.

(** One operation of the process, run to its end from the state [s]. *)
Inductive step : sys → sys → Prop :=
  | step_to_running r now s : step s (exec (in_db (transitionToRunning r now)) s)
  | step_to_completed r from now s : step s (exec (transitionToCompleted r from now) s)
  | step_rest r now s : step s (exec (in_db (transitionRunningToAwaitingReview r now)) s)
  | step_to_failed r from m now s : step s (exec (transitionToFailed r from m now) s)
  | step_to_canceled r now s : step s (exec (transitionToCanceled r now) s)
  | step_to_paused r now s : step s (exec (in_db (transitionToPaused r now)) s)
  | step_from_paused r now s : step s (exec (in_db (transitionPausedToRunning r now)) s)
  | step_from_review r a dec who now s :
      step s (exec (in_db (transitionFromAwaitingReview r a dec who now)) s)
  | step_request f req src cb now s : step s (exec (request_attempt f req src cb now) s)
  | step_respond a dec now s : step s (exec (respond a dec now) s)
  | step_clear_approvals r now s : step s (exec (clearPendingForRun r now) s)
  | step_abandon r now s : step s (exec (abandonPendingForRun r now) s)
  | step_orphan r now s : step s (exec (orphanPendingForRun r now) s)
  | step_awaited a b now s : step s (exec (setAwaited a b now) s)
  | step_clear_source r src now s : step s (exec (clearPendingForSource r src now) s)
  | step_recover now s : step s (exec (recoverStaleAwaitingReview now) s)
  | step_ask i f r t qs now s : step s (exec (requestQuestion i f r t qs now) s)
  | step_answer deps i a now now' s :
      PlanGateLaws deps → step s (exec (respondQuestion deps i a now now') s)
  | step_answer_task deps i a now now' s :
      PlanGateLaws deps → step s (exec (answer_task deps i a now now') s)
  | step_clear_questions f r b now s : step s (exec (clearPendingQuestions f r b now) s)
  | step_recover_questions target f now s :
      step s (exec (recoverStaleAwaitingInput target f now) s)
  | step_open_gate f r st sn h si x now s : step s (exec (openHumanGate f r st sn h si x now) s)
  | step_resolve_gate r i w res now s : step s (exec (resolveHumanGate r i w res now) s)
  | step_park r now s : step s (exec (parkForBlockingReview r now) s)
  | step_resume_gate r now s : step s (exec (maybeResumeRun r now) s)
  | step_clear_gates r now s : step s (exec (clearPendingGates r now) s)
  | step_cancel deps r now s : CancelLaws deps → step s (exec (cancelRunHandler deps r now) s)
  | step_pause deps target r now s :
      PauseLaws deps → step s (exec (pauseRunHandler deps target r now) s)
  | step_resume deps target r now s :
      ResumeLaws deps → step s (exec (resumeRunHandler deps target r now) s)
  | step_scan active now s : step s (exec (scan active now) s)
  | step_fold c s : step s (exec (in_db (run_command c)) s)
  | step_revive r now s : step s (exec (in_db (reviveQuickRunToRunning r now)) s).

(** ** The simulation *)

(** A run of the quick-session sentinel workflow. *)
Definition quick_run (d : db) (r : run_row) : bool :=
  bool_decide (d.(workflows) !! r.(r_workflow_id) = Some QUICK_WORKFLOW_NAME).

(** Every run keeps its identity; a run of any other workflow also stays on
    the status machine. *)
Definition life_refine (s s' : sys) : Prop :=
  s'.(sys_db).(workflows) = s.(sys_db).(workflows)
  ∧ ∀ k, option_Forall2 (λ r r', same_identity r r'
       ∧ (quick_run s.(sys_db) r = false → rtc edge r.(r_status) r'.(r_status)))
     (s.(sys_db).(workflow_runs) !! k) (s'.(sys_db).(workflow_runs) !! k).

Lemma same_identity_trans r1 r2 r3 : same_identity r1 r2 → same_identity r2 r3 → same_identity r1 r3.
Proof. intros (?&?&?&?) (?&?&?&?). split_and!; congruence. Qed.

#[export] Instance life_refine_preorder : PreOrder life_refine.
Proof.
  split.
  - intros s. split; [done|]. intros k. destruct (workflow_runs _ !! k); by constructor.
  - intros s1 s2 s3 [Hw12 H12] [Hw23 H23]. split; [congruence|]. intros k.
    specialize (H12 k). specialize (H23 k).
    inversion H12 as [r1 r2 [Hi12 He12] Hr1 Hr2|]; inversion H23 as [r2' r3 [Hi23 He23] Hr2' Hr3|];
      simplify_eq; try congruence; constructor.
    assert (r2' = r2) as -> by congruence.
    split; [by eapply same_identity_trans|]. intros Hq. etrans; [by apply He12|apply He23].
    unfold quick_run in *. rewrite Hw12. destruct Hi12 as (_ & -> & _). done.
Qed.

Lemma refine_life s s' : sys_refine s s' → life_refine s s'.
Proof.
  intros [Hw H]. split; [done|]. intros k. specialize (H k).
  inversion H as [r r' [Hi He]|]; constructor. done.
Qed.

(** The one exception to the status machine. *)
Lemma revive_life r now s : life_refine s (exec (in_db (reviveQuickRunToRunning r now)) s).
Proof.
  destruct s as [d p l q]. unfold exec, in_db, zoom. simpl.
  destruct (reviveQuickRunToRunning r now d) as [x d'] eqn:He. simpl.
  assert (d' = d ∨ ∃ row row', d.(workflow_runs) !! r = Some row ∧ quick_run d row = true
    ∧ same_identity row row' ∧ d' = set_runs (<[r := row']> d.(workflow_runs)) d)
    as [->|(row & row' & Hr & Hq & Hi & ->)].
  - revert He. unfold reviveQuickRunToRunning, mbind, get.
    destruct (quick_row d r) as [[st ex]|] eqn:Hqr; [|intros [= _ <-]; by left].
    case_decide; [intros [= _ <-]; by left|].
    destruct (match ex with Some e => negb (String.eqb e "running") | None => false end);
      [intros [= _ <-]; by left|].
    case_update_run; intros [= _ <-]; [right|by left].
    exists r0. eexists. split; [done|]. split; [|split; [|reflexivity]; by split_and!].
    unfold quick_row in Hqr. rewrite Hr in Hqr. simpl in Hqr.
    destruct (d.(workflows) !! r_workflow_id r0) as [w|] eqn:Hw; simpl in Hqr; [|done].
    case_decide; [|done]. subst. unfold quick_run. by rewrite Hw, bool_decide_true.
  - reflexivity.
  - split; [done|]. intros k. simpl. destruct (decide (k = r)) as [->|Hne].
    + rewrite Hr, lookup_insert_eq. constructor. split; [done|]. congruence.
    + rewrite lookup_insert_ne by done. destruct (d.(workflow_runs) !! k); by constructor.
Qed.

Lemma step_life s s' : step s s' → life_refine s s'.
Proof.
  destruct 1; try apply revive_life; apply refine_life;
    match goal with |- sys_refine ?s (exec ?m ?s) =>
      enough (preserves sys_refine m) as Hm by apply (Hm s) end;
    first
      [ solve [eauto 2 with refine]
      | apply in_db_refines; solve [eauto 2 with refine]
      | apply in_db_refines, run_command_refines
      | by apply cancelRunHandler_refines | by apply pauseRunHandler_refines
      | by apply resumeRunHandler_refines
      | by apply respondQuestion_refines | by apply answer_task_refines
      | apply requestQuestion_refines | apply recoverStaleAwaitingInput_refines
      | unfold clearPendingForRun, abandonPendingForRun; solve [eauto 2 with refine] ].
Qed.

Lemma steps_life s s' : rtc step s s' → life_refine s s'.
Proof. induction 1; [reflexivity|]. etransitivity; [by apply step_life|done]. Qed.

(** C2: Every interleaving of the modelled operations (the approval and question routers,
    human gates, review-queue folds, cancel, pause, resume, stuck scans, the transition
    helpers and reviving a quick run) refines the run state machine: a run's row is never
    deleted or given another identity, and, unless it is a quick run, its status only moves
    along paths of ALLOWED_TRANSITIONS edges, so a canceled, failed or completed run keeps
    its status forever. *)
Theorem lifecycle_refinement s s' k r :
  rtc step s s' →
  s.(sys_db).(workflow_runs) !! k = Some r →
  ∃ r', s'.(sys_db).(workflow_runs) !! k = Some r' ∧ same_identity r r'
    ∧ (quick_run s.(sys_db) r = false →
         rtc edge r.(r_status) r'.(r_status)
         ∧ (is_terminal r.(r_status) = true → r'.(r_status) = r.(r_status))).
Proof.
  intros Hsteps Hr. destruct (steps_life _ _ Hsteps) as [_ H]. specialize (H k). rewrite Hr in H.
  inversion H as [? r' [Hi He] |]; subst. exists r'. split; [done|]. split; [done|].
  intros Hq. specialize (He Hq). split; [done|]. intros Ht. by apply terminal_absorbing.
Qed.


(** ** Concrete inputs *)

Lemma lifecycle_refinement_witness :
  let s := sample_sys [("r1", completed)] in
  let s' := exec (transitionToCanceled "r1" 5%Z) s in
  ∃ r', s'.(sys_db).(workflow_runs) !! "r1" = Some r' ∧ r'.(r_status) = completed.
Proof.
  intros s s'.
  destruct (lifecycle_refinement s s' "r1" (sample_run completed)) as (r' & Hr' & _ & H).
  - apply rtc_once, step_to_canceled.
  - vm_compute. reflexivity.
  - exists r'. split; [exact Hr'|]. destruct H as [_ H]; [vm_compute; reflexivity|].
    apply H. vm_compute. reflexivity.
Defined.
