(* ===== verification/Wp.v ===== *)
(** * Weakest preconditions of the state and exception monad

    [wp m Q X s]: run from [s], the computation [m] either returns a value and
    a state that satisfy [Q], or throws an error and leaves a state that
    satisfy [X].  The rules follow the structure of a program, so a proof about
    a long handler is driven by [wp_step]. *)

From S2P Require Import Prelude.

Open Scope js_scope.

Section Wp.
Context {E S : Type}.

Definition wp {A} (m : M E S A) (Q : A → S → Prop) (X : E → S → Prop) (s : S) : Prop :=
  match m s with
  | (Ok a, s') => Q a s'
  | (Throw e, s') => X e s'
  end.

Lemma wp_ret {A} (a : A) Q X s : Q a s → wp (mret a) Q X s.
Proof. done. Qed.

Lemma wp_throw {A} (e : E) (Q : A → S → Prop) X s : X e s → wp (throw e) Q X s.
Proof. done. Qed.

Lemma wp_get (Q : S → S → Prop) X s : Q s s → wp get Q X s.
Proof. done. Qed.

Lemma wp_gets {A} (f : S → A) Q X s : Q (f s) s → wp (gets f) Q X s.
Proof. done. Qed.

Lemma wp_modify (f : S → S) (Q : unit → S → Prop) X s : Q tt (f s) → wp (modify f) Q X s.
Proof. done. Qed.

Lemma wp_bind {A B} (m : M E S A) (k : A → M E S B) Q X s :
  wp m (λ a, wp (k a) Q X) X s → wp (mbind m k) Q X s.
Proof. unfold wp, mbind. by destruct (m s) as [[a|e] s']. Qed.

Lemma wp_catch {A} (m : M E S A) (h : E → M E S A) Q X s :
  wp m Q (λ e, wp (h e) Q X) s → wp (catch m h) Q X s.
Proof. unfold wp, catch. by destruct (m s) as [[a|e] s']. Qed.

Lemma wp_transaction {A} (m : M E S A) Q X s :
  wp m Q (λ e _, X e s) s → wp (transaction m) Q X s.
Proof. unfold wp, transaction. by destruct (m s) as [[a|e] s']. Qed.

Lemma wp_mono {A} (m : M E S A) (Q Q' : A → S → Prop) (X X' : E → S → Prop) s :
  wp m Q X s → (∀ a s', Q a s' → Q' a s') → (∀ e s', X e s' → X' e s') → wp m Q' X' s.
Proof. unfold wp. destruct (m s) as [[a|e] s']; eauto. Qed.

(** Both conclusions of one run. *)
Lemma wp_and {A} (m : M E S A) (Q Q' : A → S → Prop) (X X' : E → S → Prop) s :
  wp m Q X s → wp m Q' X' s → wp m (λ a s', Q a s' ∧ Q' a s') (λ e s', X e s' ∧ X' e s') s.
Proof. unfold wp. by destruct (m s) as [[a|e] s']. Qed.

Lemma wp_run {A} (m : M E S A) Q X s :
  wp m Q X s →
  (∃ a s', m s = (Ok a, s') ∧ Q a s') ∨ (∃ e s', m s = (Throw e, s') ∧ X e s').
Proof. unfold wp. destruct (m s) as [[a|e] s']; [left|right]; eauto. Qed.
End Wp.

Lemma wp_when {E S} (b : bool) (m : M E S unit) Q X s :
  (b = true → wp m Q X s) → (b = false → Q tt s) → wp (when b do m) Q X s.
Proof. destruct b; [intros H _; by apply H|intros _ H; apply wp_ret, H; done]. Qed.

(** One structural rule at the head of the program. *)
Ltac wp_step :=
  lazymatch goal with
  | |- wp (mbind _ _) _ _ _ => apply wp_bind
  | |- wp (mret _) _ _ _ => apply wp_ret
  | |- wp (throw _) _ _ _ => apply wp_throw
  | |- wp (gets _) _ _ _ => apply wp_gets
  | |- wp get _ _ _ => apply wp_get
  | |- wp (modify _) _ _ _ => apply wp_modify
  | |- wp (catch _ _) _ _ _ => apply wp_catch
  end.
