(* ===== verification/WorkflowDef.v ===== *)
(** * Workflow definitions and their validation

    The data of a workflow definition ([shared/types/workflows.ts]) and the
    write-path validator of [main/src/orchestrator/workflowDefinitionSchema.ts].
    [schema_issues] lists the issues the schema reports; an empty list is a
    definition the validator accepts.  The fields no modelled code reads (the
    MCP list, descriptions, artifact declarations, per-agent configurations)
    are left out, and so are their checks. *)

From Stdlib Require Import Ascii.
From S2P Require Import Prelude JsString Regex.

Record inner_step := mk_inner {
  is_id : string;
  is_agent : string;
  is_optional : bool;
  is_loopback : option string;
  is_firmGate : bool
}.

Record fan_out_spec := mk_fan_out {
  fo_over : string;
  fo_inner : list inner_step;
  fo_maxConcurrency : option Z
}.

Record workflow_step := mk_step {
  ws_id : string;
  ws_name : string;
  ws_agent : string;
  ws_retries : Z;
  ws_optional : bool;
  ws_human : bool;
  ws_loopback : option string;
  ws_fanOut : option fan_out_spec;
  ws_consumesPriorStepOutput : bool;
  ws_consumesBlockingReviewItems : bool
}.

Record workflow_phase := mk_phase {
  ph_id : string;
  ph_label : string;
  ph_color : string;
  ph_steps : list workflow_step
}.

Record workflow_definition := mk_definition {
  wd_id : string;
  wd_phases : list workflow_phase
}.

Definition SPRINT_BATCH_CAP : Z := 5.

(** The cap read from a stored spec, which may hold any integer. *)
Definition effectiveMaxConcurrency (f : fan_out_spec) : Z :=
  match f.(fo_maxConcurrency) with
  | None => SPRINT_BATCH_CAP
  | Some raw => Z.max 1 raw
  end.

(** ** Validation *)

(** [/^[a-z0-9]+(?:-[a-z0-9]+)*$/] *)
Definition kebab_re : re :=
  let alnum := RChr (λ c, is_lower c || is_digit c) in
  seqs [RBol; plus alnum; RStar (RSeq (lit "-") (plus alnum)); REol].
Definition kebabCaseId (s : string) : bool := test kebab_re s.

(** [/^#[0-9a-fA-F]{6}$/] *)
Definition hex_re : re :=
  seqs [RBol; lit "#";
        times 6 (RChr (λ c, is_digit c || bool_decide (c ∈ chars "abcdefABCDEF"))); REol].
Definition hexColor (s : string) : bool := test hex_re s.

Inductive schema_issue :=
  | bad_field (what : string)
  | duplicate_phase (id : string)
  | duplicate_step (id phase : string)
  | duplicate_inner (id step : string)
  | bad_inner_loopback (target step : string)
  | bad_loopback (target phase : string).

Definition nonempty_str (s : string) : bool := negb (String.eqb s "").
Definition check (b : bool) (what : string) : list schema_issue :=
  if b then [] else [bad_field what].

(** [seen.has(id)] in a loop that adds every id it passes. *)
Fixpoint duplicates (seen : list string) (ids : list string) : list string :=
  match ids with
  | [] => []
  | id :: ids' => (if bool_decide (id ∈ seen) then [id] else []) ++ duplicates (id :: seen) ids'
  end.

Definition unresolved (ids : list string) (targets : list (option string)) : list string :=
  omap (λ t, match t with
             | Some l => if bool_decide (l ∈ ids) then None else Some l
             | None => None
             end) targets.

Definition fanOutInnerStepSchema (s : inner_step) : list schema_issue :=
  check (kebabCaseId s.(is_id)) "inner id" ++ check (nonempty_str s.(is_agent)) "inner agent".

Definition fanOutSchema (f : fan_out_spec) : list schema_issue :=
  check (nonempty_str f.(fo_over)) "fanOut.over"
  ++ check (match f.(fo_inner) with [] => false | _ => true end) "fanOut.inner"
  ++ flat_map fanOutInnerStepSchema f.(fo_inner)
  ++ check (match f.(fo_maxConcurrency) with Some m => (1 <=? m)%Z | None => true end)
       "fanOut.maxConcurrency".

Definition workflowStepSchema (s : workflow_step) : list schema_issue :=
  check (kebabCaseId s.(ws_id)) "id" ++ check (nonempty_str s.(ws_name)) "name"
  ++ check (nonempty_str s.(ws_agent)) "agent" ++ check (0 <=? s.(ws_retries))%Z "retries"
  ++ match s.(ws_fanOut) with Some f => fanOutSchema f | None => [] end.

Definition workflowPhaseSchema (p : workflow_phase) : list schema_issue :=
  check (kebabCaseId p.(ph_id)) "phase id" ++ check (nonempty_str p.(ph_label)) "label"
  ++ check (hexColor p.(ph_color)) "color"
  ++ check (match p.(ph_steps) with [] => false | _ => true end) "steps"
  ++ flat_map workflowStepSchema p.(ph_steps).

(** The per-step part of the definition's [superRefine]. *)
Definition fan_out_refine (s : workflow_step) : list schema_issue :=
  match s.(ws_fanOut) with
  | None => []
  | Some f =>
      let ids := is_id <$> f.(fo_inner) in
      ((λ id, duplicate_inner id s.(ws_id)) <$> duplicates [] ids)
      ++ ((λ l, bad_inner_loopback l s.(ws_id)) <$> unresolved ids (is_loopback <$> f.(fo_inner)))
  end.

Definition phase_refine (p : workflow_phase) : list schema_issue :=
  let ids := ws_id <$> p.(ph_steps) in
  ((λ id, duplicate_step id p.(ph_id)) <$> duplicates [] ids)
  ++ flat_map fan_out_refine p.(ph_steps)
  ++ ((λ l, bad_loopback l p.(ph_id)) <$> unresolved ids (ws_loopback <$> p.(ph_steps))).

Definition definition_refine (d : workflow_definition) : list schema_issue :=
  ((λ id, duplicate_phase id) <$> duplicates [] (ph_id <$> d.(wd_phases)))
  ++ flat_map phase_refine d.(wd_phases).

(** Zod runs the refinement on a well-shaped value only. *)
Definition schema_issues (d : workflow_definition) : list schema_issue :=
  let shape := check (nonempty_str d.(wd_id)) "definition id"
    ++ check (match d.(wd_phases) with [] => false | _ => true end) "phases"
    ++ flat_map workflowPhaseSchema d.(wd_phases) in
  match shape with
  | [] => definition_refine d
  | _ => shape
  end.

Definition valid_definition (d : workflow_definition) : bool :=
  bool_decide (schema_issues d = []).
