(* ===== verification/ReviewText.v ===== *)
(** * Reading an adversarial review

    The text parsers at the head of
    [main/src/orchestrator/programmatic/workflowController.ts]: the verdict
    trailer of a review and the body of its Blocking section. *)

From Stdlib Require Import Ascii.
From S2P Require Import Prelude RunStateMachine JsString Regex.

(** [text.split(/\r?\n/)], over characters; [cur] is the reversed line. *)
Fixpoint split_lines_aux (cur l : list ascii) : list string :=
  match l with
  | [] => [String.string_of_list_ascii (rev cur)]
  | c :: l' =>
      if Ascii.eqb c nl then
        let line := match cur with
                    | c0 :: cur' => if Ascii.eqb c0 cr then cur' else cur
                    | [] => []
                    end in
        String.string_of_list_ascii (rev line) :: split_lines_aux [] l'
      else split_lines_aux (c :: cur) l'
  end.
Definition split_lines (s : string) : list string := split_lines_aux [] (chars s).

Inductive review_verdict := v_blocking | v_clean.

(** [/^REVIEW:\s*(BLOCKING|CLEAN)\b/] as prefix, group and boundary *)
Definition review_line_re : list re :=
  [seqs [RBol; lit "REVIEW:"; wss]; RAlt (lit "BLOCKING") (lit "CLEAN"); RWordB].

Definition review_line (line : string) : option review_verdict :=
  match exec_groups review_line_re line with
  | Some (_ :: v :: _) => Some (if String.eqb v "BLOCKING" then v_blocking else v_clean)
  | _ => None
  end.

(** The last line with a verdict wins. *)
Definition parseCodeReviewVerdict (text : string) : option review_verdict :=
  foldl (λ v line, match review_line line with Some v' => Some v' | None => v end) None
    (split_lines text).

(** [/^VERDICT:\s*(PASS|FAIL)\b/] *)
Definition task_line_re : list re :=
  [seqs [RBol; lit "VERDICT:"; wss]; RAlt (lit "PASS") (lit "FAIL"); RWordB].

(** [Some true] is a pass. *)
Definition parseTaskVerifyVerdict (text : string) : option bool :=
  foldl (λ v line, match exec_groups task_line_re line with
                   | Some (_ :: w :: _) => Some (String.eqb w "PASS")
                   | _ => v
                   end) None (split_lines text).

(** [/^##\s+Blocking\b/i] and [/^##\s+/] *)
Definition blocking_heading_re : re := seqs [RBol; lit "##"; ws1; liti "Blocking"; RWordB].
Definition section_heading_re : re := seqs [RBol; lit "##"; ws1].

(** The lines after the first one that satisfies [p]. *)
Fixpoint after_first (p : string → bool) (l : list string) : option (list string) :=
  match l with
  | [] => None
  | x :: l' => if p x then Some l' else after_first p l'
  end.

(** The lines before the first one that satisfies [p]. *)
Fixpoint until (p : string → bool) (l : list string) : list string :=
  match l with
  | [] => []
  | x :: l' => if p x then [] else x :: until p l'
  end.

Definition ends_section (line : string) : bool :=
  test section_heading_re line || match review_line line with Some _ => true | None => false end.

Definition extractBlockingSection (text : string) : option string :=
  match after_first (test blocking_heading_re) (split_lines text) with
  | None => None
  | Some rest =>
      let joined := trim (join (String nl "") (until ends_section rest)) in
      if String.eqb joined "" then None else Some joined
  end.

(** [/^####\s+AR-\d+/m]: the anchor holds at every line start. *)
Definition entry_re : re := seqs [lit "####"; ws1; lit "AR-"; plus digit].
Definition at_line_start (st : pos) : bool :=
  match st.1 with [] => true | c :: _ => Ascii.eqb c nl || Ascii.eqb c cr end.
Definition test_multiline (r : re) (s : string) : bool :=
  existsb (λ st, at_line_start st && nonempty (run r st)) (positions [] (chars s)).

(** [/^none\.?$/i] *)
Definition none_re : re := seqs [RBol; liti "none"; opt (lit "."); REol].

Definition blockingSectionHasEntries (text : string) : bool :=
  match extractBlockingSection text with
  | None => false
  | Some body => if test_multiline entry_re body then true else negb (test none_re (trim body))
  end.

(** ** Small readings *)

Example placeholder_is_clean :
  blockingSectionHasEntries ("## Blocking" +:+ String nl "None." +:+ String nl "REVIEW: CLEAN") = false.
Proof. vm_compute. reflexivity. Qed.

Example entry_is_blocking :
  blockingSectionHasEntries ("## Result" +:+ String nl "## Blocking" +:+ String nl "#### AR-1 - x") = true.
Proof. vm_compute. reflexivity. Qed.
