(* ===== verification/WorkflowController.v ===== *)
(** * The walk over a workflow definition

    Models [WorkflowController.run] of
    [main/src/orchestrator/programmatic/workflowController.ts]: the loop that
    takes a programmatic run from step to step, with its retries, systemic
    pauses, loopbacks, review laps, human gates and triage.

    The host the controller drives (agents, gates, supervisor, clock, cancel
    signal, operator directives) is an arbitrary state machine: every call of a
    [ControllerHost] takes the host's state and returns an answer, or a throw,
    and the next state.  What the controller does to its host is the log of
    [host_event]s.  [runFanOut] is one of these calls: the scheduling of the
    lanes is not part of this file.  Diagnostic log lines are left out. *)

From S2P Require Import Prelude Wp RunStateMachine JsString WorkflowDef ReviewText.

Open Scope js_scope.

(** ** What crosses the host seam *)

Inductive gate_decision := approve | reject | revise | abort.

Inductive report_outcome := r_done | r_skipped | r_failed | r_canceled | r_rejected.
#[export] Instance report_outcome_eq_dec : EqDecision report_outcome.
Proof. solve_decision. Defined.

Record step_report := mk_report {
  sr_stepId : string;
  sr_phaseId : string;
  sr_outcome : report_outcome;
  sr_attempts : nat;
  sr_error : option string;
  sr_deliberate : bool
}.

Inductive run_outcome := o_completed | o_failed | o_rejected | o_canceled.

Record controller_result := mk_result {
  cr_outcome : run_outcome;
  cr_steps : list step_report;
  cr_failedStepId : option string
}.

(** An entry of a parsed review and the part of a parse the walk reads. *)
Record review_entry := mk_entry { re_id : string; re_title : string }.
Record parsed_review := mk_parsed { pr_blocking : list review_entry; pr_findings : list review_entry }.

Record prior_round := mk_prior_round {
  rr_round : nat;
  rr_blockingIds : list string;
  rr_blockingTitles : list string
}.

Inductive review_source := s_text | s_artifact.

(** The supervisor's answer about a lap. *)
Inductive review_loop_decision :=
  | d_loop (steering : string)
  | d_stop (rationale : string) (setAside : list review_entry).

Record escalation := mk_escalation {
  esc_rationale : option string;
  esc_setAsideIds : option (list string)
}.

Record gate_revision := mk_revision {
  gr_gateStepId : string;
  gr_note : option string;
  gr_fromReview : bool;
  gr_round : option nat;
  gr_steering : option string;
  gr_reviewMarkdown : option string;
  gr_reportedSince : option Z
}.

Record prior_output := mk_prior_output {
  po_stepId : string;
  po_name : string;
  po_text : option string
}.

Record step_ctx := mk_ctx {
  cx_phaseId : string;
  cx_stepIndex : nat;
  cx_attempt : nat;
  cx_revision : option gate_revision;
  cx_prior : option prior_output;
  cx_escalation : option escalation;
  cx_reportedSince : option Z
}.

Inductive step_status := st_ok | st_failed | st_aborted.
Record step_run_result := mk_step_result {
  sres_status : step_status;
  sres_error : option string;
  sres_text : option string;
  sres_systemic : bool;
  sres_provider : option string;
  sres_runtime : option string
}.

Record pause_info := mk_pause_info {
  pi_blockedAgentKeys : list string;
  pi_provider : option string;
  pi_runtime : option string
}.

Inductive pause_verdict := pv_retry | pv_giveup | pv_canceled.
Inductive triage_decision := t_retry | t_escalate | t_fail.
Inductive blocking_verdict := bv_proceed | bv_canceled.

Record fan_out_result := mk_fan_result {
  fr_terminal : bool;
  fr_incomplete : nat;
  fr_pauses : gmap string nat;
  fr_giveUps : gset string
}.

Record review_request := mk_review_request {
  rq_stepId : string;
  rq_loopbackStepId : string;
  rq_round : nat;
  rq_lapsUsed : nat;
  rq_maxLaps : nat;
  rq_markdown : option string;
  rq_parsed : parsed_review;
  rq_priorRounds : list prior_round
}.

(** What the controller does to its host, in order. *)
Inductive host_event :=
  | HNotifyStarted
  | HNotifyFinished (outcome : run_outcome) (stepId : option string)
  | HNotifyGateOpened (phaseId stepId : string)
  | HNotifyStepFailed (phaseId stepId : string) (error : option string)
  | HRecord (r : step_report)
  | HReport (stepId : string) (status : string)
  | HRunStep (stepId : string) (ctx : step_ctx)
  | HGate (stepId : string) (ctx : step_ctx) (answer : gate_decision).

(** An answer of the host: a value or a throw, and the host's next state. *)
Definition reply (H A : Type) : Type := H → result string A * H.

(** [StepRunner] and [ControllerHost]; an optional member is an [option]. *)
Record ControllerHost (H : Type) := mk_host {
  h_runStep : workflow_step → step_ctx → reply H step_run_result;
  h_requestHumanGate : workflow_step → step_ctx → reply H gate_decision;
  h_awaitBlockingReviewItems : option (reply H blocking_verdict);
  h_resolveItems : option (string → reply H (list string));
  h_runFanOut : workflow_step → step_ctx → list string → gmap string nat → gset string
                → reply H fan_out_result;
  h_shouldSkipHumanGate : option (workflow_step → option Z → reply H (option string));
  h_awaitSystemicPause : option (workflow_step → step_ctx → option string → pause_info
                                 → reply H pause_verdict);
  h_triageFailure : option (workflow_step → step_ctx → option string → option bool
                            → reply H triage_decision);
  h_adviseReviewLoop : option (review_request → step_ctx → reply H review_loop_decision);
  h_readGateResolutionNote : option (string → reply H (option string));
  h_readAdversarialReview : option (option Z → reply H (option string));
  h_now : H → Z;
  h_aborted : H → bool;
  h_userSkipped : H → string → bool
}.
Arguments mk_host {H}.
Arguments h_runStep {H} _ _ _. Arguments h_requestHumanGate {H} _ _ _.
Arguments h_awaitBlockingReviewItems {H} _. Arguments h_resolveItems {H} _.
Arguments h_runFanOut {H} _ _ _ _ _ _. Arguments h_shouldSkipHumanGate {H} _.
Arguments h_awaitSystemicPause {H} _. Arguments h_triageFailure {H} _.
Arguments h_adviseReviewLoop {H} _. Arguments h_readGateResolutionNote {H} _.
Arguments h_readAdversarialReview {H} _. Arguments h_now {H} _ _.
Arguments h_aborted {H} _ _. Arguments h_userSkipped {H} _ _ _.

(** ** The locals of a walk *)

Record walk := mk_walk {
  w_steps : list step_report;
  w_loopbacks : gmap string nat;
  w_triageRetries : gmap string nat;
  w_optionalRetries : gmap string nat;
  w_pauses : gmap string nat;
  w_giveUps : gset string;
  w_revision : option gate_revision;
  w_autoRevisions : gmap string nat;
  w_rounds : gmap string nat;
  w_priorRounds : gmap string (list prior_round);
  w_reportedSince : option Z;
  w_escalation : option escalation;
  w_prior : option prior_output;
  w_completed : gset string;
  w_skipToHumanGate : bool
}.

Definition w_set_steps x w := mk_walk x w.(w_loopbacks) w.(w_triageRetries) w.(w_optionalRetries) w.(w_pauses) w.(w_giveUps) w.(w_revision) w.(w_autoRevisions) w.(w_rounds) w.(w_priorRounds) w.(w_reportedSince) w.(w_escalation) w.(w_prior) w.(w_completed) w.(w_skipToHumanGate).
Definition w_set_loopbacks x w := mk_walk w.(w_steps) x w.(w_triageRetries) w.(w_optionalRetries) w.(w_pauses) w.(w_giveUps) w.(w_revision) w.(w_autoRevisions) w.(w_rounds) w.(w_priorRounds) w.(w_reportedSince) w.(w_escalation) w.(w_prior) w.(w_completed) w.(w_skipToHumanGate).
Definition w_set_triage x w := mk_walk w.(w_steps) w.(w_loopbacks) x w.(w_optionalRetries) w.(w_pauses) w.(w_giveUps) w.(w_revision) w.(w_autoRevisions) w.(w_rounds) w.(w_priorRounds) w.(w_reportedSince) w.(w_escalation) w.(w_prior) w.(w_completed) w.(w_skipToHumanGate).
Definition w_set_optional x w := mk_walk w.(w_steps) w.(w_loopbacks) w.(w_triageRetries) x w.(w_pauses) w.(w_giveUps) w.(w_revision) w.(w_autoRevisions) w.(w_rounds) w.(w_priorRounds) w.(w_reportedSince) w.(w_escalation) w.(w_prior) w.(w_completed) w.(w_skipToHumanGate).
Definition w_set_pauses x g w := mk_walk w.(w_steps) w.(w_loopbacks) w.(w_triageRetries) w.(w_optionalRetries) x g w.(w_revision) w.(w_autoRevisions) w.(w_rounds) w.(w_priorRounds) w.(w_reportedSince) w.(w_escalation) w.(w_prior) w.(w_completed) w.(w_skipToHumanGate).
Definition w_set_revision x w := mk_walk w.(w_steps) w.(w_loopbacks) w.(w_triageRetries) w.(w_optionalRetries) w.(w_pauses) w.(w_giveUps) x w.(w_autoRevisions) w.(w_rounds) w.(w_priorRounds) w.(w_reportedSince) w.(w_escalation) w.(w_prior) w.(w_completed) w.(w_skipToHumanGate).
Definition w_set_auto x w := mk_walk w.(w_steps) w.(w_loopbacks) w.(w_triageRetries) w.(w_optionalRetries) w.(w_pauses) w.(w_giveUps) w.(w_revision) x w.(w_rounds) w.(w_priorRounds) w.(w_reportedSince) w.(w_escalation) w.(w_prior) w.(w_completed) w.(w_skipToHumanGate).
Definition w_set_rounds x p w := mk_walk w.(w_steps) w.(w_loopbacks) w.(w_triageRetries) w.(w_optionalRetries) w.(w_pauses) w.(w_giveUps) w.(w_revision) w.(w_autoRevisions) x p w.(w_reportedSince) w.(w_escalation) w.(w_prior) w.(w_completed) w.(w_skipToHumanGate).
Definition w_set_since x w := mk_walk w.(w_steps) w.(w_loopbacks) w.(w_triageRetries) w.(w_optionalRetries) w.(w_pauses) w.(w_giveUps) w.(w_revision) w.(w_autoRevisions) w.(w_rounds) w.(w_priorRounds) x w.(w_escalation) w.(w_prior) w.(w_completed) w.(w_skipToHumanGate).
Definition w_set_escalation x w := mk_walk w.(w_steps) w.(w_loopbacks) w.(w_triageRetries) w.(w_optionalRetries) w.(w_pauses) w.(w_giveUps) w.(w_revision) w.(w_autoRevisions) w.(w_rounds) w.(w_priorRounds) w.(w_reportedSince) x w.(w_prior) w.(w_completed) w.(w_skipToHumanGate).
Definition w_set_prior x w := mk_walk w.(w_steps) w.(w_loopbacks) w.(w_triageRetries) w.(w_optionalRetries) w.(w_pauses) w.(w_giveUps) w.(w_revision) w.(w_autoRevisions) w.(w_rounds) w.(w_priorRounds) w.(w_reportedSince) w.(w_escalation) x w.(w_completed) w.(w_skipToHumanGate).
Definition w_set_completed x w := mk_walk w.(w_steps) w.(w_loopbacks) w.(w_triageRetries) w.(w_optionalRetries) w.(w_pauses) w.(w_giveUps) w.(w_revision) w.(w_autoRevisions) w.(w_rounds) w.(w_priorRounds) w.(w_reportedSince) w.(w_escalation) w.(w_prior) x w.(w_skipToHumanGate).
Definition w_set_skip x w := mk_walk w.(w_steps) w.(w_loopbacks) w.(w_triageRetries) w.(w_optionalRetries) w.(w_pauses) w.(w_giveUps) w.(w_revision) w.(w_autoRevisions) w.(w_rounds) w.(w_priorRounds) w.(w_reportedSince) w.(w_escalation) w.(w_prior) w.(w_completed) x.

(** [m.get(k) ?? 0] *)
Definition count (m : gmap string nat) (k : string) : nat := default 0 (m !! k).

Inductive walk_error :=
  | HostThrew (e : string)
  | ExecutionBound (phaseId : string) (bound : nat)
  | OutOfFuel.

Definition HUMAN_GATE_AGENT : string := "human".
Definition REVIEW_AGENT : string := "adversarial-review".
Definition MAX_REVIEW_AUTO_REVISIONS : nat := 3.
Definition MAX_REVIEW_MECHANICAL_REVISIONS : nat := 1.
Definition MAX_STEP_LOOPBACKS : nat := 5.
Definition MAX_OPTIONAL_TRIAGE_RETRIES : nat := 1.
Definition MAX_SYSTEMIC_PAUSES : nat := 10.

Definition isPureHumanGate (step : workflow_step) : bool := String.eqb step.(ws_agent) HUMAN_GATE_AGENT.
Definition hasTrailingGate (step : workflow_step) : bool :=
  step.(ws_human) && negb (String.eqb step.(ws_agent) HUMAN_GATE_AGENT).
Definition is_review (step : workflow_step) : bool := String.eqb step.(ws_agent) REVIEW_AGENT.

(** [phaseSteps.findIndex((s) => s.id === id)] *)
Fixpoint find_step (id : string) (l : list workflow_step) : option nat :=
  match l with
  | [] => None
  | s :: l' => if String.eqb s.(ws_id) id then Some 0 else S <$> find_step id l'
  end.

(** The index a declared, resolvable [loopback] names. *)
Definition loopback_index (step : workflow_step) (steps : list workflow_step) : option nat :=
  match step.(ws_loopback) with
  | Some l => if String.eqb l "" then None else find_step l steps
  | None => None
  end.

Inductive next := Goto (i : nat) | Return (r : controller_result).

Record review_result := mk_review_result {
  rv_index : option nat;
  rv_blocking : bool;
  rv_note : option string;
  rv_text : string;
  rv_parsed : parsed_review;
  rv_source : review_source
}.

Record review_document := mk_document {
  doc_markdown : option string;
  doc_parsed : parsed_review;
  doc_fromArtifact : bool
}.

Inductive lap_decision :=
  | lap (steering : option string)
  | no_lap (e : option escalation).

Definition nonblank (s : string) : bool := negb (String.eqb (trim s) "").

Section Controller.
Context {H : Type} (host : ControllerHost H).
Context (resolveStepAgentKey : string → string → option string).
Context (parseAdversarialReviewDoc : option string → parsed_review).
Context (normalizeAdversarialId : string → string).

Record cs := mk_cs {
  cs_host : H;
  cs_log : list host_event;
  cs_walk : walk
}.

Definition walkM (A : Type) : Type := M walk_error cs A.

Definition call {A} (f : reply H A) : walkM A := λ s,
  match f s.(cs_host) with
  | (Ok a, h) => (Ok a, mk_cs h s.(cs_log) s.(cs_walk))
  | (Throw e, h) => (Throw (HostThrew e), mk_cs h s.(cs_log) s.(cs_walk))
  end.

Definition tell (e : host_event) : walkM unit :=
  modify (λ s, mk_cs s.(cs_host) (s.(cs_log) ++ [e]) s.(cs_walk)).
Definition local {A} (f : walk → A) : walkM A := gets (λ s, f s.(cs_walk)).
Definition update (f : walk → walk) : walkM unit :=
  modify (λ s, mk_cs s.(cs_host) s.(cs_log) (f s.(cs_walk))).

(** [signal?.aborted] *)
Definition aborted : walkM bool := gets (λ s, host.(h_aborted) s.(cs_host)).
Definition nowMs : walkM Z := gets (λ s, host.(h_now) s.(cs_host)).
Definition reportStep (stepId status : string) : walkM unit := tell (HReport stepId status).

Definition pushStep (r : step_report) : walkM unit :=
  update (λ w, w_set_steps (w.(w_steps) ++ [r]) w) ;;; tell (HRecord r).

(** [this.finish({ outcome, steps, failedStepId }, runId)] *)
Definition finish (outcome : run_outcome) (failed : option string) : walkM controller_result :=
  steps <- local w_steps ;;
  tell (HNotifyFinished outcome failed) ;;;
  mret (mk_result outcome steps failed).

Definition settle (step : workflow_step) (phase : workflow_phase) (o : report_outcome) (attempts : nat)
    (error : option string) (deliberate : bool) : walkM unit :=
  pushStep (mk_report step.(ws_id) phase.(ph_id) o attempts error deliberate).

Definition clearCompletedFrom (steps : list workflow_step) (from : nat) : walkM unit :=
  update (λ w, w_set_completed (w.(w_completed) ∖ list_to_set (ws_id <$> drop from steps)) w).

(** ** Gate decisions *)

Definition end_gate (step : workflow_step) (phase : workflow_phase) (ro : report_outcome)
    (o : run_outcome) (attempts : nat) : walkM (next * option gate_revision) :=
  settle step phase ro attempts None false ;;;
  reportStep step.(ws_id) "done" ;;;
  r <- finish o (Some step.(ws_id)) ;;
  mret (Return r, None).

(** The note of a revise that jumps, and the round it follows. *)
Definition compose_revision (step : workflow_step) (phase : workflow_phase)
    (reportedSince : option Z) : walkM gate_revision :=
  note <- match host.(h_readGateResolutionNote) with
          | Some f => catch (call (f step.(ws_id))) (λ _, mret None)
          | None => mret None
          end ;;
  let trimmed := trim (default "" note) in
  rounds <- local w_rounds ;;
  let round := match find is_review phase.(ph_steps) with
               | Some s => rounds !! s.(ws_id)
               | None => None
               end in
  mret (mk_revision step.(ws_id) (if String.eqb trimmed "" then None else Some trimmed) false round
          None None reportedSince).

Definition applyGateDecision (decision : gate_decision) (step : workflow_step)
    (phase : workflow_phase) (i attempts : nat) (reportedSince : option Z)
    : walkM (next * option gate_revision) :=
  match decision with
  | approve =>
      settle step phase r_done attempts None false ;;;
      reportStep step.(ws_id) "done" ;;;
      mret (Goto (S i), None)
  | reject => end_gate step phase r_rejected o_rejected attempts
  | abort => end_gate step phase r_canceled o_canceled attempts
  | revise =>
      used <- local (λ w, count w.(w_loopbacks) step.(ws_id)) ;;
      if (MAX_STEP_LOOPBACKS <=? used)%nat then end_gate step phase r_rejected o_rejected attempts
      else
        update (λ w, w_set_loopbacks (<[step.(ws_id) := S used]> w.(w_loopbacks)) w) ;;;
        let targetIndex := loopback_index step phase.(ph_steps) in
        settle step phase r_done attempts None false ;;;
        reportStep step.(ws_id) "done" ;;;
        let nextIndex := default i targetIndex in
        clearCompletedFrom phase.(ph_steps) nextIndex ;;;
        match targetIndex with
        | None => mret (Goto nextIndex, None)
        | Some _ =>
            r <- compose_revision step phase reportedSince ;;
            mret (Goto nextIndex, Some r)
        end
  end.

(** Open a gate; the armed escalation goes with it. *)
Definition open_gate (step : workflow_step) (phase : workflow_phase) (base : nat → step_ctx)
    (attempt : nat) : walkM gate_decision :=
  tell (HNotifyGateOpened phase.(ph_id) step.(ws_id)) ;;;
  esc <- local w_escalation ;;
  since <- local w_reportedSince ;;
  let b := base attempt in
  let ctx := mk_ctx b.(cx_phaseId) b.(cx_stepIndex) attempt b.(cx_revision) b.(cx_prior) esc since in
  d <- call (host.(h_requestHumanGate) step ctx) ;;
  tell (HGate step.(ws_id) ctx d) ;;;
  update (w_set_escalation None) ;;;
  mret d.

Definition decide_gate (phase : workflow_phase) (i : nat) (step : workflow_step)
    (base : nat → step_ctx) (attempt : nat) : walkM (next * option gate_revision) :=
  decision <- open_gate step phase base attempt ;;
  since <- local w_reportedSince ;;
  applyGateDecision decision step phase i attempt since.

(** ** The adversarial review *)

Definition readAdversarialReviewArtifact (since : option Z) : walkM (option string) :=
  match host.(h_readAdversarialReview) with
  | Some f => catch (call (f since)) (λ _, mret None)
  | None => mret None
  end.

Definition readAdversarialReviewResult (step : workflow_step) (steps : list workflow_step)
    (resultText : option string) (since : option Z) : walkM (option review_result) :=
  if negb (is_review step) then mret None
  else
    let targetIndex := loopback_index step steps in
    let text := default "" resultText in
    let verdict := if nonblank text then parseCodeReviewVerdict text else None in
    let ofText b note :=
      mret (Some (mk_review_result targetIndex b note text
                    (parseAdversarialReviewDoc (Some text)) s_text)) in
    match verdict with
    | Some v_clean => ofText false None
    | _ =>
        let textHasEntries := blockingSectionHasEntries text in
        match verdict, textHasEntries with
        | None, false =>
            artifact <- readAdversarialReviewArtifact since ;;
            let parsed := parseAdversarialReviewDoc artifact in
            match parsed.(pr_blocking) with
            | [] => mret (Some (mk_review_result targetIndex false None text parsed s_artifact))
            | _ => mret (Some (mk_review_result targetIndex true
                                 (extractBlockingSection (default "" artifact)) text parsed s_artifact))
            end
        | _, _ => ofText true (if textHasEntries then extractBlockingSection text else None)
        end
    end.

Definition blockingIdSet (p : parsed_review) : gset string :=
  list_to_set ((λ e, normalizeAdversarialId e.(re_id)) <$> p.(pr_blocking)).

Definition selectReviewDocument (review : review_result) (since : option Z) : walkM review_document :=
  let fromText := mk_document (if nonblank review.(rv_text) then Some review.(rv_text) else None)
                    review.(rv_parsed) false in
  artifact <- readAdversarialReviewArtifact since ;;
  match artifact with
  | None => mret fromText
  | Some a =>
      if negb (nonblank a) then mret fromText
      else
        let artifactParsed := parseAdversarialReviewDoc (Some a) in
        let fromArtifact := mk_document (Some a) artifactParsed true in
        let textIds := blockingIdSet review.(rv_parsed) in
        match review.(rv_source) with
        | s_artifact => mret fromArtifact
        | s_text =>
            if decide (textIds = ∅) then mret fromArtifact
            else if decide (textIds = blockingIdSet artifactParsed) then mret fromArtifact
            else mret fromText
        end
  end.

Definition consultReviewLoop (req : review_request) (ctx : step_ctx)
    : walkM (option review_loop_decision) :=
  match host.(h_adviseReviewLoop) with
  | None => mret None
  | Some advise =>
      a <- aborted ;;
      if (a : bool) then mret None
      else catch
             (d <- call (advise req ctx) ;;
              a' <- aborted ;;
              mret (if (a' : bool) then None else Some d))
             (λ _, mret None)
  end.

Definition decideReviewLoop (step : workflow_step) (loopbackStepId : string) (round used : nat)
    (document : review_document) (priorRounds : list prior_round) (ctx : step_ctx)
    : walkM lap_decision :=
  if (MAX_REVIEW_AUTO_REVISIONS <=? used)%nat then mret (no_lap None)
  else
    decision <- consultReviewLoop
                  (mk_review_request step.(ws_id) loopbackStepId round used MAX_REVIEW_AUTO_REVISIONS
                     (match document.(doc_markdown) with
                      | Some m => if String.eqb m "" then None else Some m
                      | None => None
                      end)
                     document.(doc_parsed) priorRounds) ctx ;;
    match decision with
    | None => mret (if (used <? MAX_REVIEW_MECHANICAL_REVISIONS)%nat then lap None else no_lap None)
    | Some (d_stop rationale setAside) =>
        mret (no_lap (Some (mk_escalation
                (if String.eqb rationale "" then None else Some rationale)
                (match setAside with [] => None | _ => Some (re_id <$> setAside) end))))
    | Some (d_loop steering) => mret (lap (Some steering))
    end.

(** ** One visit of a step, arm by arm *)

(** A step the walk passes without running it. *)
Definition skip_step (step : workflow_step) (phase : workflow_phase) (attempts : nat)
    (reason : string) : walkM unit :=
  settle step phase r_skipped attempts (Some reason) true ;;;
  reportStep step.(ws_id) "skipped".

(** The walk has passed a gate: what was armed for it is spent. *)
Definition clear_armed : walkM unit :=
  update (λ w, w_set_escalation None (w_set_revision None w)).

Definition user_skip (phase : workflow_phase) (i : nat) (step : workflow_step) : walkM next :=
  skip_step step phase 0 "skipped by operator" ;;;
  (when (isPureHumanGate step) do clear_armed) ;;;
  mret (Goto (S i)).

(** The blocking-review-items checkpoint: whether the walk was canceled there. *)
Definition blocking_checkpoint (step : workflow_step) : walkM bool :=
  match host.(h_awaitBlockingReviewItems) with
  | Some f =>
      if step.(ws_consumesBlockingReviewItems) then mret false
      else
        gate <- call f ;;
        a <- aborted ;;
        mret (match gate with bv_canceled => true | bv_proceed => a end)
  | None => mret false
  end.

(** Whether the closing-stage gate skipped the step. *)
Definition closing_stage (step : workflow_step) (phase : workflow_phase) : walkM bool :=
  skipping <- local w_skipToHumanGate ;;
  if (skipping : bool) then
    if isPureHumanGate step || hasTrailingGate step
    then update (w_set_skip false) ;;; mret false
    else
      skip_step step phase 1 "sprint has incomplete or blocked tasks — closing stage skipped" ;;;
      mret true
  else mret false.

Definition resolve_items (step : workflow_step) : walkM (list string) :=
  match step.(ws_fanOut), host.(h_resolveItems) with
  | Some f, Some resolveItems => catch (call (resolveItems f.(fo_over))) (λ _, mret [])
  | _, _ => mret []
  end.

(** The fan-out arm; [None] falls through to the single-step path. *)
Definition fan_out_arm (phase : workflow_phase) (i : nat) (step : workflow_step)
    : walkM (option next) :=
  items <- resolve_items step ;;
  match items with
  | [] => mret None
  | _ =>
      reportStep step.(ws_id) "running" ;;;
      pauses <- local w_pauses ;;
      giveUps <- local w_giveUps ;;
      let base := λ attempt, mk_ctx phase.(ph_id) i attempt None None None None in
      r <- call (host.(h_runFanOut) step (base 1) items pauses giveUps) ;;
      update (w_set_pauses r.(fr_pauses) r.(fr_giveUps)) ;;;
      if r.(fr_terminal) then
        settle step phase r_canceled 1 None false ;;;
        reportStep step.(ws_id) "done" ;;;
        res <- finish o_canceled (Some step.(ws_id)) ;;
        mret (Some (Return res))
      else
        (when (0 <? r.(fr_incomplete))%nat do update (w_set_skip true)) ;;;
        if hasTrailingGate step then
          n <- decide_gate phase i step base 1 ;;
          mret (Some n.1)
        else
          settle step phase r_done 1 None false ;;;
          reportStep step.(ws_id) "done" ;;;
          mret (Some (Goto (S i)))
  end.

(** Whether an optional gate without a precondition was skipped. *)
Definition optional_gate_arm (step : workflow_step) (phase : workflow_phase) : walkM bool :=
  match host.(h_shouldSkipHumanGate) with
  | Some f =>
      if isPureHumanGate step && step.(ws_optional) then
        since <- local w_reportedSince ;;
        reason <- catch (call (f step since)) (λ _, mret None) ;;
        match reason with
        | Some why => skip_step step phase 0 why ;;; clear_armed ;;; mret true
        | None => mret false
        end
      else mret false
  | None => mret false
  end.

Definition base_ctx (phase : workflow_phase) (i : nat) (step : workflow_step)
    : walkM (nat → step_ctx) :=
  rev <- local w_revision ;;
  prior <- local w_prior ;;
  mret (λ attempt, mk_ctx phase.(ph_id) i attempt rev
                     (if step.(ws_consumesPriorStepOutput) then prior else None) None None).

(** A gate decision that also replaces the pending revision. *)
Definition gate_and_route (phase : workflow_phase) (i : nat) (step : workflow_step)
    (base : nat → step_ctx) (attempt : nat) : walkM next :=
  n <- decide_gate phase i step base attempt ;;
  update (w_set_revision n.2) ;;;
  mret n.1.

(** How the attempts of an agent step ended. *)
Record attempts_end := mk_attempts_end {
  ae_ok : bool;
  ae_aborted : bool;
  ae_attempt : nat;
  ae_text : option string;
  ae_error : option string
}.

(** What a systemic failure does to the attempt. *)
Inductive pause_outcome := p_rerun | p_canceled | p_through.

Definition systemic_pause (step : workflow_step) (ctx : step_ctx) (res : step_run_result)
    : walkM pause_outcome :=
  match host.(h_awaitSystemicPause) with
  | Some await =>
      if negb res.(sres_systemic) then mret p_through
      else
        used <- local (λ w, count w.(w_pauses) step.(ws_id)) ;;
        givenUp <- local (λ w, bool_decide (step.(ws_id) ∈ w.(w_giveUps))) ;;
        if (used <? MAX_SYSTEMIC_PAUSES)%nat && negb givenUp then
          update (λ w, w_set_pauses (<[step.(ws_id) := S used]> w.(w_pauses)) w.(w_giveUps) w) ;;;
          let key := resolveStepAgentKey step.(ws_id) step.(ws_agent) in
          let info := mk_pause_info (match key with Some k => [k] | None => [] end)
                        res.(sres_provider) res.(sres_runtime) in
          verdict <- call (await step ctx res.(sres_error) info) ;;
          a <- aborted ;;
          if (a : bool) then mret p_canceled
          else match verdict with
               | pv_canceled => mret p_canceled
               | pv_retry => mret p_rerun
               | pv_giveup =>
                   update (λ w, w_set_pauses w.(w_pauses) (w.(w_giveUps) ∪ {[step.(ws_id)]}) w) ;;;
                   mret p_through
               end
        else mret p_through
  | None => mret p_through
  end.

(** [while (attempt < maxAttempts)]; [attempt] attempts are already counted. *)
Fixpoint run_attempts (fuel : nat) (step : workflow_step) (base : nat → step_ctx) (attempt : nat)
    (lastError : option string) : walkM attempts_end :=
  match fuel with
  | 0 => throw OutOfFuel
  | S fuel' =>
      if (Z.of_nat attempt <? step.(ws_retries) + 1)%Z then
        let attempt' := S attempt in
        let ctx := base attempt' in
        res <- call (host.(h_runStep) step ctx) ;;
        tell (HRunStep step.(ws_id) ctx) ;;;
        match res.(sres_status) with
        | st_ok => mret (mk_attempts_end true false attempt' res.(sres_text) lastError)
        | st_aborted => mret (mk_attempts_end false true attempt' None lastError)
        | st_failed =>
            p <- systemic_pause step ctx res ;;
            match p with
            | p_rerun => run_attempts fuel' step base attempt lastError
            | p_canceled => mret (mk_attempts_end false true attempt' None lastError)
            | p_through => run_attempts fuel' step base attempt' res.(sres_error)
            end
        end
      else mret (mk_attempts_end false false attempt None lastError)
  end.

Definition attempts_fuel (step : workflow_step) : nat :=
  Z.to_nat (step.(ws_retries) + 1) + MAX_SYSTEMIC_PAUSES + 1.

(** *** After a successful attempt *)

(** Count the round and extend the ledger; the earlier rounds and the round's
    document. *)
Definition record_round (step : workflow_step) (review : review_result)
    : walkM (nat * list prior_round * option review_document) :=
  round <- local (λ w, S (count w.(w_rounds) step.(ws_id))) ;;
  earlier <- local (λ w, default [] (w.(w_priorRounds) !! step.(ws_id))) ;;
  since <- local w_reportedSince ;;
  document <- (if review.(rv_blocking)
               then d <- selectReviewDocument review since ;; mret (Some d)
               else mret None) ;;
  let parsed := match document with Some d => d.(doc_parsed) | None => review.(rv_parsed) end in
  let entry := mk_prior_round round (re_id <$> parsed.(pr_blocking)) (re_title <$> parsed.(pr_blocking)) in
  update (λ w, w_set_rounds (<[step.(ws_id) := round]> w.(w_rounds))
                 (<[step.(ws_id) := earlier ++ [entry]]> w.(w_priorRounds)) w) ;;;
  mret (round, earlier, document).

(** The automatic lap of a blocking review, when one is taken. *)
Definition review_lap (phase : workflow_phase) (i : nat) (step : workflow_step)
    (base : nat → step_ctx) (attempt : nat) (resultText : option string) : walkM (option next) :=
  since <- local w_reportedSince ;;
  review <- readAdversarialReviewResult step phase.(ph_steps) resultText since ;;
  match review with
  | None => mret None
  | Some rv =>
      r <- record_round step rv ;;
      let '(round, earlier, document) := r in
      match rv.(rv_blocking), rv.(rv_index), document with
      | true, Some index, Some doc =>
          used <- local (λ w, count w.(w_autoRevisions) step.(ws_id)) ;;
          let target := default step (phase.(ph_steps) !! index) in
          outcome <- decideReviewLoop step target.(ws_id) round used doc earlier (base attempt) ;;
          match outcome with
          | lap steering =>
              update (λ w, w_set_auto (<[step.(ws_id) := S used]> w.(w_autoRevisions)) w) ;;;
              settle step phase r_done attempt None false ;;;
              reportStep step.(ws_id) "done" ;;;
              clearCompletedFrom phase.(ph_steps) index ;;;
              update (w_set_revision
                (Some (mk_revision step.(ws_id) rv.(rv_note) true (Some round) steering
                         (if doc.(doc_fromArtifact) then None else doc.(doc_markdown)) None))) ;;;
              mret (Some (Goto index))
          | no_lap (Some e) => update (w_set_escalation (Some e)) ;;; mret None
          | no_lap None => mret None
          end
      | _, _, _ => mret None
      end
  end.

Definition ok_arm (phase : workflow_phase) (i : nat) (step : workflow_step)
    (base : nat → step_ctx) (attempt : nat) (resultText : option string) : walkM next :=
  let text := match resultText with
              | Some t => if nonblank t then Some t else None
              | None => None
              end in
  update (w_set_prior (Some (mk_prior_output step.(ws_id) step.(ws_name) text))) ;;;
  looped <- review_lap phase i step base attempt resultText ;;
  match looped with
  | Some n => mret n
  | None =>
      if hasTrailingGate step then gate_and_route phase i step base attempt
      else
        settle step phase r_done attempt None false ;;;
        reportStep step.(ws_id) "done" ;;;
        mret (Goto (S i))
  end.

(** *** After the last failed attempt *)

(** The target of a failure loopback whose budget is not spent. *)
Definition tryLoopback (step : workflow_step) (steps : list workflow_step) : walkM (option nat) :=
  match loopback_index step steps with
  | None => mret None
  | Some targetIndex =>
      used <- local (λ w, count w.(w_loopbacks) step.(ws_id)) ;;
      if (MAX_STEP_LOOPBACKS <=? used)%nat then mret None
      else
        update (λ w, w_set_loopbacks (<[step.(ws_id) := S used]> w.(w_loopbacks)) w) ;;;
        mret (Some targetIndex)
  end.

Definition tryTriageRetry (step : workflow_step) : walkM bool :=
  used <- local (λ w, count w.(w_triageRetries) step.(ws_id)) ;;
  if (MAX_STEP_LOOPBACKS <=? used)%nat then mret false
  else
    update (λ w, w_set_triage (<[step.(ws_id) := S used]> w.(w_triageRetries)) w) ;;;
    reportStep step.(ws_id) "done" ;;;
    mret true.

Definition fail_step (phase : workflow_phase) (step : workflow_step) (attempt : nat)
    (lastError : option string) : walkM next :=
  settle step phase r_failed attempt lastError false ;;;
  reportStep step.(ws_id) "failed" ;;;
  r <- finish o_failed (Some step.(ws_id)) ;;
  mret (Return r).

Definition handleRequiredFailure (phase : workflow_phase) (i : nat) (step : workflow_step)
    (base : nat → step_ctx) (lastError : option string) (attempt : nat) : walkM next :=
  tell (HNotifyStepFailed phase.(ph_id) step.(ws_id) lastError) ;;;
  let ctx := base attempt in
  used <- local (λ w, count w.(w_triageRetries) step.(ws_id)) ;;
  decision <- match host.(h_triageFailure) with
              | Some triage => call (triage step ctx lastError (Some (used <? MAX_STEP_LOOPBACKS)%nat))
              | None => mret t_fail
              end ;;
  let retry_or_fail :=
    ok <- tryTriageRetry step ;;
    if (ok : bool) then mret (Goto i) else fail_step phase step attempt lastError in
  match decision with
  | t_fail => fail_step phase step attempt lastError
  | t_retry => retry_or_fail
  | t_escalate =>
      tell (HNotifyGateOpened phase.(ph_id) step.(ws_id)) ;;;
      verdict <- call (host.(h_requestHumanGate) step ctx) ;;
      tell (HGate step.(ws_id) ctx verdict) ;;;
      match verdict with
      | approve =>
          settle step phase r_skipped attempt lastError false ;;;
          reportStep step.(ws_id) "skipped" ;;;
          mret (Goto (S i))
      | abort =>
          settle step phase r_canceled attempt None false ;;;
          reportStep step.(ws_id) "done" ;;;
          r <- finish o_canceled (Some step.(ws_id)) ;;
          mret (Return r)
      | revise => retry_or_fail
      | reject => fail_step phase step attempt lastError
      end
  end.

(** An optional step gets one supervised retry, then is skipped. *)
Definition optional_failure (phase : workflow_phase) (i : nat) (step : workflow_step)
    (base : nat → step_ctx) (lastError : option string) (attempt : nat) : walkM next :=
  used <- local (λ w, count w.(w_optionalRetries) step.(ws_id)) ;;
  retry <- match host.(h_triageFailure) with
           | Some triage =>
               if (used <? MAX_OPTIONAL_TRIAGE_RETRIES)%nat then
                 d <- catch (call (triage step (base attempt) lastError None)) (λ _, mret t_escalate) ;;
                 mret (match d with t_retry => true | _ => false end)
               else mret false
           | None => mret false
           end ;;
  if (retry : bool) then
    update (λ w, w_set_optional (<[step.(ws_id) := S used]> w.(w_optionalRetries)) w) ;;;
    reportStep step.(ws_id) "done" ;;;
    mret (Goto i)
  else
    settle step phase r_skipped attempt lastError false ;;;
    reportStep step.(ws_id) "skipped" ;;;
    mret (Goto (S i)).

Definition failure_arm (phase : workflow_phase) (i : nat) (step : workflow_step)
    (base : nat → step_ctx) (lastError : option string) (attempt : nat) : walkM next :=
  jumped <- (if step.(ws_optional) then mret None else tryLoopback step phase.(ph_steps)) ;;
  match jumped with
  | Some j =>
      reportStep step.(ws_id) "done" ;;;
      clearCompletedFrom phase.(ph_steps) j ;;;
      mret (Goto j)
  | None =>
      if step.(ws_optional) then optional_failure phase i step base lastError attempt
      else handleRequiredFailure phase i step base lastError attempt
  end.

Definition agent_arm (phase : workflow_phase) (i : nat) (step : workflow_step)
    (base : nat → step_ctx) : walkM next :=
  (when (is_review step) do (t <- nowMs ;; update (w_set_since (Some t)))) ;;;
  e <- run_attempts (attempts_fuel step) step base 0 None ;;
  a <- aborted ;;
  if e.(ae_aborted) || a then
    settle step phase r_canceled e.(ae_attempt) None false ;;;
    reportStep step.(ws_id) "done" ;;;
    r <- finish o_canceled (Some step.(ws_id)) ;;
    mret (Return r)
  else if e.(ae_ok) then ok_arm phase i step base e.(ae_attempt) e.(ae_text)
  else failure_arm phase i step base e.(ae_error) e.(ae_attempt).

(** ** The loop *)

(** One iteration, below the cancel check and the bound. *)
Definition visit (phase : workflow_phase) (i : nat) (step : workflow_step) : walkM next :=
  completed <- local w_completed ;;
  if decide (step.(ws_id) ∈ completed) then mret (Goto (S i))
  else
    skipped <- gets (λ s, host.(h_userSkipped) s.(cs_host) step.(ws_id)) ;;
    if (skipped : bool) then user_skip phase i step
    else
      canceled <- blocking_checkpoint step ;;
      if (canceled : bool) then r <- finish o_canceled (Some step.(ws_id)) ;; mret (Return r)
      else
        closed <- closing_stage step phase ;;
        if (closed : bool) then mret (Goto (S i))
        else
          fan <- fan_out_arm phase i step ;;
          match fan with
          | Some n => mret n
          | None =>
              passed <- optional_gate_arm step phase ;;
              if (passed : bool) then mret (Goto (S i))
              else
                base <- base_ctx phase i step ;;
                reportStep step.(ws_id) "running" ;;;
                if isPureHumanGate step then gate_and_route phase i step base 1
                else agent_arm phase i step base
          end.

Definition maxExecutions (n : nat) : nat := (2 * MAX_STEP_LOOPBACKS * n + 1) * n + n + 1.

(** [while (i < n)]; [left] iterations remain of the execution bound. *)
Fixpoint walk_phase (phase : workflow_phase) (left : nat) (i : nat)
    : walkM (option controller_result) :=
  match phase.(ph_steps) !! i with
  | None => mret None
  | Some step =>
      a <- aborted ;;
      if (a : bool) then r <- finish o_canceled (Some step.(ws_id)) ;; mret (Some r)
      else
        match left with
        | 0 =>
            tell (HNotifyFinished o_failed (Some step.(ws_id))) ;;;
            throw (ExecutionBound phase.(ph_id) (maxExecutions (length phase.(ph_steps))))
        | S left' =>
            n <- visit phase i step ;;
            match n with
            | Return r => mret (Some r)
            | Goto j => walk_phase phase left' j
            end
        end
  end.

(** The phases of the walk, each with the index it starts at. *)
Fixpoint walk_phases (l : list (workflow_phase * nat)) : walkM controller_result :=
  match l with
  | [] => finish o_completed None
  | (phase, start) :: l' =>
      r <- walk_phase phase (maxExecutions (length phase.(ph_steps))) start ;;
      match r with
      | Some res => mret res
      | None => walk_phases l'
      end
  end.

(** The walk from the resume target on; an unknown target starts over. *)
Fixpoint resume_at (id : string) (l : list workflow_phase) : option (list (workflow_phase * nat)) :=
  match l with
  | [] => None
  | p :: l' => match find_step id p.(ph_steps) with
               | Some s => Some ((p, s) :: ((λ q, (q, 0)) <$> l'))
               | None => resume_at id l'
               end
  end.

Definition phases_to_walk (def : workflow_definition) (resumeFromStepId : option string)
    : list (workflow_phase * nat) :=
  let all := (λ p, (p, 0)) <$> def.(wd_phases) in
  match resumeFromStepId with
  | Some id => if String.eqb id "" then all else default all (resume_at id def.(wd_phases))
  | None => all
  end.

Definition initial_walk (def : workflow_definition) (completed : gset string) (now : Z) : walk :=
  let reviewStepIds := ws_id <$> filter (λ s, is_review s = true)
                                   (flat_map ph_steps def.(wd_phases)) in
  mk_walk [] ∅ ∅ ∅ ∅ ∅ None ∅ ∅ ∅
    (if existsb (λ id, bool_decide (id ∈ completed)) reviewStepIds then None else Some now)
    None None completed false.

Definition run (def : workflow_definition) (resumeFromStepId : option string)
    (completed : gset string) : walkM controller_result :=
  t <- nowMs ;;
  update (λ _, initial_walk def completed t) ;;;
  tell HNotifyStarted ;;;
  walk_phases (phases_to_walk def resumeFromStepId).

(** Run a walk of a fresh controller. *)
Definition run_from (h : H) (def : workflow_definition) (resumeFromStepId : option string)
    (completed : gset string) : result walk_error controller_result * cs :=
  run def resumeFromStepId completed (mk_cs h [] (initial_walk def completed 0)).

(** ** Rules for the primitives of the walk *)

#[local] Arguments Nat.leb : simpl never.
#[local] Arguments Nat.ltb : simpl never.

(** The errors a visit may end with: its host's own. *)
Definition host_error (e : walk_error) (_ : cs) : Prop := ∃ msg, e = HostThrew msg.

Lemma wp_call {A} (f : reply H A) Q h l w :
  (∀ a h', Q a (mk_cs h' l w)) → wp (call f) Q host_error (mk_cs h l w).
Proof. intros HQ. unfold wp, call. simpl. destruct (f h) as [[a|e] h']; [apply HQ|by exists e]. Qed.

(** A call whose throw the controller catches. *)
Lemma wp_try {A} (f : reply H A) (d : A) (Q : A → cs → Prop) X h l w :
  (∀ a h', Q a (mk_cs h' l w)) → wp (catch (call f) (λ _, mret d)) Q X (mk_cs h l w).
Proof. intros HQ. unfold wp, catch, call. simpl. by destruct (f h) as [[a|e] h']; apply HQ. Qed.

Lemma wp_tell e Q X h l w : Q tt (mk_cs h (l ++ [e]) w) → wp (tell e) Q X (mk_cs h l w).
Proof. done. Qed.
Lemma wp_update f Q X h l w : Q tt (mk_cs h l (f w)) → wp (update f) Q X (mk_cs h l w).
Proof. done. Qed.
Lemma wp_local {A} (f : walk → A) Q X h l w : Q (f w) (mk_cs h l w) → wp (local f) Q X (mk_cs h l w).
Proof. done. Qed.
Lemma wp_aborted (Q : bool → cs → Prop) X h l w :
  (∀ b, Q b (mk_cs h l w)) → wp aborted Q X (mk_cs h l w).
Proof. intros HQ. apply HQ. Qed.
Lemma wp_nowMs (Q : Z → cs → Prop) X h l w : (∀ t, Q t (mk_cs h l w)) → wp nowMs Q X (mk_cs h l w).
Proof. intros HQ. apply HQ. Qed.
Lemma wp_settle step phase o n err b Q X h l w :
  (let r := mk_report step.(ws_id) phase.(ph_id) o n err b in
   Q tt (mk_cs h (l ++ [HRecord r]) (w_set_steps (w.(w_steps) ++ [r]) w))) →
  wp (settle step phase o n err b) Q X (mk_cs h l w).
Proof. done. Qed.
Lemma wp_finish o f Q X h l w :
  Q (mk_result o w.(w_steps) f) (mk_cs h (l ++ [HNotifyFinished o f]) w) →
  wp (finish o f) Q X (mk_cs h l w).
Proof. done. Qed.

Ltac walk_step :=
  lazymatch goal with
  | |- wp (call _) _ _ _ => apply wp_call; intros ? ?
  | |- wp (catch (call _) _) _ _ _ => apply wp_try; intros ? ?
  | |- wp (tell _) _ _ _ => apply wp_tell
  | |- wp (reportStep _ _) _ _ _ => apply wp_tell
  | |- wp (update _) _ _ _ => apply wp_update
  | |- wp (local _) _ _ _ => apply wp_local
  | |- wp aborted _ _ _ => apply wp_aborted; intros ?
  | |- wp nowMs _ _ _ => apply wp_nowMs; intros ?
  | |- wp (settle _ _ _ _ _ _) _ _ _ => apply wp_settle
  | |- wp (finish _ _) _ _ _ => apply wp_finish
  | |- wp (clearCompletedFrom _ _) _ _ _ => apply wp_update
  | |- wp clear_armed _ _ _ => apply wp_update
  | |- wp (skip_step _ _ _ _) _ _ _ => unfold skip_step
  | _ => wp_step
  end.
Ltac walk_go := repeat (walk_step; simpl).

(** ** What an arm of the walk may do *)

Definition records (l : list host_event) : list step_report :=
  omap (λ e, match e with HRecord r => Some r | _ => None end) l.

(** The events of a visit are about the visited step, and none ends the run. *)
Definition about (id : string) (e : host_event) : Prop :=
  match e with
  | HRecord r => r.(sr_stepId) = id
  | HGate g _ _ => g = id
  | HNotifyFinished _ _ => False
  | _ => True
  end.

Definition counts_le (m m' : gmap string nat) : Prop := ∀ k, (count m k <= count m' k)%nat.

#[local] Instance counts_le_preorder : PreOrder counts_le.
Proof. split; [by intros m k|]. intros m1 m2 m3 H1 H2 k. etransitivity; eauto. Qed.

(** [m.set(k, used + 1)] *)
Lemma counts_le_insert m k n : (count m k <= n)%nat → counts_le m (<[k := n]> m).
Proof.
  intros Hn j. unfold count. destruct (decide (j = k)) as [->|Hne].
  - by rewrite lookup_insert_eq.
  - by rewrite lookup_insert_ne.
Qed.

Lemma count_insert m k n : count (<[k := n]> m) k = n.
Proof. unfold count. by rewrite lookup_insert_eq. Qed.

(** One unit of a budget of [limit] is spent on [id]. *)
Definition spent (limit : nat) (m m' : gmap string nat) (id : string) : Prop :=
  (count m id < limit)%nat ∧ count m' id = S (count m id) ∧ counts_le m m'.

Lemma spent_insert limit m id :
  (limit <=? count m id)%nat = false → spent limit m (<[id := S (count m id)]> m) id.
Proof.
  intros Hl%Nat.leb_gt. split_and!; [done|apply count_insert|by apply counts_le_insert; lia].
Qed.

(** Nothing the course of the walk depends on has changed. *)
Record quiet (id : string) (s s' : cs) : Prop := {
  qu_steps : s'.(cs_walk).(w_steps) = s.(cs_walk).(w_steps);
  qu_completed : s'.(cs_walk).(w_completed) = s.(cs_walk).(w_completed);
  qu_loopbacks : s'.(cs_walk).(w_loopbacks) = s.(cs_walk).(w_loopbacks);
  qu_triage : s'.(cs_walk).(w_triageRetries) = s.(cs_walk).(w_triageRetries);
  qu_optional : s'.(cs_walk).(w_optionalRetries) = s.(cs_walk).(w_optionalRetries);
  qu_auto : s'.(cs_walk).(w_autoRevisions) = s.(cs_walk).(w_autoRevisions);
  qu_log : ∃ evs, s'.(cs_log) = s.(cs_log) ++ evs ∧ records evs = [] ∧ Forall (about id) evs
}.

(** A required gate: an agent step with a trailing gate, or a pure gate (which
    a fan-out step never opens when it has items). *)
Definition gated (step : workflow_step) : bool :=
  hasTrailingGate step || (isPureHumanGate step && negb (bool_decide (is_Some step.(ws_fanOut)))).

(** The visit passes the step: it is in the resume set, or it is skipped, or it
    is done, and a gate it has was approved. *)
Inductive passed (phase : workflow_phase) (step : workflow_step) (evs : list host_event)
    (completed : gset string) : Prop :=
  | passed_resumed : records evs = [] → step.(ws_id) ∈ completed → passed phase step evs completed
  | passed_skipped n e d :
      records evs = [mk_report step.(ws_id) phase.(ph_id) r_skipped n e d] →
      passed phase step evs completed
  | passed_done n :
      records evs = [mk_report step.(ws_id) phase.(ph_id) r_done n None false] →
      (gated step = true → ∃ pre ctx post,
         evs = pre ++ HGate step.(ws_id) ctx approve :: post ∧
         Forall (λ e, match e with HGate _ _ _ => False | _ => True end) post) →
      passed phase step evs completed.

(** The step the walk goes to next. *)
Inductive moved (phase : workflow_phase) (i : nat) (step : workflow_step) (evs : list host_event)
    (w w' : walk) : nat → Prop :=
  | moved_on : passed phase step evs w.(w_completed) → w'.(w_completed) = w.(w_completed) →
               moved phase i step evs w w' (S i)
  | moved_back j :
      spent MAX_STEP_LOOPBACKS w.(w_loopbacks) w'.(w_loopbacks) step.(ws_id) →
      j = default i (loopback_index step phase.(ph_steps)) →
      moved phase i step evs w w' j
  | moved_lap j :
      is_review step = true →
      spent MAX_REVIEW_AUTO_REVISIONS w.(w_autoRevisions) w'.(w_autoRevisions) step.(ws_id) →
      loopback_index step phase.(ph_steps) = Some j →
      moved phase i step evs w w' j
  | moved_triage :
      step.(ws_optional) = false →
      spent MAX_STEP_LOOPBACKS w.(w_triageRetries) w'.(w_triageRetries) step.(ws_id) →
      moved phase i step evs w w' i
  | moved_optional :
      step.(ws_optional) = true →
      spent MAX_OPTIONAL_TRIAGE_RETRIES w.(w_optionalRetries) w'.(w_optionalRetries) step.(ws_id) →
      moved phase i step evs w w' i.

(** How a run that ends at the step has reported it. *)
Definition ended_with (id : string) (o : run_outcome) (rs : list step_report) : Prop :=
  match o with
  | o_completed => False
  | o_failed => ∃ r, rs = [r] ∧ r.(sr_stepId) = id ∧ r.(sr_outcome) = r_failed
  | o_rejected => ∃ r, rs = [r] ∧ r.(sr_stepId) = id ∧ r.(sr_outcome) = r_rejected
  | o_canceled => rs = [] ∨ ∃ r, rs = [r] ∧ r.(sr_stepId) = id ∧ r.(sr_outcome) = r_canceled
  end.

Definition passing (r : step_report) : Prop := r.(sr_outcome) = r_done ∨ r.(sr_outcome) = r_skipped.

(** The effect of one visit, or of the part of one from [s] on. *)
Inductive visited (phase : workflow_phase) (i : nat) (step : workflow_step) (s : cs)
    : next → cs → Prop :=
  | visited_goto j evs s' :
      s'.(cs_log) = s.(cs_log) ++ evs →
      s'.(cs_walk).(w_steps) = s.(cs_walk).(w_steps) ++ records evs →
      Forall (about step.(ws_id)) evs →
      Forall passing (records evs) →
      s'.(cs_walk).(w_completed) = s.(cs_walk).(w_completed) ∨
      s'.(cs_walk).(w_completed)
        = s.(cs_walk).(w_completed) ∖ list_to_set (ws_id <$> drop j phase.(ph_steps)) →
      counts_le s.(cs_walk).(w_loopbacks) s'.(cs_walk).(w_loopbacks) →
      counts_le s.(cs_walk).(w_triageRetries) s'.(cs_walk).(w_triageRetries) →
      counts_le s.(cs_walk).(w_optionalRetries) s'.(cs_walk).(w_optionalRetries) →
      counts_le s.(cs_walk).(w_autoRevisions) s'.(cs_walk).(w_autoRevisions) →
      moved phase i step evs s.(cs_walk) s'.(cs_walk) j →
      visited phase i step s (Goto j) s'
  | visited_return o pre evs r s' :
      r = mk_result o s'.(cs_walk).(w_steps) (Some step.(ws_id)) →
      s'.(cs_log) = pre ++ [HNotifyFinished o (Some step.(ws_id))] →
      pre = s.(cs_log) ++ evs →
      s'.(cs_walk).(w_steps) = s.(cs_walk).(w_steps) ++ records evs →
      Forall (about step.(ws_id)) evs →
      ended_with step.(ws_id) o (records evs) →
      visited phase i step s (Return r) s'.

Lemma records_app l l' : records (l ++ l') = records l ++ records l'.
Proof. apply omap_app. Qed.

#[local] Instance quiet_preorder id : PreOrder (quiet id).
Proof.
  split.
  - intros s. split; try done. exists []. by rewrite app_nil_r.
  - intros s1 s2 s3 [?????? (e1 & L1 & R1 & F1)] [?????? (e2 & L2 & R2 & F2)].
    split; try congruence. exists (e1 ++ e2).
    rewrite L2, L1, records_app, R1, R2, Forall_app. by rewrite <- app_assoc.
Qed.

Lemma passed_after phase step evs0 evs c :
  records evs0 = [] → passed phase step evs c → passed phase step (evs0 ++ evs) c.
Proof.
  intros R0 [R Hc|n e d R|n R Hg].
  - apply passed_resumed; [by rewrite records_app, R0|done].
  - eapply passed_skipped. by rewrite records_app, R0.
  - eapply passed_done; [by rewrite records_app, R0|]. intros G.
    destruct (Hg G) as (pre & ctx & post & -> & ?). exists (evs0 ++ pre), ctx, post.
    by rewrite <- app_assoc.
Qed.

(** A quiet prefix does not change the effect of the rest of the visit. *)
Lemma quiet_visited phase i step s s1 n s' :
  quiet step.(ws_id) s s1 → visited phase i step s1 n s' → visited phase i step s n s'.
Proof.
  intros [Qs Qc Ql Qt Qo Qa (e0 & L0 & R0 & F0)] [j evs t HL HS HF HP HC Hl Ht Ho Ha HM|o pre evs r t Hr HL Hpre HS HF HE].
  - apply (visited_goto _ _ _ _ j (e0 ++ evs)); rewrite <- ?Qs, <- ?Qc, <- ?Ql, <- ?Qt, <- ?Qo, <- ?Qa;
      rewrite ?records_app, ?R0, ?app_assoc; rewrite ?HL, ?L0, <- ?app_assoc; try done.
    + by apply Forall_app.
    + destruct HM as [Hp Hw|j Hs Hj|j Hr Hs Hj|Hr Hs|Hr Hs];
        [eapply moved_on|eapply moved_back|eapply moved_lap|eapply moved_triage|eapply moved_optional];
        rewrite <- ?Qc, <- ?Ql, <- ?Qt, <- ?Qo, <- ?Qa; try done.
      by apply passed_after.
  - apply (visited_return _ _ _ _ o pre (e0 ++ evs) r); rewrite <- ?Qs, ?records_app, ?R0; try done.
    + by rewrite Hpre, L0, <- app_assoc.
    + by apply Forall_app.
Qed.

Lemma wp_visit_after {A} (m : walkM A) (k : A → walkM next) phase i step s :
  wp m (λ a s1, quiet step.(ws_id) s s1 ∧ wp (k a) (visited phase i step s1) host_error s1) host_error s →
  wp (mbind m k) (visited phase i step s) host_error s.
Proof.
  intros Hm. apply wp_bind. eapply wp_mono; [exact Hm|..|done].
  intros a s1 [Hq Hk]. eapply wp_mono; [exact Hk|..|done].
  intros n s' Hv. by eapply quiet_visited.
Qed.

Lemma wp_after {A} (m : walkM A) id s0 s :
  quiet id s0 s → wp m (λ _ s', quiet id s s') host_error s → wp m (λ _ s', quiet id s0 s') host_error s.
Proof. intros H0 Hm. eapply wp_mono; [exact Hm|..|done]. intros a s' Hs. by etransitivity. Qed.

(** Leaves: an explicit final state against an explicit starting state. *)
Ltac log_leaf :=
  first [ exists (@nil host_event); rewrite app_nil_r;
          split_and!; [reflexivity|reflexivity|constructor]
        | eexists; rewrite <- ?app_assoc; simpl;
          split_and!; [reflexivity|reflexivity|repeat constructor] ].
Ltac quiet_leaf := split; simpl; [reflexivity..|log_leaf].
Ltac quiet_go := walk_go; try quiet_leaf.

(** *** Arms that change nothing the course depends on *)

Lemma wp_quiet_mono {A} (m : walkM A) id (P : A → Prop) Q s :
  wp m (λ a s', quiet id s s' ∧ P a) host_error s →
  (∀ a s', quiet id s s' → P a → Q a s') → wp m Q host_error s.
Proof. intros Hm HQ. eapply wp_mono; [exact Hm|..|done]. intros a s' [??]. by apply HQ. Qed.

Lemma compose_revision_spec step phase since Q h l w :
  (∀ r h', Q r (mk_cs h' l w)) → wp (compose_revision step phase since) Q host_error (mk_cs h l w).
Proof.
  intros HQ. unfold compose_revision. walk_step.
  destruct (h_readGateResolutionNote host); walk_go; apply HQ.
Qed.

Lemma readArtifact_quiet since id s :
  wp (readAdversarialReviewArtifact since) (λ _ s', quiet id s s') host_error s.
Proof.
  destruct s as [h l w]. unfold readAdversarialReviewArtifact.
  destruct (h_readAdversarialReview host); quiet_go.
Qed.

Lemma readResult_quiet step steps text since s :
  wp (readAdversarialReviewResult step steps text since)
     (λ r s', quiet step.(ws_id) s s' ∧
        ∀ rv, r = Some rv → is_review step = true ∧ rv.(rv_index) = loopback_index step steps)
     host_error s.
Proof.
  unfold readAdversarialReviewResult.
  destruct (is_review step) eqn:Hr; simpl; [|by wp_step].
  assert (∀ b note t p src s', quiet step.(ws_id) s s' → quiet step.(ws_id) s s' ∧
    ∀ rv, Some (mk_review_result (loopback_index step steps) b note t p src) = Some rv →
          true = true ∧ rv.(rv_index) = loopback_index step steps) as leaf
    by (intros; split; [done|by intros rv [= <-]]).
  destruct (if nonblank (default "" text) then _ else _) as [[]|];
    destruct (blockingSectionHasEntries (default "" text)); simpl;
    try (wp_step; by apply leaf).
  wp_step. eapply wp_mono; [apply (readArtifact_quiet since (ws_id step))|..|done].
  intros a s' Hq. simpl. destruct (pr_blocking _); wp_step; by apply leaf.
Qed.

Lemma selectReviewDocument_quiet rv since id s :
  wp (selectReviewDocument rv since) (λ _ s', quiet id s s') host_error s.
Proof.
  unfold selectReviewDocument. wp_step.
  eapply wp_mono; [apply (readArtifact_quiet since id)|..|done]. intros [a|] s' Hq; simpl; [|by wp_step].
  destruct (negb _); [by wp_step|]. destruct (rv_source rv); [|by wp_step].
  repeat case_decide; by wp_step.
Qed.

Lemma consultReviewLoop_quiet req ctx id s :
  wp (consultReviewLoop req ctx) (λ _ s', quiet id s s') host_error s.
Proof.
  destruct s as [h l w]. unfold consultReviewLoop.
  destruct (h_adviseReviewLoop host) as [advise|]; [|by wp_step].
  walk_step. walk_step. destruct b; [by wp_step|]. unfold wp, catch, mbind, call, aborted, gets. simpl.
  destruct (advise req ctx h) as [[d|e] h']; simpl; quiet_leaf.
Qed.

Lemma decideReviewLoop_quiet step target round used doc prior ctx s :
  wp (decideReviewLoop step target round used doc prior ctx)
     (λ d s', quiet step.(ws_id) s s' ∧ ∀ st, d = lap st → (MAX_REVIEW_AUTO_REVISIONS <=? used)%nat = false)
     host_error s.
Proof.
  unfold decideReviewLoop. destruct (MAX_REVIEW_AUTO_REVISIONS <=? used)%nat eqn:Hu; [by wp_step|].
  wp_step. eapply wp_mono; [apply (consultReviewLoop_quiet _ _ (ws_id step))|..|done].
  intros [[st|ra sa]|] s' Hq; simpl; wp_step; by split.
Qed.

Lemma record_round_quiet step rv s :
  wp (record_round step rv)
     (λ r s', quiet step.(ws_id) s s' ∧ (is_Some r.2 → rv.(rv_blocking) = true)) host_error s.
Proof.
  destruct s as [h l w]. unfold record_round. do 6 walk_step. walk_step. simpl.
  destruct (rv_blocking rv) eqn:Hb.
  - wp_step. eapply wp_mono; [apply (selectReviewDocument_quiet rv _ (ws_id step))|..|done].
    intros d [h' l' w'] Hq. simpl. walk_go. split; [|done]. etransitivity; [exact Hq|quiet_leaf].
  - walk_go. split; [quiet_leaf|by intros [? ?]].
Qed.

Lemma blocking_checkpoint_quiet step s :
  wp (blocking_checkpoint step) (λ _ s', quiet step.(ws_id) s s') host_error s.
Proof.
  destruct s as [h l w]. unfold blocking_checkpoint.
  destruct (h_awaitBlockingReviewItems host); [|by wp_step].
  destruct (ws_consumesBlockingReviewItems step); quiet_go.
Qed.

Lemma resolve_items_quiet step s :
  wp (resolve_items step)
     (λ r s', quiet step.(ws_id) s s' ∧ (r ≠ [] → is_Some step.(ws_fanOut))) host_error s.
Proof.
  destruct s as [h l w]. unfold resolve_items. destruct (ws_fanOut step); [|by wp_step].
  destruct (h_resolveItems host); walk_go; (split; [quiet_leaf|eauto]).
Qed.

Lemma base_ctx_quiet phase i step s :
  wp (base_ctx phase i step) (λ _ s', quiet step.(ws_id) s s') host_error s.
Proof. destruct s as [h l w]. unfold base_ctx. quiet_go. Qed.

Lemma systemic_pause_quiet step ctx res s :
  wp (systemic_pause step ctx res)
     (λ p s', quiet step.(ws_id) s s' ∧
        counts_le s.(cs_walk).(w_pauses) s'.(cs_walk).(w_pauses) ∧
        (p = p_rerun → spent MAX_SYSTEMIC_PAUSES s.(cs_walk).(w_pauses) s'.(cs_walk).(w_pauses) step.(ws_id)))
     host_error s.
Proof.
  destruct s as [h l w]. unfold systemic_pause.
  destruct (h_awaitSystemicPause host); [|by wp_step].
  destruct (negb (sres_systemic res)); [by wp_step|].
  do 4 walk_step. simpl. destruct (_ <? _)%nat eqn:Hu; simpl; [|by wp_step].
  destruct (negb _); [|by wp_step].
  apply Nat.ltb_lt in Hu.
  assert (Hs : spent MAX_SYSTEMIC_PAUSES (w_pauses w)
                 (<[ws_id step := S (count (w_pauses w) (ws_id step))]> (w_pauses w)) (ws_id step))
    by (apply spent_insert, Nat.leb_gt; done).
  pose proof Hs as (_ & _ & Hle).
  walk_go. destruct b; [walk_go; split_and!; [quiet_leaf|done|done]|].
  destruct a; walk_go; (split_and!; [quiet_leaf|done|done]).
Qed.

(** The attempts of a step end: each turn counts an attempt or spends a pause. *)
Lemma run_attempts_quiet step base fuel : ∀ attempt lastError s,
  (Z.to_nat (step.(ws_retries) + 1 - Z.of_nat attempt)
   + (MAX_SYSTEMIC_PAUSES - count s.(cs_walk).(w_pauses) step.(ws_id)) < fuel)%nat →
  wp (run_attempts fuel step base attempt lastError) (λ _ s', quiet step.(ws_id) s s') host_error s.
Proof.
  induction fuel as [|fuel IH]; intros attempt lastError [h l w] Hf; [lia|].
  cbn [run_attempts]. destruct (Z.of_nat attempt <? ws_retries step + 1)%Z eqn:Ha; [|by wp_step].
  apply Z.ltb_lt in Ha. do 4 walk_step. simpl in *.
  destruct (sres_status a); [walk_step; quiet_leaf| |walk_step; quiet_leaf].
  wp_step. eapply wp_mono; [apply systemic_pause_quiet|..|done].
  intros p s1 (Hq & Hle & Hp). simpl in *.
  assert (quiet (ws_id step) (mk_cs h l w) s1) by (etransitivity; [|exact Hq]; quiet_leaf).
  destruct p; [|by wp_step|].
  - apply wp_after; [done|]. apply IH. destruct (Hp eq_refl) as (? & -> & _). lia.
  - apply wp_after; [done|]. apply IH. specialize (Hle (ws_id step)). lia.
Qed.

Lemma attempts_fuel_enough step base lastError s :
  wp (run_attempts (attempts_fuel step) step base 0 lastError) (λ _ s', quiet step.(ws_id) s s')
     host_error s.
Proof. apply run_attempts_quiet. unfold attempts_fuel. rewrite Z.sub_0_r. lia. Qed.

(** ** Arms that decide where the walk goes *)

Ltac counts_leaf := first [done|by apply counts_le_insert; lia].

(** An explicit final state against [visited]. *)
Ltac about_leaf := repeat constructor.
Ltac log_eq := simpl; first [by rewrite app_nil_r|rewrite <- ?app_assoc; simpl; reflexivity].
Ltac goto_leaf :=
  eapply visited_goto;
  [ log_eq
  | simpl; by rewrite ?app_nil_r
  | about_leaf
  | repeat (constructor; [first [by left|by right]|]); constructor
  | first [by left|by right]
  | counts_leaf.. | ].
Ltac return_leaf :=
  eapply visited_return;
  [ reflexivity | reflexivity | log_eq | simpl; by rewrite ?app_nil_r | about_leaf | ].

Lemma user_skip_visited phase i step s :
  wp (user_skip phase i step) (visited phase i step s) host_error s.
Proof.
  destruct s as [h l w]. unfold user_skip.
  destruct (isPureHumanGate step); walk_go; goto_leaf; (apply moved_on; [eapply passed_skipped|]; reflexivity).
Qed.

Lemma fail_step_visited phase i step attempt lastError s :
  wp (fail_step phase step attempt lastError) (visited phase i step s) host_error s.
Proof. destruct s as [h l w]. unfold fail_step. walk_go. return_leaf. simpl; eauto. Qed.

(** Only the pending revision may still change after a gate decision. *)
Lemma decide_gate_visited phase i step base attempt s :
  wp (decide_gate phase i step base attempt)
     (λ n s', ∀ x, visited phase i step s n.1
                     (mk_cs s'.(cs_host) s'.(cs_log) (w_set_revision x s'.(cs_walk)))) host_error s.
Proof.
  destruct s as [h l w]. unfold decide_gate, open_gate. walk_go.
  destruct a; simpl; unfold end_gate.
  - walk_go. intros x. goto_leaf. apply moved_on; [|done].
    eapply (passed_done _ _ _ _ attempt); [reflexivity|]. intros _. eexists [_], _, [_; _]. split; [reflexivity|repeat constructor].
  - walk_go. intros x. return_leaf. simpl; eauto.
  - walk_step. walk_step. simpl. destruct (MAX_STEP_LOOPBACKS <=? count (w_loopbacks w) (ws_id step))%nat eqn:Hu.
    + walk_go. intros x. return_leaf. simpl; eauto.
    + destruct (loopback_index step (ph_steps phase)) as [j|] eqn:Hj; simpl.
      * do 9 (walk_step; simpl). apply compose_revision_spec. intros r h''. walk_step. intros x. goto_leaf.
        apply moved_back; [by apply spent_insert|by rewrite Hj].
      * walk_go. intros x. goto_leaf. apply moved_back; [by apply spent_insert|by rewrite Hj].
  - walk_go. intros x. return_leaf. simpl; eauto.
Qed.

Lemma gate_and_route_visited phase i step base attempt s :
  wp (gate_and_route phase i step base attempt) (visited phase i step s) host_error s.
Proof.
  unfold gate_and_route. wp_step. eapply wp_mono; [apply decide_gate_visited|..|done].
  intros n [h l w] Hv. simpl. walk_go. apply Hv.
Qed.

Lemma set_revision_same s :
  mk_cs s.(cs_host) s.(cs_log) (w_set_revision s.(cs_walk).(w_revision) s.(cs_walk)) = s.
Proof. by destruct s as [h l []]. Qed.

(** A visit that may fall through to the next arm. *)
Definition visited_or_quiet (phase : workflow_phase) (i : nat) (step : workflow_step) (s : cs)
    (n : option next) (s' : cs) : Prop :=
  match n with
  | Some n => visited phase i step s n s'
  | None => quiet step.(ws_id) s s'
  end.

Lemma fan_out_arm_visited phase i step s :
  wp (fan_out_arm phase i step) (visited_or_quiet phase i step s) host_error s.
Proof.
  unfold fan_out_arm. wp_step. eapply wp_mono; [apply resolve_items_quiet|..|done].
  intros items [h l w] [Hq Hfan]. destruct items as [|it items]; [by wp_step|].
  specialize (Hfan (λ e, ltac:(discriminate e))).
  eapply (wp_mono _ (λ n s', ∃ n', n = Some n' ∧ visited phase i step (mk_cs h l w) n' s')); [|
    intros n s' (n' & -> & Hv); simpl; by eapply quiet_visited|done].
  walk_step. walk_step. do 4 (walk_step; simpl). do 4 (walk_step; simpl).
  destruct (fr_terminal a); simpl.
  { walk_go. eexists. split; [done|]. return_leaf. simpl; eauto. }
  wp_step. apply (wp_mono _ (λ _ s', quiet (ws_id step) (mk_cs h l w) s') _ host_error).
  { apply wp_when; intros _; walk_go; quiet_leaf. }
  2: done. intros _ s1 Hq1.
  destruct (hasTrailingGate step) eqn:Ht.
  - wp_step. eapply wp_mono; [apply decide_gate_visited|..|done].
    intros n s2 Hv. walk_step. eexists. split; [done|]. eapply quiet_visited; [exact Hq1|].
    specialize (Hv (w_revision (cs_walk s2))). by rewrite set_revision_same in Hv.
  - destruct s1 as [h1 l1 w1]. walk_go. eexists. split; [done|]. eapply quiet_visited; [exact Hq1|].
    goto_leaf. apply moved_on; [|done]. eapply (passed_done _ _ _ _ 1); [reflexivity|].
    unfold gated. rewrite Ht, bool_decide_eq_true_2 by done. by rewrite andb_false_r.
Qed.

Definition skipped_or_quiet (phase : workflow_phase) (i : nat) (step : workflow_step) (s : cs)
    (b : bool) (s' : cs) : Prop :=
  visited_or_quiet phase i step s (if b then Some (Goto (S i)) else None) s'.

Ltac skip_leaf := goto_leaf; (apply moved_on; [eapply passed_skipped|]; reflexivity).

Lemma closing_stage_visited phase i step s :
  wp (closing_stage step phase) (skipped_or_quiet phase i step s) host_error s.
Proof.
  destruct s as [h l w]. unfold closing_stage. walk_go.
  destruct (w_skipToHumanGate w); [|walk_go; quiet_leaf].
  destruct (isPureHumanGate step || hasTrailingGate step); walk_go; [quiet_leaf|skip_leaf].
Qed.

Lemma optional_gate_arm_visited phase i step s :
  wp (optional_gate_arm step phase) (skipped_or_quiet phase i step s) host_error s.
Proof.
  destruct s as [h l w]. unfold optional_gate_arm.
  destruct (h_shouldSkipHumanGate host); [|walk_go; quiet_leaf].
  destruct (isPureHumanGate step && ws_optional step); [|walk_go; quiet_leaf].
  walk_go. destruct a; walk_go; [skip_leaf|quiet_leaf].
Qed.

Lemma review_lap_visited phase i step base attempt text s :
  wp (review_lap phase i step base attempt text) (visited_or_quiet phase i step s) host_error s.
Proof.
  unfold review_lap. destruct s as [h l w]. walk_step. walk_step. wp_step.
  eapply wp_mono; [apply readResult_quiet|..|done].
  intros [rv|] s1 [Q1 Hrv]; [|by wp_step]. destruct (Hrv rv eq_refl) as [Hr Hi].
  wp_step. eapply wp_mono; [apply record_round_quiet|..|done].
  intros [[round earlier] doc] s2 [Q2 Hdoc]. simpl in *.
  assert (Q : quiet (ws_id step) (mk_cs h l w) s2) by (by etransitivity).
  assert (None_leaf : wp (mret None) (visited_or_quiet phase i step (mk_cs h l w)) host_error s2)
    by (by wp_step).
  destruct (rv_blocking rv); [|done]. destruct (rv_index rv) as [index|]; [|done].
  destruct doc as [doc|]; [|done].
  destruct s2 as [h2 l2 w2]. walk_step. walk_step. wp_step.
  eapply wp_mono; [apply decideReviewLoop_quiet|..|done].
  intros d [h3 l3 w3] [Q3 Hd]. destruct d as [st|[e|]].
  - specialize (Hd st eq_refl). walk_go.
    assert (Q' : quiet (ws_id step) (mk_cs h l w) (mk_cs h3 l3 w3)) by (by etransitivity).
    eapply quiet_visited; [exact Q'|]. destruct Q3 as [_ _ _ _ _ Ha _]. simpl in Ha. rewrite <- Ha in Hd |- *.
    goto_leaf. apply moved_lap; [done|by apply spent_insert|done].
  - walk_go. etransitivity; [exact Q|]. etransitivity; [exact Q3|]. quiet_leaf.
  - walk_go. by etransitivity.
Qed.

(** An arm followed by the rest of the visit. *)
Lemma wp_arm (m : walkM (option next)) (k : walkM next) phase i step s :
  wp m (visited_or_quiet phase i step s) host_error s →
  (∀ s1, wp k (visited phase i step s1) host_error s1) →
  wp (n <- m ;; match n with Some n => mret n | None => k end) (visited phase i step s) host_error s.
Proof.
  intros Hm Hk. wp_step. eapply wp_mono; [exact Hm|..|done].
  intros [n|] s1 Hs; [by wp_step|]. eapply wp_mono; [apply Hk|..|done].
  intros n s2 Hv. by eapply quiet_visited.
Qed.

Lemma wp_skip_arm (m : walkM bool) (k : walkM next) phase i step s :
  wp m (skipped_or_quiet phase i step s) host_error s →
  (∀ s1, wp k (visited phase i step s1) host_error s1) →
  wp (b <- m ;; if (b : bool) then mret (Goto (S i)) else k) (visited phase i step s) host_error s.
Proof.
  intros Hm Hk. wp_step. eapply wp_mono; [exact Hm|..|done].
  intros [] s1 Hs; [by wp_step|]. eapply wp_mono; [apply Hk|..|done].
  intros n s2 Hv. by eapply quiet_visited.
Qed.

(** A quiet part followed by the rest of the visit. *)
Lemma wp_quiet_then {A} (m : walkM A) (k : A → walkM next) phase i step s :
  wp m (λ _ s', quiet step.(ws_id) s s') host_error s →
  (∀ a s1, wp (k a) (visited phase i step s1) host_error s1) →
  wp (mbind m k) (visited phase i step s) host_error s.
Proof.
  intros Hm Hk. apply wp_visit_after. eapply wp_mono; [exact Hm|..|done].
  intros a s1 Hq. by split.
Qed.

Lemma ok_arm_visited phase i step base attempt text s :
  isPureHumanGate step = false →
  wp (ok_arm phase i step base attempt text) (visited phase i step s) host_error s.
Proof.
  intros Hp. unfold ok_arm. apply wp_quiet_then.
  { destruct s as [h l w]. walk_step. quiet_leaf. }
  intros _ s1. apply wp_arm; [apply review_lap_visited|]. intros [h l w].
  destruct (hasTrailingGate step) eqn:Ht; [apply gate_and_route_visited|].
  walk_go. goto_leaf. apply moved_on; [|done].
  eapply (passed_done _ _ _ _ attempt); [reflexivity|]. unfold gated. by rewrite Ht, Hp.
Qed.

Lemma tryTriageRetry_visited phase i step (k : walkM next) s :
  step.(ws_optional) = false →
  (∀ s1, wp k (visited phase i step s1) host_error s1) →
  wp (ok <- tryTriageRetry step ;; if (ok : bool) then mret (Goto i) else k)
     (visited phase i step s) host_error s.
Proof.
  intros Ho Hk. destruct s as [h l w]. unfold tryTriageRetry. walk_go.
  destruct (MAX_STEP_LOOPBACKS <=? count (w_triageRetries w) (ws_id step))%nat eqn:Hu; walk_go.
  - apply Hk.
  - goto_leaf. apply moved_triage; [done|by apply spent_insert].
Qed.

Lemma handleRequiredFailure_visited phase i step base lastError attempt s :
  step.(ws_optional) = false →
  wp (handleRequiredFailure phase i step base lastError attempt) (visited phase i step s) host_error s.
Proof.
  intros Ho. unfold handleRequiredFailure. destruct s as [h l w].
  apply wp_quiet_then; [walk_step; quiet_leaf|]. intros _ [h1 l1 w1].
  apply wp_quiet_then; [walk_step; quiet_leaf|]. intros used [h2 l2 w2].
  apply wp_quiet_then; [destruct (h_triageFailure host); quiet_go|]. intros d [h3 l3 w3].
  assert (retry : ∀ s1, wp (ok <- tryTriageRetry step ;;
      if (ok : bool) then mret (Goto i) else fail_step phase step attempt lastError)
      (visited phase i step s1) host_error s1).
  { intros s1. apply tryTriageRetry_visited; [done|]. intros s2. apply fail_step_visited. }
  destruct d; [apply retry| |apply fail_step_visited].
  apply wp_quiet_then; [walk_step; quiet_leaf|]. intros _ [h4 l4 w4].
  apply wp_quiet_then; [walk_step; quiet_leaf|]. intros v [h5 l5 w5].
  apply wp_quiet_then; [walk_step; quiet_leaf|]. intros _ [h6 l6 w6].
  destruct v; [walk_go; skip_leaf|apply fail_step_visited|apply retry|].
  walk_go. return_leaf. simpl; eauto.
Qed.

Lemma optional_failure_visited phase i step base lastError attempt s :
  step.(ws_optional) = true →
  wp (optional_failure phase i step base lastError attempt) (visited phase i step s) host_error s.
Proof.
  intros Ho. unfold optional_failure. destruct s as [h l w]. walk_step. walk_step. wp_step.
  apply (wp_mono _ (λ b s', quiet (ws_id step) (mk_cs h l w) s' ∧
    (b = true → (MAX_OPTIONAL_TRIAGE_RETRIES <=? count (w_optionalRetries w) (ws_id step))%nat = false))
    _ host_error); [| |done].
  { destruct (h_triageFailure host); [|by walk_step].
    destruct (_ <? MAX_OPTIONAL_TRIAGE_RETRIES)%nat eqn:Hu; [|by walk_step].
    apply Nat.ltb_lt in Hu. walk_go. split; [quiet_leaf|]. intros _. by apply Nat.leb_gt. }
  intros b [h1 l1 w1] [Q Hb]. eapply wp_mono; [|intros n s2 Hv; eapply quiet_visited; [exact Q|exact Hv]|done].
  destruct b; walk_go; [|skip_leaf]. specialize (Hb eq_refl).
  destruct Q as [_ _ _ _ Qo _ _]. simpl in Qo. rewrite <- Qo in Hb |- *.
  goto_leaf. apply moved_optional; [done|by apply spent_insert].
Qed.

Lemma failure_arm_visited phase i step base lastError attempt s :
  wp (failure_arm phase i step base lastError attempt) (visited phase i step s) host_error s.
Proof.
  unfold failure_arm. destruct (ws_optional step) eqn:Ho.
  { wp_step. wp_step. by apply optional_failure_visited. }
  unfold tryLoopback. destruct (loopback_index step (ph_steps phase)) as [j|] eqn:Hj.
  2: { wp_step. wp_step. by apply handleRequiredFailure_visited. }
  destruct s as [h l w]. do 3 walk_step.
  destruct (MAX_STEP_LOOPBACKS <=? count (w_loopbacks w) (ws_id step))%nat eqn:Hu; walk_go.
  - by apply handleRequiredFailure_visited.
  - goto_leaf. apply moved_back; [by apply spent_insert|by rewrite Hj].
Qed.

Lemma agent_arm_visited phase i step base s :
  isPureHumanGate step = false →
  wp (agent_arm phase i step base) (visited phase i step s) host_error s.
Proof.
  intros Hp. unfold agent_arm.
  apply wp_quiet_then.
  { destruct s as [h l w]. apply wp_when; intros _; walk_go; quiet_leaf. }
  intros _ s1. apply wp_quiet_then; [apply attempts_fuel_enough|]. intros e [h2 l2 w2].
  apply wp_quiet_then; [walk_step; quiet_leaf|]. intros a [h3 l3 w3].
  destruct (ae_aborted e || a); [|destruct (ae_ok e)].
  - walk_go. return_leaf. simpl; eauto.
  - by apply ok_arm_visited.
  - apply failure_arm_visited.
Qed.

(** ** One visit *)

Lemma visit_visited phase i step s :
  wp (visit phase i step) (visited phase i step s) host_error s.
Proof.
  unfold visit. destruct s as [h l w]. walk_step. walk_step.
  destruct (decide (ws_id step ∈ w_completed w)) as [Hc|_].
  { walk_step. goto_leaf. by apply moved_on; [eapply passed_resumed|]. }
  walk_step. walk_step. destruct (h_userSkipped host _ _); [apply user_skip_visited|].
  apply wp_quiet_then; [apply blocking_checkpoint_quiet|]. intros c [h1 l1 w1].
  destruct c; [walk_go; return_leaf; by left|].
  apply wp_skip_arm; [apply closing_stage_visited|]. intros s2.
  apply wp_arm; [apply fan_out_arm_visited|]. intros s3.
  apply wp_skip_arm; [apply optional_gate_arm_visited|]. intros s4.
  apply wp_quiet_then; [apply base_ctx_quiet|]. intros base [h5 l5 w5].
  apply wp_quiet_then; [walk_step; quiet_leaf|]. intros _ s6.
  destruct (isPureHumanGate step) eqn:Hp; [apply gate_and_route_visited|by apply agent_arm_visited].
Qed.

(** ** The loop over a phase *)

(** Rule of the loop for an invariant that may depend on what is left of the
    bound. *)
Lemma wp_walk_phase phase (I : nat → nat → cs → Prop) (R : controller_result → cs → Prop)
    (X : walk_error → cs → Prop) :
  (∀ e s, host_error e s → X e s) →
  (∀ i step s s', phase.(ph_steps) !! i = Some step → I 0 i s →
     X (ExecutionBound phase.(ph_id) (maxExecutions (length phase.(ph_steps)))) s') →
  (∀ left i step s j s', phase.(ph_steps) !! i = Some step → I (S left) i s →
     visited phase i step s (Goto j) s' → I left j s') →
  (∀ left i step s r s', phase.(ph_steps) !! i = Some step → I left i s →
     visited phase i step s (Return r) s' → R r s') →
  ∀ left i s, I left i s →
    wp (walk_phase phase left i)
       (λ o s', match o with
                | Some r => R r s'
                | None => ∃ left' j, phase.(ph_steps) !! j = None ∧ I left' j s'
                end) X s.
Proof.
  intros HX HB Hgo Hret left. induction left as [|left IH]; intros i [h l w] HI; simpl;
    (destruct (ph_steps phase !! i) as [step|] eqn:Hi; [|walk_step; eauto]);
    walk_step; walk_step; (destruct b;
      [walk_go; eapply Hret; [exact Hi|exact HI|return_leaf; by left]|]).
  - walk_go. by eapply HB.
  - wp_step. eapply wp_mono; [apply visit_visited|..|exact HX].
    intros [j|r] s' Hv; [|walk_step; by eapply Hret]. apply IH. by eapply Hgo.
Qed.

Lemma resume_at_phases id l l' p n :
  resume_at id l = Some l' → (p, n) ∈ l' → p ∈ l.
Proof.
  induction l as [|q l IH]; simpl; [done|].
  destruct (find_step id (ph_steps q)); [|intros; right; by apply IH].
  intros [= <-] Hp. apply elem_of_cons in Hp as [[= -> ->]|Hp]; [left|right].
  by apply list_elem_of_fmap in Hp as (? & [= -> _] & ?).
Qed.

Lemma phases_to_walk_phases def rid p n : (p, n) ∈ phases_to_walk def rid → p ∈ def.(wd_phases).
Proof.
  assert (Hall : (p, n) ∈ (λ p, (p, 0)) <$> wd_phases def → p ∈ wd_phases def).
  { intros Hp. by apply list_elem_of_fmap in Hp as (? & [= -> _] & ?). }
  unfold phases_to_walk. destruct rid as [id|]; [|done]. destruct (String.eqb id ""); [done|].
  destruct (resume_at id (wd_phases def)) eqn:Hr; simpl; [|done]. by eapply resume_at_phases.
Qed.

(** ** Termination within the execution bound *)

(** What the budgets of the step at index [k] still allow: a jump back costs a
    budget and at most [k] positions, a re-entry costs a budget. *)
Definition lap_target (phase : workflow_phase) (step : workflow_step) : bool :=
  is_review step && bool_decide (is_Some (loopback_index step phase.(ph_steps))).

Definition step_potential (phase : workflow_phase) (w : walk) (k : nat) (step : workflow_step) : nat :=
  ((MAX_STEP_LOOPBACKS - count w.(w_loopbacks) step.(ws_id))
   + (if lap_target phase step
      then MAX_REVIEW_AUTO_REVISIONS - count w.(w_autoRevisions) step.(ws_id) else 0)) * S k
  + (if step.(ws_optional)
     then MAX_OPTIONAL_TRIAGE_RETRIES - count w.(w_optionalRetries) step.(ws_id)
     else MAX_STEP_LOOPBACKS - count w.(w_triageRetries) step.(ws_id)).

Definition potential (phase : workflow_phase) (w : walk) (i : nat) : nat :=
  (length phase.(ph_steps) - i)
  + sum_list (imap (step_potential phase w) phase.(ph_steps)).

(** The bound covers the budgets of a phase, except when the phase is one
    required review that loops to itself. *)
Definition bound_covers (phase : workflow_phase) : bool :=
  match phase.(ph_steps) with
  | [step] => negb (lap_target phase step && negb step.(ws_optional))
  | _ => true
  end.

Lemma sum_imap_le {A} (f g : nat → A → nat) (l : list A) :
  (∀ k x, l !! k = Some x → f k x <= g k x)%nat →
  (sum_list (imap f l) <= sum_list (imap g l))%nat.
Proof.
  revert f g. induction l as [|x l IH]; intros f g Hfg; [done|]. simpl.
  specialize (IH (f ∘ S) (g ∘ S) (λ k y Hy, Hfg (S k) y Hy)). specialize (Hfg 0 x eq_refl). lia.
Qed.

Lemma sum_imap_drop {A} (f g : nat → A → nat) (l : list A) i a d :
  l !! i = Some a → (f i a + d <= g i a)%nat →
  (∀ k x, l !! k = Some x → f k x <= g k x)%nat →
  (sum_list (imap f l) + d <= sum_list (imap g l))%nat.
Proof.
  revert f g i. induction l as [|x l IH]; intros f g i Hi Hd Hfg; [done|].
  destruct i as [|i]; simpl in *.
  - injection Hi as ->.
    pose proof (sum_imap_le (f ∘ S) (g ∘ S) l (λ k y Hy, Hfg (S k) y Hy)). lia.
  - specialize (IH (f ∘ S) (g ∘ S) i Hi Hd (λ k y Hy, Hfg (S k) y Hy)). specialize (Hfg 0 x eq_refl). lia.
Qed.

Lemma visited_potential phase i step s j s' :
  phase.(ph_steps) !! i = Some step →
  visited phase i step s (Goto j) s' →
  (potential phase s'.(cs_walk) j < potential phase s.(cs_walk) i)%nat.
Proof.
  intros Hi Hv. inversion Hv as [j' evs t _ _ _ _ _ Hl Ht Ho Ha Hm|]; subst.
  apply lookup_lt_Some in Hi as Hlen.
  assert (Hle : ∀ k x, ph_steps phase !! k = Some x →
    (step_potential phase (cs_walk s') k x <= step_potential phase (cs_walk s) k x)%nat).
  { intros k x _. unfold step_potential.
    specialize (Hl (ws_id x)). specialize (Ht (ws_id x)). specialize (Ho (ws_id x)). specialize (Ha (ws_id x)).
    apply Nat.add_le_mono; [apply Nat.mul_le_mono_r; destruct (lap_target phase x)|destruct (ws_optional x)]; lia. }
  specialize (Hl (ws_id step)). specialize (Ht (ws_id step)).
  specialize (Ho (ws_id step)). specialize (Ha (ws_id step)).
  assert (Hdrop : ∀ d, (step_potential phase (cs_walk s') i step + d <= step_potential phase (cs_walk s) i step)%nat →
    (i < j + d)%nat → (potential phase (cs_walk s') j < potential phase (cs_walk s) i)%nat).
  { intros d Hd Hj. unfold potential.
    pose proof (sum_imap_drop _ _ _ i step d Hi Hd Hle). lia. }
  unfold step_potential in Hdrop.
  destruct Hm as [_ _|j (H1 & H2 & _) Hj|j Hr (H1 & H2 & _) Hj|Hopt (H1 & H2 & _)|Hopt (H1 & H2 & _)].
  - unfold potential. pose proof (sum_imap_le _ _ _ Hle). lia.
  - apply (Hdrop (S i)); [|lia]. destruct (lap_target phase step), (ws_optional step); nia.
  - apply (Hdrop (S i)); [|lia].
    assert (lap_target phase step = true) as ->.
    { unfold lap_target. rewrite Hr, Hj. by apply bool_decide_eq_true_2. }
    destruct (ws_optional step); nia.
  - apply (Hdrop 1); [|lia]. rewrite Hopt. destruct (lap_target phase step); nia.
  - apply (Hdrop 1); [|lia]. rewrite Hopt. destruct (lap_target phase step); nia.
Qed.

Lemma step_potential_bound phase w k step : (step_potential phase w k step <= 8 * S k + 5)%nat.
Proof.
  unfold step_potential, MAX_STEP_LOOPBACKS, MAX_REVIEW_AUTO_REVISIONS, MAX_OPTIONAL_TRIAGE_RETRIES.
  apply Nat.add_le_mono; [apply Nat.mul_le_mono_r|]; case_match; lia.
Qed.

Lemma sum_imap_bound {A} (f : nat → A → nat) (l : list A) b :
  (∀ k x, l !! k = Some x → f k x <= b)%nat → (sum_list (imap f l) <= b * length l)%nat.
Proof.
  revert f. induction l as [|x l IH]; intros f Hf; simpl; [lia|].
  specialize (IH (f ∘ S) (λ k y Hy, Hf (S k) y Hy)). specialize (Hf 0 x eq_refl). lia.
Qed.

Lemma initial_potential phase w i :
  bound_covers phase = true →
  (potential phase w i <= maxExecutions (length phase.(ph_steps)))%nat.
Proof.
  intros Hc. unfold potential, maxExecutions.
  pose proof (sum_imap_bound (step_potential phase w) (ph_steps phase) (8 * length (ph_steps phase) + 5)) as Hsum.
  destruct (ph_steps phase) as [|x [|y l]] eqn:Hs; [simpl; lia| |].
  - unfold bound_covers in Hc. rewrite Hs in Hc. clear Hsum. simpl.
    unfold step_potential, MAX_STEP_LOOPBACKS, MAX_REVIEW_AUTO_REVISIONS, MAX_OPTIONAL_TRIAGE_RETRIES.
    destruct (lap_target phase x), (ws_optional x); simpl in Hc; try discriminate; lia.
  - assert (2 <= length (x :: y :: l))%nat by (simpl; lia).
    assert (sum_list (imap (step_potential phase w) (x :: y :: l))
            <= (8 * length (x :: y :: l) + 5) * length (x :: y :: l))%nat.
    { apply Hsum. intros k z Hz%lookup_lt_Some. etransitivity; [apply step_potential_bound|]. lia. }
    generalize dependent (sum_list (imap (step_potential phase w) (x :: y :: l))).
    generalize dependent (length (x :: y :: l)). unfold MAX_STEP_LOOPBACKS. intros n Hn m _ Hm.
    pose proof (Nat.mul_le_mono_r 2 n n Hn). nia.
Qed.

Lemma wp_walk_phases (l : list (workflow_phase * nat)) (J : list (workflow_phase * nat) → cs → Prop)
    (R : controller_result → cs → Prop) (X : walk_error → cs → Prop) :
  (∀ s, J [] s → R (mk_result o_completed s.(cs_walk).(w_steps) None)
      (mk_cs s.(cs_host) (s.(cs_log) ++ [HNotifyFinished o_completed None]) s.(cs_walk))) →
  (∀ p n l' s, J ((p, n) :: l') s →
     wp (walk_phase p (maxExecutions (length p.(ph_steps))) n)
        (λ o s', match o with Some r => R r s' | None => J l' s' end) X s) →
  ∀ s, J l s → wp (walk_phases l) R X s.
Proof.
  intros Hend Hphase. induction l as [|[p n] l IH]; intros s HJ; simpl.
  - destruct s as [h lg w]. apply wp_finish. by apply (Hend (mk_cs h lg w)).
  - wp_step. eapply wp_mono; [by apply Hphase|..|done].
    intros [r|] s' Hr; [by wp_step|by apply IH].
Qed.

Lemma wp_controller_run def rid completed (Q : controller_result → cs → Prop) X h0 :
  (∀ t, wp (walk_phases (phases_to_walk def rid)) Q X
          (mk_cs h0 [HNotifyStarted] (initial_walk def completed t))) →
  match run_from h0 def rid completed with
  | (Ok r, s') => Q r s'
  | (Throw e, s') => X e s'
  end.
Proof. intros Hw. apply Hw. Qed.

(** C3: A walk over a workflow definition ends: whatever the agents, gates, supervisor,
    operator and clock do, it returns a result or ends with a throw of its host, and it
    never trips its execution bound, however the retry, pause, loopback, revise, triage and
    review budgets are spent, provided no phase consists of a single required adversarial
    review that loops to itself. *)
Theorem run_never_overruns (h0 : H) def rid completed :
  Forall (λ p, bound_covers p = true) def.(wd_phases) →
  (∃ r s', run_from h0 def rid completed = (Ok r, s')) ∨
  (∃ msg s', run_from h0 def rid completed = (Throw (HostThrew msg), s')).
Proof.
  intros Hc.
  assert (Hrun := wp_controller_run def rid completed (λ _ _, True) host_error h0).
  destruct (run_from h0 def rid completed) as [[r|e] s'] eqn:Hr; [eauto|].
  right. destruct Hrun as [msg ->]; [|eauto].
  intros t. apply (wp_walk_phases _ (λ l _, ∀ p n, (p, n) ∈ l → bound_covers p = true)); [done|..].
  - intros p n l' s Hl.
    eapply wp_mono; [apply (wp_walk_phase p (λ left i s, (potential p s.(cs_walk) i <= left)%nat) (λ _ _, True) host_error)|..|done].
    + done.
    + intros i step s1 s2 Hi%lookup_lt_Some Hpot. unfold potential in Hpot. lia.
    + intros left i step s1 j s2 Hi Hpot Hv. pose proof (visited_potential _ _ _ _ _ _ Hi Hv). lia.
    + done.
    + apply initial_potential. apply (Hl p n). by left.
    + intros [r'|] s1 _; [done|]. intros q m Hq. apply (Hl q m). by right.
  - intros p n Hp%phases_to_walk_phases. rewrite Forall_forall in Hc. by apply Hc.
Qed.

(** ** What a result says about the run *)

Definition ends_run (e : host_event) : bool :=
  match e with HNotifyFinished _ _ => true | _ => false end.

(** The reports recorded with the host, oldest first, are the result's; the run
    is announced finished once, last; and the outcome is the one of the last
    report. *)
Record well_reported (r : controller_result) (log : list host_event) : Prop := {
  wr_steps : r.(cr_steps) = records log;
  wr_finish : ∃ pre, log = pre ++ [HNotifyFinished r.(cr_outcome) r.(cr_failedStepId)] ∧
                     Forall (λ e, ends_run e = false) pre;
  wr_outcome : match r.(cr_failedStepId) with
               | None => r.(cr_outcome) = o_completed ∧ Forall passing r.(cr_steps)
               | Some id => ∃ ok end_, r.(cr_steps) = ok ++ end_ ∧ Forall passing ok ∧
                                       ended_with id r.(cr_outcome) end_
               end
}.

Record reporting (s : cs) : Prop := {
  rp_steps : s.(cs_walk).(w_steps) = records s.(cs_log);
  rp_passing : Forall passing (records s.(cs_log));
  rp_open : Forall (λ e, ends_run e = false) s.(cs_log)
}.

Lemma about_open id l : Forall (about id) l → Forall (λ e, ends_run e = false) l.
Proof. intros HF. eapply Forall_impl; [exact HF|by intros []]. Qed.

Lemma visited_reporting phase i step s j s' :
  reporting s → visited phase i step s (Goto j) s' → reporting s'.
Proof.
  intros [Hs Hp Ho] Hv. inversion Hv as [j' evs t HL HS HF HP|]; subst.
  split; rewrite ?HS, ?Hs, HL, ?records_app, ?Forall_app; split_and?; eauto using about_open.
Qed.

Lemma visited_well_reported phase i step s r s' :
  reporting s → visited phase i step s (Return r) s' → well_reported r s'.(cs_log).
Proof.
  intros [Hs Hp Ho] Hv. inversion Hv as [|o pre evs r' t Hr HL Hpre HS HF HE]; subst. split; simpl.
  - rewrite HS, Hs, HL, !records_app. simpl. by rewrite app_nil_r.
  - eexists. split; [exact HL|]. apply Forall_app; eauto using about_open.
  - exists (records s.(cs_log)), (records evs). by rewrite HS, Hs.
Qed.

(** C5: The result of a walk tells what happened: its steps are the reports recorded with
    the host in order, the end of the run is announced exactly once, last and with the same
    outcome; a completed run has only done and skipped reports, and a failed, rejected or
    canceled run has only done and skipped reports followed by the one of the named step
    with that outcome (a cancellation may come without one). *)
Theorem run_well_reported (h0 : H) def rid completed :
  match run_from h0 def rid completed with
  | (Ok r, s') => well_reported r s'.(cs_log)
  | (Throw _, _) => True
  end.
Proof.
  apply (wp_controller_run def rid completed (λ r s', well_reported r s'.(cs_log)) (λ _ _, True)).
  intros t. apply (wp_walk_phases _ (λ _ s, reporting s)); [| |by repeat constructor].
  - intros s [Hs Hp Ho]. split; simpl; [by rewrite records_app, app_nil_r|by eauto|by rewrite Hs].
  - intros p n l' s Hs.
    eapply wp_mono; [apply (wp_walk_phase p (λ _ _ s, reporting s)
      (λ r s', well_reported r s'.(cs_log)) (λ _ _, True))|..]; try done.
    + intros. by eapply visited_reporting.
    + intros. by eapply visited_well_reported.
    + by intros [r|] s' Hr; [|destruct Hr as (_ & _ & _ & ?)].
Qed.

(** ** Every step of a completed run was passed *)

Definition reports_of (id : string) (log : list host_event) : list step_report :=
  filter (λ r, r.(sr_stepId) = id) (records log).
Definition gates_of (id : string) (log : list host_event) : list gate_decision :=
  omap (λ e, match e with
             | HGate g _ d => if String.eqb g id then Some d else None
             | _ => None
             end) log.

(** The step is in the resume set, or its last report is a skip, or its last
    report is a success and its gate, if any, was last answered by an approval. *)
Inductive settled_step (log : list host_event) (completed : gset string)
    (phase : workflow_phase) (step : workflow_step) : Prop :=
  | settled_resumed : step.(ws_id) ∈ completed → settled_step log completed phase step
  | settled_skipped r :
      last (reports_of step.(ws_id) log) = Some r → r.(sr_phaseId) = phase.(ph_id) →
      r.(sr_outcome) = r_skipped → settled_step log completed phase step
  | settled_done r :
      last (reports_of step.(ws_id) log) = Some r → r.(sr_phaseId) = phase.(ph_id) →
      r.(sr_outcome) = r_done →
      (gated step = true → last (gates_of step.(ws_id) log) = Some approve) →
      settled_step log completed phase step.

Lemma about_other id id' evs :
  id ≠ id' → Forall (about id) evs → reports_of id' evs = [] ∧ gates_of id' evs = [].
Proof.
  intros Hne HF. unfold reports_of, gates_of. induction HF as [|e evs He _ [IH1 IH2]]; [done|].
  destruct e; simpl in *; rewrite ?IH1, ?IH2; try done.
  - split; [|done]. rewrite filter_cons_False by congruence. done.
  - split; [done|]. destruct (String.eqb_spec stepId id'); [congruence|done].
Qed.

Lemma reports_of_app id l l' : reports_of id (l ++ l') = reports_of id l ++ reports_of id l'.
Proof. unfold reports_of. by rewrite records_app, filter_app. Qed.
Lemma gates_of_app id l l' : gates_of id (l ++ l') = gates_of id l ++ gates_of id l'.
Proof. apply omap_app. Qed.

Lemma settled_more log evs c c' phase step :
  reports_of step.(ws_id) evs = [] → gates_of step.(ws_id) evs = [] →
  (step.(ws_id) ∈ c → step.(ws_id) ∈ c') →
  settled_step log c phase step → settled_step (log ++ evs) c' phase step.
Proof.
  intros Hr Hg Hc [Hin|r H1 H2 H3|r H1 H2 H3 H4];
    [apply settled_resumed|eapply settled_skipped|eapply settled_done];
    rewrite ?reports_of_app, ?gates_of_app, ?Hr, ?Hg, ?app_nil_r; eauto.
Qed.

(** Events about another step leave a settled step settled. *)
Lemma settled_frame log evs c c' phase step id :
  id ≠ step.(ws_id) → Forall (about id) evs → (step.(ws_id) ∈ c → step.(ws_id) ∈ c') →
  settled_step log c phase step → settled_step (log ++ evs) c' phase step.
Proof. intros Hne HF. destruct (about_other _ _ _ Hne HF). by apply settled_more. Qed.

Lemma passed_settled log evs c phase step :
  passed phase step evs c → settled_step (log ++ evs) c phase step.
Proof.
  intros [_ Hin|n e d Hr|n Hr Hg]; [by apply settled_resumed| |].
  - eapply (settled_skipped _ _ _ _ (mk_report _ _ _ _ _ _)); [|reflexivity..].
    rewrite reports_of_app. unfold reports_of at 2. rewrite Hr, filter_cons_True by done.
    apply last_snoc.
  - eapply (settled_done _ _ _ _ (mk_report _ _ _ _ _ _)); [|reflexivity..|].
    { rewrite reports_of_app. unfold reports_of at 2. rewrite Hr, filter_cons_True by done. apply last_snoc. }
    intros G. destruct (Hg G) as (pre & ctx & post & -> & Hpost).
    assert (gates_of (ws_id step) (HGate (ws_id step) ctx approve :: post)
            = approve :: gates_of (ws_id step) post) as Hcons
      by (unfold gates_of; simpl; by rewrite String.eqb_refl).
    assert (gates_of (ws_id step) post = []) as Hpost'.
    { clear Hg Hr Hcons. unfold gates_of. by induction Hpost as [|[] ? ? ? IH]; [done|..]; first [exact IH|done]. }
    rewrite app_assoc, gates_of_app, Hcons, Hpost'. apply last_snoc.
Qed.

(** Loopbacks name the step itself or an earlier one. *)
Definition backward_loopbacks (phase : workflow_phase) : Prop :=
  ∀ i step j, phase.(ph_steps) !! i = Some step →
    loopback_index step phase.(ph_steps) = Some j → (j <= i)%nat.

Definition all_step_ids (phases : list workflow_phase) : list string :=
  flat_map (λ p, ws_id <$> p.(ph_steps)) phases.

Lemma resume_at_suffix id l l' : resume_at id l = Some l' → (fst <$> l') `suffix_of` l.
Proof.
  revert l'. induction l as [|p l IH]; intros l'; simpl; [done|].
  destruct (find_step id (ph_steps p)).
  - intros [= <-]. simpl. rewrite <- list_fmap_compose. unfold compose. simpl. by rewrite list_fmap_id.
  - intros Hr. apply suffix_cons_r. by apply IH.
Qed.

Lemma phases_to_walk_suffix def rid : (fst <$> phases_to_walk def rid) `suffix_of` def.(wd_phases).
Proof.
  assert (Hall : (fst <$> ((λ p, (p, 0)) <$> wd_phases def)) `suffix_of` wd_phases def).
  { rewrite <- list_fmap_compose. unfold compose. simpl. by rewrite list_fmap_id. }
  unfold phases_to_walk. destruct rid as [id|]; [|done]. destruct (String.eqb id ""); [done|].
  destruct (resume_at id (wd_phases def)) eqn:Hr; simpl; [|done]. by eapply resume_at_suffix.
Qed.

Lemma all_step_ids_app l l' : all_step_ids (l ++ l') = all_step_ids l ++ all_step_ids l'.
Proof. apply flat_map_app. Qed.

Lemma step_id_in phase k step :
  phase.(ph_steps) !! k = Some step → step.(ws_id) ∈ ws_id <$> phase.(ph_steps).
Proof. intros Hk. apply list_elem_of_fmap. exists step. split; [done|]. by eapply list_elem_of_lookup_2. Qed.

Lemma phase_id_in phases q k step :
  q ∈ phases → q.(ph_steps) !! k = Some step → step.(ws_id) ∈ all_step_ids phases.
Proof.
  intros Hq Hk. unfold all_step_ids. apply list_elem_of_In, in_flat_map. exists q.
  split; [by apply list_elem_of_In|]. by apply list_elem_of_In, (step_id_in _ k).
Qed.

(** What the walk has settled: the steps of the earlier phases and the steps of
    the current phase from its start up to the position. *)
Definition settled_range (s : cs) (phase : workflow_phase) (from to : nat) : Prop :=
  ∀ k step, (from <= k < to)%nat → phase.(ph_steps) !! k = Some step →
    settled_step s.(cs_log) s.(cs_walk).(w_completed) phase step.
Definition settled_phases (s : cs) (before : list (workflow_phase * nat)) : Prop :=
  ∀ q m, (q, m) ∈ before → settled_range s q m (length q.(ph_steps)).

Section Visit.
Context (phase : workflow_phase) (i : nat) (step : workflow_step) (s s' : cs) (j : nat).
Context (Hi : phase.(ph_steps) !! i = Some step).
Context (Hv : visited phase i step s (Goto j) s').

Lemma visit_completed : s'.(cs_walk).(w_completed) ⊆ s.(cs_walk).(w_completed).
Proof. inversion Hv as [j' evs t _ _ _ _ HC|]; subst. destruct HC as [->| ->]; set_solver. Qed.

(** Steps of other phases, when ids are unique, are not touched. *)
Lemma visit_settled_phases before rest n :
  NoDup (all_step_ids (fst <$> (before ++ (phase, n) :: rest))) →
  settled_phases s before → settled_phases s' before.
Proof.
  intros HN HS q m Hq k st Hk Hst. specialize (HS q m Hq k st Hk Hst).
  inversion Hv as [j' evs t HL _ HF _ HC|]; subst. rewrite HL.
  rewrite fmap_app, all_step_ids_app in HN. apply NoDup_app in HN as (_ & HN & _).
  assert (Hin : ws_id st ∈ all_step_ids (fst <$> before)).
  { apply (phase_id_in _ q k); [|done]. apply list_elem_of_fmap. by exists (q, m). }
  specialize (HN _ Hin). simpl in HN. rewrite elem_of_app in HN.
  eapply settled_frame; [|exact HF| |exact HS].
  - intros Heq. apply HN. left. rewrite <- Heq. by eapply step_id_in.
  - intros Hc. destruct HC as [->| ->]; [done|]. apply elem_of_difference. split; [done|].
    rewrite elem_of_list_to_set. intros Hd. apply HN. left.
    apply list_elem_of_fmap in Hd as (x & -> & Hx). apply list_elem_of_fmap. exists x. split; [done|].
    by eapply subseteq_drop.
Qed.

Lemma visit_frame k st :
  NoDup (ws_id <$> phase.(ph_steps)) → k ≠ i → (k < j)%nat → phase.(ph_steps) !! k = Some st →
  settled_step s.(cs_log) s.(cs_walk).(w_completed) phase st →
  settled_step s'.(cs_log) s'.(cs_walk).(w_completed) phase st.
Proof.
  intros HN Hki Hkj Hst HS. inversion Hv as [j' evs t HL _ HF _ HC|]; subst. rewrite HL.
  assert (Hlook : ∀ m x, ph_steps phase !! m = Some x → ws_id x = ws_id st → m = k).
  { intros m x Hx Heq. eapply NoDup_lookup; [exact HN| |]; rewrite list_lookup_fmap.
    - rewrite Hx. simpl. by rewrite Heq.
    - by rewrite Hst. }
  eapply settled_frame; [|exact HF| |exact HS].
  - intros Heq. by apply Hki, eq_sym, (Hlook i step).
  - intros Hc. destruct HC as [->| ->]; [done|]. apply elem_of_difference. split; [done|].
    rewrite elem_of_list_to_set. intros (x & Heq & Hx)%list_elem_of_fmap.
    apply list_elem_of_lookup in Hx as [m Hx]. rewrite lookup_drop in Hx.
    specialize (Hlook _ _ Hx (eq_sym Heq)). lia.
Qed.

Lemma visit_settled_range n :
  NoDup (ws_id <$> phase.(ph_steps)) → backward_loopbacks phase →
  settled_range s phase n i → settled_range s' phase n j.
Proof.
  intros HN Hback HS k st Hk Hst.
  assert (Hj : (j <= i)%nat ∨
    j = S i ∧ ∃ evs, s'.(cs_log) = s.(cs_log) ++ evs ∧
      passed phase step evs s.(cs_walk).(w_completed) ∧
      s'.(cs_walk).(w_completed) = s.(cs_walk).(w_completed)).
  { inversion Hv as [j' evs t HL _ _ _ _ _ _ _ _ Hm|]; subst.
    destruct Hm as [Hp Hc|j _ ->|j _ _ Hj|? _|? _]; [right; eauto|left..]; [|by eapply Hback|lia|lia].
    destruct (loopback_index step (ph_steps phase)) eqn:Hl; simpl; [by eapply Hback|lia]. }
  destruct (decide (k = i)) as [->|Hne].
  - destruct Hj as [?|[_ (evs & -> & Hp & ->)]]; [lia|]. simplify_eq. by apply passed_settled.
  - apply (visit_frame k); try done; [lia|]. apply (HS k); [|done].
    destruct Hj as [?|[-> _]]; lia.
Qed.
End Visit.

Lemma NoDup_phase_ids phases p : p ∈ phases → NoDup (all_step_ids phases) → NoDup (ws_id <$> p.(ph_steps)).
Proof.
  intros [l1 [l2 ->]]%list_elem_of_split HN. rewrite all_step_ids_app in HN.
  apply NoDup_app in HN as (_ & _ & HN). simpl in HN. by apply NoDup_app in HN as (? & _ & _).
Qed.

(** C4: When a walk over a definition with unique step ids and backward loopbacks completes,
    every step from the start (or the resume target) on was passed: it was completed before
    the restart and never revisited, or its last report is a skip, or its last report is a
    success and then its gate, if it has one, was last answered by an approval. *)
Theorem run_completed_spec (h0 : H) def rid completed r s' :
  NoDup (all_step_ids def.(wd_phases)) →
  Forall backward_loopbacks def.(wd_phases) →
  run_from h0 def rid completed = (Ok r, s') → r.(cr_outcome) = o_completed →
  s'.(cs_walk).(w_completed) ⊆ completed ∧
  ∀ phase start k step, (phase, start) ∈ phases_to_walk def rid → (start <= k)%nat →
    phase.(ph_steps) !! k = Some step →
    settled_step s'.(cs_log) s'.(cs_walk).(w_completed) phase step.
Proof.
  intros HN Hback Hrun Ho.
  set (L := phases_to_walk def rid) in *.
  assert (HNL : NoDup (all_step_ids (fst <$> L))).
  { destruct (phases_to_walk_suffix def rid) as [pre Hpre]. rewrite Hpre, all_step_ids_app in HN.
    by apply NoDup_app in HN as (_ & _ & ?). }
  assert (Hw := wp_controller_run def rid completed (λ r s', r.(cr_outcome) = o_completed →
     s'.(cs_walk).(w_completed) ⊆ completed ∧ settled_phases s' L) (λ _ _, True) h0).
  rewrite Hrun in Hw. destruct Hw as [Hsub HS]; [|done|].
  2: { split; [done|]. intros phase start k step Hp Hk Hst. apply (HS _ _ Hp k); [|done].
       split; [done|]. by eapply lookup_lt_Some. }
  intros t. apply (wp_walk_phases _ (λ l s, ∃ before, L = before ++ l ∧
    s.(cs_walk).(w_completed) ⊆ completed ∧ settled_phases s before)).
  - intros s (before & HL & Hc & HS) _. rewrite HL, app_nil_r. split; [done|].
    intros q m Hq k st Hk Hst. apply (settled_more _ _ (w_completed (cs_walk s))); [done..|].
    by apply (HS q m Hq k).
  - intros p n l' s (before & HL & Hc & HS).
    assert (Hp : p ∈ fst <$> L) by (rewrite HL, fmap_app; apply elem_of_app; right; by left).
    pose proof (NoDup_phase_ids _ _ Hp HNL) as HNp.
    assert (Hbp : backward_loopbacks p).
    { rewrite Forall_forall in Hback. apply Hback.
      apply list_elem_of_fmap in Hp as ([? m] & -> & Hp). by apply (phases_to_walk_phases def rid _ m). }
    eapply wp_mono; [apply (wp_walk_phase p (λ _ i s,
      (s.(cs_walk).(w_completed) ⊆ completed ∧ settled_phases s before) ∧ settled_range s p n i)
      (λ r _, r.(cr_outcome) ≠ o_completed) (λ _ _, True))|..]; try done.
    + intros left i step s1 j s2 Hi [[Hc1 HS1] HR1] Hv. split; [split|].
      * etransitivity; [by eapply visit_completed|done].
      * eapply visit_settled_phases; [exact Hi|exact Hv| |exact HS1]. by rewrite <- HL.
      * by eapply visit_settled_range.
    + intros left i step s1 r1 s2 Hi _ Hv. inversion Hv as [|o ? ? ? ? -> _ _ _ _ He]; subst. simpl.
      by intros ->.
    + split; [done|]. intros k st Hk. lia.
    + intros [r1|] s1; [done|]. intros (left & j & Hj & [Hc1 HS1] & HR). exists (before ++ [(p, n)]).
      rewrite <- app_assoc. split_and!; [done|done|].
      intros q m [Hq|Hq]%elem_of_app; [by apply HS1|].
      apply list_elem_of_singleton in Hq as [= -> ->]. intros k st Hk. apply HR.
      apply lookup_ge_None in Hj. lia.
  - exists []. split_and!; [done|done|]. intros q m Hq. by apply not_elem_of_nil in Hq.
Qed.
End Controller.

(** ** Concrete walks *)

Section Concrete.
Definition no_review : parsed_review := mk_parsed [] [].
Definition ok_with (text : option string) : step_run_result := mk_step_result st_ok None text false None None.
Definition failed_with (e : string) : step_run_result := mk_step_result st_failed (Some e) None false None None.

(** A host that never throws: it counts the agent runs, answers the [n]-th one
    with [runs n], approves every gate, grants every retry and every lap. *)
Definition counting_host (runs : nat → step_run_result) (gate : gate_decision) : ControllerHost nat :=
  mk_host
    (λ _ _ n, (Ok (runs n), S n))
    (λ _ _ n, (Ok gate, n))
    None None
    (λ _ _ _ pauses giveUps n, (Ok (mk_fan_result false 0 pauses giveUps), n))
    None None
    (Some (λ _ _ _ _ n, (Ok t_retry, n)))
    (Some (λ _ _ n, (Ok (d_loop "try again"), n)))
    None None (λ _, 0%Z) (λ _, false) (λ _ _, false).

Definition walk_with (runs : nat → step_run_result) (gate : gate_decision) (def : workflow_definition) :=
  run_from (counting_host runs gate) (λ _ _, None) (λ _, no_review) id 0 def None ∅.

Definition plain_step (id agent : string) (human : bool) (loopback : option string) : workflow_step :=
  mk_step id id agent 0 false human loopback None false false.

(** The verdict line of a blocking adversarial review. *)
Definition blocking_text : string := "REVIEW: BLOCKING".

(** One required review that loops to itself. *)
Definition self_review : workflow_definition :=
  mk_definition "looping"
    [mk_phase "review" "Review" "#aabbcc" [plain_step "review" REVIEW_AGENT false (Some "review")]].

(** Plan, review (which loops to the plan) and a final gate. *)
Definition plan_review : workflow_definition :=
  mk_definition "planning"
    [mk_phase "plan" "Plan" "#aabbcc"
       [plain_step "plan" "planner" false None;
        plain_step "review" REVIEW_AGENT true (Some "plan");
        plain_step "approve" HUMAN_GATE_AGENT true (Some "plan")]].

(** Three blocking rounds, then failures. *)
Definition three_rounds_then_fail (n : nat) : step_run_result :=
  if (n <? 3)%nat then ok_with (Some blocking_text) else failed_with "boom".
Definition always_ok (_ : nat) : step_run_result := ok_with (Some "done").
End Concrete.

(** The execution bound of a phase does not cover the automatic review laps: a
    definition the validator accepts, one required adversarial review that loops to itself,
    makes the walk throw the bound error on its fourteenth visit although each single budget
    was respected and the host never threw. *)
Theorem bound_excludes_review_laps :
  valid_definition self_review = true ∧
  (walk_with three_rounds_then_fail approve self_review).1 = Throw (ExecutionBound "review" 13).
Proof. split; vm_compute; reflexivity. Qed.

Lemma plan_review_covered : Forall (λ p, bound_covers p = true) plan_review.(wd_phases).
Proof. by repeat constructor. Qed.

Lemma run_never_overruns_witness :
  Forall (λ p, bound_covers p = true) plan_review.(wd_phases) ∧
  ((∃ r s', walk_with always_ok approve plan_review = (Ok r, s')) ∨
   (∃ msg s', walk_with always_ok approve plan_review = (Throw (HostThrew msg), s'))).
Proof.
  split; [exact plan_review_covered|].
  apply (run_never_overruns (counting_host always_ok approve) (λ _ _, None) (λ _, no_review) id 0
           plan_review None ∅ plan_review_covered).
Defined.

Lemma plan_review_ids : NoDup (all_step_ids plan_review.(wd_phases)).
Proof. apply (bool_decide_eq_true _). vm_compute. reflexivity. Qed.

Lemma plan_review_backward : Forall backward_loopbacks plan_review.(wd_phases).
Proof.
  repeat constructor. intros i step j Hi.
  destruct i as [|[|[|i]]]; simpl in Hi; try discriminate; injection Hi as <-; vm_compute;
    intros [= <-]; lia.
Qed.

Definition plan_review_walk := walk_with always_ok approve plan_review.

Lemma run_completed_spec_witness :
  ∃ r s', plan_review_walk = (Ok r, s') ∧ r.(cr_outcome) = o_completed ∧
    length r.(cr_steps) = 3 ∧
    s'.(cs_walk).(w_completed) ⊆ ∅ ∧
    settled_step s'.(cs_log) s'.(cs_walk).(w_completed) (mk_phase "plan" "Plan" "#aabbcc"
      [plain_step "plan" "planner" false None;
       plain_step "review" REVIEW_AGENT true (Some "plan");
       plain_step "approve" HUMAN_GATE_AGENT true (Some "plan")])
      (plain_step "approve" HUMAN_GATE_AGENT true (Some "plan")).
Proof.
  destruct plan_review_walk as [[r|e] s'] eqn:Hw; [|vm_compute in Hw; discriminate].
  assert (Ho : r.(cr_outcome) = o_completed ∧ length r.(cr_steps) = 3)
    by (vm_compute in Hw; injection Hw as <- <-; done).
  destruct Ho as [Ho Hlen].
  destruct (run_completed_spec (counting_host always_ok approve) (λ _ _, None) (λ _, no_review) id 0
    plan_review None ∅ r s' plan_review_ids plan_review_backward Hw Ho) as [Hc Hs].
  exists r, s'. split_and!; try done.
  apply (Hs _ 0 2); [by left|lia|reflexivity].
Defined.
