(* ===== verification/JsNumber.v ===== *)
(** * JavaScript numbers and scalars

    A number is an IEEE binary64 value, with Stdlib's specification of the
    arithmetic ([SpecFloat], precision 53, greatest exponent 1024).  The decimal
    notation of a number, [String(x)], is not modelled: the code that prints one
    takes it as an argument. *)

From Stdlib Require Import SpecFloat.
From S2P Require Import Prelude.

Notation num := spec_float.

#[export] Instance num_eq_dec : EqDecision num.
Proof. solve_decision. Defined.

Definition nadd : num → num → num := SFadd 53 1024.
Definition nsub : num → num → num := SFsub 53 1024.
Definition nmul : num → num → num := SFmul 53 1024.
Definition ndiv : num → num → num := SFdiv 53 1024.

(** The number an integer literal denotes. *)
Definition num_of_Z (z : Z) : num := binary_normalize 53 1024 z 0 false.
Definition nzero : num := S754_zero false.
Definition ninf (neg : bool) : num := S754_infinity neg.

(** [a === b], [a < b], [a <= b] *)
Definition neqb : num → num → bool := SFeqb.
Definition nltb : num → num → bool := SFltb.
Definition nleb : num → num → bool := SFleb.

Definition is_nan (x : num) : bool := match x with S754_nan => true | _ => false end.
Definition is_finite (x : num) : bool :=
  match x with S754_zero _ | S754_finite _ _ _ => true | _ => false end.

(** The value of an integral number; [None] is a fraction or not finite. *)
Definition to_Z (x : num) : option Z :=
  match x with
  | S754_zero _ => Some 0%Z
  | S754_finite s m e =>
      let v := Z.pos m in
      let sgn (z : Z) := if s then (- z)%Z else z in
      if (0 <=? e)%Z then Some (sgn (v * 2 ^ e)%Z)
      else if (v mod 2 ^ (- e) =? 0)%Z then Some (sgn (v / 2 ^ (- e))%Z) else None
  | _ => None
  end.

(** [Number.isInteger(x)] *)
Definition isInteger (x : num) : bool := match to_Z x with Some _ => true | None => false end.

(** [Math.min] and [Math.max] of two numbers; [-0] is below [0]. *)
Definition min2 (a b : num) : num :=
  if is_nan a || is_nan b then S754_nan
  else if nltb a b then a
  else if nltb b a then b
  else match a with S754_zero true => a | _ => b end.
Definition max2 (a b : num) : num :=
  if is_nan a || is_nan b then S754_nan
  else if nltb b a then a
  else if nltb a b then b
  else match a with S754_zero false => a | _ => b end.

(** ** Scalars: [string | number | boolean | null] *)

Inductive scalar := SStr (s : string) | SNum (n : num) | SBool (b : bool) | SNull.

#[export] Instance scalar_eq_dec : EqDecision scalar.
Proof. solve_decision. Defined.

(** [a === b] *)
Definition strict_eq (a b : scalar) : bool :=
  match a, b with
  | SStr s, SStr t => String.eqb s t
  | SNum x, SNum y => neqb x y
  | SBool p, SBool q => Bool.eqb p q
  | SNull, SNull => true
  | _, _ => false
  end.

(** [l.includes(a)] compares like [===], except that NaN equals itself. *)
Definition same_value_zero (a b : scalar) : bool :=
  match a, b with
  | SNum S754_nan, SNum S754_nan => true
  | _, _ => strict_eq a b
  end.

(** [a ?? b] *)
Definition or_default (a : option scalar) (b : scalar) : scalar :=
  match a with
  | Some SNull | None => b
  | Some v => v
  end.

(** ** JSON values; an object lists its members in their order. *)

Inductive json_value :=
  | JScalar (s : scalar)
  | JArr (l : list json_value)
  | JObj (l : list (string * json_value)).

(** [value.key] *)
Definition json_member (key : string) (v : json_value) : option json_value :=
  match v with
  | JObj l => map_get key l
  | _ => None
  end.

(** [Math.trunc(x)] of a finite number. *)
Definition trunc_Z (x : num) : option Z :=
  match x with
  | S754_zero _ => Some 0%Z
  | S754_finite s m e =>
      let v := if (0 <=? e)%Z then (Z.pos m * 2 ^ e)%Z else (Z.pos m / 2 ^ (- e))%Z in
      Some (if s then (- v)%Z else v)
  | _ => None
  end.

Example three_is_integral : to_Z (num_of_Z 3) = Some 3%Z ∧ to_Z (ndiv (num_of_Z 1) (num_of_Z 2)) = None.
Proof. split; vm_compute; reflexivity. Qed.
Example tenths_do_not_add_up :
  neqb (nadd (ndiv (num_of_Z 1) (num_of_Z 10)) (ndiv (num_of_Z 2) (num_of_Z 10)))
       (ndiv (num_of_Z 3) (num_of_Z 10)) = false.
Proof. vm_compute. reflexivity. Qed.
