(* ===== verification/WidgetSpec.v ===== *)
(** * Widget specs: validation, settings, templates

    Models [shared/customViews/validate.ts] over the types of
    [shared/types/customViews.ts]: the schema of a widget spec with its
    cross-field rules, the resolution of [{setting}] references, and the
    substitution of template tokens in action parameters.

    A [Record] is an association list in the order [Object.entries] lists it.
    Error messages are constructors.  Left out: labels and formats of a render,
    the options and ranges of a setting, the navigation target of an action,
    layouts and view names. *)

From Stdlib Require Import SpecFloat Ascii.
From S2P Require Import Prelude JsString JsNumber.

Open Scope js_scope.

(** ** Data *)

Inductive context_key := cx_projectId | cx_nowIso | cx_todayIso.

Inductive source_param :=
  | PLiteral (v : scalar)
  | PSetting (name : string)
  | PContext (k : context_key).

Inductive widget_source :=
  | SqlSource (sql : string) (params : option (list (string * source_param)))
  | QuerySource (name : string) (input : list (string * source_param)).

Inductive filter_cmp := c_eq | c_ne | c_gt | c_gte | c_lt | c_lte | c_in | c_contains.
Inductive filter_value := FScalar (v : scalar) | FList (l : list scalar) | FSetting (name : string).
Inductive sort_dir := d_asc | d_desc.
Inductive date_unit := u_day | u_week | u_month.
Inductive agg_fn := a_sum | a_count | a_avg | a_min | a_max.
Inductive derive_op := op_add | op_sub | op_mul | op_div | op_coalesce.
Inductive operand := OField (f : string) | OLiteral (n : num).

(** A value, or a reference to the setting that holds it. *)
Inductive or_setting (A : Type) := Val (a : A) | Ref (name : string).
Arguments Val {A} a.
Arguments Ref {A} name.

Record aggregate := mk_aggregate { ag_fn : agg_fn; ag_field : option string; ag_as : string }.

Inductive transform_step :=
  | Filter (field : string) (cmp : filter_cmp) (value : filter_value)
  | Sort (field : string) (dir : or_setting sort_dir)
  | Limit (n : or_setting num)
  | BucketDate (field : string) (unit_ : or_setting date_unit) (as_ : string)
  | Group (by_ : list string) (aggregates : list aggregate)
  | Derive (as_ : string) (op : derive_op) (left right : operand).

Inductive widget_render :=
  | Stat (source value : string)
  | Table (source : string) (columns : list string)
  | Columns (source x series y : string)
  | Bars (source label value : string)
  | ListShape (source title : string)
  | Html (html : string).

Record widget_action := mk_action {
  wa_id : string;
  wa_label : string;
  wa_kind : string;
  wa_params : json_value;
  wa_row : bool;
  wa_rowKey : option string
}.

Record setting_field := mk_setting { sf_name : string; sf_label : string; sf_default : scalar }.

Record widget_spec := mk_spec {
  wp_sources : list (string * widget_source);
  wp_transforms : option (list (string * list transform_step));
  wp_render : widget_render;
  wp_actions : option (list widget_action);
  wp_settings : option (list setting_field);
  wp_refreshSec : option num
}.

(** ** Shape *)

Definition maxSources : nat := 4.
Definition maxActions : nat := 6.
Definition maxHtmlBytes : nat := 65536.
Definition maxSqlBytes : nat := 8192.
Definition minRefreshSec : Z := 15.
Definition maxRefreshSec : Z := 3600.
Definition QUERY_SOURCE_NAMES : list string :=
  ["insights.dailyUsage"; "insights.workflowStats"; "insights.usageTrend"].
Definition AGENT_PROPOSAL_KINDS : list string :=
  ["launch-run"; "reprioritize-backlog"; "edit-workflow"; "open-session"; "create-backlog-items";
   "create-workflow"; "triage-findings"; "start-quick-session"].

(** Length in UTF-8: a code unit above 127 takes two bytes. *)
Fixpoint utf8ByteLength (s : string) : nat :=
  match s with
  | EmptyString => 0
  | String c s' => (if (nat_of_ascii c <? 128)%nat then 1 else 2) + utf8ByteLength s'
  end.

Definition some_char (s : string) : bool := negb (String.eqb s "").

Definition sourceParamSchema (p : source_param) : bool :=
  match p with
  | PLiteral (SNum n) => is_finite n
  | PLiteral _ | PContext _ => true
  | PSetting name => some_char name
  end.

Definition source_params (s : widget_source) : list (string * source_param) :=
  match s with
  | SqlSource _ params => default [] params
  | QuerySource _ input => input
  end.

Definition widgetSourceSchema (s : widget_source) : bool :=
  match s with
  | SqlSource sql _ => some_char sql && (utf8ByteLength sql <=? maxSqlBytes)%nat
  | QuerySource name _ => bool_decide (name ∈ QUERY_SOURCE_NAMES)
  end && forallb (λ kp, sourceParamSchema kp.2) (source_params s).

Definition operandSchema (o : operand) : bool :=
  match o with OField f => some_char f | OLiteral n => is_finite n end.

Definition scalarSchema (v : scalar) : bool :=
  match v with SNum n => is_finite n | _ => true end.

Definition ref_schema {A} (ok : A → bool) (r : or_setting A) : bool :=
  match r with Val a => ok a | Ref name => some_char name end.

Definition positive_int (n : num) : bool :=
  match to_Z n with Some z => (0 <? z)%Z && (z <=? 2 ^ 53 - 1)%Z | None => false end.

Definition transformStepSchema (s : transform_step) : bool :=
  match s with
  | Filter field _ value =>
      some_char field && match value with
                         | FScalar v => scalarSchema v
                         | FList l => forallb scalarSchema l
                         | FSetting name => some_char name
                         end
  | Sort field dir => some_char field && ref_schema (λ _, true) dir
  | Limit n => ref_schema positive_int n
  | BucketDate field u as_ => some_char field && ref_schema (λ _, true) u && some_char as_
  | Group by_ aggs =>
      forallb some_char by_
      && forallb (λ a, match a.(ag_field) with Some f => some_char f | None => true end
                       && some_char a.(ag_as)) aggs
  | Derive as_ _ l r => some_char as_ && operandSchema l && operandSchema r
  end.

Definition widgetRenderSchema (r : widget_render) : bool :=
  match r with
  | Stat source value => some_char source && some_char value
  | Table source columns => some_char source && forallb some_char columns
  | Columns source x series y => some_char source && some_char x && some_char series && some_char y
  | Bars source label value => some_char source && some_char label && some_char value
  | ListShape source title => some_char source && some_char title
  | Html html => (utf8ByteLength html <=? maxHtmlBytes)%nat
  end.

Fixpoint jsonValueSchema (v : json_value) : bool :=
  match v with
  | JScalar a => scalarSchema a
  | JArr l => forallb jsonValueSchema l
  | JObj l => forallb (λ kv, jsonValueSchema kv.2) l
  end.

Definition widgetActionSchema (a : widget_action) : bool :=
  some_char a.(wa_id) && some_char a.(wa_label)
  && bool_decide (a.(wa_kind) ∈ "navigate" :: AGENT_PROPOSAL_KINDS)
  && jsonValueSchema a.(wa_params)
  && match a.(wa_rowKey) with Some k => some_char k | None => true end.

Definition widgetSettingFieldSchema (f : setting_field) : bool :=
  some_char f.(sf_name) && some_char f.(sf_label) && scalarSchema f.(sf_default).

Definition widgetSpecShapeSchema (spec : widget_spec) : bool :=
  let n := length spec.(wp_sources) in
  (1 <=? n)%nat && (n <=? maxSources)%nat
  && forallb (λ ks, widgetSourceSchema ks.2) spec.(wp_sources)
  && forallb (λ ks, forallb transformStepSchema ks.2) (default [] spec.(wp_transforms))
  && widgetRenderSchema spec.(wp_render)
  && (length (default [] spec.(wp_actions)) <=? maxActions)%nat
  && forallb widgetActionSchema (default [] spec.(wp_actions))
  && forallb widgetSettingFieldSchema (default [] spec.(wp_settings))
  && match spec.(wp_refreshSec) with
     | None => true
     | Some r => match to_Z r with
                 | Some z => (minRefreshSec <=? z)%Z && (z <=? maxRefreshSec)%Z
                 | None => false
                 end
     end.

(** ** Template tokens *)

(** A string cut at the matches of [/\{([^{}]+)\}/g]. *)
Inductive segment := Lit (c : ascii) | Tok (t : string).

Definition lbrace : ascii := "{".
Definition rbrace : ascii := "}".

(** [inside] holds the text after an open brace: the group matches no brace, so
    a second open brace restarts the match and an empty group fails. *)
Fixpoint scan_tokens (inside : option (list ascii)) (s : list ascii) : list segment :=
  match s with
  | [] => match inside with Some buf => Lit <$> (lbrace :: buf) | None => [] end
  | c :: s' =>
      match inside with
      | None => if Ascii.eqb c lbrace then scan_tokens (Some []) s' else Lit c :: scan_tokens None s'
      | Some buf =>
          if Ascii.eqb c lbrace then (Lit <$> (lbrace :: buf)) ++ scan_tokens (Some []) s'
          else if Ascii.eqb c rbrace then
            match buf with
            | [] => Lit lbrace :: Lit rbrace :: scan_tokens None s'
            | _ => Tok (String.string_of_list_ascii buf) :: scan_tokens None s'
            end
          else scan_tokens (Some (buf ++ [c])) s'
      end
  end.

Definition segments (leaf : string) : list segment := scan_tokens None (String.list_ascii_of_string leaf).

Definition extractTemplateTokens (leaf : string) : list string :=
  omap (λ g, match g with Tok t => Some t | Lit _ => None end) (segments leaf).

(** Every string leaf, in the order of the walk. *)
Fixpoint walkStringLeaves (v : json_value) : list string :=
  match v with
  | JScalar (SStr s) => [s]
  | JScalar _ => []
  | JArr l => flat_map walkStringLeaves l
  | JObj l => flat_map (λ kv, walkStringLeaves kv.2) l
  end.

(** The prefixes a token may have. *)
Inductive token_kind := t_project | t_row (field : string) | t_setting (name : string) | t_other.

(** [token.startsWith(p)] and [token.slice(p.length)] *)
Definition after (p token : string) : option string :=
  if startsWith p token then Some (drop_str (String.length p) token) else None.

(** ** Cross-field rules *)

Inductive spec_issue :=
  | bad_shape
  | unknown_render_source (source : string)
  | undeclared_setting (name : string)
  | unknown_transform_source (source : string)
  | row_without_key (action : string)
  | undeclared_token (token : string)
  | bad_token (token : string).

Definition render_source (r : widget_render) : option string :=
  match r with
  | Stat s _ | Table s _ | Columns s _ _ _ | Bars s _ _ | ListShape s _ => Some s
  | Html _ => None
  end.

(** The setting a step refers to. *)
Definition step_ref (s : transform_step) : option string :=
  match s with
  | Filter _ _ (FSetting name) | Sort _ (Ref name) | Limit (Ref name) | BucketDate _ (Ref name) _ =>
      Some name
  | _ => None
  end.

Definition param_ref (p : source_param) : option string :=
  match p with PSetting name => Some name | _ => None end.

Definition checkRef (declared : list string) (r : option string) : list spec_issue :=
  match r with
  | Some name => if bool_decide (name ∈ declared) then [] else [undeclared_setting name]
  | None => []
  end.

Definition checkToken (declared : list string) (token : string) : list spec_issue :=
  if String.eqb token "context.projectId" then []
  else
    match after "row." token, after "setting." token with
    | Some field, _ => if some_char field then [] else [bad_token token]
    | None, Some name =>
        if some_char name
        then (if bool_decide (name ∈ declared) then [] else [undeclared_token token])
        else [bad_token token]
    | None, None => [bad_token token]
    end.

Definition sourceNames (spec : widget_spec) : list string := spec.(wp_sources).*1.
Definition settingNames (spec : widget_spec) : list string :=
  sf_name <$> default [] spec.(wp_settings).

Definition action_issues (declared : list string) (a : widget_action) : list spec_issue :=
  (if a.(wa_row) && negb (bool_decide (is_Some a.(wa_rowKey))) then [row_without_key a.(wa_id)] else [])
  ++ flat_map (λ leaf, flat_map (checkToken declared) (extractTemplateTokens leaf))
       (walkStringLeaves a.(wa_params)).

Definition cross_field_issues (spec : widget_spec) : list spec_issue :=
  let declared := settingNames spec in
  match render_source spec.(wp_render) with
  | Some s => if bool_decide (s ∈ sourceNames spec) then [] else [unknown_render_source s]
  | None => []
  end
  ++ flat_map (λ ks, flat_map (λ kp, checkRef declared (param_ref kp.2)) (source_params ks.2))
       spec.(wp_sources)
  ++ flat_map (λ kt, (if bool_decide (kt.1 ∈ sourceNames spec) then []
                      else [unknown_transform_source kt.1])
                     ++ flat_map (λ s, checkRef declared (step_ref s)) kt.2)
       (default [] spec.(wp_transforms))
  ++ flat_map (action_issues declared) (default [] spec.(wp_actions)).

(** [widgetSpecSchema.safeParse(spec)]: the issues it reports. *)
Definition spec_issues (spec : widget_spec) : list spec_issue :=
  if widgetSpecShapeSchema spec then cross_field_issues spec else [bad_shape].

(** ** Settings *)

Inductive resolve_error :=
  | unknown_setting (name : string)
  | bad_setting_value (name : string) (v : scalar).

#[export] Instance result_mret {E} : MRet (result E) := @Ok E.
#[export] Instance result_mbind {E} : MBind (result E) := λ A B f r,
  match r with Ok a => f a | Throw e => Throw e end.
#[export] Instance result_fmap {E} : FMap (result E) := λ A B f r,
  match r with Ok a => Ok (f a) | Throw e => Throw e end.

Definition lookupSetting (spec : widget_spec) (name : string) : result resolve_error scalar :=
  match find (λ f, String.eqb f.(sf_name) name) (default [] spec.(wp_settings)) with
  | Some f => Ok f.(sf_default)
  | None => Throw (unknown_setting name)
  end.

Section Resolve.
Context (spec : widget_spec) (settings : list (string * scalar)).

Definition resolveScalar (name : string) : result resolve_error scalar :=
  d ← lookupSetting spec name; Ok (or_default (map_get name settings) d).

Definition resolveSourceParam (p : source_param) : result resolve_error source_param :=
  match p with
  | PSetting name => PLiteral <$> resolveScalar name
  | _ => Ok p
  end.

(** The entries of a record, each value replaced by its resolution. *)
Definition resolve_entries {A} (f : A → result resolve_error A) (l : list (string * A))
    : result resolve_error (list (string * A)) :=
  mapM (λ kv, pair kv.1 <$> f kv.2) l.

Definition resolve_source (s : widget_source) : result resolve_error widget_source :=
  match s with
  | SqlSource sql None => Ok s
  | SqlSource sql (Some params) =>
      (λ ps, SqlSource sql (Some ps)) <$> resolve_entries resolveSourceParam params
  | QuerySource name input => QuerySource name <$> resolve_entries resolveSourceParam input
  end.

(** A referenced value must be one the step can take. *)
Definition expect {A} (read : scalar → option A) (name : string) : result resolve_error (or_setting A) :=
  v ← resolveScalar name;
  match read v with Some a => Ok (Val a) | None => Throw (bad_setting_value name v) end.

Definition read_dir (v : scalar) : option sort_dir :=
  match v with
  | SStr s => if String.eqb s "asc" then Some d_asc else if String.eqb s "desc" then Some d_desc else None
  | _ => None
  end.
Definition read_unit (v : scalar) : option date_unit :=
  match v with
  | SStr s => if String.eqb s "day" then Some u_day else if String.eqb s "week" then Some u_week
              else if String.eqb s "month" then Some u_month else None
  | _ => None
  end.
Definition read_limit (v : scalar) : option num :=
  match v with
  | SNum n => match to_Z n with Some z => if (0 <? z)%Z then Some n else None | None => None end
  | _ => None
  end.

Definition resolve_step (s : transform_step) : result resolve_error transform_step :=
  match s with
  | Filter field cmp (FSetting name) => (λ v, Filter field cmp (FScalar v)) <$> resolveScalar name
  | Sort field (Ref name) => Sort field <$> expect read_dir name
  | Limit (Ref name) => Limit <$> expect read_limit name
  | BucketDate field (Ref name) as_ => (λ u, BucketDate field u as_) <$> expect read_unit name
  | _ => Ok s
  end.

Definition resolveSpecSettings : result resolve_error widget_spec :=
  sources ← resolve_entries resolve_source spec.(wp_sources);
  transforms ← match spec.(wp_transforms) with
               | None => Ok None
               | Some ts => Some <$> resolve_entries (mapM resolve_step) ts
               end;
  Ok (mk_spec sources transforms spec.(wp_render) spec.(wp_actions) spec.(wp_settings)
        spec.(wp_refreshSec)).
End Resolve.

(** ** Substitution of template tokens *)

Record template_ctx := mk_template_ctx {
  tc_row : option (list (string * scalar));
  tc_setting : list (string * scalar);
  tc_projectId : scalar
}.

Inductive token_error :=
  | row_unavailable (field : string)
  | setting_unavailable (name : string)
  | malformed_token (token : string).

Definition resolveToken (token : string) (ctx : template_ctx) : result token_error scalar :=
  if String.eqb token "context.projectId" then Ok ctx.(tc_projectId)
  else
    match after "row." token with
    | Some field =>
        match r ← ctx.(tc_row); map_get field r with
        | Some v => Ok v
        | None => Throw (row_unavailable field)
        end
    | None =>
        match after "setting." token with
        | Some name => match map_get name ctx.(tc_setting) with
                       | Some v => Ok v
                       | None => Throw (setting_unavailable name)
                       end
        | None => Throw (malformed_token token)
        end
    end.

Section Substitute.
(** [String(x)] of a number *)
Context (num_to_string : num → string).

Definition scalar_to_string (v : scalar) : string :=
  match v with
  | SStr s => s
  | SNum n => num_to_string n
  | SBool b => if b then "true" else "false"
  | SNull => "null"
  end.

Definition splice (ctx : template_ctx) (g : segment) : result token_error string :=
  match g with
  | Lit c => Ok (String c "")
  | Tok t => (λ v, match v with SNull => "" | _ => scalar_to_string v end) <$> resolveToken t ctx
  end.

(** A leaf that is one token becomes the scalar; any other leaf stays a string. *)
Definition substituteLeaf (ctx : template_ctx) (leaf : string) : result token_error json_value :=
  match segments leaf with
  | [Tok t] => JScalar <$> resolveToken t ctx
  | gs => (λ parts, JScalar (SStr (String.concat "" parts))) <$> mapM (splice ctx) gs
  end.

Fixpoint substitute (ctx : template_ctx) (v : json_value) : result token_error json_value :=
  match v with
  | JScalar (SStr s) => substituteLeaf ctx s
  | JScalar _ => Ok v
  | JArr l => JArr <$> mapM (substitute ctx) l
  | JObj l => JObj <$> mapM (λ kv, pair kv.1 <$> substitute ctx kv.2) l
  end.

Definition substituteTemplates (params : json_value) (ctx : template_ctx) : result token_error json_value :=
  substitute ctx params.
End Substitute.

(** The declared defaults under the settings of the layout item. *)
Definition withDeclaredDefaults (spec : widget_spec) (settings : list (string * scalar))
    : list (string * scalar) :=
  foldl (λ out kv, map_set kv.1 kv.2 out)
    (foldl (λ out f, map_set f.(sf_name) f.(sf_default) out) [] (default [] spec.(wp_settings)))
    settings.

(** ** Traversals *)

Lemma mapM_result {E A B} (f : A → result E B) (P : A → B → Prop) (X : E → Prop) (l : list A) :
  (∀ x, x ∈ l → match f x with Ok y => P x y | Throw e => X e end) →
  match mapM f l with Ok l' => Forall2 P l l' | Throw e => X e end.
Proof.
  induction l as [|x l IH]; intros Hf; simpl; [constructor|].
  assert (Hx := Hf x (list_elem_of_here _ _)). destruct (f x) as [y|e]; simpl; [|done].
  assert (Hl := IH (λ z Hz, Hf z (list_elem_of_further _ _ _ Hz))).
  destruct (mapM f l) as [l'|e]; simpl; [by constructor|done].
Qed.

(** What a traversal of the values of a record keeps. *)
Lemma resolve_entries_spec {A} (f : A → result resolve_error A) (P : A → A → Prop)
    (X : resolve_error → Prop) (l : list (string * A)) :
  (∀ kv, kv ∈ l → match f kv.2 with Ok v => P kv.2 v | Throw e => X e end) →
  match resolve_entries f l with
  | Ok l' => Forall2 (λ kv kv', kv'.1 = kv.1 ∧ P kv.2 kv'.2) l l'
  | Throw e => X e
  end.
Proof.
  intros Hf. apply mapM_result. intros kv Hkv. specialize (Hf kv Hkv).
  by destruct (f kv.2); simpl.
Qed.

Lemma Forall2_keys {A B} (P : A → B → Prop) (l : list (string * A)) (l' : list (string * B)) :
  Forall2 (λ kv kv', kv'.1 = kv.1 ∧ P kv.2 kv'.2) l l' → l'.*1 = l.*1.
Proof. induction 1 as [|x y l l' [H1 _] _ IH]; [done|]. rewrite !fmap_cons. by f_equal. Qed.

Lemma flat_map_nil {A B} (f : A → list B) l : flat_map f l = [] ↔ ∀ x, x ∈ l → f x = [].
Proof.
  induction l as [|x l IH]; simpl.
  - split; [|done]. intros _ y Hy. by apply not_elem_of_nil in Hy.
  - split.
    + intros [H1 H2]%app_nil y [->|Hy]%elem_of_cons; [done|]. by apply IH.
    + intros Hall. rewrite (Hall x) by left. simpl. apply IH. intros y Hy. apply Hall. by right.
Qed.

(** ** Resolution of a validated spec *)

(** No reference is left. *)
Definition closed_source (s : widget_source) : Prop :=
  Forall (λ kp, param_ref kp.2 = None) (source_params s).
Definition closed_steps (steps : list transform_step) : Prop := Forall (λ s, step_ref s = None) steps.
Definition closed_spec (spec : widget_spec) : Prop :=
  Forall (λ ks, closed_source ks.2) spec.(wp_sources) ∧
  Forall (λ kt, closed_steps kt.2) (default [] spec.(wp_transforms)).

Section Resolution.
Context (spec : widget_spec) (settings : list (string * scalar)).
Notation declared := (settingNames spec).

(** The only errors left: a declared setting holds a value a step cannot take. *)
Definition value_error (e : resolve_error) : Prop :=
  match e with
  | unknown_setting _ => False
  | bad_setting_value name v =>
      name ∈ declared ∧ resolveScalar spec settings name = Ok v ∧
      ∃ kt s, kt ∈ default [] spec.(wp_transforms) ∧ s ∈ kt.2 ∧ step_ref s = Some name
  end.

Lemma declared_lookup name : name ∈ declared → ∃ v, resolveScalar spec settings name = Ok v.
Proof.
  unfold settingNames, resolveScalar, lookupSetting. intros (f & -> & Hf)%list_elem_of_fmap.
  destruct (find _ _) as [g|] eqn:Hg; simpl; [by eauto|].
  apply list_elem_of_In in Hf. pose proof (find_none _ _ Hg f Hf) as Hn. simpl in Hn.
  by rewrite String.eqb_refl in Hn.
Qed.

Lemma checkRef_nil r : checkRef declared r = [] ↔ ∀ name, r = Some name → name ∈ declared.
Proof.
  unfold checkRef. destruct r as [name|]; [|done]. case_bool_decide as Hin.
  - split; [|done]. by intros _ ? [= <-].
  - split; [done|]. intros Hall. by specialize (Hall name eq_refl).
Qed.

Lemma param_resolves p :
  checkRef declared (param_ref p) = [] →
  ∃ p', resolveSourceParam spec settings p = Ok p' ∧ param_ref p' = None.
Proof.
  rewrite checkRef_nil. destruct p as [v|name|k]; simpl; [eauto| |eauto].
  intros Hin. destruct (declared_lookup name (Hin _ eq_refl)) as [v ->]. simpl. eauto.
Qed.

(** A record whose values all resolve. *)
Lemma entries_resolve {A} (f : A → result resolve_error A) (P : A → Prop) (X : resolve_error → Prop)
    (l : list (string * A)) :
  (∀ kv, kv ∈ l → match f kv.2 with Ok v => P v | Throw e => X e end) →
  match resolve_entries f l with
  | Ok l' => Forall (λ kv, P kv.2) l' ∧ l'.*1 = l.*1
  | Throw e => X e
  end.
Proof.
  intros Hf. pose proof (resolve_entries_spec f (λ _, P) X l Hf) as Hr.
  destruct (resolve_entries f l) as [l'|e]; [|done]. split; [|exact (Forall2_keys (λ _, P) _ _ Hr)].
  eapply Forall2_Forall_r; [exact Hr|]. apply Forall_true. by intros x y [_ Hy].
Qed.

Lemma params_resolve (l : list (string * source_param)) :
  flat_map (λ kp, checkRef declared (param_ref kp.2)) l = [] →
  ∃ l', resolve_entries (resolveSourceParam spec settings) l = Ok l' ∧
        Forall (λ kp, param_ref kp.2 = None) l'.
Proof.
  rewrite flat_map_nil. intros Hl.
  pose proof (entries_resolve (resolveSourceParam spec settings) (λ p, param_ref p = None)
    (λ _, False) l) as Hr.
  destruct (resolve_entries _ l) as [l'|e]; [exists l'; split; [done|]|exfalso]; apply Hr; intros kp Hkp;
    destruct (param_resolves kp.2 (Hl kp Hkp)) as (p' & -> & Hp'); done.
Qed.

Lemma source_resolves s :
  flat_map (λ kp, checkRef declared (param_ref kp.2)) (source_params s) = [] →
  ∃ s', resolve_source spec settings s = Ok s' ∧ closed_source s'.
Proof.
  intros Hs. unfold closed_source. destruct s as [sql [params|]|name input]; simpl in *.
  - destruct (params_resolve _ Hs) as (l' & -> & Hl'). by eexists.
  - eexists. by split.
  - destruct (params_resolve _ Hs) as (l' & -> & Hl'). by eexists.
Qed.

Lemma expect_resolves {A} (read : scalar → option A) name :
  name ∈ declared →
  match expect spec settings read name with
  | Ok r => ∃ a, r = Val a
  | Throw e => ∃ v, e = bad_setting_value name v ∧ resolveScalar spec settings name = Ok v
  end.
Proof.
  intros Hin. unfold expect. destruct (declared_lookup name Hin) as [v Hv]. rewrite Hv. simpl.
  destruct (read v); eauto.
Qed.

Lemma step_resolves kt s :
  kt ∈ default [] spec.(wp_transforms) → s ∈ kt.2 → checkRef declared (step_ref s) = [] →
  match resolve_step spec settings s with
  | Ok s' => step_ref s' = None
  | Throw e => value_error e
  end.
Proof.
  intros Hkt Hs. rewrite checkRef_nil. intros Href.
  assert (Herr : ∀ A (read : scalar → option A) name, step_ref s = Some name →
    match expect spec settings read name with
    | Ok r => ∃ a, r = Val a
    | Throw e => value_error e
    end).
  { intros A read name Hname. pose proof (expect_resolves read name (Href name Hname)) as He.
    destruct (expect _ _ read name); [done|]. destruct He as (v & -> & Hv).
    split_and!; [by apply Href|done|by eauto]. }
  destruct s as [f c [v|l|name]|f [d|name]|[n|name]|f [u|name] a|b ag|a o l r]; try done; simpl in *.
  - destruct (declared_lookup name (Href name eq_refl)) as [v ->]. done.
  - specialize (Herr _ read_dir name eq_refl). destruct (expect _ _ read_dir name); [|done].
    by destruct Herr as [? ->].
  - specialize (Herr _ read_limit name eq_refl). destruct (expect _ _ read_limit name); [|done].
    by destruct Herr as [? ->].
  - specialize (Herr _ read_unit name eq_refl). destruct (expect _ _ read_unit name); [|done].
    by destruct Herr as [? ->].
Qed.

Lemma steps_resolve kt :
  kt ∈ default [] spec.(wp_transforms) →
  flat_map (λ s, checkRef declared (step_ref s)) kt.2 = [] →
  match mapM (resolve_step spec settings) kt.2 with
  | Ok steps => closed_steps steps
  | Throw e => value_error e
  end.
Proof.
  intros Hkt. rewrite flat_map_nil. intros Hs.
  pose proof (mapM_result (resolve_step spec settings) (λ _ s', step_ref s' = None) value_error kt.2
    (λ s Hin, step_resolves kt s Hkt Hin (Hs s Hin))) as Hr.
  destruct (mapM _ kt.2) as [steps|e]; [|done].
  eapply Forall2_Forall_r; [exact Hr|]. by apply Forall_true.
Qed.

(** Resolving a validated spec. *)
Lemma resolve_valid :
  spec_issues spec = [] →
  match resolveSpecSettings spec settings with
  | Ok spec' => closed_spec spec' ∧ sourceNames spec' = sourceNames spec ∧
                (default [] spec'.(wp_transforms)).*1 = (default [] spec.(wp_transforms)).*1
  | Throw e => value_error e
  end.
Proof.
  unfold spec_issues. destruct (widgetSpecShapeSchema spec); [|done].
  unfold cross_field_issues. intros (_ & (Hsrc & (Htr & _)%app_nil)%app_nil)%app_nil.
  unfold resolveSpecSettings.
  pose proof (entries_resolve (resolve_source spec settings) closed_source (λ _, False) spec.(wp_sources)) as Hs.
  destruct (resolve_entries (resolve_source spec settings) (wp_sources spec)) as [sources|e]; simpl.
  2: { exfalso. apply Hs. intros ks Hks. rewrite flat_map_nil in Hsrc.
       destruct (source_resolves ks.2 (Hsrc ks Hks)) as (s' & -> & ?). done. }
  assert (Hcl : Forall (λ ks, closed_source ks.2) sources ∧ sources.*1 = (wp_sources spec).*1).
  { apply Hs. intros ks Hks. rewrite flat_map_nil in Hsrc.
    destruct (source_resolves ks.2 (Hsrc ks Hks)) as (s' & -> & ?). done. }
  destruct Hcl as [Hcl Hnames].
  pose proof (entries_resolve (mapM (resolve_step spec settings)) closed_steps value_error
    (default [] (wp_transforms spec))) as Ht.
  assert (Hsteps : ∀ kt, kt ∈ default [] (wp_transforms spec) →
    match mapM (resolve_step spec settings) kt.2 with Ok v => closed_steps v | Throw e => value_error e end).
  { intros kt Hkt. apply steps_resolve; [done|]. rewrite flat_map_nil in Htr.
    by apply (Htr kt), app_nil in Hkt as [_ ?]. }
  specialize (Ht Hsteps). destruct (wp_transforms spec) as [ts|]; simpl in *.
  - destruct (resolve_entries (mapM (resolve_step spec settings)) ts) as [ts'|e]; simpl; [|done].
    destruct Ht as [? ?]. by split_and!.
  - split_and!; [by split|done|done].
Qed.
End Resolution.

(** ** Substitution in a validated action *)

(** The text a list of segments was cut from. *)
Definition segment_text (g : segment) : list ascii :=
  match g with
  | Lit c => [c]
  | Tok t => lbrace :: String.list_ascii_of_string t ++ [rbrace]
  end.

Lemma lits_text l : flat_map segment_text (Lit <$> l) = l.
Proof. induction l as [|c l IH]; simpl; [done|by f_equal]. Qed.

Lemma scan_text s : ∀ inside,
  flat_map segment_text (scan_tokens inside s)
  = match inside with Some buf => lbrace :: buf | None => [] end ++ s.
Proof.
  induction s as [|c s IH]; intros [buf|]; simpl.
  - by rewrite lits_text, app_nil_r.
  - done.
  - destruct (Ascii.eqb_spec c lbrace) as [->|_].
    { simpl. by rewrite flat_map_app, lits_text, IH. }
    destruct (Ascii.eqb_spec c rbrace) as [->|_].
    { destruct buf as [|b buf]; cbn [flat_map segment_text]; rewrite IH.
      - done.
      - rewrite String.list_ascii_of_string_of_list_ascii. simpl. by rewrite <- !app_assoc. }
    rewrite IH. simpl. by rewrite <- app_assoc.
  - destruct (Ascii.eqb_spec c lbrace) as [->|_]; simpl; by rewrite IH.
Qed.

Lemma segments_text leaf : flat_map segment_text (segments leaf) = String.list_ascii_of_string leaf.
Proof. apply scan_text. Qed.

Definition string_of (l : list ascii) : string := String.string_of_list_ascii l.

Lemma string_of_app l l' : string_of (l ++ l') = string_of l +:+ string_of l'.
Proof. induction l as [|c l IH]; [done|]. exact (f_equal (String c) IH). Qed.

(** [out] is [params] with its string leaves substituted: a leaf that is one
    token becomes the scalar itself, a leaf without tokens is unchanged, and
    everything else keeps its structure. *)
Inductive substituted (ctx : template_ctx) : json_value → json_value → Prop :=
  | sub_scalar v : (∀ s, v ≠ SStr s) → substituted ctx (JScalar v) (JScalar v)
  | sub_token t v :
      resolveToken t ctx = Ok v →
      substituted ctx (JScalar (SStr ("{" +:+ t +:+ "}"))) (JScalar v)
  | sub_text leaf s :
      (extractTemplateTokens leaf = [] → s = leaf) →
      substituted ctx (JScalar (SStr leaf)) (JScalar (SStr s))
  | sub_arr l l' : Forall2 (substituted ctx) l l' → substituted ctx (JArr l) (JArr l')
  | sub_obj l l' :
      Forall2 (λ kv kv', kv'.1 = kv.1 ∧ substituted ctx kv.2 kv'.2) l l' →
      substituted ctx (JObj l) (JObj l').

Section JsonInd.
Context (P : json_value → Prop).
Context (Hscalar : ∀ v, P (JScalar v)) (Harr : ∀ l, Forall P l → P (JArr l))
        (Hobj : ∀ l, Forall (λ kv, P kv.2) l → P (JObj l)).
Fixpoint json_ind' (v : json_value) : P v :=
  match v with
  | JScalar s => Hscalar s
  | JArr l => Harr l ((fix go l := match l return Forall P l with
                                   | [] => Forall_nil_2 _
                                   | x :: l' => Forall_cons_2 _ _ _ (json_ind' x) (go l')
                                   end) l)
  | JObj l => Hobj l ((fix go l := match l return Forall (λ kv, P kv.2) l with
                                   | [] => Forall_nil_2 _
                                   | kv :: l' => Forall_cons_2 _ _ _ (json_ind' kv.2) (go l')
                                   end) l)
  end.
End JsonInd.

(** The tokens of every string leaf. *)
Definition json_tokens (v : json_value) : list string := flat_map extractTemplateTokens (walkStringLeaves v).

Section Substitution.
Context (num_to_string : num → string) (ctx : template_ctx).

(** An error names a token of the template that does not resolve. *)
Definition token_failed (tokens : list string) (e : token_error) : Prop :=
  ∃ t, t ∈ tokens ∧ resolveToken t ctx = Throw e.

Lemma concat_lits (gs : list segment) parts :
  Forall2 (λ g p, string_of (segment_text g) = p) gs parts →
  String.concat "" parts = string_of (flat_map segment_text gs).
Proof.
  induction 1 as [|g p gs parts Hg HF IH]; [done|]. simpl. rewrite string_of_app, Hg.
  rewrite <- IH. by destruct parts as [|q parts]; simpl; rewrite ?str_app_nil_r.
Qed.

Lemma token_in_leaf t leaf : Tok t ∈ segments leaf → t ∈ extractTemplateTokens leaf.
Proof. intros Hin. unfold extractTemplateTokens. apply list_elem_of_omap. by exists (Tok t). Qed.

Lemma splice_spec leaf g :
  g ∈ segments leaf →
  match splice num_to_string ctx g with
  | Ok p => extractTemplateTokens leaf = [] → string_of (segment_text g) = p
  | Throw e => token_failed (extractTemplateTokens leaf) e
  end.
Proof.
  destruct g as [c|t]; simpl; [done|]. intros Hin%token_in_leaf.
  destruct (resolveToken t ctx) as [v|e] eqn:Ht; simpl.
  - intros Hnil. rewrite Hnil in Hin. by apply not_elem_of_nil in Hin.
  - by exists t.
Qed.

Lemma substituteLeaf_spec leaf :
  match substituteLeaf num_to_string ctx leaf with
  | Ok v => substituted ctx (JScalar (SStr leaf)) v
  | Throw e => token_failed (extractTemplateTokens leaf) e
  end.
Proof.
  unfold substituteLeaf. pose proof (segments_text leaf) as Htext.
  pose proof (mapM_result (splice num_to_string ctx)
    (λ g p, extractTemplateTokens leaf = [] → string_of (segment_text g) = p)
    (token_failed (extractTemplateTokens leaf)) (segments leaf) (splice_spec leaf)) as Hm.
  assert (Hrest : match (λ parts, JScalar (SStr (String.concat "" parts)))
                        <$> mapM (splice num_to_string ctx) (segments leaf) with
                  | Ok v => substituted ctx (JScalar (SStr leaf)) v
                  | Throw e => token_failed (extractTemplateTokens leaf) e
                  end).
  { destruct (mapM _ (segments leaf)) as [parts|e]; simpl; [|done].
    apply sub_text. intros Hnil. rewrite (concat_lits (segments leaf)), Htext.
    - apply String.string_of_list_ascii_of_string.
    - eapply Forall2_impl; [exact Hm|]. auto. }
  destruct (segments leaf) as [|[c|t] [|g gs]] eqn:Hs; try exact Hrest.
  simpl in Htext. rewrite app_nil_r in Htext.
  assert (leaf = "{" +:+ t +:+ "}") as Hleaf.
  { rewrite <- (String.string_of_list_ascii_of_string leaf), <- Htext.
    change (string_of ([lbrace] ++ String.list_ascii_of_string t ++ [rbrace]) = "{" +:+ t +:+ "}").
    rewrite !string_of_app. unfold string_of at 2. by rewrite String.string_of_list_ascii_of_string. }
  destruct (resolveToken t ctx) as [v|e] eqn:Ht; simpl.
  - rewrite Hleaf. by apply sub_token.
  - exists t. split; [|done]. apply token_in_leaf. rewrite Hs. by left.
Qed.

Lemma token_failed_mono l l' e : l ⊆ l' → token_failed l e → token_failed l' e.
Proof. intros Hsub (t & Ht & ?). exists t. split; [by apply Hsub|done]. Qed.

Lemma leaf_tokens_sub (l : list (list string)) x :
  x ∈ l → flat_map extractTemplateTokens x ⊆ flat_map extractTemplateTokens (concat l).
Proof.
  intros Hx t Ht. apply list_elem_of_In, in_flat_map. apply list_elem_of_In, in_flat_map in Ht as (s & Hs & Ht).
  exists s. split; [|done]. apply in_concat. exists x. split; [by apply list_elem_of_In|done].
Qed.

Lemma substitute_spec v :
  match substitute num_to_string ctx v with
  | Ok v' => substituted ctx v v'
  | Throw e => token_failed (json_tokens v) e
  end.
Proof.
  induction v as [v|l IH|l IH] using json_ind'; simpl.
  - destruct v as [s|n|b|]; try (by apply sub_scalar).
    pose proof (substituteLeaf_spec s) as Hs. destruct (substituteLeaf _ _ s); [done|].
    unfold json_tokens. simpl. by rewrite app_nil_r.
  - rewrite Forall_forall in IH.
    pose proof (mapM_result (substitute num_to_string ctx) (substituted ctx)
      (token_failed (json_tokens (JArr l))) l) as Hm.
    destruct (mapM _ l) as [l'|e]; simpl; [apply sub_arr|]; apply Hm; intros x Hx; specialize (IH x Hx);
      destruct (substitute _ _ x); try done;
      (eapply token_failed_mono; [|exact IH]); unfold json_tokens; simpl;
      rewrite (flat_map_concat_map walkStringLeaves);
      by apply leaf_tokens_sub, list_elem_of_fmap_2.
  - rewrite Forall_forall in IH.
    pose proof (mapM_result (λ kv, pair kv.1 <$> substitute num_to_string ctx kv.2)
      (λ kv kv', kv'.1 = kv.1 ∧ substituted ctx kv.2 kv'.2)
      (token_failed (json_tokens (JObj l))) l) as Hm.
    destruct (mapM _ l) as [l'|e]; simpl; [apply sub_obj|]; apply Hm; intros x Hx; specialize (IH x Hx);
      destruct (substitute _ _ x.2); simpl; try done;
      (eapply token_failed_mono; [|exact IH]); unfold json_tokens; simpl;
      rewrite (flat_map_concat_map (λ kv, walkStringLeaves kv.2));
      apply leaf_tokens_sub; by apply (list_elem_of_fmap_2 (λ kv, walkStringLeaves kv.2)).
Qed.
End Substitution.

Lemma foldl_map_set_has {A V} (key : A → string) (val : A → V) (l : list A) k : ∀ out,
  k ∈ key <$> l ∨ is_Some (map_get k out) →
  is_Some (map_get k (foldl (λ out x, map_set (key x) (val x) out) out l)).
Proof.
  induction l as [|x l IH]; intros out Hk; simpl.
  - destruct Hk as [Hk|Hk]; [by apply not_elem_of_nil in Hk|done].
  - apply IH. rewrite map_get_set. case_decide as Heq; [right; eauto|].
    destruct Hk as [[->|Hk]%elem_of_cons|Hk]; [done|by left|by right].
Qed.

Lemma withDeclaredDefaults_has spec settings name :
  name ∈ settingNames spec → is_Some (map_get name (withDeclaredDefaults spec settings)).
Proof.
  intros Hin. unfold withDeclaredDefaults. apply (foldl_map_set_has fst snd). right.
  apply (foldl_map_set_has sf_name sf_default). by left.
Qed.

(** A token the validator accepts resolves, unless it names a missing field. *)
Lemma checked_token spec settings row pid token e :
  checkToken (settingNames spec) token = [] →
  resolveToken token (mk_template_ctx row (withDeclaredDefaults spec settings) pid) = Throw e →
  ∃ field, e = row_unavailable field ∧ after "row." token = Some field ∧
           (r ← row; map_get field r) = None.
Proof.
  unfold checkToken, resolveToken. destruct (String.eqb token "context.projectId"); [done|].
  destruct (after "row." token) as [field|]; simpl.
  - intros _. destruct (row ≫= map_get field) eqn:Hr; [done|]. intros [= <-]. by exists field.
  - destruct (after "setting." token) as [name|]; [|done].
    destruct (some_char name); [|done]. case_bool_decide as Hin; [|done]. intros _.
    by destruct (withDeclaredDefaults_has spec settings name Hin) as [v ->].
Qed.

(** Substituting the template tokens of an action the validator accepted, with the
    declared defaults under the layout item's settings, fails only for a row token whose
    field the row does not have; otherwise a leaf that is exactly one token becomes the
    scalar itself with its type, a leaf without tokens is unchanged, and the structure of
    the parameters is kept. *)
Theorem validated_action_substitutes num_to_string spec settings row pid a :
  spec_issues spec = [] → a ∈ default [] spec.(wp_actions) →
  let ctx := mk_template_ctx row (withDeclaredDefaults spec settings) pid in
  match substituteTemplates num_to_string a.(wa_params) ctx with
  | Ok v => substituted ctx a.(wa_params) v
  | Throw e => ∃ token field, token ∈ json_tokens a.(wa_params) ∧ after "row." token = Some field ∧
                 (r ← row; map_get field r) = None ∧ e = row_unavailable field
  end.
Proof.
  intros Hvalid Ha ctx. unfold substituteTemplates.
  pose proof (substitute_spec num_to_string ctx a.(wa_params)) as Hs.
  destruct (substitute _ _ _) as [v|e]; [done|]. destruct Hs as (t & Ht & He).
  assert (Hcheck : checkToken (settingNames spec) t = []).
  { unfold spec_issues in Hvalid. destruct (widgetSpecShapeSchema spec); [|done].
    unfold cross_field_issues in Hvalid.
    apply app_nil in Hvalid as (_ & (_ & (_ & Hact)%app_nil)%app_nil).
    rewrite flat_map_nil in Hact. specialize (Hact a Ha). apply app_nil in Hact as [_ Hact].
    rewrite flat_map_nil in Hact.
    apply list_elem_of_In, in_flat_map in Ht as (leaf & Hleaf & Ht).
    specialize (Hact leaf ltac:(by apply list_elem_of_In)). rewrite flat_map_nil in Hact.
    apply Hact. by apply list_elem_of_In. }
  destruct (checked_token _ _ _ _ _ _ Hcheck He) as (field & -> & Hf & Hr). by exists t, field.
Qed.

(** ** A concrete widget *)

Section Concrete.
(** A notation of numbers: the bits of the encoding of sign, mantissa and
    exponent. *)
Fixpoint bits (p : positive) : string :=
  match p with
  | xH => "1"
  | xO p' => String "0" (bits p')
  | xI p' => String "1" (bits p')
  end.
Definition bits_text (n : num) : string :=
  match n with
  | S754_finite s m e => bits (encode (s, m, e))
  | _ => "e"
  end.

Definition num_of (z : Z) : scalar := SNum (num_of_Z z).
Definition sample_action : widget_action :=
  mk_action "open" "Open" "navigate"
    (JObj [("runId", JScalar (SStr "{row.model}")); ("top", JScalar (SStr "{setting.top}"));
           ("label", JScalar (SStr "top {setting.top}"))])
    true (Some "model").

(** Costs per model, the most expensive first; [top] and [order] are settings. *)
Definition sample_widget : widget_spec :=
  mk_spec
    [("costs", SqlSource "SELECT model, cost FROM usage WHERE day >= :since"
                 (Some [("since", PContext cx_todayIso); ("min", PSetting "top")]))]
    (Some [("costs", [Group ["model"] [mk_aggregate a_sum (Some "cost") "total"];
                      Sort "total" (Ref "order"); Limit (Ref "top")])])
    (Bars "costs" "model" "total")
    (Some [sample_action])
    (Some [mk_setting "top" "Top" (num_of 1); mk_setting "order" "Order" (SStr "desc")])
    None.

Definition sample_row : list (string * scalar) := [("model", SStr "b"); ("cost", num_of 2)].

Lemma sample_valid : spec_issues sample_widget = [].
Proof. vm_compute. reflexivity. Qed.

Lemma validated_action_substitutes_witness :
  spec_issues sample_widget = [] ∧ sample_action ∈ default [] sample_widget.(wp_actions) ∧
  let ctx := mk_template_ctx (Some sample_row) (withDeclaredDefaults sample_widget []) SNull in
  ∃ v, substituteTemplates bits_text sample_action.(wa_params) ctx = Ok v ∧
       substituted ctx sample_action.(wa_params) v ∧
       v = JObj [("runId", JScalar (SStr "b")); ("top", JScalar (num_of 1));
                 ("label", JScalar (SStr ("top " +:+ bits_text (num_of_Z 1))))].
Proof.
  assert (Ha : sample_action ∈ default [] sample_widget.(wp_actions)) by left.
  split; [exact sample_valid|]. split; [exact Ha|]. intros ctx.
  pose proof (validated_action_substitutes bits_text sample_widget [] (Some sample_row) SNull
                sample_action sample_valid Ha) as Hs. cbv zeta in Hs. fold ctx in Hs.
  destruct (substituteTemplates bits_text (wa_params sample_action) ctx) as [v|e] eqn:Hv;
    [|vm_compute in Hv; discriminate].
  exists v. split; [reflexivity|]. split; [exact Hs|]. clear Hs. vm_compute in Hv. injection Hv as <-. reflexivity.
Defined.
End Concrete.
