(* ===== verification/WidgetTransform.v ===== *)
(** * Row transforms of a widget and the run of its sources

    Models [shared/customViews/transform.ts] and the loop of
    [main/src/orchestrator/customViews/sourceRunner.ts].  A row is an
    association list in insertion order; field names of [Object.prototype] are
    not considered.  The decimal notation of numbers, [localeCompare] and
    [Date.parse] are arguments; [Array.prototype.sort] is a stable insertion
    sort, which is what the language promises for a consistent comparator. *)

From Stdlib Require Import SpecFloat Ascii.
From stdpp Require Import sorting.
From S2P Require Import Prelude JsString Regex JsNumber WidgetSpec.

Open Scope js_scope.

Definition row := list (string * scalar).

(** [row[field] ?? null] *)
Definition cell (r : row) (field : string) : scalar := default SNull (map_get field r).

(** ** Dates *)

(** [Date.UTC(y, m - 1, d)] in days since 1970-01-01; months and days roll over,
    and a year below 100 is in the twentieth century. *)
Definition days_from_civil (y m d : Z) : Z :=
  let y' := (y + (m - 1) / 12)%Z in
  let m' := ((m - 1) mod 12 + 1)%Z in
  let yy := (if m' <=? 2 then y' - 1 else y')%Z in
  let era := (yy / 400)%Z in
  let yoe := (yy - era * 400)%Z in
  let mp := ((m' + 9) mod 12)%Z in
  let doy := ((153 * mp + 2) / 5)%Z in
  let doe := (yoe * 365 + yoe / 4 - yoe / 100 + doy)%Z in
  (era * 146097 + doe - 719468 + (d - 1))%Z.
Definition full_year (y : Z) : Z := if ((0 <=? y) && (y <=? 99))%Z then (1900 + y)%Z else y.

Definition msPerDay : Z := 86400000.
Definition date_utc (y m d h mi s : Z) : Z :=
  (days_from_civil (full_year y) m d * msPerDay + ((h * 60 + mi) * 60 + s) * 1000)%Z.

(** Year, month (from 1) and day of a day number: the [getUTC*] methods. *)
Definition civil_from_days (n : Z) : Z * Z * Z :=
  let z := (n + 719468)%Z in
  let era := (z / 146097)%Z in
  let doe := (z mod 146097)%Z in
  let yoe := ((doe - doe / 1460 + doe / 36524 - doe / 146096) / 365)%Z in
  let doy := (doe - (365 * yoe + yoe / 4 - yoe / 100))%Z in
  let mp := ((5 * doy + 2) / 153)%Z in
  let d := (doy - (153 * mp + 2) / 5 + 1)%Z in
  let m := (if mp <? 10 then mp + 3 else mp - 9)%Z in
  let y := (yoe + era * 400)%Z in
  ((if m <=? 2 then y + 1 else y)%Z, m, d).

Definition day_of (t : Z) : Z := (t / msPerDay)%Z.
(** [getUTCDay()]: 1970-01-01 was a Thursday. *)
Definition weekday (n : Z) : Z := ((n + 4) mod 7)%Z.

Definition mondayOfIsoWeekUtc (t : Z) : Z :=
  let isoDayIndex := ((weekday (day_of t) + 6) mod 7)%Z in
  ((day_of t - isoDayIndex) * msPerDay)%Z.

(** Decimal digits of a natural number. *)
Fixpoint dec_digits (fuel : nat) (z : Z) (acc : string) : string :=
  match fuel with
  | 0 => acc
  | S n =>
      let acc' := String (ascii_of_nat (48 + Z.to_nat (z mod 10))) acc in
      if (z <? 10)%Z then acc' else dec_digits n (z / 10) acc'
  end.
Definition dec (z : Z) : string :=
  if (z <? 0)%Z then "-" +:+ dec_digits 20 (- z) "" else dec_digits 20 z "".
Definition pad2 (z : Z) : string := if (z <? 10)%Z then "0" +:+ dec z else dec z.

Definition formatUtcDate (t : Z) : string :=
  let '(y, m, d) := civil_from_days (day_of t) in dec y +:+ "-" +:+ pad2 m +:+ "-" +:+ pad2 d.
Definition format_month (t : Z) : string :=
  let '(y, m, _) := civil_from_days (day_of t) in dec y +:+ "-" +:+ pad2 m +:+ "-01".

Definition digits (n : nat) : re := times n digit.
Definition date_groups : list re :=
  [seqs [RBol; digits 4]; lit "-"; digits 2; lit "-"; digits 2].
Definition dateTime_groups : list re :=
  date_groups
  ++ [RChr (λ c, Ascii.eqb c "T" || Ascii.eqb c " "); digits 2; lit ":"; digits 2; lit ":"; digits 2;
      opt (seqs [lit "."; digit; opt digit; opt digit; opt digit; opt digit; opt digit]);
      opt (RAlt (lit "Z") (seqs [RChr (λ c, Ascii.eqb c "+" || Ascii.eqb c "-"); digits 2;
                                 opt (lit ":"); digits 2])); REol].

(** [Number(s)] of a digit string *)
Fixpoint digits_value (acc : Z) (s : string) : Z :=
  match s with
  | EmptyString => acc
  | String c s' => digits_value (acc * 10 + Z.of_nat (nat_of_ascii c - 48)) s'
  end.
Definition Number (s : string) : Z := digits_value 0 s.

Section Transform.
Context (num_to_string : num → string).
Context (localeCompare : string → string → Z).
Context (date_parse : string → option Z).

Definition parseIsoOrSqliteUtc (value : string) : option Z :=
  match exec_groups dateTime_groups value with
  | Some [y; _; mo; _; d; _; h; _; mi; _; s; _; zone; _] =>
      if String.eqb zone ""
      then Some (date_utc (Number y) (Number mo) (Number d) (Number h) (Number mi) (Number s))
      else date_parse (String.string_of_list_ascii
             (replace_from (S (String.length value)) (lit " ") (chars "T") ([], chars value)))
  | _ =>
      match exec_groups (date_groups ++ [REol]) value with
      | Some [y; _; mo; _; d; _] => Some (date_utc (Number y) (Number mo) (Number d) 0 0 0)
      | _ => None
      end
  end.

Definition bucketDateValue (raw : scalar) (u : date_unit) : scalar :=
  match raw with
  | SStr s =>
      match parseIsoOrSqliteUtc s with
      | None => SNull
      | Some t => SStr (match u with
                        | u_day => formatUtcDate t
                        | u_week => formatUtcDate (mondayOfIsoWeekUtc t)
                        | u_month => format_month t
                        end)
      end
  | _ => SNull
  end.

(** ** Filter *)

(** A number whose sign is the order of two values of one type. *)
Definition compareOrdered (a b : scalar) : num :=
  match a, b with
  | SNum x, SNum y => nsub x y
  | _, _ => num_of_Z (localeCompare (scalar_to_string num_to_string a) (scalar_to_string num_to_string b))
  end.

Definition same_type (a b : scalar) : bool :=
  match a, b with
  | SStr _, SStr _ | SNum _, SNum _ | SBool _, SBool _ | SNull, SNull => true
  | _, _ => false
  end.

Definition ordered (rowValue : scalar) (value : filter_value) (ok : num → bool) : bool :=
  match value with
  | FScalar (SNum n) => same_type rowValue (SNum n) && ok (compareOrdered rowValue (SNum n))
  | FScalar (SStr s) => same_type rowValue (SStr s) && ok (compareOrdered rowValue (SStr s))
  | _ => false
  end.

Definition matchesFilter (rowValue : scalar) (cmp : filter_cmp) (value : filter_value) : bool :=
  let equal := match value with FScalar v => strict_eq rowValue v | _ => false end in
  match cmp with
  | c_eq => equal
  | c_ne => negb equal
  | _ =>
      match rowValue with
      | SNull => false
      | _ =>
          match cmp with
          | c_gt => ordered rowValue value (λ r, nltb nzero r)
          | c_gte => ordered rowValue value (λ r, nleb nzero r)
          | c_lt => ordered rowValue value (λ r, nltb r nzero)
          | c_lte => ordered rowValue value (λ r, nleb r nzero)
          | c_in => match value with FList l => existsb (same_value_zero rowValue) l | _ => false end
          | _ => match rowValue, value with
                 | SStr s, FScalar (SStr v) => includes (toLowerCase v) (toLowerCase s)
                 | _, _ => false
                 end
          end
      end
  end.

(** ** Sort *)

(** Nulls are last in both directions. *)
Definition compareForSort (a b : scalar) (dir : sort_dir) : num :=
  match a, b with
  | SNull, SNull => nzero
  | SNull, _ => num_of_Z 1
  | _, SNull => num_of_Z (-1)
  | _, _ =>
      let cmp := compareOrdered a b in
      match dir with d_asc => cmp | d_desc => SFopp cmp end
  end.

Section Sort.
Context {A : Type} (cmp : A → A → num).
Fixpoint insert_sorted (x : A) (l : list A) : list A :=
  match l with
  | [] => [x]
  | y :: l' => if nltb nzero (cmp x y) then y :: insert_sorted x l' else x :: l
  end.
Definition sort_by (l : list A) : list A := foldr insert_sorted [] l.
End Sort.

(** ** Limit: [rows.slice(0, Math.max(0, n))] *)
Definition slice_count (n : num) (len : nat) : nat :=
  match n with
  | S754_infinity false => len
  | S754_finite false m e =>
      let z := (if 0 <=? e then Z.pos m * 2 ^ e else Z.pos m / 2 ^ (- e))%Z in
      Z.to_nat (Z.min z (Z.of_nat len))
  | _ => 0
  end.

(** ** Group *)

(** [JSON.stringify] of a string: quotes, backslashes and control characters
    are escaped. *)
Definition hex_digit (n : nat) : ascii :=
  if (n <? 10)%nat then ascii_of_nat (48 + n) else ascii_of_nat (87 + n).
Definition json_char (c : ascii) : string :=
  let n := nat_of_ascii c in
  if Ascii.eqb c dquote then String backslash (String dquote "")
  else if Ascii.eqb c backslash then String backslash (String backslash "")
  else if (n <? 32)%nat then
    String backslash (match n with
      | 8 => "b" | 9 => "t" | 10 => "n" | 12 => "f" | 13 => "r"
      | _ => "u00" +:+ String (hex_digit (n / 16)) (String (hex_digit (n mod 16)) "")
      end)
  else String c "".
Fixpoint json_chars (s : string) : string :=
  match s with
  | EmptyString => ""
  | String c s' => json_char c +:+ json_chars s'
  end.
Definition json_scalar (v : scalar) : string :=
  match v with
  | SStr s => String dquote (json_chars s +:+ String dquote "")
  | SNum n => if is_finite n then num_to_string n else "null"
  | _ => scalar_to_string num_to_string v
  end.
Definition groupKey (r : row) (by_ : list string) : string :=
  "[" +:+ String.concat "," ((λ f, json_scalar (cell r f)) <$> by_) +:+ "]".

(** The buckets in order of their first row. *)
Definition group_rows (by_ : list string) (rows : list row) : list (string * list row) :=
  foldl (λ groups r, let key := groupKey r by_ in
           map_set key (default [] (map_get key groups) ++ [r]) groups) [] rows.

Definition numericValues (bucket : list row) (field : option string) : list num :=
  match field with
  | Some f => omap (λ r, match map_get f r with Some (SNum n) => Some n | _ => None end) bucket
  | None => []
  end.

Definition count_num (n : nat) : num := num_of_Z (Z.of_nat n).

Definition computeAggregate (bucket : list row) (fn : agg_fn) (field : option string) : scalar :=
  let values := numericValues bucket field in
  let total := foldl nadd nzero values in
  match fn with
  | a_count =>
      let has f r := match map_get f r with Some SNull | None => false | Some _ => true end in
      match field with
      | None => SNum (count_num (length bucket))
      | Some f => if String.eqb f "" then SNum (count_num (length bucket))
                  else SNum (count_num (length (filter (λ r, has f r = true) bucket)))
      end
  | a_sum => SNum total
  | a_avg => match values with [] => SNull | _ => SNum (ndiv total (count_num (length values))) end
  | a_min => match values with [] => SNull | _ => SNum (foldl min2 (ninf false) values) end
  | a_max => match values with [] => SNull | _ => SNum (foldl max2 (ninf true) values) end
  end.

Definition group_row (by_ : list string) (aggregates : list aggregate) (bucket : list row) : row :=
  let first := default [] (head bucket) in
  foldl (λ out a, map_set a.(ag_as) (computeAggregate bucket a.(ag_fn) a.(ag_field)) out)
    (foldl (λ out f, map_set f (cell first f) out) [] by_) aggregates.

(** ** Derive *)

Definition operandRaw (r : row) (o : operand) : scalar :=
  match o with OLiteral n => SNum n | OField f => cell r f end.
Definition operandNumeric (r : row) (o : operand) : option num :=
  match o with
  | OLiteral n => Some n
  | OField f => match map_get f r with Some (SNum n) => Some n | _ => None end
  end.

Definition derive_value (op : derive_op) (left right : operand) (r : row) : scalar :=
  match op with
  | op_coalesce => match operandRaw r left with SNull => operandRaw r right | v => v end
  | _ =>
      match operandNumeric r left, operandNumeric r right with
      | Some a, Some b =>
          match op with
          | op_add => SNum (nadd a b)
          | op_sub => SNum (nsub a b)
          | op_mul => SNum (nmul a b)
          | _ => if neqb b nzero then SNull else SNum (ndiv a b)
          end
      | _, _ => SNull
      end
  end.

(** ** The steps *)

Inductive transform_error := unresolved_ref (setting : string).

(** [assertNoSettingRef] *)
Definition resolved {A} (r : or_setting A) : result transform_error A :=
  match r with Val a => Ok a | Ref name => Throw (unresolved_ref name) end.

Definition apply_step (rows : list row) (s : transform_step) : result transform_error (list row) :=
  match s with
  | Filter _ _ (FSetting name) => Throw (unresolved_ref name)
  | Filter field cmp value => Ok (filter (λ r, matchesFilter (cell r field) cmp value = true) rows)
  | Sort field dir =>
      d ← resolved dir;
      Ok (sort_by (λ a b, compareForSort (cell a field) (cell b field) d) rows)
  | Limit n => k ← resolved n; Ok (take (slice_count k (length rows)) rows)
  | BucketDate field u as_ =>
      u' ← resolved u;
      Ok ((λ r, map_set as_ (bucketDateValue (cell r field) u') r) <$> rows)
  | Group by_ aggs => Ok ((λ kb, group_row by_ aggs kb.2) <$> group_rows by_ rows)
  | Derive as_ op l r => Ok ((λ x, map_set as_ (derive_value op l r x) x) <$> rows)
  end.

Fixpoint applyTransform (rows : list row) (steps : list transform_step)
    : result transform_error (list row) :=
  match steps with
  | [] => Ok rows
  | s :: steps' => rows' ← apply_step rows s; applyTransform rows' steps'
  end.

(** ** The run of the sources *)

Record source_context := mk_source_context {
  sc_projectId : scalar;
  sc_nowIso : string;
  sc_todayIso : string
}.

Inductive source_error :=
  | unresolved_setting (name : string)
  | transform_threw (e : transform_error)
  | fetch_failed (msg : string).

Definition resolve_param (context : source_context) (p : source_param) : result source_error scalar :=
  match p with
  | PLiteral v => Ok v
  | PContext cx_projectId => Ok context.(sc_projectId)
  | PContext cx_nowIso => Ok (SStr context.(sc_nowIso))
  | PContext cx_todayIso => Ok (SStr context.(sc_todayIso))
  | PSetting name => Throw (unresolved_setting name)
  end.

Definition resolveParamBag (params : list (string * source_param)) (context : source_context)
    : result source_error (list (string * scalar)) :=
  mapM (λ kp, pair kp.1 <$> resolve_param context kp.2) params.

(** Every key of the rows, in order of first appearance; the query's own columns
    when no row is left. *)
Definition columnsOf (rows : list row) (fallback : list string) : list string :=
  match rows with
  | [] => fallback
  | _ => foldl (λ seen key, if bool_decide (key ∈ seen) then seen else seen ++ [key]) []
           (flat_map (λ r, r.*1) rows)
  end.

Record fetched := mk_fetched { f_rows : list row; f_truncated : bool; f_columns : list string }.
Record source_result := mk_source_result {
  sr_columns : list string;
  sr_rows : list row;
  sr_truncated : bool
}.

(** Running a query: the validated SQL on the read-only handle, or a helper. *)
Context (fetch : widget_source → list (string * scalar) → result string fetched).

Definition run_source (spec : widget_spec) (context : source_context) (name : string)
    (source : widget_source) : result source_error source_result :=
  bag ← resolveParamBag (source_params source) context;
  match fetch source bag with
  | Throw msg => Throw (fetch_failed msg)
  | Ok f =>
      let finish rows := Ok (mk_source_result (columnsOf rows f.(f_columns)) rows f.(f_truncated)) in
      match ts ← spec.(wp_transforms); map_get name ts with
      | None | Some [] => finish f.(f_rows)
      | Some steps =>
          match applyTransform f.(f_rows) steps with
          | Ok rows => finish rows
          | Throw e => Throw (transform_threw e)
          end
      end
  end.

(** A slot per source, which holds its error when it failed; and the names of
    the truncated ones. *)
Definition runWidgetSources (spec : widget_spec) (context : source_context)
    : list (string * result source_error source_result) * list string :=
  foldl (λ out ks,
           let slot := run_source spec context ks.1 ks.2 in
           (map_set ks.1 slot out.1,
            match slot with
            | Ok r => if r.(sr_truncated) then out.2 ++ [ks.1] else out.2
            | Throw _ => out.2
            end)) ([], []) spec.(wp_sources).
End Transform.

(** ** A validated widget does not go wrong *)

Lemma foldl_map_set_get {A V} (key : A → string) (val : A → V) (l : list A) x : ∀ out,
  NoDup (key <$> l) → x ∈ l →
  map_get (key x) (foldl (λ out y, map_set (key y) (val y) out) out l) = Some (val x).
Proof.
  assert (Hother : ∀ l out k, k ∉ key <$> l →
    map_get k (foldl (λ out y, map_set (key y) (val y) out) out l) = map_get k out).
  { clear l x. intros l. induction l as [|y l IH]; intros out k Hk; [done|]. simpl.
    rewrite fmap_cons, not_elem_of_cons in Hk. destruct Hk as [Hne Hk].
    rewrite (IH _ _ Hk). by apply map_get_set_ne. }
  induction l as [|y l IH]; intros out HN Hx; [by apply not_elem_of_nil in Hx|]. simpl.
  rewrite fmap_cons in HN. apply NoDup_cons in HN as [Hy HN].
  apply elem_of_cons in Hx as [->|Hx]; [|by apply IH].
  rewrite (Hother _ _ _ Hy). apply map_get_set_eq.
Qed.

Section Soundness.
Context (num_to_string : num → string) (localeCompare : string → string → Z)
        (date_parse : string → option Z)
        (fetch : widget_source → list (string * scalar) → result string fetched).
Notation applyTransform := (applyTransform num_to_string localeCompare date_parse).
Notation apply_step := (apply_step num_to_string localeCompare date_parse).
Notation run_source := (run_source num_to_string localeCompare date_parse fetch).
Notation runWidgetSources := (runWidgetSources num_to_string localeCompare date_parse fetch).

Lemma closed_step_applies rows s : step_ref s = None → ∃ rows', apply_step rows s = Ok rows'.
Proof.
  destruct s as [f c [v|l|name]|f [d|name]|[n|name]|f [u|name] a|b ag|a o l r];
    try done; intros _; by eexists.
Qed.

Lemma closed_steps_apply steps : ∀ rows, closed_steps steps → ∃ rows', applyTransform rows steps = Ok rows'.
Proof.
  induction steps as [|s steps IH]; intros rows Hc; simpl; [by eexists|].
  apply Forall_cons in Hc as [Hs Hc]. destruct (closed_step_applies rows s Hs) as [rows' ->]. by apply IH.
Qed.

Lemma closed_bag params context :
  Forall (λ kp : string * source_param, param_ref kp.2 = None) params →
  ∃ bag, resolveParamBag params context = Ok bag.
Proof.
  induction 1 as [|[k p] params Hp _ [bag IH]]; [by exists []|]. unfold resolveParamBag in *. simpl.
  rewrite IH. destruct p as [v|name|[]]; simpl in *; try done; by eexists.
Qed.

(** What a slot may hold: the fetched rows after the steps, or the failure of
    the query itself. *)
Definition slot_spec (spec : widget_spec) (context : source_context) (name : string)
    (source : widget_source) (out : result source_error source_result) : Prop :=
  ∃ bag, resolveParamBag (source_params source) context = Ok bag ∧
    match fetch source bag with
    | Throw msg => out = Throw (fetch_failed msg)
    | Ok f =>
        ∃ rows, applyTransform f.(f_rows) (default [] (ts ← spec.(wp_transforms); map_get name ts)) = Ok rows ∧
                out = Ok (mk_source_result (columnsOf rows f.(f_columns)) rows f.(f_truncated))
    end.

Lemma run_source_closed spec context name source :
  closed_spec spec → (name, source) ∈ spec.(wp_sources) →
  slot_spec spec context name source (run_source spec context name source).
Proof.
  intros [Hsrc Htr] Hin. rewrite Forall_forall in Hsrc. specialize (Hsrc _ Hin).
  unfold slot_spec, run_source. destruct (closed_bag _ context Hsrc) as [bag Hbag].
  exists bag. split; [done|]. simpl in Hbag. rewrite Hbag. simpl.
  destruct (fetch source bag) as [f|msg]; [|done].
  destruct (wp_transforms spec ≫= map_get name) as [[|s steps]|] eqn:Hts; simpl; try (by eexists).
  assert (Hc : closed_steps (s :: steps)).
  { destruct (wp_transforms spec) as [ts|]; [|done]. simpl in *.
    apply map_get_Some_elem in Hts. rewrite Forall_forall in Htr. by apply (Htr _ Hts). }
  destruct (closed_steps_apply (s :: steps) f.(f_rows) Hc) as [rows' Hrows]. simpl in Hrows. rewrite Hrows.
  by eexists.
Qed.

Lemma slots_fst spec context l : ∀ out,
  (foldl (λ out ks,
     let slot := run_source spec context ks.1 ks.2 in
     (map_set ks.1 slot out.1,
      match slot with
      | Ok r => if r.(sr_truncated) then out.2 ++ [ks.1] else out.2
      | Throw _ => out.2
      end)) out l).1
  = foldl (λ out ks, map_set ks.1 (run_source spec context ks.1 ks.2) out) out.1 l.
Proof. induction l as [|ks l IH]; intros out; [done|]. simpl. by rewrite IH. Qed.

(** C39: A widget spec the validator accepts does not go wrong: with any settings of the
    layout item, resolving it either fails because a declared setting holds a value its step
    cannot take (never because a setting is unknown) or yields a spec with the same sources
    in which no reference is left, and then every source gets a slot that holds the failure
    of its own query or the rows of the query after the source's transforms, none of which
    throws on an unresolved reference. *)
Theorem valid_widget_runs spec settings context :
  spec_issues spec = [] → NoDup (sourceNames spec) →
  match resolveSpecSettings spec settings with
  | Throw (unknown_setting _) => False
  | Throw (bad_setting_value name v) =>
      name ∈ settingNames spec ∧ resolveScalar spec settings name = Ok v
  | Ok spec' =>
      sourceNames spec' = sourceNames spec ∧
      ∀ name source, (name, source) ∈ spec'.(wp_sources) →
        ∃ out, map_get name (runWidgetSources spec' context).1 = Some out ∧
               slot_spec spec' context name source out
  end.
Proof.
  intros Hvalid HN. pose proof (resolve_valid spec settings Hvalid) as Hr.
  destruct (resolveSpecSettings spec settings) as [spec'|[name|name v]]; [|done|by destruct Hr as (? & ? & _)].
  destruct Hr as (Hc & Hnames & _). split; [done|]. intros name source Hin.
  exists (run_source spec' context name source). split; [|by apply run_source_closed].
  unfold runWidgetSources. rewrite slots_fst.
  apply (foldl_map_set_get fst (λ ks, run_source spec' context ks.1 ks.2) _ (name, source)); [|done].
  unfold sourceNames in *. by rewrite Hnames.
Qed.
End Soundness.

(** ** Grouping *)

Section Grouping.
Context (num_to_string : num → string) (by_ : list string).
Notation key := (λ r, groupKey num_to_string r by_).
Notation grouped := (group_rows num_to_string by_).

Definition bucket_of (k : string) (rows : list row) : list row := filter (λ r, key r = k) rows.

Lemma group_rows_snoc rows r :
  grouped (rows ++ [r])
  = map_set (key r) (default [] (map_get (key r) (grouped rows)) ++ [r]) (grouped rows).
Proof. unfold group_rows. by rewrite foldl_app. Qed.

Lemma group_rows_get rows k :
  map_get k (grouped rows) = match bucket_of k rows with [] => None | b => Some b end.
Proof.
  unfold bucket_of. induction rows as [|r rows IH] using rev_ind; [done|].
  rewrite group_rows_snoc, map_get_set, filter_app. case_decide as Hk.
  - subst k. rewrite filter_cons_True, filter_nil by done. rewrite IH.
    by destruct (filter _ rows) as [|x b].
  - rewrite filter_cons_False, filter_nil, app_nil_r by done. exact IH.
Qed.

Lemma group_rows_NoDup rows : NoDup (grouped rows).*1.
Proof.
  induction rows as [|r rows IH] using rev_ind; [constructor|].
  rewrite group_rows_snoc. by apply map_set_NoDup.
Qed.

Lemma map_set_perm {V} k (v : list V) (m : list (string * list V)) x :
  map_get k m = Some v ∨ (map_get k m = None ∧ v = []) →
  flat_map snd (map_set k (v ++ [x]) m) ≡ₚ flat_map snd m ++ [x].
Proof.
  induction m as [|[k' v'] m IH]; simpl.
  - intros [?|[_ ->]]; done.
  - case_decide as Hk; simpl.
    + intros [[= ->]|[? _]]; [|done]. by rewrite <- !app_assoc, (Permutation_app_comm [x]).
    + intros Hv. by rewrite (IH Hv), app_assoc.
Qed.

Lemma group_buckets rows :
  NoDup (grouped rows).*1 ∧
  flat_map snd (grouped rows) ≡ₚ rows ∧
  ∀ k bucket, (k, bucket) ∈ grouped rows → bucket ≠ [] ∧ bucket = bucket_of k rows.
Proof.
  split_and!; [apply group_rows_NoDup| |].
  - induction rows as [|r rows IH] using rev_ind; [done|].
    rewrite group_rows_snoc, map_set_perm; [by rewrite IH|].
    destruct (map_get (key r) (grouped rows)) as [b|]; [by left|by right].
  - intros k bucket Hin. apply map_get_NoDup in Hin; [|apply group_rows_NoDup].
    rewrite group_rows_get in Hin. destruct (bucket_of k rows) as [|x b]; [done|]. by injection Hin as <-.
Qed.
End Grouping.

(** *** The key of a bucket is the values of its fields *)

(** What the code relies on of [String(x)] for finite numbers: decimal notation,
    the same for equal numbers only. *)
Definition number_char (c : ascii) : bool := is_digit c || bool_decide (c ∈ chars "+-.e").

Class NumText (num_to_string : num → string) : Prop := {
  num_text_chars n : is_finite n = true →
    str_forall number_char (num_to_string n) = true ∧ num_to_string n ≠ "";
  num_text_eq n m : is_finite n = true → is_finite m = true →
    num_to_string n = num_to_string m ↔ neqb n m = true
}.

(** Equality of two cells for a grouping: as [===], but a number that is not
    finite counts as null. *)
Definition same_cell (a b : scalar) : bool :=
  let norm v := match v with SNum n => if is_finite n then v else SNull | _ => v end in
  strict_eq (norm a) (norm b).

Section GroupKey.
Context (num_to_string : num → string) `{!NumText num_to_string}.

(** *** Reading JSON texts back *)

Definition json_decode_char (s : string) : option (ascii * string) :=
  match s with
  | String "\" (String "b" t) => Some (ascii_of_nat 8, t)
  | String "\" (String "t" t) => Some (ascii_of_nat 9, t)
  | String "\" (String "n" t) => Some (ascii_of_nat 10, t)
  | String "\" (String "f" t) => Some (ascii_of_nat 12, t)
  | String "\" (String "r" t) => Some (ascii_of_nat 13, t)
  | String "\" (String "u" (String _ (String _ (String a (String b t))))) =>
      let v c := let n := nat_of_ascii c in if (n <? 58)%nat then n - 48 else n - 87 in
      Some (ascii_of_nat (16 * v a + v b), t)
  | String "\" (String c t) => Some (c, t)
  | String c t => Some (c, t)
  | EmptyString => None
  end.

Lemma json_decode_json_char c t : json_decode_char (json_char c +:+ t) = Some (c, t).
Proof. destruct c as [[] [] [] [] [] [] [] []]; reflexivity. Qed.

Lemma json_char_head c t : ∃ d u, json_char c +:+ t = String d u ∧ d ≠ dquote.
Proof. destruct c as [[] [] [] [] [] [] [] []]; do 2 eexists; (split; [reflexivity|discriminate]). Qed.

Lemma json_chars_inj s : ∀ s' t t',
  json_chars s +:+ String dquote t = json_chars s' +:+ String dquote t' → s = s' ∧ t = t'.
Proof.
  induction s as [|c s IH]; intros [|c' s'] t t'; simpl; rewrite ?str_app_assoc.
  - by intros [= ->].
  - destruct (json_char_head c' (json_chars s' +:+ String dquote t')) as (d & u & -> & Hd).
    rewrite str_app_nil_l. intros [= H _]. by destruct Hd.
  - destruct (json_char_head c (json_chars s +:+ String dquote t)) as (d & u & -> & Hd).
    rewrite str_app_nil_l. intros [= H _]. by destruct Hd.
  - intros H. apply (f_equal json_decode_char) in H. rewrite !json_decode_json_char in H.
    injection H as -> H. by destruct (IH _ _ _ H) as [-> ->].
Qed.

Definition separator (c : ascii) : bool := Ascii.eqb c "," || Ascii.eqb c "]".
Definition plain_char (c : ascii) : bool := negb (separator c) && negb (Ascii.eqb c dquote).

Lemma plain_split s : ∀ s' c c' t t',
  str_forall plain_char s = true → str_forall plain_char s' = true →
  separator c = true → separator c' = true →
  s +:+ String c t = s' +:+ String c' t' → s = s' ∧ c = c' ∧ t = t'.
Proof.
  induction s as [|x s IH]; intros [|x' s'] c c' t t' Hs Hs' Hc Hc'; rewrite ?str_app_cons, ?str_app_nil_l; simpl in *.
  - by intros [= -> ->].
  - intros [= -> _]. apply andb_prop in Hs' as [Hx _]. unfold plain_char in Hx. by rewrite Hc in Hx.
  - intros [= <- _]. apply andb_prop in Hs as [Hx _]. unfold plain_char in Hx. by rewrite Hc' in Hx.
  - intros [= -> H]. apply andb_prop in Hs as [_ Hs]. apply andb_prop in Hs' as [_ Hs'].
    by destruct (IH _ _ _ _ _ Hs Hs' Hc Hc' H) as (-> & -> & ->).
Qed.

Definition is_text (v : scalar) : bool := match v with SStr _ => true | _ => false end.

Lemma json_scalar_plain v : is_text v = false →
  str_forall plain_char (json_scalar num_to_string v) = true ∧ json_scalar num_to_string v ≠ "".
Proof.
  destruct v as [s|n|b|]; simpl; [done| |by destruct b|done]. intros _.
  destruct (is_finite n) eqn:Hn; [|done]. destruct (num_text_chars n Hn) as [Hc He]. split; [|done].
  clear He. induction (num_to_string n) as [|c s IH]; [done|]. simpl in *.
  apply andb_prop in Hc as [Hx Hc]. rewrite (IH Hc), andb_true_r.
  destruct c as [[] [] [] [] [] [] [] []]; vm_compute in Hx |- *; congruence.
Qed.

Lemma json_scalar_split v v' c c' t t' :
  separator c = true → separator c' = true →
  json_scalar num_to_string v +:+ String c t = json_scalar num_to_string v' +:+ String c' t' →
  json_scalar num_to_string v = json_scalar num_to_string v' ∧ c = c' ∧ t = t'.
Proof.
  intros Hc Hc'. destruct (is_text v) eqn:Hv, (is_text v') eqn:Hv'.
  - destruct v as [s|n|b|], v' as [s'|n'|b'|]; try done. cbn [json_scalar].
    rewrite !str_app_cons, !str_app_assoc, !str_app_cons, !str_app_nil_l.
    intros [= H]. apply json_chars_inj in H as [-> [= -> ->]]. done.
  - destruct v as [s| | |]; try done. destruct (json_scalar_plain v' Hv') as [Hp He].
    destruct (json_scalar num_to_string v') as [|x u]; [done|]. cbn [json_scalar].
    rewrite !str_app_cons. intros [= <- _]. simpl in Hp. done.
  - destruct v' as [s| | |]; try done. destruct (json_scalar_plain v Hv) as [Hp He].
    destruct (json_scalar num_to_string v) as [|x u]; [done|]. cbn [json_scalar].
    rewrite !str_app_cons. intros [= -> _]. simpl in Hp. done.
  - destruct (json_scalar_plain v Hv) as [Hp _], (json_scalar_plain v' Hv') as [Hp' _].
    by apply plain_split.
Qed.

Definition norm (v : scalar) : scalar :=
  match v with SNum n => if is_finite n then v else SNull | _ => v end.

Lemma json_scalar_norm v : json_scalar num_to_string (norm v) = json_scalar num_to_string v.
Proof. destruct v as [s|n|b|]; try done. simpl. destruct (is_finite n) eqn:Hn; simpl; by rewrite ?Hn. Qed.

Lemma num_text_not_word n w :
  is_finite n = true → w ∈ ["true"; "false"; "null"] → num_to_string n ≠ w.
Proof.
  intros Hn Hw Heq. destruct (num_text_chars n Hn) as [Hc _]. rewrite Heq in Hc.
  by repeat (apply elem_of_cons in Hw as [->|Hw]; [vm_compute in Hc; discriminate|]);
    apply not_elem_of_nil in Hw.
Qed.

(** Two normalized values that are not strings. *)
Lemma json_plain_same v v' :
  is_text v = false → is_text v' = false → norm v = v → norm v' = v' →
  json_scalar num_to_string v = json_scalar num_to_string v' ↔ strict_eq v v' = true.
Proof.
  destruct v as [s|n|b|], v' as [s'|n'|b'|]; try done; intros _ _ Hn Hn'; simpl in *;
    try (destruct (is_finite n) eqn:Hf; [|done]); try (destruct (is_finite n') eqn:Hf'; [|done]).
  - by apply num_text_eq.
  - split; [|done]. intros H. exfalso. apply (num_text_not_word n _ Hf) in H; [done|].
    destruct b'; set_solver.
  - split; [|done]. intros H. exfalso. apply (num_text_not_word n _ Hf) in H; [done|]. set_solver.
  - split; [|done]. intros H. exfalso. symmetry in H. apply (num_text_not_word n' _ Hf') in H; [done|].
    destruct b; set_solver.
  - by destruct b, b'.
  - by destruct b.
  - split; [|done]. intros H. exfalso. symmetry in H. apply (num_text_not_word n' _ Hf') in H; [done|]. set_solver.
  - by destruct b'.
Qed.

Lemma json_scalar_same v v' :
  json_scalar num_to_string v = json_scalar num_to_string v' ↔ same_cell v v' = true.
Proof.
  change (same_cell v v') with (strict_eq (norm v) (norm v')).
  rewrite <- (json_scalar_norm v), <- (json_scalar_norm v').
  assert (Hidem : ∀ x, norm (norm x) = norm x).
  { intros [s|n|b|]; try done. simpl. destruct (is_finite n) eqn:Hn; simpl; by rewrite ?Hn. }
  assert (Hmixed : ∀ x s, is_text x = false →
    json_scalar num_to_string x ≠ json_scalar num_to_string (SStr s)).
  { intros x s Hx Heq. destruct (json_scalar_plain x Hx) as [Hp _]. by rewrite Heq in Hp. }
  destruct (is_text (norm v)) eqn:Hv, (is_text (norm v')) eqn:Hv'.
  - destruct (norm v) as [s| | |], (norm v') as [s'| | |]; try done. simpl. rewrite String.eqb_eq.
    split; [|by intros ->]. intros [= H]. by apply json_chars_inj in H as [-> _].
  - destruct (norm v) as [s| | |]; try done. split; [|by destruct (norm v')].
    intros H. symmetry in H. by apply Hmixed in H.
  - destruct (norm v') as [s| | |]; try done. split; [|by destruct (norm v)].
    intros H. by apply Hmixed in H.
  - by apply json_plain_same.
Qed.

Lemma concat_cons_text (s : string) l :
  String.concat "," (s :: l) +:+ "]"
  = s +:+ match l with [] => "]" | _ => "," +:+ (String.concat "," l +:+ "]") end.
Proof. destruct l as [|x l]; [done|]. cbn [String.concat]. by rewrite !str_app_assoc. Qed.

(** Rows have one key exactly when they agree on the fields. *)
Lemma groupKey_same by_ r r' :
  groupKey num_to_string r by_ = groupKey num_to_string r' by_ ↔
  ∀ f, f ∈ by_ → same_cell (cell r f) (cell r' f) = true.
Proof.
  unfold groupKey. rewrite !str_app_cons, !str_app_nil_l.
  split.
  - intros [= H]. revert H. induction by_ as [|g by_ IH]; [by intros _ f Hf%not_elem_of_nil|].
    rewrite !fmap_cons, !concat_cons_text. intros H.
    assert (Hsplit : json_scalar num_to_string (cell r g) = json_scalar num_to_string (cell r' g) ∧
      (String.concat "," ((λ f, json_scalar num_to_string (cell r f)) <$> by_) +:+ "]"
       = String.concat "," ((λ f, json_scalar num_to_string (cell r' f)) <$> by_) +:+ "]")).
    { destruct by_ as [|g' by_].
      - apply json_scalar_split in H as (-> & _ & _); done.
      - rewrite !fmap_cons in *. rewrite !str_app_cons, !str_app_nil_l in H.
        apply json_scalar_split in H as (-> & _ & H); done. }
    destruct Hsplit as [Hg Hrest]. intros f [->|Hf]%elem_of_cons; [by apply json_scalar_same|].
    by apply IH.
  - intros Hall. do 3 f_equal. apply list_fmap_ext. intros i f Hf%list_elem_of_lookup_2.
    by apply json_scalar_same, Hall.
Qed.

(** The rows agree on every field. *)
Definition agree (by_ : list string) (r r' : row) : bool :=
  forallb (λ f, same_cell (cell r f) (cell r' f)) by_.

Lemma agree_groupKey by_ r r' :
  agree by_ r r' = true ↔ groupKey num_to_string r by_ = groupKey num_to_string r' by_.
Proof.
  unfold agree. rewrite groupKey_same, forallb_forall.
  split; intros Hall f Hf; apply Hall; by apply list_elem_of_In.
Qed.

(** Grouping by the JSON text of the fields is grouping by the values of the fields:
    the buckets partition the rows, no bucket is empty, and the bucket of a row holds, in
    their order, exactly the rows that agree with it on every group-by field (a number that
    is not finite counting as null). *)
Theorem group_partition by_ rows :
  let groups := group_rows num_to_string by_ rows in
  flat_map snd groups ≡ₚ rows ∧
  ∀ k bucket, (k, bucket) ∈ groups →
    bucket ≠ [] ∧
    ∀ r, r ∈ bucket →
      bucket = filter (λ r', agree by_ r r' = true) rows.
Proof.
  destruct (group_buckets num_to_string by_ rows) as (_ & Hperm & Hb). split; [done|].
  intros k bucket Hin. destruct (Hb k bucket Hin) as [Hne Hbucket]. split; [done|].
  intros r Hr. rewrite Hbucket in Hr |- *. apply list_elem_of_filter in Hr as [Hk Hr].
  apply list_filter_iff. intros r'. rewrite agree_groupKey, Hk. naive_solver.
Qed.
End GroupKey.

(** ** Sorting *)

Section StableSort.
Context {A : Type} (cmp : A → A → num).

(** The comparator puts [a] after [b]. *)
Definition above (a b : A) : bool := nltb nzero (cmp a b).
Definition at_most (a b : A) : Prop := above a b = false.
Definition level (a b : A) : bool := negb (above a b) && negb (above b a).

(** What the language asks of a comparator, on the sorted elements. *)
Record consistent (l : list A) : Prop := {
  cs_asym a b : a ∈ l → b ∈ l → above a b = true → at_most b a;
  cs_trans a b c : a ∈ l → b ∈ l → c ∈ l → at_most a b → at_most b c → at_most a c
}.

Lemma consistent_sub l l' : l ⊆ l' → consistent l' → consistent l.
Proof.
  intros Hsub [Ha Ht]. split.
  - intros a b H1 H2. by apply Ha; apply Hsub.
  - intros a b c H1 H2 H3. by apply Ht; apply Hsub.
Qed.

Lemma insert_sorted_perm x l : insert_sorted cmp x l ≡ₚ x :: l.
Proof.
  induction l as [|y l IH]; simpl; [done|]. destruct (nltb _ _); [|done].
  by rewrite IH, Permutation_swap.
Qed.

Lemma sort_by_perm l : sort_by cmp l ≡ₚ l.
Proof. induction l as [|x l IH]; simpl; [done|]. by rewrite insert_sorted_perm, IH. Qed.

Lemma insert_sorted_sorted x l :
  consistent (x :: l) → StronglySorted at_most l → StronglySorted at_most (insert_sorted cmp x l).
Proof.
  intros Hc Hl. induction Hl as [|y l Hl IH Hy]; simpl; [by repeat constructor|].
  change (nltb nzero (cmp x y)) with (above x y). destruct (above x y) eqn:Hxy.
  - constructor.
    + apply IH. eapply consistent_sub; [|exact Hc]. set_solver.
    + rewrite insert_sorted_perm. constructor; [|done].
      apply (cs_asym _ Hc); [left|right; left|done].
  - constructor; [by constructor|]. constructor; [done|].
    rewrite Forall_forall in Hy |- *. intros z Hz.
    apply (cs_trans _ Hc x y z); [left|right; left|right; by right|done|by apply Hy].
Qed.

Lemma sort_by_sorted l : consistent l → StronglySorted at_most (sort_by cmp l).
Proof.
  induction l as [|x l IH]; intros Hc; simpl; [constructor|]. apply insert_sorted_sorted.
  - eapply consistent_sub; [|exact Hc]. intros y. by rewrite sort_by_perm.
  - apply IH. eapply consistent_sub; [|exact Hc]. set_solver.
Qed.

Lemma level_inv a b : level a b = true ↔ at_most a b ∧ at_most b a.
Proof. unfold level, at_most. rewrite andb_true_iff, !negb_true_iff. done. Qed.

Lemma insert_sorted_stable a x l :
  consistent (a :: x :: l) →
  filter (λ y, level a y = true) (insert_sorted cmp x l) = filter (λ y, level a y = true) (x :: l).
Proof.
  induction l as [|y l IH]; intros Hc; [done|]. simpl insert_sorted.
  change (nltb nzero (cmp x y)) with (above x y). destruct (above x y) eqn:Hxy; [|done].
  assert (Hx : level a x = true → level a y = true → False).
  { rewrite !level_inv. intros [_ Hxa] [Hay _].
    pose proof (cs_trans _ Hc x a y) as Ht. unfold at_most in Ht. rewrite Ht in Hxy; try done; set_solver. }
  rewrite filter_cons, IH by (eapply consistent_sub; [|exact Hc]; set_solver).
  rewrite !filter_cons. repeat case_decide; try done. by exfalso; apply Hx.
Qed.

Lemma sort_by_stable a l :
  a ∈ l → consistent l →
  filter (λ y, level a y = true) (sort_by cmp l) = filter (λ y, level a y = true) l.
Proof.
  intros Ha Hc. assert (Hc' : consistent (a :: l)) by (eapply consistent_sub; [|exact Hc]; set_solver).
  clear Ha Hc. induction l as [|x l IH]; [done|]. simpl sort_by.
  rewrite insert_sorted_stable.
  - rewrite !filter_cons, IH; [done|]. eapply consistent_sub; [|exact Hc']. set_solver.
  - eapply consistent_sub; [|exact Hc']. intros y. rewrite sort_by_perm. done.
Qed.
End StableSort.

Section SortStep.
Context (num_to_string : num → string) (localeCompare : string → string → Z)
        (date_parse : string → option Z).
Context (field : string) (d : sort_dir).
Definition row_cmp (a b : row) : num :=
  compareForSort num_to_string localeCompare (cell a field) (cell b field) d.

(** When the comparator is consistent on the rows, as the language demands, the sort
    step returns a permutation of the rows that is ordered by the column in the given
    direction, keeps the order of rows that compare equal, and puts the rows without a value
    last in both directions. *)
Theorem sort_step_spec rows :
  consistent row_cmp rows →
  ∃ rows', apply_step num_to_string localeCompare date_parse rows (Sort field (Val d)) = Ok rows' ∧
    rows' ≡ₚ rows ∧ StronglySorted (at_most row_cmp) rows' ∧
    (∀ a, a ∈ rows → filter (λ r, level row_cmp a r = true) rows'
                     = filter (λ r, level row_cmp a r = true) rows) ∧
    (∀ pre r post, rows' = pre ++ r :: post → cell r field = SNull →
       Forall (λ r', cell r' field = SNull) post).
Proof.
  intros Hc. eexists. split; [reflexivity|]. split; [apply sort_by_perm|].
  pose proof (sort_by_sorted row_cmp rows Hc) as Hs. split; [done|]. split.
  - intros a Ha. by apply sort_by_stable.
  - intros pre r post Heq Hr. fold row_cmp in Heq.
    change (sort_by (λ a b, compareForSort num_to_string localeCompare (cell a field) (cell b field) d) rows)
      with (sort_by row_cmp rows) in Heq. rewrite Heq in Hs.
    apply StronglySorted_app in Hs as (_ & _ & Hs). apply StronglySorted_inv in Hs as [_ Hs].
    eapply Forall_impl; [exact Hs|]. intros r' Hle. unfold at_most, above, row_cmp in Hle. rewrite Hr in Hle.
    by destruct (cell r' field).
Qed.

(** A column of numbers and digit strings: numbers compare by value, a number
    and a string by their texts, and 9 < 10 < "5" < 9. *)
Lemma mixed_column_cycle :
  num_to_string (num_of_Z 9) = "9" → num_to_string (num_of_Z 10) = "10" →
  localeCompare "10" "5" = (-1)%Z → localeCompare "5" "9" = (-1)%Z →
  let below a b := nltb (compareForSort num_to_string localeCompare a b d_asc) nzero in
  below (SNum (num_of_Z 9)) (SNum (num_of_Z 10)) = true ∧
  below (SNum (num_of_Z 10)) (SStr "5") = true ∧
  below (SStr "5") (SNum (num_of_Z 9)) = true.
Proof.
  intros H9 H10 Ha Hb below. unfold below, compareForSort, compareOrdered, scalar_to_string.
  rewrite H9, H10, Ha, Hb. split_and!; vm_compute; reflexivity.
Qed.
End SortStep.

(** ** Weeks *)

Lemma iso_day_index n :
  let k := (((n + 4) mod 7 + 6) mod 7)%Z in (0 <= k < 7)%Z ∧ ((n - k + 4) mod 7 = 1)%Z.
Proof.
  intros k. assert (0 <= k < 7)%Z by (apply Z.mod_pos_bound; lia). split; [done|].
  unfold k in *. Z.to_euclidean_division_equations. lia.
Qed.

(** The week bucket of an instant starts on the Monday on or before its day. *)
Lemma monday_spec t :
  let m := mondayOfIsoWeekUtc t in
  weekday (day_of m) = 1%Z ∧ (m <= t < m + 7 * msPerDay)%Z ∧ mondayOfIsoWeekUtc m = m.
Proof.
  unfold mondayOfIsoWeekUtc, weekday, day_of, msPerDay.
  assert (Ht : (t / 86400000 * 86400000 <= t < (t / 86400000 + 1) * 86400000)%Z)
    by (pose proof (Z.mod_pos_bound t 86400000 eq_refl); pose proof (Z.div_mod t 86400000 ltac:(lia)); lia).
  generalize dependent (t / 86400000)%Z. intros n Ht. rewrite !Z.div_mul by lia.
  destruct (iso_day_index n) as [Hr Hk]. split_and!; [done|nia|nia|]. rewrite Hk.
  change ((1 + 6) mod 7)%Z with 0%Z. by rewrite Z.sub_0_r.
Qed.

(** ** Concrete widgets *)

Section Concrete.
Lemma bits_inj p : ∀ q, bits p = bits q → p = q.
Proof.
  assert (Hne : ∀ p, bits p ≠ "") by (by intros []).
  induction p as [p IH|p IH|]; intros [q|q|]; simpl; intros H; try discriminate H; try done;
    injection H as H.
  - by rewrite (IH _ H).
  - by apply Hne in H.
  - by rewrite (IH _ H).
  - symmetry in H. by apply Hne in H.
Qed.

Lemma bits_chars p : str_forall number_char (bits p) = true ∧ bits p ≠ "" ∧ bits p ≠ "e".
Proof. induction p as [p [IH _]|p [IH _]|]; simpl; [by rewrite IH..|done]. Qed.

#[local] Instance bits_text_laws : NumText bits_text.
Proof.
  split.
  - intros [s|s| |s m e]; simpl; try done. intros _. by destruct (bits_chars (encode (s, m, e))) as (? & ? & _).
  - intros [s|s| |s m e] [s'|s'| |s' m' e']; simpl; try done; intros _ _.
    + destruct (bits_chars (encode (s', m', e'))) as (_ & _ & He). split; [intros H; by symmetry in H|by destruct s'].
    + destruct (bits_chars (encode (s, m, e))) as (_ & _ & He). split; [intros H; done|by destruct s].
    + unfold neqb, SFeqb. simpl. split.
      * intros H%bits_inj%encode_inj. injection H as -> -> ->.
        rewrite Z.compare_refl. change (Pos.compare_cont Eq m' m') with (Pos.compare m' m').
        rewrite Pos.compare_refl. by destruct s'.
      * intros H. assert (s = s' ∧ e = e' ∧ m = m') as (-> & -> & ->); [|done].
        destruct s, s'; try done; (destruct (Z.compare_spec e e'); try done);
          change (Pos.compare_cont Eq m m') with (Pos.compare m m') in H;
          (destruct (Pos.compare_spec m m'); done).
Qed.

Definition cost_row (model : string) (cost : Z) : row := [("model", SStr model); ("cost", num_of cost)].
Definition cost_rows : list row := [cost_row "b" 2; cost_row "a" 7; cost_row "b" 3].

Definition sample_context : source_context := mk_source_context (num_of 1) "2026-01-01T00:00:00Z" "2026-01-01".
Definition sample_fetch (_ : widget_source) (_ : list (string * scalar))
    : result string fetched := Ok (mk_fetched cost_rows false ["model"; "cost"]).
Definition by_bytes (s t : string) : Z := if String.eqb s t then 0 else if String.ltb s t then -1 else 1.

Definition sample_run := runWidgetSources bits_text by_bytes (λ _, None) sample_fetch.

Lemma valid_widget_runs_witness :
  spec_issues sample_widget = [] ∧ NoDup (sourceNames sample_widget) ∧
  ∃ spec', resolveSpecSettings sample_widget [] = Ok spec' ∧
    ∃ out, map_get "costs" (sample_run spec' sample_context).1 = Some out ∧
           out = Ok (mk_source_result ["model"; "total"] [[("model", SStr "a"); ("total", num_of 7)]] false).
Proof.
  assert (HN : NoDup (sourceNames sample_widget)) by (apply (bool_decide_eq_true _); vm_compute; reflexivity).
  split; [exact sample_valid|]. split; [exact HN|].
  pose proof (valid_widget_runs bits_text by_bytes (λ _, None) sample_fetch sample_widget [] sample_context
                sample_valid HN) as Hr.
  destruct (resolveSpecSettings sample_widget []) as [spec'|e] eqn:He; [|vm_compute in He; discriminate].
  exists spec'. split; [reflexivity|]. destruct Hr as [_ Hr].
  destruct (Hr "costs" (SqlSource "SELECT model, cost FROM usage WHERE day >= :since"
    (Some [("since", PContext cx_todayIso); ("min", PLiteral (num_of 1))]))) as (out & Hout & _).
  { vm_compute in He. injection He as <-. left. }
  exists out. split; [exact Hout|]. vm_compute in He. injection He as <-. vm_compute in Hout.
  injection Hout as <-. reflexivity.
Defined.

Lemma group_partition_witness :
  NumText bits_text ∧
  ∀ k bucket, (k, bucket) ∈ group_rows bits_text ["model"] cost_rows →
    bucket ≠ [] ∧
    ∀ r, r ∈ bucket → bucket = filter (λ r', agree ["model"] r r' = true) cost_rows.
Proof.
  split; [exact bits_text_laws|].
  destruct (@group_partition bits_text bits_text_laws ["model"] cost_rows) as [_ Hb]. exact Hb.
Defined.

Definition by_cost := row_cmp bits_text by_bytes "cost" d_asc.

Lemma cost_rows_consistent : consistent by_cost cost_rows.
Proof.
  assert (Hin : ∀ a, a ∈ cost_rows → a = cost_row "b" 2 ∨ a = cost_row "a" 7 ∨ a = cost_row "b" 3).
  { intros a. unfold cost_rows. rewrite !elem_of_cons. intros [?|[?|[?|H%not_elem_of_nil]]]; tauto. }
  split.
  - intros a b [->|[->| ->]]%Hin [->|[->| ->]]%Hin; vm_compute; congruence.
  - intros a b c [->|[->| ->]]%Hin [->|[->| ->]]%Hin [->|[->| ->]]%Hin; vm_compute; congruence.
Qed.

Lemma sort_step_spec_witness :
  consistent by_cost cost_rows ∧
  ∃ rows', apply_step bits_text by_bytes (λ _, None) cost_rows (Sort "cost" (Val d_asc)) = Ok rows' ∧
    rows' ≡ₚ cost_rows ∧ StronglySorted (at_most by_cost) rows' ∧
    rows' = [cost_row "b" 2; cost_row "b" 3; cost_row "a" 7].
Proof.
  split; [exact cost_rows_consistent|].
  destruct (sort_step_spec bits_text by_bytes (λ _, None) "cost" d_asc cost_rows cost_rows_consistent)
    as (rows' & Heq & Hp & Hs & _).
  exists rows'. split; [exact Heq|]. split; [exact Hp|]. split; [exact Hs|].
  vm_compute in Heq. injection Heq as <-. reflexivity.
Defined.
End Concrete.
