(* ===== verification/LaneTables.v ===== *)
(** * Sprint lanes: tables and read model

    The data of [shared/types/sprintBatch.ts] and of the tables
    [sprint_batches], [sprint_batch_tasks], [tasks], [board_stages],
    [experiments], [task_dependencies] and [verification_requests], with the
    columns [orchestrator/sprintLaneStore.ts] reads or writes, and that store's
    queries: the eligibility filter and its sibling queries, the lane listing
    with the in-batch blockers and the visual verdict computed on read.

    A table whose order a query observes is a list in rowid order; a missing
    table or column of an older schema is a flag of [lane_schema], and a
    statement that mentions it throws, as SQLite does.  [JSON.parse] is an
    argument ([None] is a throw).  Attempt numbers in an enqueue key are below
    2^53, where a JavaScript number prints as it was written. *)

From Stdlib Require Import SpecFloat Ascii.
From S2P Require Import Prelude RunStateMachine Database JsString Regex JsNumber WorkflowDef.

Open Scope js_scope.

(** ** [shared/types/sprintBatch.ts] *)

Inductive batch_status :=
  | b_planning | b_running | b_finalizing | b_completed | b_failed | b_canceled.

Inductive lane_status := l_queued | l_running | l_integrated | l_failed | l_blocked.

Inductive cli_substrate := sub_sdk | sub_interactive.

#[export] Instance batch_status_eq_dec : EqDecision batch_status.
Proof. solve_decision. Defined.
#[export] Instance lane_status_eq_dec : EqDecision lane_status.
Proof. solve_decision. Defined.
#[export] Instance cli_substrate_eq_dec : EqDecision cli_substrate.
Proof. solve_decision. Defined.

Definition TERMINAL_BATCH_STATUSES : list batch_status := [b_completed; b_failed; b_canceled].
Definition batch_terminal (s : batch_status) : bool := bool_decide (s ∈ TERMINAL_BATCH_STATUSES).

Definition AWAITING_VERIFY_STEP : string := "awaiting-verify".
Definition SPRINT_IMPLEMENT_STEP : string := "implement".
Definition SPRINT_VISUAL_VERIFY_STEP : string := "visual-verify".
Definition SPRINT_LANE_STEP_IDS : list string :=
  ["implement"; "write-tests"; "code-review"; "task-verify"; "visual-verify"; "awaiting-verify"].

Definition SPRINT_BATCH_MAX_TASKS_DEFAULTS (s : cli_substrate) : Z :=
  match s with sub_sdk => 15 | sub_interactive => 10 end.
Definition SPRINT_MAX_TASKS_MIN : Z := 1.
Definition SPRINT_MAX_TASKS_MAX : Z := 100.

(** The stored value is a JSON scalar; anything but a finite number is no override. *)
Definition clampSprintMaxTasks (value : option scalar) : option Z :=
  match value with
  | Some (SNum n) =>
      match trunc_Z n with
      | Some int =>
          Some (if (int <? SPRINT_MAX_TASKS_MIN)%Z then SPRINT_MAX_TASKS_MIN
                else if (SPRINT_MAX_TASKS_MAX <? int)%Z then SPRINT_MAX_TASKS_MAX else int)
      | None => None
      end
  | _ => None
  end.

Definition resolveSprintMaxTasks (overrides : option (cli_substrate → option scalar))
    (substrate : cli_substrate) : Z :=
  match clampSprintMaxTasks (match overrides with Some o => o substrate | None => None end) with
  | Some cap => cap
  | None => SPRINT_BATCH_MAX_TASKS_DEFAULTS substrate
  end.

(** ** [shared/types/visualVerification.ts] *)

Inductive request_status :=
  | rq_queued | rq_leased | rq_running | rq_passed | rq_failed | rq_low_confidence
  | rq_skipped | rq_timeout.
#[export] Instance request_status_eq_dec : EqDecision request_status.
Proof. solve_decision. Defined.

Definition request_status_string (s : request_status) : string :=
  match s with
  | rq_queued => "queued" | rq_leased => "leased" | rq_running => "running"
  | rq_passed => "passed" | rq_failed => "failed" | rq_low_confidence => "low_confidence"
  | rq_skipped => "skipped" | rq_timeout => "timeout"
  end.
Definition REQUEST_STATUS : list request_status :=
  [rq_queued; rq_leased; rq_running; rq_passed; rq_failed; rq_low_confidence; rq_skipped; rq_timeout].
Definition TERMINAL_REQUEST_STATUSES : list request_status :=
  [rq_passed; rq_failed; rq_low_confidence; rq_skipped; rq_timeout].

(** [isRequestStatus] with the value it narrows to. *)
Definition isRequestStatus (value : string) : option request_status :=
  List.find (λ s, String.eqb (request_status_string s) value) REQUEST_STATUS.

Definition isVerificationFailureClass (v : string) : bool :=
  bool_decide (v ∈ ["env"; "deliverable"; "ambiguous"]).

(** ** Rows *)

Record batch_row := mk_batch {
  sb_project : Z;
  sb_substrate : cli_substrate;
  sb_status : batch_status;
  sb_concurrency : Z;
  sb_updated_at : instant;
  sb_completed_at : option instant
}.

Record lane_row := mk_lane {
  ln_id : nat;
  ln_batch : string;
  ln_task : string;
  ln_status : lane_status;
  ln_step : option string;
  ln_attempts : Z;
  ln_integrated_at : option instant;
  ln_updated_at : instant
}.

Record task_row := mk_task {
  tk_project : Z;
  tk_ref : option string;
  tk_title : string;
  tk_stage : string;
  tk_approved_at : option instant;
  tk_archived_at : option instant;
  tk_executor : string;
  tk_experiment : option string
}.

Record stage_row := mk_stage { stg_position : Z; stg_terminal : bool }.

Record lane_run := mk_lane_run {
  lr_id : string;
  lr_status : run_status;
  lr_project : Z;
  lr_task : option string;
  lr_batch : option string;
  lr_model : option string;
  lr_workflow : string;
  lr_spec_hash : option string;
  lr_current_step : option string;
  lr_updated_at : instant
}.

(** [workflows] and [workflow_revisions] *)
Record workflow_row := mk_workflow { wf_name : string; wf_spec : option string }.

Record dependency_row := mk_dependency { dp_task : string; dp_on : string; dp_kind : string }.

Record request_row := mk_request_row {
  vr_run : string;
  vr_enqueue_key : option string;
  vr_deliverable : option string;
  vr_status : string;
  vr_failure_class : option string;
  vr_error_message : option string;
  vr_setup_proof : bool;
  vr_bootstrap_proof : bool;
  vr_enqueued_at : instant
}.

(** What the schema has: [tasks.approved_at]/[archived_at], [tasks.executor],
    [tasks.experiment_id], the two A/B tables, and [verification_requests]. *)
Record lane_schema := mk_schema {
  sc_approval : bool;
  sc_executor : bool;
  sc_experiment_id : bool;
  sc_seed_tasks : bool;
  sc_experiments : bool;
  sc_requests : bool
}.

Record lane_db := mk_lane_db {
  ld_schema : lane_schema;
  ld_batches : gmap string batch_row;
  ld_lanes : list lane_row;
  ld_next_id : nat;
  ld_tasks : gmap string task_row;
  ld_stages : gmap string stage_row;
  ld_runs : list lane_run;
  ld_workflows : gmap string workflow_row;
  ld_revisions : gmap (string * string) string;
  ld_seeds : list (string * string);
  ld_experiments : gmap string string;
  ld_dependencies : list dependency_row;
  ld_requests : list request_row
}.

Definition set_batches (t : gmap string batch_row) (d : lane_db) : lane_db :=
  mk_lane_db d.(ld_schema) t d.(ld_lanes) d.(ld_next_id) d.(ld_tasks) d.(ld_stages) d.(ld_runs)
    d.(ld_workflows) d.(ld_revisions) d.(ld_seeds) d.(ld_experiments) d.(ld_dependencies)
    d.(ld_requests).

Definition set_lanes (l : list lane_row) (next : nat) (d : lane_db) : lane_db :=
  mk_lane_db d.(ld_schema) d.(ld_batches) l next d.(ld_tasks) d.(ld_stages) d.(ld_runs)
    d.(ld_workflows) d.(ld_revisions) d.(ld_seeds) d.(ld_experiments) d.(ld_dependencies)
    d.(ld_requests).

Definition set_lane_runs (l : list lane_run) (d : lane_db) : lane_db :=
  mk_lane_db d.(ld_schema) d.(ld_batches) d.(ld_lanes) d.(ld_next_id) d.(ld_tasks) d.(ld_stages) l
    d.(ld_workflows) d.(ld_revisions) d.(ld_seeds) d.(ld_experiments) d.(ld_dependencies)
    d.(ld_requests).

(** ** Errors *)

Inductive lane_error_code := e_lane_not_found | e_bad_request | e_no_eligible_tasks | e_batch_too_large.

Inductive lane_error :=
  | SprintLaneError (code : lane_error_code)
  | SqlNoSuch  (* "no such column" or "no such table" *)
  | SqlUnique. (* a UNIQUE or PRIMARY KEY violation *)

(** ** Runs and frozen definitions *)

Definition find_run (d : lane_db) (runId : string) : option lane_run :=
  List.find (λ r, String.eqb r.(lr_id) runId) d.(ld_runs).

Definition resolveOwningRunId (d : lane_db) (batchId : string) : option string :=
  lr_id <$> List.find (λ r, bool_decide (r.(lr_batch) = Some batchId)) d.(ld_runs).

Definition run_is_active (r : lane_run) : bool :=
  negb (bool_decide (r.(lr_status) ∈ [completed; failed; canceled])).

Definition resolveRunFrozenSpec (d : lane_db) (runId : string) : option (string * option string) :=
  r ← find_run d runId;
  w ← d.(ld_workflows) !! r.(lr_workflow);
  Some (w.(wf_name),
    match r.(lr_spec_hash) with
    | None => w.(wf_spec)
    | Some h => match d.(ld_revisions) !! (r.(lr_workflow), h) with
                | Some spec => Some spec
                | None => w.(wf_spec)
                end
    end).

(** ** Scope queries over a task selection *)

Section Queries.
Context (d : lane_db).

Definition in_batch (batchId : string) (l : lane_row) : bool := String.eqb l.(ln_batch) batchId.

(** A live run holds the task, directly or through a batch it has a lane in. *)
Definition has_active_run (tid : string) : bool :=
  existsb (λ wr, run_is_active wr
    && (bool_decide (wr.(lr_task) = Some tid)
        || match wr.(lr_batch) with
           | Some b => existsb (λ l, in_batch b l && String.eqb l.(ln_task) tid) d.(ld_lanes)
           | None => false
           end)) d.(ld_runs).

Definition experiment_live (status : string) : bool :=
  negb (bool_decide (status ∈ ["decided"; "abandoned"; "superseded"])).

Definition is_live_seed (tid : string) : bool :=
  existsb (λ est, String.eqb est.2 tid
    && match d.(ld_experiments) !! est.1 with
       | Some status => experiment_live status
       | None => false
       end) d.(ld_seeds).

(** [WHERE t.project_id = ? AND t.id IN (...) AND p] over a selection. *)
Definition select_tasks (projectId : Z) (p : string → task_row → bool) (ids : list string)
    : list string :=
  filter (λ id, match d.(ld_tasks) !! id with
                | Some t => (t.(tk_project) =? projectId)%Z && p id t
                | None => false
                end = true) ids.

Definition is_some {A} (o : option A) : bool := match o with Some _ => true | None => false end.

(** The conjuncts of the eligibility query; the two optional clauses are there
    when the schema has their column or table. *)
Definition eligible_clauses (id : string) (t : task_row) : bool :=
  match d.(ld_stages) !! t.(tk_stage) with
  | None => false
  | Some bs =>
      is_some t.(tk_approved_at) && negb (is_some t.(tk_archived_at))
      && (if d.(ld_schema).(sc_executor) then negb (String.eqb t.(tk_executor) "human") else true)
      && (6 <=? bs.(stg_position))%Z && negb bs.(stg_terminal)
      && negb (has_active_run id)
      && (if d.(ld_schema).(sc_seed_tasks) then negb (is_live_seed id) else true)
  end.

(** [try { rows } catch (no such column/table) { fallback }] *)
Definition degrade (present : bool) (rows fallback : list string) : list string :=
  match (if present then Ok rows else Throw SqlNoSuch : result lane_error (list string)) with
  | Ok l => l
  | Throw _ => fallback
  end.

Definition filterEligibleTaskIds (projectId : Z) (taskIds : list string) : list string :=
  let unique := js_unique taskIds in
  match unique with
  | [] => []
  | _ => degrade
           (d.(ld_schema).(sc_approval)
            && (if d.(ld_schema).(sc_seed_tasks) then d.(ld_schema).(sc_experiments) else true))
           (select_tasks projectId eligible_clauses unique) unique
  end.

Definition findLiveExperimentSeedTaskIds (projectId : Z) (taskIds : list string) : list string :=
  let unique := js_unique taskIds in
  match unique with
  | [] => []
  | _ => degrade (d.(ld_schema).(sc_seed_tasks) && d.(ld_schema).(sc_experiments))
           (select_tasks projectId (λ id _, is_live_seed id) unique) []
  end.

Definition findHumanTaskIds (projectId : Z) (taskIds : list string) : list string :=
  let unique := js_unique taskIds in
  match unique with
  | [] => []
  | _ => degrade d.(ld_schema).(sc_executor)
           (select_tasks projectId (λ _ t, String.eqb t.(tk_executor) "human") unique) []
  end.

Definition findActiveRunTaskIds (projectId : Z) (taskIds : list string) : list string :=
  let unique := js_unique taskIds in
  match unique with
  | [] => []
  | _ => degrade true (select_tasks projectId (λ id _, has_active_run id) unique) []
  end.

Definition findExperimentTaggedTaskIds (projectId : Z) (taskIds : list string) : list string :=
  let unique := js_unique taskIds in
  match unique with
  | [] => []
  | _ => degrade d.(ld_schema).(sc_experiment_id)
           (select_tasks projectId (λ _ t, is_some t.(tk_experiment)) unique) []
  end.

(** ** Resolving identifiers *)

Definition first_task_by_ref (projectId : Z) (ref : string) : option string :=
  fst <$> List.find (λ kt : string * task_row, (kt.2.(tk_project) =? projectId)%Z
                               && bool_decide (kt.2.(tk_ref) = Some ref)) (map_to_list d.(ld_tasks)).

Definition resolveTaskId (projectId : Z) (identifier : string) : option string :=
  match d.(ld_tasks) !! identifier with
  | Some _ => Some identifier
  | None => first_task_by_ref projectId identifier
  end.

Definition find_lane (batchId taskId : string) : option lane_row :=
  List.find (λ l, in_batch batchId l && String.eqb l.(ln_task) taskId) d.(ld_lanes).

(** The lane a task identifier names in a batch: its opaque id first, then the
    display ref through the join with [tasks]. *)
Definition resolve_lane (batchId taskId : string) : option lane_row :=
  match find_lane batchId taskId with
  | Some l => Some l
  | None => List.find (λ l, in_batch batchId l
                && match d.(ld_tasks) !! l.(ln_task) with
                   | Some t => bool_decide (t.(tk_ref) = Some taskId)
                   | None => false
                   end) d.(ld_lanes)
  end.
End Queries.

(** ** The lane read model *)

Record visual_verification := mk_visual {
  vv_status : request_status;
  vv_failureClass : option string;
  vv_errorMessage : option string;
  vv_laneAttempt : option Z;
  vv_stale : bool
}.

Record lane_view := mk_view {
  lv_batch : string;
  lv_task : string;
  lv_status : lane_status;
  lv_step : option string;
  lv_ref : option string;
  lv_title : option string;
  lv_attempts : Z;
  lv_blockedBy : list string;
  lv_visual : option visual_verification;
  lv_updated_at : instant
}.

(** What follows the last occurrence of a character. *)
Fixpoint after_last (c : ascii) (s : string) : option string :=
  match s with
  | EmptyString => None
  | String a s' => match after_last c s' with
                   | Some t => Some t
                   | None => if Ascii.eqb a c then Some s' else None
                   end
  end.

Fixpoint digits_value (acc : Z) (s : string) : Z :=
  match s with
  | EmptyString => acc
  | String a s' => digits_value (acc * 10 + Z.of_nat (nat_of_ascii a - 48)) s'
  end.

(** A decimal text that [String(parseInt(s, 10))] gives back. *)
Definition canonical_nat (s : string) : bool :=
  match s with
  | EmptyString => false
  | String a EmptyString => is_digit a
  | String a s' => is_digit a && negb (Ascii.eqb a "0") && str_forall is_digit s'
  end.

Definition parseLaneAttemptFromEnqueueKey (key : option string) : option Z :=
  match key with
  | None => None
  | Some k =>
      match after_last ":" k with
      | None => None
      | Some tail => if canonical_nat (trim tail) then Some (digits_value 0 (trim tail)) else None
      end
  end.

Definition nonempty_opt (o : option string) : option string :=
  match o with Some s => if String.eqb s "" then None else Some s | None => None end.

Section ReadModel.
Context (JSON_parse : string → option json_value).

Definition parseRequestTaskRef (json : option string) : option string :=
  match nonempty_opt json with
  | None => None
  | Some s =>
      match JSON_parse s with
      | None => None
      | Some parsed =>
          match json_member "taskRef" parsed with
          | Some (JScalar (SStr ref)) => nonempty_opt (Some ref)
          | _ => None
          end
      end
  end.

(** [ORDER BY enqueued_at DESC, rowid DESC] of rows in rowid order. *)
Fixpoint insert_newest (x : request_row) (l : list request_row) : list request_row :=
  match l with
  | [] => [x]
  | y :: l' => if (x.(vr_enqueued_at) <? y.(vr_enqueued_at))%Z then y :: insert_newest x l'
               else x :: l
  end.
Definition newest_first (l : list request_row) : list request_row :=
  foldr insert_newest [] (rev l).

(** The requests that can carry a lane's verdict: not a proof run. *)
Definition lane_request (runIds : list string) (r : request_row) : bool :=
  bool_decide (r.(vr_run) ∈ runIds) && negb r.(vr_setup_proof) && negb r.(vr_bootstrap_proof)
  && match r.(vr_enqueue_key) with
     | None => true
     | Some k => negb (includes ":bootstrap:" (toLowerCase k))
     end.

Definition attributable (runIds : list string) (task : string) (ref : option string)
    (r : request_row) : bool :=
  let by_ref := match parseRequestTaskRef r.(vr_deliverable) with
                | Some t => String.eqb t task || bool_decide (ref = Some t)
                | None => false
                end in
  let prefixes := flat_map (λ runId, (runId +:+ ":" +:+ task +:+ ":")
                    :: match nonempty_opt ref with
                       | Some f => [runId +:+ ":" +:+ f +:+ ":"]
                       | None => []
                       end) runIds in
  by_ref || match r.(vr_enqueue_key) with
            | Some k => existsb (λ p, startsWith p k) prefixes
            | None => false
            end.

Definition visual_of_request (attempts : Z) (r : request_row) : option visual_verification :=
  match isRequestStatus r.(vr_status) with
  | None => None
  | Some status =>
      let laneAttempt := parseLaneAttemptFromEnqueueKey r.(vr_enqueue_key) in
      Some (mk_visual status
        (match r.(vr_failure_class) with
         | Some c => if isVerificationFailureClass c then Some c else None
         | None => None
         end)
        r.(vr_error_message) laneAttempt
        (match laneAttempt with Some a => (a <? attempts)%Z | None => false end))
  end.

(** One lane's entry of [visualVerificationForLanes]. *)
Definition visualVerificationForLane (d : lane_db) (batchId task : string) (ref : option string)
    (attempts : Z) : option visual_verification :=
  if negb d.(ld_schema).(sc_requests) then None
  else
    let runIds := filter (λ id, id ≠ "")
      (lr_id <$> filter (λ r, r.(lr_batch) = Some batchId) d.(ld_runs)) in
    match List.find (attributable runIds task ref)
            (newest_first (filter (λ r, lane_request runIds r = true) d.(ld_requests))) with
    | Some hit => visual_of_request attempts hit
    | None => None
    end.

(** The un-integrated in-batch prerequisites of a task, as display refs. *)
Definition blockedByRefs (d : lane_db) (batchId task : string) : list string :=
  flat_map (λ dep,
    if String.eqb dep.(dp_kind) "blocking" && String.eqb dep.(dp_task) task then
      (λ _, match d.(ld_tasks) !! dep.(dp_on) with
            | Some t => match t.(tk_ref) with Some r => r | None => dep.(dp_on) end
            | None => dep.(dp_on)
            end)
      <$> filter (λ pre, pre.(ln_batch) = batchId ∧ pre.(ln_task) = dep.(dp_on)
                         ∧ pre.(ln_status) ≠ l_integrated) d.(ld_lanes)
    else []) d.(ld_dependencies).

Definition toLaneRow (d : lane_db) (l : lane_row) : lane_view :=
  let ref := d.(ld_tasks) !! l.(ln_task) ≫= tk_ref in
  mk_view l.(ln_batch) l.(ln_task) l.(ln_status) l.(ln_step) ref
    (tk_title <$> d.(ld_tasks) !! l.(ln_task)) l.(ln_attempts)
    (blockedByRefs d l.(ln_batch) l.(ln_task))
    (visualVerificationForLane d l.(ln_batch) l.(ln_task) ref l.(ln_attempts))
    l.(ln_updated_at).

Definition listLanes (d : lane_db) (batchId : string) : list lane_view :=
  toLaneRow d <$> filter (λ l, in_batch batchId l = true) d.(ld_lanes).

Definition readLane (d : lane_db) (batchId taskId : string) : option lane_view :=
  toLaneRow d <$> find_lane d batchId taskId.
End ReadModel.

Example attempts_of_keys :
  parseLaneAttemptFromEnqueueKey (Some "run-1:TASK-2:3") = Some 3%Z
  ∧ parseLaneAttemptFromEnqueueKey (Some "run-1:TASK-2:03") = None
  ∧ parseLaneAttemptFromEnqueueKey (Some "run-1:TASK-2:-1") = None
  ∧ parseLaneAttemptFromEnqueueKey (Some "run-1") = None
  ∧ parseLaneAttemptFromEnqueueKey None = None.
Proof. repeat split; vm_compute; reflexivity. Qed.
