(* ===== verification/SprintLanes.v ===== *)
(** * The sprint lane store

    Models [orchestrator/sprintLaneStore.ts], the one writer of sprint batches
    and lanes, and [orchestrator/laneChainResolution.ts], over the tables of
    [LaneTables].  Each method is a computation on the store's state: the
    database, the cache of resolved fan-out chains, and the log of what
    subscribers see.  Error and log messages are not modelled; the error codes
    are. *)

From Stdlib Require Import SpecFloat Ascii.
From S2P Require Import Prelude RunStateMachine Database JsString Regex JsNumber WorkflowDef Wp LaneTables.

Open Scope js_scope.

Record lane_event := mk_lane_event {
  le_run : string;
  le_batch : string;
  le_task : string;
  le_status : lane_status;
  le_step : option string;
  le_attempts : Z;
  le_visual : option visual_verification;
  le_timestamp : instant
}.

Inductive lane_effect :=
  | LaneChanged (e : lane_event)
  | BatchMinted (projectId : Z) (batchId : string) (taskIds : list string).

Record lane_store := mk_store {
  ls_db : lane_db;
  ls_cache : list (string * option (list inner_step));
  ls_log : list lane_effect
}.

Definition laneM (A : Type) : Type := M lane_error lane_store A.

Definition update_db (f : lane_db → lane_db) (s : lane_store) : lane_store :=
  mk_store (f s.(ls_db)) s.(ls_cache) s.(ls_log).
Definition emit_lane (e : lane_effect) : laneM unit :=
  modify (λ s, mk_store s.(ls_db) s.(ls_cache) (s.(ls_log) ++ [e])).
Definition fail_lane {A} (code : lane_error_code) : laneM A := throw (SprintLaneError code).

(** ** Statements *)

(** [INSERT INTO sprint_batch_tasks (batch_id, task_id, status) VALUES (?, ?, 'queued')] *)
Definition insert_lane (now : instant) (batchId taskId : string) : laneM unit :=
  s <- get ;;
  let d := s.(ls_db) in
  match find_lane d batchId taskId with
  | Some _ => throw SqlUnique
  | None =>
      modify (update_db (set_lanes
        (d.(ld_lanes) ++ [mk_lane d.(ld_next_id) batchId taskId l_queued None 0 None
                            (current_timestamp now)])
        (S d.(ld_next_id))))
  end.

Definition insert_batch (id : string) (row : batch_row) : laneM unit :=
  d <- gets ls_db ;;
  match d.(ld_batches) !! id with
  | Some _ => throw SqlUnique
  | None => modify (update_db (set_batches (<[id := row]> d.(ld_batches))))
  end.

Definition map_lane (id : nat) (f : lane_row → lane_row) (l : list lane_row) : list lane_row :=
  (λ r, if Nat.eqb r.(ln_id) id then f r else r) <$> l.

Definition update_lane_by_id (id : nat) (f : lane_row → lane_row) : laneM unit :=
  modify (update_db (λ d, set_lanes (map_lane id f d.(ld_lanes)) d.(ld_next_id) d)).

Definition delete_lane_by_id (id : nat) : laneM unit :=
  modify (update_db (λ d, set_lanes (filter (λ r, r.(ln_id) ≠ id) d.(ld_lanes)) d.(ld_next_id) d)).

(** [UPDATE sprint_batches SET ... WHERE id = ? AND p]: the changed rows. *)
Definition update_batch (id : string) (p : batch_row → bool) (f : batch_row → batch_row) : laneM nat :=
  d <- gets ls_db ;;
  let '(n, t) := sql_update_id id p f d.(ld_batches) in
  modify (update_db (set_batches t)) ;;;
  mret n.

(** ** Creating a batch *)

Section CreateForRun.
(** [deps.getSprintMaxTasks], the identifier [randomUUID] mints, and the clock *)
Context (getSprintMaxTasks : option (cli_substrate → option scalar)).

Definition createForRun (projectId : Z) (substrate : cli_substrate) (taskIds : list string)
    (batchId : string) (now : instant) : laneM string :=
  let uniqueTaskIds := js_unique taskIds in
  match uniqueTaskIds with
  | [] => fail_lane e_bad_request
  | _ =>
      d <- gets ls_db ;;
      let eligibleTaskIds := filterEligibleTaskIds d projectId uniqueTaskIds in
      match eligibleTaskIds with
      | [] => fail_lane e_no_eligible_tasks
      | _ =>
          let maxTasks := resolveSprintMaxTasks getSprintMaxTasks substrate in
          if (maxTasks <? Z.of_nat (length eligibleTaskIds))%Z then fail_lane e_batch_too_large
          else
            transaction (
              insert_batch batchId
                (mk_batch projectId substrate b_running SPRINT_BATCH_CAP (current_timestamp now) None) ;;;
              mapM_ (insert_lane now batchId) eligibleTaskIds) ;;;
            emit_lane (BatchMinted projectId batchId eligibleTaskIds) ;;;
            mret batchId
      end
  end.
End CreateForRun.

Section Store.
Context (JSON_parse : string → option json_value).
Context (resolveWorkflowDefinition : string → option string → option workflow_definition).

Definition lane_changed (runId : string) (lane : lane_view) (timestamp : instant) : lane_effect :=
  LaneChanged (mk_lane_event runId lane.(lv_batch) lane.(lv_task) lane.(lv_status) lane.(lv_step)
                 lane.(lv_attempts) lane.(lv_visual) timestamp).

(** ** Editing the roster of a running batch *)

Definition addLane (projectId : Z) (batchId taskId : string) (now : instant) : laneM lane_view :=
  d <- gets ls_db ;;
  match d.(ld_batches) !! batchId with
  | None => fail_lane e_bad_request
  | Some batch =>
      if batch_terminal batch.(sb_status) then fail_lane e_bad_request
      else
        match resolveTaskId d projectId taskId with
        | None => fail_lane e_bad_request
        | Some resolvedTaskId =>
            match filterEligibleTaskIds d projectId [resolvedTaskId] with
            | [] => fail_lane e_no_eligible_tasks
            | _ =>
                transaction (
                  d <- gets ls_db ;;
                  match find_lane d batchId resolvedTaskId with
                  | Some _ => fail_lane e_bad_request
                  | None => insert_lane now batchId resolvedTaskId
                  end) ;;;
                d <- gets ls_db ;;
                match readLane JSON_parse d batchId resolvedTaskId with
                | None => fail_lane e_lane_not_found
                | Some lane =>
                    match resolveOwningRunId d batchId with
                    | Some runId => emit_lane (lane_changed runId lane lane.(lv_updated_at))
                    | None => mret tt
                    end ;;;
                    mret lane
                end
            end
        end
  end.

Definition removeLane (batchId taskId : string) (now : instant) : laneM bool :=
  resolvedTaskId <- transaction (
    d <- gets ls_db ;;
    match resolve_lane d batchId taskId with
    | None => fail_lane e_lane_not_found
    | Some existing =>
        if negb (bool_decide (existing.(ln_status) = l_queued)) then fail_lane e_bad_request
        else
          delete_lane_by_id existing.(ln_id) ;;;
          mret existing.(ln_task)
    end) ;;
  catch (
    d <- gets ls_db ;;
    match resolveOwningRunId d batchId with
    | Some runId =>
        emit_lane (LaneChanged (mk_lane_event runId batchId resolvedTaskId l_queued None 0 None now))
    | None => mret tt
    end) (λ _, mret tt) ;;;
  mret true.

(** ** Progress writes *)

(** [currentStepId]: [None] leaves the step, [Some None] clears it. *)
Record lane_patch := mk_patch {
  pt_status : option string;
  pt_step : option (option string);
  pt_attempt : option num
}.

Definition lane_status_string (s : lane_status) : string :=
  match s with
  | l_queued => "queued" | l_running => "running" | l_integrated => "integrated"
  | l_failed => "failed" | l_blocked => "blocked"
  end.
Definition LANE_STATUSES : list lane_status := [l_queued; l_running; l_integrated; l_failed; l_blocked].
Definition lane_status_of (s : string) : option lane_status :=
  List.find (λ x, String.eqb (lane_status_string x) s) LANE_STATUSES.

Definition patch_ok (allowed : list string) (p : lane_patch) : bool :=
  match p with
  | mk_patch None None None => false
  | _ => true
  end
  && match p.(pt_status) with Some s => is_some (lane_status_of s) | None => true end
  && match p.(pt_step) with Some (Some step) => bool_decide (step ∈ allowed) | _ => true end
  && match p.(pt_attempt) with
     | Some a => isInteger a && negb (nltb a (num_of_Z 1))
     | None => true
     end.

(** The row the dynamic [SET] list leaves. *)
Definition apply_patch (p : lane_patch) (now : instant) (l : lane_row) : lane_row :=
  let status := match p.(pt_status) ≫= lane_status_of with Some s => s | None => l.(ln_status) end in
  mk_lane l.(ln_id) l.(ln_batch) l.(ln_task) status
    (match p.(pt_step) with Some step => step | None => l.(ln_step) end)
    (match p.(pt_attempt) ≫= to_Z with Some a => a | None => l.(ln_attempts) end)
    (match p.(pt_status) ≫= lane_status_of with
     | Some l_integrated => Some now
     | _ => l.(ln_integrated_at)
     end)
    now.

Definition updateLane (runId batchId taskId : string) (p : lane_patch)
    (allowedStepIds : option (list string)) (now : instant) : laneM lane_view :=
  let allowed := match allowedStepIds with Some a => a | None => SPRINT_LANE_STEP_IDS end in
  if negb (patch_ok allowed p) then fail_lane e_bad_request
  else
    resolvedTaskId <- transaction (
      d <- gets ls_db ;;
      match resolve_lane d batchId taskId with
      | None => fail_lane e_lane_not_found
      | Some existing =>
          update_lane_by_id existing.(ln_id) (apply_patch p now) ;;;
          mret existing.(ln_task)
      end) ;;
    d <- gets ls_db ;;
    match readLane JSON_parse d batchId resolvedTaskId with
    | None => fail_lane e_lane_not_found
    | Some lane =>
        emit_lane (lane_changed runId lane now) ;;;
        mret lane
    end.

(** ** Lane vocabularies ([laneChainResolution.ts]) *)

(** The inner steps of every fan-out step in walk order, first id wins. *)
Definition union_inner (def : workflow_definition) : list inner_step :=
  foldl (λ union inner, if bool_decide (inner.(is_id) ∈ (is_id <$> union)) then union
                        else union ++ [inner]) []
    (flat_map (λ ph, flat_map (λ st, match st.(ws_fanOut) with
                                     | Some f => f.(fo_inner)
                                     | None => []
                                     end) ph.(ph_steps)) def.(wd_phases)).

Definition resolveRunFanOutInner (d : lane_db) (runId : string) : option (list inner_step) :=
  '(name, spec) ← resolveRunFrozenSpec d runId;
  def ← resolveWorkflowDefinition name spec;
  match union_inner def with
  | [] => None
  | union => Some union
  end.

Definition definitionHasControllerVisualVerify (def : workflow_definition) : bool :=
  existsb (λ ph, existsb (λ st, match st.(ws_fanOut) with
                                | Some f => existsb (λ i, String.eqb i.(is_id) SPRINT_VISUAL_VERIFY_STEP)
                                              f.(fo_inner)
                                | None => false
                                end) ph.(ph_steps)) def.(wd_phases).

Definition runHasControllerVisualVerify (d : lane_db) (runId : string) : bool :=
  match resolveRunFrozenSpec d runId with
  | None => true
  | Some (name, spec) =>
      match resolveWorkflowDefinition name spec with
      | None => true
      | Some def => definitionHasControllerVisualVerify def
      end
  end.

Definition resolveFanOutInnerCached (runId : string) : laneM (option (list inner_step)) :=
  s <- get ;;
  match map_get runId s.(ls_cache) with
  | Some cached => mret cached
  | None =>
      let inner := resolveRunFanOutInner s.(ls_db) runId in
      modify (λ s, mk_store s.(ls_db) (map_set runId inner s.(ls_cache)) s.(ls_log)) ;;;
      mret inner
  end.

(** ** Deriving a lane's step from a subagent dispatch *)

(** [prompt.indexOf(token)], counted from [pos]. *)
Fixpoint index_of_str (token prompt : string) (pos : nat) : option nat :=
  if startsWith token prompt then Some pos
  else match prompt with
       | EmptyString => None
       | String _ p => index_of_str token p (S pos)
       end.

Definition alnum (c : ascii) : bool := is_alpha c || is_digit c.

(** The character after the token is absent or not alphanumeric. *)
Definition boundary (rest : string) : bool :=
  match rest with
  | EmptyString => true
  | String c _ => negb (alnum c)
  end.

Fixpoint token_loop (fuel : nat) (prompt token : string) (from : nat) : bool :=
  match fuel with
  | O => false
  | S fuel' =>
      match index_of_str token (drop_str from prompt) from with
      | None => false
      | Some idx => if boundary (drop_str (idx + String.length token) prompt) then true
                    else token_loop fuel' prompt token (S idx)
      end
  end.

Definition tokenAppearsInPrompt (prompt token : string) : bool :=
  if Nat.eqb (String.length token) 0 then false
  else token_loop (S (String.length prompt)) prompt token 0.

Definition SPRINT_SUBAGENT_TO_LANE_STEP : list (string * string) :=
  [("cyboflow-implement", "implement"); ("cyboflow-write-tests", "write-tests");
   ("cyboflow-code-review", "code-review"); ("cyboflow-task-verify", "task-verify");
   ("cyboflow-visual-verify", "visual-verify")].

Definition buildDynamicStepVocabulary (inner : list inner_step) : list (string * string) * list string :=
  (foldl (λ m step, map_set ("cyboflow-" +:+ step.(is_agent)) step.(is_id) m) [] inner,
   (is_id <$> inner) ++ [AWAITING_VERIFY_STEP]).

Definition isAgentDispatchToolName (toolName : string) : bool :=
  String.eqb toolName "Agent" || String.eqb toolName "Task".

Fixpoint position (x : string) (l : list string) : option nat :=
  match l with
  | [] => None
  | y :: l' => if String.eqb y x then Some 0 else S <$> position x l'
  end.
(** [l.indexOf(x)] *)
Definition index_in (x : string) (l : list string) : Z :=
  match position x l with Some i => Z.of_nat i | None => -1 end.

(** The derived step, the order it is compared in, and the vocabulary of the write. *)
Definition dispatch_step (inner : option (list inner_step)) (subagentType : string)
    : option (string * list string * option (list string)) :=
  match inner with
  | Some ((_ :: _) as inner) =>
      let '(agentMap, order) := buildDynamicStepVocabulary inner in
      match map_get subagentType agentMap with
      | Some derived => Some (derived, order, Some order)
      | None => None
      end
  | _ =>
      match map_get subagentType SPRINT_SUBAGENT_TO_LANE_STEP with
      | Some fallback => Some (fallback, SPRINT_LANE_STEP_IDS, None)
      | None => None
      end
  end.

(** The lane a dispatch belongs to: the only one, or the only one the prompt names. *)
Definition attribute_lane (lanes : list lane_view) (prompt : option string) : option lane_view :=
  match lanes with
  | [] => None
  | [lane] => Some lane
  | _ =>
      let prompt := match prompt with Some p => p | None => "" end in
      if String.eqb prompt "" then None
      else match filter (λ l, match l.(lv_ref) with
                              | Some ref => tokenAppearsInPrompt prompt ref
                              | None => false
                              end || tokenAppearsInPrompt prompt l.(lv_task) = true) lanes with
           | [lane] => Some lane
           | _ => None
           end
  end.

(** [step] is strictly ahead of where the lane is. *)
Definition moves_forward (order : list string) (current : option string) (step : string) : bool :=
  (match current with Some c => index_in c order | None => -1 end <? index_in step order)%Z.

Definition lane_settled (s : lane_status) : bool :=
  bool_decide (s = l_integrated) || bool_decide (s = l_failed).

Definition deriveLaneFromTaskDispatch (runId toolName : string) (subagentType prompt : option string)
    (now : instant) : laneM unit :=
  catch (
    if String.eqb runId "orchestrator" then mret tt
    else if negb (isAgentDispatchToolName toolName) then mret tt
    else match subagentType with
    | None => mret tt
    | Some subagentType =>
        inner <- resolveFanOutInnerCached runId ;;
        match dispatch_step inner subagentType with
        | None => mret tt
        | Some (step, stepOrder, allowedStepIds) =>
            d <- gets ls_db ;;
            match nonempty_opt (find_run d runId ≫= lr_batch) with
            | None => mret tt
            | Some batchId =>
                match attribute_lane (listLanes JSON_parse d batchId) prompt with
                | None => mret tt
                | Some lane =>
                    if lane_settled lane.(lv_status) then mret tt
                    else if negb (moves_forward stepOrder lane.(lv_step) step) then mret tt
                    else
                      updateLane runId batchId lane.(lv_task)
                        (mk_patch (Some "running") (Some (Some step)) None) allowedStepIds now ;;;
                      mret tt
                end
            end
        end
    end) (λ _, mret tt).

(** ** Retry and rescue *)

Definition resetFailedLanes (batchId : string) (now : instant) : laneM nat :=
  catch (
    d <- gets ls_db ;;
    let resetTaskIds := ln_task <$> filter (λ l, l.(ln_batch) = batchId
                          ∧ (l.(ln_status) = l_failed ∨ l.(ln_status) = l_blocked)) d.(ld_lanes) in
    match resetTaskIds with
    | [] => mret 0
    | _ =>
        match resolveOwningRunId d batchId with
        | None => mret 0
        | Some runId =>
            mapM_ (λ taskId, updateLane runId batchId taskId
                     (mk_patch (Some "queued") (Some None) None) None now ;;; mret tt) resetTaskIds ;;;
            mret (length resetTaskIds)
        end
    end) (λ _, mret 0).

Definition reviveLane (batchId taskId : string) (now : instant) : laneM nat :=
  catch (
    d <- gets ls_db ;;
    match resolve_lane d batchId taskId with
    | None => mret 0
    | Some row =>
        if negb (bool_decide (row.(ln_status) = l_failed)) then mret 0
        else
          match resolveOwningRunId d batchId with
          | None => mret 0
          | Some runId =>
              updateLane runId batchId row.(ln_task)
                (mk_patch (Some "running") None None) None now ;;;
              mret 1
          end
    end) (λ _, mret 0).

(** ** Closing and reopening a batch *)

Inductive terminal_batch := tb_completed | tb_failed | tb_canceled.
Definition terminal_status (t : terminal_batch) : batch_status :=
  match t with tb_completed => b_completed | tb_failed => b_failed | tb_canceled => b_canceled end.

Definition set_batch_status (s : batch_status) (completed_at : option instant) (now : instant)
    (b : batch_row) : batch_row :=
  mk_batch b.(sb_project) b.(sb_substrate) s b.(sb_concurrency) now completed_at.

Definition markBatchTerminal (batchId : string) (status : terminal_batch) (now : instant) : laneM unit :=
  update_batch batchId (λ b, negb (batch_terminal b.(sb_status)))
    (set_batch_status (terminal_status status) (Some now) now) ;;;
  mret tt.

Definition reopenBatch (batchId : string) (now : instant) : laneM nat :=
  catch (update_batch batchId (λ b, bool_decide (b.(sb_status) = b_failed))
           (set_batch_status b_running None now)) (λ _, mret 0).
End Store.

(** ** Seeding a run

    [RunLauncher.launch] and [cyboflow_create_sprint_batch] mint the batch and
    stamp it onto the run without an await in between; the second stamps a run
    that has no batch yet. *)

Definition stamp_batch (now : instant) (runId batchId : string) (only_null : bool) (d : lane_db) : lane_db :=
  set_lane_runs
    ((λ r, if String.eqb r.(lr_id) runId && (negb only_null || negb (is_some r.(lr_batch)))
           then mk_lane_run r.(lr_id) r.(lr_status) r.(lr_project) r.(lr_task) (Some batchId)
                  r.(lr_model) r.(lr_workflow) r.(lr_spec_hash) r.(lr_current_step)
                  (current_timestamp now)
           else r) <$> d.(ld_runs)) d.

Definition seed_run (caps : option (cli_substrate → option scalar)) (only_null : bool) (runId : string)
    (projectId : Z) (substrate : cli_substrate) (taskIds : list string) (batchId : string)
    (now : instant) : laneM string :=
  b <- createForRun caps projectId substrate taskIds batchId now ;;
  modify (update_db (stamp_batch now runId b only_null)) ;;;
  mret b.

(** ** Histories of the store

    [lane_move] is the specification: the moves the tables may make.
    [store_op] is what callers can ask for, with their arguments. *)

Definition new_lane (d : lane_db) (batchId taskId : string) (now : instant) : lane_row :=
  mk_lane d.(ld_next_id) batchId taskId l_queued None 0 None (current_timestamp now).

Inductive lane_move (d : lane_db) : lane_db → Prop :=
  | mv_create id b :
      d.(ld_batches) !! id = None →
      b.(sb_status) = b_running → b.(sb_completed_at) = None → b.(sb_concurrency) = SPRINT_BATCH_CAP →
      lane_move d (set_batches (<[id := b]> d.(ld_batches)) d)
  | mv_add id b taskId now :
      d.(ld_batches) !! id = Some b → batch_terminal b.(sb_status) = false →
      find_lane d id taskId = None →
      (d.(ld_schema).(sc_approval) = true →
       (d.(ld_schema).(sc_seed_tasks) = true → d.(ld_schema).(sc_experiments) = true) →
       has_active_run d taskId = false) →
      lane_move d (set_lanes (d.(ld_lanes) ++ [new_lane d id taskId now]) (S d.(ld_next_id)) d)
  | mv_remove l :
      l ∈ d.(ld_lanes) → l.(ln_status) = l_queued →
      lane_move d (set_lanes (filter (λ r, r.(ln_id) ≠ l.(ln_id)) d.(ld_lanes)) d.(ld_next_id) d)
  | mv_patch l allowed p now :
      l ∈ d.(ld_lanes) → patch_ok allowed p = true →
      lane_move d (set_lanes (map_lane l.(ln_id) (apply_patch p now) d.(ld_lanes)) d.(ld_next_id) d)
  | mv_close id b t now :
      d.(ld_batches) !! id = Some b → batch_terminal b.(sb_status) = false →
      lane_move d (set_batches
        (<[id := set_batch_status (terminal_status t) (Some now) now b]> d.(ld_batches)) d)
  | mv_reopen id b now :
      d.(ld_batches) !! id = Some b → b.(sb_status) = b_failed →
      lane_move d (set_batches (<[id := set_batch_status b_running None now b]> d.(ld_batches)) d)
  | mv_stamp now runId id only_null :
      is_Some (d.(ld_batches) !! id) →
      (∀ r, r ∈ d.(ld_runs) → r.(lr_batch) ≠ Some id) →
      (d.(ld_schema).(sc_approval) = true →
       (d.(ld_schema).(sc_seed_tasks) = true → d.(ld_schema).(sc_experiments) = true) →
       ∀ l, l ∈ d.(ld_lanes) → l.(ln_batch) = id → has_active_run d l.(ln_task) = false) →
      lane_move d (stamp_batch now runId id only_null d).

Inductive store_op :=
  | op_seed (only_null : bool) (runId : string) (projectId : Z) (substrate : cli_substrate)
      (taskIds : list string) (batchId : string)
  | op_add (projectId : Z) (batchId taskId : string)
  | op_remove (batchId taskId : string)
  | op_update (runId batchId taskId : string) (p : lane_patch) (allowed : option (list string))
  | op_derive (runId toolName : string) (subagentType prompt : option string)
  | op_reset (batchId : string)
  | op_revive (batchId taskId : string)
  | op_close (batchId : string) (t : terminal_batch)
  | op_reopen (batchId : string).

Section History.
Context (JSON_parse : string → option json_value).
Context (resolveDef : string → option string → option workflow_definition).
Context (caps : option (cli_substrate → option scalar)).

Definition run_op (op : store_op) (now : instant) (s : lane_store) : lane_store :=
  match op with
  | op_seed only_null runId p sub ids b => exec (seed_run caps only_null runId p sub ids b now) s
  | op_add p b t => exec (addLane JSON_parse p b t now) s
  | op_remove b t => exec (removeLane b t now) s
  | op_update r b t p allowed => exec (updateLane JSON_parse r b t p allowed now) s
  | op_derive r tool sub prompt => exec (deriveLaneFromTaskDispatch JSON_parse resolveDef r tool sub prompt now) s
  | op_reset b => exec (resetFailedLanes JSON_parse b now) s
  | op_revive b t => exec (reviveLane JSON_parse b t now) s
  | op_close b t => exec (markBatchTerminal b t now) s
  | op_reopen b => exec (reopenBatch b now) s
  end.

(** What the rest of the process may do between two operations: edit tasks,
    stages, dependencies, experiments and requests, create runs without a
    batch, and move runs without reviving a terminal one. *)
Definition env_move (d d' : lane_db) : Prop :=
  d'.(ld_schema) = d.(ld_schema) ∧ d'.(ld_batches) = d.(ld_batches)
  ∧ d'.(ld_lanes) = d.(ld_lanes) ∧ d'.(ld_next_id) = d.(ld_next_id)
  ∧ NoDup (lr_id <$> d'.(ld_runs))
  ∧ ∀ r', r' ∈ d'.(ld_runs) →
      r'.(lr_batch) = None
      ∨ ∃ r, r ∈ d.(ld_runs) ∧ r.(lr_id) = r'.(lr_id) ∧ r.(lr_batch) = r'.(lr_batch)
             ∧ (run_is_active r' = true → run_is_active r = true).

Inductive store_step (s : lane_store) : lane_store → Prop :=
  | step_op op now : store_step s (run_op op now s)
  | step_env d' : env_move s.(ls_db) d' → store_step s (mk_store d' s.(ls_cache) s.(ls_log)).
End History.

(** ** Invariants *)

Record lanes_wf (d : lane_db) : Prop := {
  wf_ids : NoDup (ln_id <$> d.(ld_lanes));
  wf_next : ∀ l, l ∈ d.(ld_lanes) → l.(ln_id) < d.(ld_next_id);
  wf_pairs : NoDup ((λ l, (l.(ln_batch), l.(ln_task))) <$> d.(ld_lanes));
  wf_lane_batch : ∀ l, l ∈ d.(ld_lanes) → is_Some (d.(ld_batches) !! l.(ln_batch));
  wf_integrated : ∀ l, l ∈ d.(ld_lanes) → l.(ln_status) = l_integrated → is_Some l.(ln_integrated_at);
  wf_attempts : ∀ l, l ∈ d.(ld_lanes) → (0 <= l.(ln_attempts))%Z;
  wf_batch : ∀ id b, d.(ld_batches) !! id = Some b →
    b.(sb_concurrency) = SPRINT_BATCH_CAP
    ∧ ((b.(sb_status) = b_running ∧ b.(sb_completed_at) = None)
       ∨ (batch_terminal b.(sb_status) = true ∧ is_Some b.(sb_completed_at)));
  wf_run_ids : NoDup (lr_id <$> d.(ld_runs));
  wf_run_batch : ∀ r id, r ∈ d.(ld_runs) → r.(lr_batch) = Some id → is_Some (d.(ld_batches) !! id);
  wf_owner : ∀ r r' id, r ∈ d.(ld_runs) → r' ∈ d.(ld_runs) →
    r.(lr_batch) = Some id → r'.(lr_batch) = Some id → r.(lr_id) = r'.(lr_id)
}.

(** No task has lanes in the batches of two live runs. *)
Definition no_double_pull (d : lane_db) : Prop :=
  ∀ r r' l l',
    r ∈ d.(ld_runs) → r' ∈ d.(ld_runs) → run_is_active r = true → run_is_active r' = true →
    l ∈ d.(ld_lanes) → l' ∈ d.(ld_lanes) →
    r.(lr_batch) = Some l.(ln_batch) → r'.(lr_batch) = Some l'.(ln_batch) →
    l.(ln_task) = l'.(ln_task) → r.(lr_id) = r'.(lr_id).

(** ** Facts about the statements *)

Lemma find_lane_Some d b t l :
  find_lane d b t = Some l → l ∈ d.(ld_lanes) ∧ l.(ln_batch) = b ∧ l.(ln_task) = t.
Proof.
  intros H. apply List.find_some in H as [Hin H]. apply list_elem_of_In in Hin.
  unfold in_batch in H. apply andb_true_iff in H as [?%String.eqb_eq ?%String.eqb_eq]. done.
Qed.

Lemma find_lane_None d b t :
  find_lane d b t = None → ∀ l, l ∈ d.(ld_lanes) → l.(ln_batch) = b → l.(ln_task) = t → False.
Proof.
  intros H l Hl Hb Ht. apply list_elem_of_In in Hl. pose proof (List.find_none _ _ H l Hl) as Hn.
  unfold in_batch in Hn. rewrite Hb, Ht, !String.eqb_refl in Hn. done.
Qed.

Lemma resolve_lane_Some d b t l :
  resolve_lane d b t = Some l → l ∈ d.(ld_lanes) ∧ l.(ln_batch) = b.
Proof.
  unfold resolve_lane. destruct (find_lane d b t) as [l'|] eqn:Hf.
  - intros [= <-]. by apply find_lane_Some in Hf as (? & ? & _).
  - intros H. apply List.find_some in H as [Hin H]. apply list_elem_of_In in Hin.
    unfold in_batch in H. apply andb_true_iff in H as [?%String.eqb_eq _]. done.
Qed.

Lemma elem_of_map_lane id f l r' :
  r' ∈ map_lane id f l ↔ ∃ r, r ∈ l ∧ r' = if Nat.eqb r.(ln_id) id then f r else r.
Proof. unfold map_lane. rewrite list_elem_of_fmap. naive_solver. Qed.

(** A patch keeps what identifies the row. *)
Lemma map_lane_patch_fmap {A} (g : lane_row → A) id p now l :
  (∀ r, g (apply_patch p now r) = g r) → g <$> map_lane id (apply_patch p now) l = g <$> l.
Proof.
  intros Hg. unfold map_lane. rewrite <- list_fmap_compose. apply list_fmap_ext.
  intros i r _. unfold compose. destruct (Nat.eqb r.(ln_id) id); [apply Hg|done].
Qed.

Lemma has_active_run_spec d t :
  has_active_run d t = true ↔ ∃ r, r ∈ d.(ld_runs) ∧ run_is_active r = true ∧
    (r.(lr_task) = Some t ∨
     ∃ l, l ∈ d.(ld_lanes) ∧ r.(lr_batch) = Some l.(ln_batch) ∧ l.(ln_task) = t).
Proof.
  unfold has_active_run. rewrite existsb_exists. split.
  - intros (r & Hr & H). apply list_elem_of_In in Hr. exists r. split; [done|].
    apply andb_true_iff in H as [Ha H]. split; [done|].
    apply orb_true_iff in H as [H%bool_decide_eq_true|H]; [by left|right].
    destruct (lr_batch r) as [b|]; [|done].
    apply existsb_exists in H as (l & Hl & H). apply list_elem_of_In in Hl.
    unfold in_batch in H. apply andb_true_iff in H as [<-%String.eqb_eq ?%String.eqb_eq]. eauto.
  - intros (r & Hr & Ha & H). exists r. rewrite <- list_elem_of_In. split; [done|].
    rewrite Ha. simpl. destruct H as [H|(l & Hl & Hb & Ht)].
    + by rewrite bool_decide_eq_true_2.
    + apply orb_true_iff. right. rewrite Hb. apply existsb_exists. exists l.
      rewrite <- list_elem_of_In. unfold in_batch. by rewrite Ht, !String.eqb_refl.
Qed.

Lemma patch_attempt_nonneg allowed p a z :
  patch_ok allowed p = true → p.(pt_attempt) = Some a → to_Z a = Some z → (0 <= z)%Z.
Proof.
  unfold patch_ok. intros H Ha Hz. rewrite Ha in H.
  apply andb_true_iff in H as [_ H]. apply andb_true_iff in H as [_ H].
  destruct a as [s|s| |s m e]; simpl in Hz; try done.
  destruct s; [done|]. repeat case_match; simplify_eq; [lia|]. apply Z.div_pos; lia.
Qed.

(** ** Every move keeps the tables well formed *)

Ltac wf_intro H := destruct H as [Hids Hnext Hpairs Hlb Hint Hatt Hbat Hrid Hrb Hown].

Lemma create_wf d id b :
  lanes_wf d → d.(ld_batches) !! id = None →
  b.(sb_status) = b_running → b.(sb_completed_at) = None → b.(sb_concurrency) = SPRINT_BATCH_CAP →
  lanes_wf (set_batches (<[id := b]> d.(ld_batches)) d).
Proof.
  intros Hwf Hid Hs Hc Hk. wf_intro Hwf. split; simpl; try done.
  - intros l Hl. apply lookup_insert_is_Some'. right. by apply Hlb.
  - intros i b' [[-> <-]|[_ H]]%lookup_insert_Some; [by split; [|left]|by apply (Hbat i)].
  - intros r i Hr Hb. apply lookup_insert_is_Some'. right. by apply (Hrb r).
Qed.

Lemma batch_update_wf d id b b' :
  lanes_wf d → d.(ld_batches) !! id = Some b →
  b'.(sb_concurrency) = b.(sb_concurrency) →
  (b'.(sb_status) = b_running ∧ b'.(sb_completed_at) = None
   ∨ batch_terminal b'.(sb_status) = true ∧ is_Some b'.(sb_completed_at)) →
  lanes_wf (set_batches (<[id := b']> d.(ld_batches)) d).
Proof.
  intros Hwf Hid Hc Hs. wf_intro Hwf. split; simpl; try done.
  - intros l Hl. apply lookup_insert_is_Some'. right. by apply Hlb.
  - intros i b0 [[-> <-]|[_ H]]%lookup_insert_Some; [|by apply (Hbat i)].
    destruct (Hbat _ _ Hid) as [Hk _]. split; [congruence|done].
  - intros r i Hr Hb. apply lookup_insert_is_Some'. right. by apply (Hrb r).
Qed.

Lemma add_wf d id taskId now :
  lanes_wf d → is_Some (d.(ld_batches) !! id) → find_lane d id taskId = None →
  lanes_wf (set_lanes (d.(ld_lanes) ++ [new_lane d id taskId now]) (S d.(ld_next_id)) d).
Proof.
  intros Hwf Hid Hf. wf_intro Hwf.
  assert (∀ l, l ∈ d.(ld_lanes) ++ [new_lane d id taskId now] →
            l ∈ d.(ld_lanes) ∨ l = new_lane d id taskId now) as Hel.
  { intros l. rewrite elem_of_app, list_elem_of_singleton. tauto. }
  split; simpl; try done.
  - rewrite fmap_app. apply NoDup_app. split_and!; [done| |apply NoDup_singleton].
    intros i (l & -> & Hl)%list_elem_of_fmap. simpl. rewrite list_elem_of_singleton.
    specialize (Hnext l Hl). lia.
  - intros l [Hl| ->]%Hel; [specialize (Hnext l Hl); lia|simpl; lia].
  - rewrite fmap_app. apply NoDup_app. split_and!; [done| |apply NoDup_singleton].
    intros q (l & -> & Hl)%list_elem_of_fmap. simpl. rewrite list_elem_of_singleton.
    intros [= Hb Ht]. by apply (find_lane_None d id taskId Hf l).
  - intros l [Hl| ->]%Hel; [by apply Hlb|done].
  - intros l [Hl| ->]%Hel; [by apply Hint|done].
  - intros l [Hl| ->]%Hel; [by apply Hatt|done].
Qed.

Lemma remove_wf d i :
  lanes_wf d → lanes_wf (set_lanes (filter (λ r, r.(ln_id) ≠ i) d.(ld_lanes)) d.(ld_next_id) d).
Proof.
  intros Hwf. wf_intro Hwf.
  assert (∀ l, l ∈ filter (λ r, r.(ln_id) ≠ i) d.(ld_lanes) → l ∈ d.(ld_lanes)) as Hel.
  { intros l. rewrite list_elem_of_filter. tauto. }
  pose proof (sublist_filter (λ r, r.(ln_id) ≠ i) d.(ld_lanes)) as Hsub.
  split; simpl; eauto.
  - eapply sublist_NoDup; [exact Hids|]. by apply fmap_sublist.
  - eapply sublist_NoDup; [exact Hpairs|]. by apply fmap_sublist.
Qed.

Lemma patch_wf d i allowed p now :
  lanes_wf d → patch_ok allowed p = true →
  lanes_wf (set_lanes (map_lane i (apply_patch p now) d.(ld_lanes)) d.(ld_next_id) d).
Proof.
  intros Hwf Hp. wf_intro Hwf. split; simpl; try done.
  - by rewrite (map_lane_patch_fmap ln_id).
  - intros l (r & Hr & ->)%elem_of_map_lane. case_match; simpl; auto.
  - by rewrite (map_lane_patch_fmap (λ l, (ln_batch l, ln_task l))).
  - intros l (r & Hr & ->)%elem_of_map_lane. case_match; simpl; auto.
  - intros l (r & Hr & ->)%elem_of_map_lane. case_match; [|auto]. unfold apply_patch. simpl.
    destruct (pt_status p ≫= lane_status_of) as [[]|]; simpl; intros; try done; auto.
  - intros l (r & Hr & ->)%elem_of_map_lane. case_match; [|auto]. unfold apply_patch. simpl.
    destruct (pt_attempt p) as [a|] eqn:Ha; simpl; [|auto].
    destruct (to_Z a) as [z|] eqn:Hz; [|auto]. by eapply patch_attempt_nonneg.
Qed.

Lemma elem_of_stamped now runId id only_null d r' :
  r' ∈ (stamp_batch now runId id only_null d).(ld_runs) →
  ∃ r, r ∈ d.(ld_runs) ∧ r'.(lr_id) = r.(lr_id) ∧ r'.(lr_status) = r.(lr_status)
       ∧ (r' = r ∨ r'.(lr_batch) = Some id ∧ r'.(lr_id) = runId).
Proof.
  simpl. intros (r & -> & Hr)%list_elem_of_fmap. exists r.
  destruct (String.eqb r.(lr_id) runId) eqn:He; [|by split_and!; [..|left]].
  apply String.eqb_eq in He. simpl.
  destruct (negb only_null || negb (is_some (lr_batch r))); split_and!; try done; [right|left]; done.
Qed.

Lemma stamp_wf d now runId id only_null :
  lanes_wf d → is_Some (d.(ld_batches) !! id) → (∀ r, r ∈ d.(ld_runs) → r.(lr_batch) ≠ Some id) →
  lanes_wf (stamp_batch now runId id only_null d).
Proof.
  intros Hwf Hid Hfree. wf_intro Hwf. split; try done.
  - simpl. rewrite <- list_fmap_compose.
    replace (_ <$> ld_runs d) with (lr_id <$> ld_runs d); [done|].
    apply list_fmap_ext. intros i r _. unfold compose. by case_match.
  - intros r i (r0 & Hr0 & _ & _ & [->|[Hb _]])%elem_of_stamped; [by apply Hrb|].
    rewrite Hb. by intros [= <-].
  - intros r r' i (r0 & Hr0 & Hi & _ & [->|[Hb Hk]])%elem_of_stamped
      (r1 & Hr1 & Hi' & _ & [->|[Hb' Hk']])%elem_of_stamped H H'; simplify_eq.
    + by apply (Hown r0 r1 i).
    + by apply Hfree in H.
    + by apply Hfree in H'.
    + done.
Qed.

Lemma move_wf d d' : lane_move d d' → lanes_wf d → lanes_wf d'.
Proof.
  intros Hm Hwf. destruct Hm.
  - by apply create_wf.
  - apply add_wf; eauto.
  - by apply remove_wf.
  - by eapply patch_wf.
  - eapply batch_update_wf; eauto. right. simpl. split; [by destruct t|by eexists].
  - eapply batch_update_wf; eauto.
  - by apply stamp_wf.
Qed.

Lemma env_wf d d' : env_move d d' → lanes_wf d → lanes_wf d'.
Proof.
  intros (Hsc & Hb & Hl & Hn & Hnd & Hr) Hwf. wf_intro Hwf.
  split; rewrite ?Hb, ?Hl, ?Hn; try done.
  - intros r' i Hin Hi. destruct (Hr r' Hin) as [?|(r & ? & _ & ? & _)]; [congruence|].
    apply (Hrb r); [done|congruence].
  - intros r r' i Hin Hin' Hi Hi'.
    destruct (Hr r Hin) as [?|(r0 & ? & ? & ? & _)]; [congruence|].
    destruct (Hr r' Hin') as [?|(r1 & ? & ? & ? & _)]; [congruence|].
    assert (lr_id r0 = lr_id r1) by (apply (Hown r0 r1 i); congruence). congruence.
Qed.

(** ** No move puts a task into two live runs *)

Definition full_schema (d : lane_db) : Prop :=
  d.(ld_schema).(sc_approval) = true
  ∧ (d.(ld_schema).(sc_seed_tasks) = true → d.(ld_schema).(sc_experiments) = true).

Lemma move_no_double_pull d d' :
  full_schema d → lanes_wf d → lane_move d d' → no_double_pull d → no_double_pull d'.
Proof.
  intros [Hap Hse] Hwf Hm Hdp.
  destruct Hm as [id b|id b t now Hb Ht Hf Hact|l Hl Hq|l al p now Hl Hp|id b t now|id b now
                 |now runId id on Hid Hfree Hact]; [done| | | |done|done|].
  - (* add *)
    specialize (Hact Hap Hse).
    assert (∀ r l, r ∈ d.(ld_runs) → run_is_active r = true → l ∈ d.(ld_lanes) →
              r.(lr_batch) = Some l.(ln_batch) → l.(ln_task) = t → False) as Hno.
    { intros r l Hr Ha Hl Hrb' Hlt. assert (has_active_run d t = true) as Hx; [|congruence].
      apply has_active_run_spec. exists r. eauto 10. }
    intros r r' l l' Hr Hr' Ha Ha' Hl Hl' Hrl Hrl' Heq. simpl in *.
    apply elem_of_app in Hl as [Hl|Hl]; apply elem_of_app in Hl' as [Hl'|Hl'];
      rewrite ?list_elem_of_singleton in *; subst; simpl in *.
    + by apply (Hdp r r' l l').
    + destruct (Hno r l); done.
    + by destruct (Hno r' l').
    + by apply (wf_owner d Hwf r r' id).
  - (* remove *)
    intros r r' l1 l2 Hr Hr' Ha Ha' [_ H1]%list_elem_of_filter [_ H2]%list_elem_of_filter.
    by apply Hdp.
  - (* patch *)
    assert (∀ x, ln_batch (if Nat.eqb (ln_id x) (ln_id l) then apply_patch p now x else x) = ln_batch x
              ∧ ln_task (if Nat.eqb (ln_id x) (ln_id l) then apply_patch p now x else x) = ln_task x) as Hid
      by (intros x; by destruct (Nat.eqb _ _)).
    intros r r' l1 l2 Hr Hr' Ha Ha' (x & Hx & ->)%elem_of_map_lane (y & Hy & ->)%elem_of_map_lane Hb1 Hb2 Heq.
    destruct (Hid x) as [Ex1 Ex2], (Hid y) as [Ey1 Ey2]. apply (Hdp r r' x y); first [done|congruence].
  - (* stamp *)
    specialize (Hact Hap Hse).
    assert (∀ r r' l l', r ∈ d.(ld_runs) → run_is_active r = true → l ∈ d.(ld_lanes) → l' ∈ d.(ld_lanes) →
              r.(lr_batch) = Some l.(ln_batch) → l'.(ln_batch) = id → l.(ln_task) = l'.(ln_task) → r' = r → False) as Hno.
    { intros r r' l l' Hr Ha Hl Hl' Hrl Hi Heq _.
      assert (has_active_run d l'.(ln_task) = true) as Hx; [|by rewrite (Hact l' Hl' Hi) in Hx].
      apply has_active_run_spec. exists r. eauto 10. }
    intros r r' l l' (r0 & Hr0 & Hi & Hs & Hc)%elem_of_stamped (r1 & Hr1 & Hi' & Hs' & Hc')%elem_of_stamped
      Ha Ha' Hl Hl' Hrl Hrl' Heq. simpl in Hl, Hl'.
    assert (run_is_active r0 = true) by (unfold run_is_active in *; by rewrite <- Hs).
    assert (run_is_active r1 = true) by (unfold run_is_active in *; by rewrite <- Hs').
    destruct Hc as [->|[Hb Hk]], Hc' as [->|[Hb' Hk']].
    + by apply (Hdp r0 r1 l l').
    + destruct (Hno r0 r0 l l'); congruence.
    + destruct (Hno r1 r1 l' l); congruence.
    + congruence.
Qed.

Lemma env_no_double_pull d d' : env_move d d' → no_double_pull d → no_double_pull d'.
Proof.
  intros (Hsc & Hb & Hl & Hn & Hnd & Hr) Hdp r r' l l' Hin Hin' Ha Ha'. rewrite Hl. intros Hl1 Hl2 H1 H2 Heq.
  destruct (Hr r Hin) as [?|(r0 & ? & <- & E0 & A0)]; [congruence|].
  destruct (Hr r' Hin') as [?|(r1 & ? & <- & E1 & A1)]; [congruence|].
  apply (Hdp r0 r1 l l'); auto; congruence.
Qed.

(** ** Eligibility *)

Lemma filterEligible_spec d projectId ids :
  full_schema d →
  filterEligibleTaskIds d projectId ids = select_tasks d projectId (eligible_clauses d) (js_unique ids).
Proof.
  intros [Ha Hs]. unfold filterEligibleTaskIds.
  destruct (js_unique ids) as [|x l] eqn:Hu; [done|]. unfold degrade.
  replace (_ && _) with true; [done|]. symmetry. apply andb_true_iff. split; [done|].
  case_match; auto.
Qed.

Lemma filterEligible_subset d projectId ids id :
  id ∈ filterEligibleTaskIds d projectId ids → id ∈ ids.
Proof.
  unfold filterEligibleTaskIds. destruct (js_unique ids) as [|x l] eqn:Hu; [by intros ?%elem_of_nil|].
  rewrite <- Hu. unfold degrade, select_tasks.
  case_match; [case_match; simplify_eq|]; rewrite ?list_elem_of_filter, elem_of_js_unique; naive_solver.
Qed.

Lemma filterEligible_NoDup d projectId ids : NoDup (filterEligibleTaskIds d projectId ids).
Proof.
  unfold filterEligibleTaskIds. destruct (js_unique ids) as [|x l] eqn:Hu; [constructor|].
  rewrite <- Hu. unfold degrade, select_tasks.
  case_match; [case_match; simplify_eq|]; auto using NoDup_filter, js_unique_NoDup.
Qed.

Lemma filterEligible_no_active d projectId ids id :
  full_schema d → id ∈ filterEligibleTaskIds d projectId ids → has_active_run d id = false.
Proof.
  intros Hf. rewrite filterEligible_spec by done. unfold select_tasks.
  rewrite list_elem_of_filter. intros [H _]. case_match; [|done].
  apply andb_true_iff in H as [_ H]. unfold eligible_clauses in H. case_match; [|done].
  bool_hyps. done.
Qed.

(** ** Inserting the lanes of a new batch *)

Fixpoint seed_lanes (b : string) (now : instant) (n : nat) (ids : list string) : list lane_row :=
  match ids with
  | [] => []
  | t :: ids' => mk_lane n b t l_queued None 0 None (current_timestamp now) :: seed_lanes b now (S n) ids'
  end.

Lemma seed_lanes_tasks b now n ids : ln_task <$> seed_lanes b now n ids = ids.
Proof. revert n. induction ids as [|t ids IH]; intros n; simpl; [done|]. by rewrite IH. Qed.

Lemma elem_of_seed_lanes b now n ids l :
  l ∈ seed_lanes b now n ids →
  l.(ln_batch) = b ∧ l.(ln_task) ∈ ids ∧ l.(ln_status) = l_queued ∧ l.(ln_step) = None ∧ l.(ln_attempts) = 0%Z.
Proof.
  revert n. induction ids as [|t ids IH]; intros n; simpl; [by intros ?%elem_of_nil|].
  intros [->|H]%elem_of_cons; [split_and!; try done; left|].
  destruct (IH _ H) as (? & ? & ?). split_and!; try tauto. by right.
Qed.

Lemma find_lane_app_None d b t l n :
  find_lane (set_lanes (d.(ld_lanes) ++ l) n d) b t = None ↔
  find_lane d b t = None ∧ ∀ x, x ∈ l → x.(ln_batch) = b → x.(ln_task) = t → False.
Proof.
  split.
  - intros H. pose proof (find_lane_None _ _ _ H) as Hn. simpl in Hn. split.
    + destruct (find_lane d b t) as [x|] eqn:Hf; [|done]. apply find_lane_Some in Hf as (Hx & Hb & Ht).
      destruct (Hn x); [|done..]. apply elem_of_app. by left.
    + intros x Hx. apply Hn. apply elem_of_app. by right.
  - intros [H Hl]. destruct (find_lane (set_lanes _ _ _) b t) as [x|] eqn:Hf; [|done].
    apply find_lane_Some in Hf as (Hx & Hb & Ht). simpl in Hx. apply elem_of_app in Hx as [Hx|Hx].
    + by destruct (find_lane_None _ _ _ H x).
    + by destruct (Hl x).
Qed.

Lemma insert_lanes_run now b ids s :
  NoDup ids → (∀ t, t ∈ ids → find_lane s.(ls_db) b t = None) →
  mapM_ (insert_lane now b) ids s =
    (Ok tt, update_db (λ d, set_lanes (d.(ld_lanes) ++ seed_lanes b now d.(ld_next_id) ids)
                              (length ids + d.(ld_next_id)) d) s).
Proof.
  revert s. induction ids as [|t ids IH]; intros s Hnd Hf.
  - simpl. unfold mret, update_db, set_lanes. rewrite app_nil_r. by destruct s as [[] ? ?].
  - apply NoDup_cons in Hnd as [Ht Hnd]. simpl. unfold mbind.
    unfold insert_lane at 1. unfold mbind, get. rewrite Hf by left. unfold modify. rewrite IH; [|done|].
    + unfold update_db, set_lanes. simpl. rewrite <- app_assoc. simpl. by rewrite Nat.add_succ_r.
    + intros t' Ht'. apply find_lane_app_None. split; [apply Hf; by right|].
      intros x ->%list_elem_of_singleton _. simpl. by intros ->.
Qed.

(** The database after a batch of lanes was minted. *)
Definition seeded_db (project : Z) (sub : cli_substrate) (b : string) (ids : list string)
    (now : instant) (d : lane_db) : lane_db :=
  set_lanes (d.(ld_lanes) ++ seed_lanes b now d.(ld_next_id) ids) (length ids + d.(ld_next_id))
    (set_batches (<[b := mk_batch project sub b_running SPRINT_BATCH_CAP (current_timestamp now) None]>
                    d.(ld_batches)) d).

(** The outcome of [createForRun] on every branch. *)
Lemma createForRun_eq caps project sub ids b now s :
  lanes_wf s.(ls_db) →
  let eligible := filterEligibleTaskIds s.(ls_db) project ids in
  createForRun caps project sub ids b now s =
    match ids, eligible with
    | [], _ => (Throw (SprintLaneError e_bad_request), s)
    | _, [] => (Throw (SprintLaneError e_no_eligible_tasks), s)
    | _, _ =>
        if (resolveSprintMaxTasks caps sub <? Z.of_nat (length eligible))%Z
        then (Throw (SprintLaneError e_batch_too_large), s)
        else match s.(ls_db).(ld_batches) !! b with
             | Some _ => (Throw SqlUnique, s)
             | None => (Ok b, mk_store (seeded_db project sub b eligible now s.(ls_db)) s.(ls_cache)
                                (s.(ls_log) ++ [BatchMinted project b eligible]))
             end
    end.
Proof.
  intros Hwf eligible. unfold createForRun.
  assert (filterEligibleTaskIds (ls_db s) project (js_unique ids) = eligible) as Helig.
  { unfold eligible, filterEligibleTaskIds. by rewrite (js_unique_id (js_unique ids)) by apply js_unique_NoDup. }
  destruct ids as [|i0 ids']; [done|]. set (ids := i0 :: ids') in *.
  destruct (js_unique ids) as [|x l] eqn:Hu; [done|].
  unfold mbind, gets. rewrite Helig. destruct eligible as [|y el] eqn:He; [done|]. rewrite <- He in *.
  destruct (Z.ltb _ _); [done|].
  unfold transaction, insert_batch, mbind, gets. destruct (ld_batches (ls_db s) !! b) as [row|] eqn:Hb; [done|].
  unfold modify. rewrite insert_lanes_run.
  - done.
  - unfold eligible. apply filterEligible_NoDup.
  - intros t _. simpl. destruct (find_lane _ b t) as [l0|] eqn:Hf; [|done].
    apply find_lane_Some in Hf as (Hl & Hlb & _). apply (wf_lane_batch _ Hwf) in Hl as [x0 Hx].
    simpl in *. congruence.
Qed.

(** ** Every operation is a sequence of moves *)

Definition moves (s s' : lane_store) : Prop := rtc lane_move s.(ls_db) s'.(ls_db).

#[export] Instance moves_preorder : PreOrder moves.
Proof. split; [intros s; apply rtc_refl|intros s1 s2 s3 H1 H2; unfold moves; by etrans]. Qed.

Lemma emit_moves e : preserves moves (emit_lane e).
Proof. intros s. apply rtc_refl. Qed.

Lemma update_batch_moves id p f :
  (∀ d b, d.(ld_batches) !! id = Some b → p b = true →
     lane_move d (set_batches (<[id := f b]> d.(ld_batches)) d)) →
  preserves moves (update_batch id p f).
Proof.
  intros H s. unfold update_batch, mbind, gets, moves.
  destruct (sql_update_id_cases id p f (ld_batches (ls_db s))) as [(b & Hb & Hp & ->)|[_ ->]]; simpl.
  - by apply rtc_once, H.
  - destruct s as [[] ? ?]. apply rtc_refl.
Qed.

Ltac moves_with tac := preserve_with ltac:(first [apply moves_preorder | tac]).

Section Refinement.
Context (JSON_parse : string → option json_value).
Context (resolveDef : string → option string → option workflow_definition).
Context (caps : option (cli_substrate → option scalar)).

Lemma updateLane_moves runId b t p allowed now :
  preserves moves (updateLane JSON_parse runId b t p allowed now).
Proof.
  unfold updateLane. destruct (patch_ok _ p) eqn:Hp; simpl; [|apply preserves_throw; apply _].
  apply preserves_bind; [apply _| |intros t'].
  - apply preserves_transaction; [apply _|]. apply preserves_gets_bind. intros s.
    destruct (resolve_lane (ls_db s) b t) as [l|] eqn:Hr; [|apply rtc_refl].
    apply resolve_lane_Some in Hr as [Hl _]. simpl. apply rtc_once. by eapply mv_patch.
  - moves_with ltac:(apply emit_moves).
Qed.

Lemma addLane_moves projectId b t now : preserves moves (addLane JSON_parse projectId b t now).
Proof.
  unfold addLane. apply preserves_gets_bind. intros s.
  destruct (ld_batches (ls_db s) !! b) as [batch|] eqn:Hb; [|apply rtc_refl].
  destruct (batch_terminal _) eqn:Ht; [apply rtc_refl|].
  destruct (resolveTaskId _ _ _) as [t'|]; [|apply rtc_refl].
  destruct (filterEligibleTaskIds _ _ _) as [|x l] eqn:He; [apply rtc_refl|].
  apply (preserves_bind_at moves).
  - unfold transaction, mbind, gets. destruct (find_lane (ls_db s) b t') eqn:Hf; [apply rtc_refl|].
    unfold insert_lane, mbind, get. rewrite Hf. simpl. apply rtc_once. eapply mv_add; eauto.
    intros Ha Hs. assert (x = t') as ->.
    { assert (x ∈ [t']) as ?%list_elem_of_singleton; [|done].
      apply (filterEligible_subset (ls_db s) projectId). rewrite He. left. }
    apply (filterEligible_no_active (ls_db s) projectId [t']); [done|]. rewrite He. left.
  - intros _. moves_with ltac:(apply emit_moves).
Qed.

Lemma removeLane_moves b t now : preserves moves (removeLane b t now).
Proof.
  unfold removeLane. apply preserves_bind; [apply _| |intros t'].
  - apply preserves_transaction; [apply _|]. apply preserves_gets_bind. intros s.
    destruct (resolve_lane (ls_db s) b t) as [l|] eqn:Hr; [|apply rtc_refl].
    destruct (bool_decide (ln_status l = l_queued)) eqn:Hq; [|apply rtc_refl].
    apply bool_decide_eq_true in Hq. apply resolve_lane_Some in Hr as [Hl _].
    apply rtc_once. by apply mv_remove.
  - moves_with ltac:(apply emit_moves).
Qed.

Lemma derive_moves runId tool sub prompt now :
  preserves moves (deriveLaneFromTaskDispatch JSON_parse resolveDef runId tool sub prompt now).
Proof.
  unfold deriveLaneFromTaskDispatch, resolveFanOutInnerCached.
  moves_with ltac:(apply updateLane_moves).
Qed.

Lemma resetFailedLanes_moves b now : preserves moves (resetFailedLanes JSON_parse b now).
Proof. unfold resetFailedLanes. moves_with ltac:(apply updateLane_moves). Qed.

Lemma reviveLane_moves b t now : preserves moves (reviveLane JSON_parse b t now).
Proof. unfold reviveLane. moves_with ltac:(apply updateLane_moves). Qed.

Lemma markBatchTerminal_moves b t now : preserves moves (markBatchTerminal b t now).
Proof.
  unfold markBatchTerminal. moves_with ltac:(apply update_batch_moves).
  intros d row Hb Hn. apply negb_true_iff in Hn. by eapply mv_close.
Qed.

Lemma reopenBatch_moves b now : preserves moves (reopenBatch b now).
Proof.
  unfold reopenBatch. moves_with ltac:(apply update_batch_moves).
  intros d row Hb ?%bool_decide_eq_true. by eapply mv_reopen.
Qed.

(** Minting the lanes of a batch no run has, one move per lane. *)
Lemma seed_lanes_moves b row now ids d :
  d.(ld_batches) !! b = Some row → batch_terminal row.(sb_status) = false →
  (∀ r, r ∈ d.(ld_runs) → r.(lr_batch) ≠ Some b) → NoDup ids →
  (∀ t, t ∈ ids → find_lane d b t = None) →
  (full_schema d → ∀ t, t ∈ ids → has_active_run d t = false) →
  rtc lane_move d (set_lanes (d.(ld_lanes) ++ seed_lanes b now d.(ld_next_id) ids)
                     (length ids + d.(ld_next_id)) d).
Proof.
  revert d. induction ids as [|t ids IH]; intros d Hb Ht Hfree Hnd Hf Hact.
  - simpl. rewrite app_nil_r. destruct d. apply rtc_refl.
  - apply NoDup_cons in Hnd as [Hnot Hnd].
    set (d' := set_lanes (d.(ld_lanes) ++ [new_lane d b t now]) (S d.(ld_next_id)) d).
    apply rtc_l with d'.
    { eapply mv_add; eauto; [apply Hf; left|]. intros Ha Hs. apply Hact; [done|left]. }
    replace (set_lanes _ _ d) with
      (set_lanes (d'.(ld_lanes) ++ seed_lanes b now d'.(ld_next_id) ids) (length ids + d'.(ld_next_id)) d').
    + apply IH; try done.
      * intros t' Ht'. apply find_lane_app_None. split; [apply Hf; by right|].
        intros x ->%list_elem_of_singleton _. simpl. by intros ->.
      * intros Hfs t' Ht'. destruct (has_active_run d' t') eqn:Hx; [|done].
        assert (has_active_run d t' = true) as Hy;
          [|by rewrite Hact in Hy; [|done|right]].
        apply has_active_run_spec in Hx as (r & Hr & Ha & Hc). apply has_active_run_spec.
        exists r. split_and!; [done..|]. destruct Hc as [?|(l & Hl & Hrl & Hlt)]; [by left|right].
        simpl in Hl. apply elem_of_app in Hl as [Hl| ->%list_elem_of_singleton]; [by exists l|].
        by apply Hfree in Hrl.
    + unfold d', set_lanes. simpl. rewrite <- app_assoc. simpl. by rewrite Nat.add_succ_r.
Qed.

(** The lanes of a freshly minted batch belong to tasks no live run holds. *)
Lemma seeded_lane_free d project sub b project' ids now l :
  full_schema d → lanes_wf d → d.(ld_batches) !! b = None →
  let d' := seeded_db project sub b (filterEligibleTaskIds d project' ids) now d in
  l ∈ d'.(ld_lanes) → l.(ln_batch) = b → has_active_run d' l.(ln_task) = false.
Proof.
  intros Hf Hwf Hb d' Hl Hlb. simpl in Hl. apply elem_of_app in Hl as [Hl|Hl].
  { apply (wf_lane_batch _ Hwf) in Hl as [x Hx]. congruence. }
  apply elem_of_seed_lanes in Hl as (_ & Ht & _).
  destruct (has_active_run d' (ln_task l)) eqn:Hx; [|done].
  assert (has_active_run d (ln_task l) = true) as Hy.
  - apply has_active_run_spec in Hx as (r & Hr & Ha & Hc). apply has_active_run_spec.
    exists r. split_and!; [done..|]. destruct Hc as [?|(x & Hxl & Hrx & Hxt)]; [by left|right].
    simpl in Hxl. apply elem_of_app in Hxl as [Hxl|Hxl]; [by exists x|].
    apply elem_of_seed_lanes in Hxl as (Hxb & _). rewrite Hxb in Hrx.
    apply (wf_run_batch _ Hwf) in Hrx as [y Hy]; [|done]. congruence.
  - by rewrite (filterEligible_no_active d project' ids) in Hy.
Qed.

Lemma seed_run_moves only_null runId project sub ids b now s :
  lanes_wf s.(ls_db) → moves s (exec (seed_run caps only_null runId project sub ids b now) s).
Proof.
  intros Hwf. unfold exec, seed_run, mbind. rewrite createForRun_eq by done. cbv zeta.
  destruct ids as [|i0 ids']; [apply rtc_refl|].
  set (ids := i0 :: ids') in *. set (eligible := filterEligibleTaskIds (ls_db s) project ids).
  destruct eligible as [|y el] eqn:He; [apply rtc_refl|]. rewrite <- He in *.
  destruct (Z.ltb _ _); [apply rtc_refl|].
  destruct (ld_batches (ls_db s) !! b) as [row|] eqn:Hb; [apply rtc_refl|].
  unfold modify, moves. simpl.
  eapply rtc_l; [by apply (mv_create _ b (mk_batch project sub b_running SPRINT_BATCH_CAP (current_timestamp now) None))|].
  assert (∀ r, r ∈ (ls_db s).(ld_runs) → r.(lr_batch) ≠ Some b) as Hfree.
  { intros r Hr Hrb. apply (wf_run_batch _ Hwf) in Hrb as [? ?]; [congruence|done]. }
  etrans.
  + eapply (seed_lanes_moves b _ now eligible); [apply lookup_insert_eq|done|done| | |].
    * apply filterEligible_NoDup.
    * intros t _. simpl. destruct (find_lane _ b t) as [l0|] eqn:Hf; [|done].
      apply find_lane_Some in Hf as (Hl & Hlb & _). apply (wf_lane_batch _ Hwf) in Hl as [x0 Hx]. congruence.
    * intros Hfs t Ht. by apply (filterEligible_no_active (ls_db s) project ids).
  + apply rtc_once. apply mv_stamp; simpl.
    * rewrite lookup_insert_eq. by eexists.
    * done.
    * intros Ha Hse l Hl Hlb. by eapply (seeded_lane_free (ls_db s) project sub b project ids now).
Qed.
End Refinement.

(** ** Rows are determined by their keys *)

Lemma wf_pair_eq d l l' :
  lanes_wf d → l ∈ d.(ld_lanes) → l' ∈ d.(ld_lanes) →
  l.(ln_batch) = l'.(ln_batch) → l.(ln_task) = l'.(ln_task) → l = l'.
Proof.
  intros Hwf [i Hi]%list_elem_of_lookup [j Hj]%list_elem_of_lookup Hb Ht.
  assert (i = j) as ->; [|congruence].
  eapply (NoDup_lookup _ _ _ _ (wf_pairs _ Hwf)); rewrite list_lookup_fmap, ?Hi, ?Hj; simpl;
    [reflexivity|congruence].
Qed.

Lemma wf_id_eq d l l' :
  lanes_wf d → l ∈ d.(ld_lanes) → l' ∈ d.(ld_lanes) → l.(ln_id) = l'.(ln_id) → l = l'.
Proof.
  intros Hwf [i Hi]%list_elem_of_lookup [j Hj]%list_elem_of_lookup He.
  assert (i = j) as ->; [|congruence].
  eapply (NoDup_lookup _ _ _ _ (wf_ids _ Hwf)); rewrite list_lookup_fmap, ?Hi, ?Hj; simpl;
    [reflexivity|congruence].
Qed.

Lemma find_lane_row d l :
  lanes_wf d → l ∈ d.(ld_lanes) → find_lane d l.(ln_batch) l.(ln_task) = Some l.
Proof.
  intros Hwf Hl. destruct (find_lane d _ _) as [l'|] eqn:Hf.
  - f_equal. apply find_lane_Some in Hf as (? & ? & ?). by apply (wf_pair_eq d).
  - by destruct (find_lane_None _ _ _ Hf l).
Qed.

(** ** Exact effect of a progress write *)

Lemma find_map_lane d b t l f :
  lanes_wf d → find_lane d b t = Some l →
  (∀ r, (f r).(ln_batch) = r.(ln_batch) ∧ (f r).(ln_task) = r.(ln_task)) →
  ∀ n, find_lane (set_lanes (map_lane l.(ln_id) f d.(ld_lanes)) n d) b t = Some (f l).
Proof.
  intros Hwf Hf Hkeep n. pose proof Hf as (Hl & Hb & Ht)%find_lane_Some.
  unfold find_lane in *. simpl. clear Hwf. revert Hf. induction (ld_lanes d) as [|x xs IH]; [done|].
  simpl. assert (∀ g, (in_batch b (if Nat.eqb (ln_id x) g then f x else x)
             && String.eqb (ln_task (if Nat.eqb (ln_id x) g then f x else x)) t)
            = (in_batch b x && String.eqb (ln_task x) t)) as Hkeep'.
  { intros g. unfold in_batch. destruct (Hkeep x) as [E1 E2]. case_match; by rewrite ?E1, ?E2. }
  rewrite Hkeep'. destruct (in_batch b x && String.eqb (ln_task x) t) eqn:Hx.
  - intros [= ->]. by rewrite Nat.eqb_refl.
  - intros H. apply IH; [|done]. apply elem_of_cons in Hl as [->|Hl]; [|done].
    exfalso. unfold in_batch in Hx. by rewrite Hb, Ht, !String.eqb_refl in Hx.
Qed.

Definition patched (l : lane_row) (p : lane_patch) (now : instant) (d : lane_db) : lane_db :=
  set_lanes (map_lane l.(ln_id) (apply_patch p now) d.(ld_lanes)) d.(ld_next_id) d.

Lemma find_patched d b t l p now :
  lanes_wf d → find_lane d b t = Some l → find_lane (patched l p now d) b t = Some (apply_patch p now l).
Proof. intros Hwf Hf. by apply find_map_lane. Qed.

Lemma find_patched_ne d b t l p now b2 t2 :
  lanes_wf d → find_lane d b t = Some l → (b2, t2) ≠ (b, t) →
  find_lane (patched l p now d) b2 t2 = find_lane d b2 t2.
Proof.
  intros Hwf Hf Hne. pose proof Hf as (Hl & Hb & Ht)%find_lane_Some.
  assert (∀ r, r ∈ d.(ld_lanes) → r.(ln_batch) = b2 → r.(ln_task) = t2 → Nat.eqb r.(ln_id) l.(ln_id) = false) as Hid.
  { intros r Hr Hrb Hrt. apply Nat.eqb_neq. intros He. apply Hne.
    assert (r = l) as -> by (by apply (wf_id_eq d)). congruence. }
  unfold find_lane, patched in *. simpl. clear Hf Hl Hwf. revert Hid. induction (ld_lanes d) as [|x xs IH]; [done|].
  intros Hid. simpl.
  assert ((in_batch b2 (if Nat.eqb (ln_id x) (ln_id l) then apply_patch p now x else x)
      && String.eqb (ln_task (if Nat.eqb (ln_id x) (ln_id l) then apply_patch p now x else x)) t2)
      = (in_batch b2 x && String.eqb (ln_task x) t2)) as -> by (by case_match).
  destruct (in_batch b2 x && String.eqb (ln_task x) t2) eqn:Hx.
  - apply andb_true_iff in Hx as [Hxb%String.eqb_eq Hxt%String.eqb_eq]. by rewrite Hid by (done || left).
  - apply IH. intros r Hr. apply Hid. by right.
Qed.

Section Writes.
Context (JSON_parse : string → option json_value).
Context (resolveDef : string → option string → option workflow_definition).

Lemma updateLane_run runId b t l p allowed now s :
  lanes_wf s.(ls_db) → find_lane s.(ls_db) b t = Some l →
  patch_ok (match allowed with Some a => a | None => SPRINT_LANE_STEP_IDS end) p = true →
  let d' := patched l p now s.(ls_db) in
  let view := toLaneRow JSON_parse d' (apply_patch p now l) in
  updateLane JSON_parse runId b t p allowed now s =
    (Ok view, mk_store d' s.(ls_cache) (s.(ls_log) ++ [lane_changed runId view now])).
Proof.
  intros Hwf Hf Hp d' view. unfold updateLane. rewrite Hp. simpl.
  unfold transaction, mbind, gets. unfold resolve_lane. rewrite Hf.
  unfold update_lane_by_id, modify, mret. simpl. unfold readLane. fold (patched l p now (ls_db s)).
  pose proof Hf as (Hl & Hb & Ht)%find_lane_Some. rewrite Ht.
  by rewrite (find_patched _ b t l).
Qed.

(** ** Deriving a step *)

Definition chain_of (runId : string) (s : lane_store) : option (list inner_step) :=
  match map_get runId s.(ls_cache) with
  | Some cached => cached
  | None => resolveRunFanOutInner resolveDef s.(ls_db) runId
  end.

(** The lane and step a dispatch is credited to, read off the tables. *)
Definition derive_choice (runId toolName : string) (subagentType prompt : option string)
    (s : lane_store) : option (lane_view * string * option (list string)) :=
  if String.eqb runId "orchestrator" || negb (isAgentDispatchToolName toolName) then None
  else
    sub ← subagentType;
    '(step, order, allowed) ← dispatch_step (chain_of runId s) sub;
    b ← nonempty_opt (find_run s.(ls_db) runId ≫= lr_batch);
    lane ← attribute_lane (listLanes JSON_parse s.(ls_db) b) prompt;
    if lane_settled lane.(lv_status) || negb (moves_forward order lane.(lv_step) step) then None
    else Some (lane, step, allowed).

Lemma index_in_nonneg x l : (0 <= index_in x l)%Z → x ∈ l.
Proof.
  unfold index_in. destruct (position x l) as [i|] eqn:Hp; [|lia]. intros _.
  revert i Hp. induction l as [|y l IH]; simpl; [done|]. intros i.
  destruct (String.eqb y x) eqn:He; [apply String.eqb_eq in He as ->; left|].
  destruct (position x l) as [j|]; [|done]. intros _. right. by apply (IH j).
Qed.

Lemma moves_forward_in order cur step : moves_forward order cur step = true → step ∈ order.
Proof.
  unfold moves_forward. intros H%Z.ltb_lt. apply index_in_nonneg.
  assert (-1 <= match cur with Some c => index_in c order | None => -1 end)%Z; [|lia].
  destruct cur; [|lia]. unfold index_in. case_match; lia.
Qed.

Lemma dispatch_step_allowed inner sub step order allowed :
  dispatch_step inner sub = Some (step, order, allowed) →
  (match allowed with Some a => a | None => SPRINT_LANE_STEP_IDS end) = order.
Proof. unfold dispatch_step. intros. repeat case_match; simplify_eq; done. Qed.

Lemma attribute_lane_in lanes prompt lane : attribute_lane lanes prompt = Some lane → lane ∈ lanes.
Proof.
  unfold attribute_lane. destruct lanes as [|x [|y l]]; [done|intros [= ->]; left|].
  case_match; [done|]. intros Hm.
  match type of Hm with match ?f with _ => _ end = _ => assert (lane ∈ f) as Hin end.
  { repeat case_match; simplify_eq. left. }
  by apply list_elem_of_filter in Hin as [_ ?].
Qed.

Lemma listLanes_lane d b lane :
  lanes_wf d → lane ∈ listLanes JSON_parse d b →
  ∃ l, find_lane d b lane.(lv_task) = Some l ∧ lane = toLaneRow JSON_parse d l.
Proof.
  intros Hwf. unfold listLanes. intros (l & -> & [Hb Hl]%list_elem_of_filter)%list_elem_of_fmap.
  exists l. split; [|done]. unfold in_batch in Hb. apply String.eqb_eq in Hb as <-.
  by apply find_lane_row.
Qed.

Definition running_at (step : string) : lane_patch := mk_patch (Some "running") (Some (Some step)) None.

Lemma running_at_ok allowed step : step ∈ allowed → patch_ok allowed (running_at step) = true.
Proof. intros H. unfold patch_ok, running_at. simpl. by rewrite bool_decide_eq_true_2. Qed.

Lemma derive_run runId tool sub prompt now s :
  lanes_wf s.(ls_db) →
  ∃ cache log,
    deriveLaneFromTaskDispatch JSON_parse resolveDef runId tool sub prompt now s =
    (Ok tt, mk_store
       (match derive_choice runId tool sub prompt s with
        | Some (lane, step, _) =>
            match find_lane s.(ls_db) lane.(lv_batch) lane.(lv_task) with
            | Some l => patched l (running_at step) now s.(ls_db)
            | None => s.(ls_db)
            end
        | None => s.(ls_db)
        end) cache (s.(ls_log) ++ log)).
Proof.
  intros Hwf. unfold deriveLaneFromTaskDispatch, derive_choice, catch.
  assert (∀ c, ∃ cache log, (Ok tt : result lane_error unit, mk_store (ls_db s) c (ls_log s))
            = (Ok tt, mk_store (ls_db s) cache (ls_log s ++ log))) as Hstay.
  { intros c. exists c, []. by rewrite app_nil_r. }
  destruct (String.eqb runId "orchestrator"); [destruct s; apply Hstay|].
  destruct (negb (isAgentDispatchToolName tool)); [destruct s; apply Hstay|]. simpl.
  destruct sub as [sub|]; [|destruct s; apply Hstay]. simpl.
  assert (∃ c, resolveFanOutInnerCached resolveDef runId s = (Ok (chain_of runId s), mk_store s.(ls_db) c s.(ls_log)))
    as [c Hc].
  { unfold resolveFanOutInnerCached, chain_of, mbind, get.
    destruct (map_get runId (ls_cache s)); [exists s.(ls_cache); by destruct s|by eexists]. }
  unfold mbind at 1. rewrite Hc. destruct (dispatch_step _ sub) as [[[step order] allowed]|] eqn:Hd; [|apply Hstay].
  simpl. unfold mbind at 1, gets. simpl.
  destruct (nonempty_opt _) as [b|]; [|apply Hstay]. simpl.
  destruct (attribute_lane _ prompt) as [lane|] eqn:Hat; [|apply Hstay]. simpl.
  destruct (lane_settled (lv_status lane)); [apply Hstay|]. simpl.
  destruct (moves_forward order (lv_step lane) step) eqn:Hm; [|apply Hstay]. simpl.
  apply attribute_lane_in, listLanes_lane in Hat as (l & Hf & Hlane); [|done].
  assert (lv_batch lane = b) as Hlb by (rewrite Hlane; simpl; by apply find_lane_Some in Hf as (_ & ? & _)).
  rewrite Hlb, Hf. unfold mbind.
  rewrite (updateLane_run runId b _ l (running_at step) allowed now); [simpl; by eexists _, _|done|done|].
  apply dispatch_step_allowed in Hd as ->. by apply running_at_ok, (moves_forward_in _ (lv_step lane)).
Qed.
End Writes.

(** ** Whole-word occurrence *)

Definition next_boundary (prompt token : string) (i : nat) : Prop :=
  startsWith token (drop_str i prompt) = true ∧ boundary (drop_str (i + String.length token) prompt) = true.

Lemma index_of_str_Some token p pos idx :
  index_of_str token p pos = Some idx →
  pos <= idx ∧ idx - pos <= String.length p ∧ startsWith token (drop_str (idx - pos) p) = true
  ∧ ∀ j, j < idx - pos → startsWith token (drop_str j p) = false.
Proof.
  revert pos. induction p as [|a p IH]; intros pos; simpl.
  - destruct (startsWith token "") eqn:Hs; [|done]. intros [= <-]. rewrite Nat.sub_diag.
    split_and!; [lia|lia|done|lia].
  - destruct (startsWith token (String a p)) eqn:Hs.
    + intros [= <-]. rewrite Nat.sub_diag. split_and!; [lia|lia|done|lia].
    + intros H%IH. destruct H as (Hle & Hlen & Hst & Hmin).
      replace (idx - pos) with (S (idx - S pos)) by lia. split_and!; [lia|lia|done|].
      intros [|j] Hj; [done|]. apply Hmin. lia.
Qed.

Lemma index_of_str_None token p pos j :
  index_of_str token p pos = None → j <= String.length p → startsWith token (drop_str j p) = false.
Proof.
  revert pos j. induction p as [|a p IH]; intros pos j; simpl.
  - destruct (startsWith token "") eqn:Hs; [done|]. intros _ Hj. by destruct j.
  - destruct (startsWith token (String a p)) eqn:Hs; [done|]. intros H Hj.
    destruct j as [|j]; [done|]. simpl. apply (IH (S pos)); [done|lia].
Qed.

Lemma drop_str_add i j s : drop_str i (drop_str j s) = drop_str (j + i) s.
Proof. revert s. induction j as [|j IH]; intros s; [done|]. destruct s; simpl; [by destruct i|apply IH]. Qed.

Lemma length_drop_str i s : String.length (drop_str i s) = String.length s - i.
Proof. revert s. induction i as [|i IH]; intros [|a s]; simpl; [lia..|apply IH]. Qed.

Lemma token_loop_spec fuel prompt token from :
  String.length prompt < fuel + from → token ≠ "" →
  token_loop fuel prompt token from = true ↔
  ∃ i, from <= i ∧ i <= String.length prompt ∧ next_boundary prompt token i.
Proof.
  revert from. induction fuel as [|fuel IH]; intros from Hfuel Hne; simpl.
  - split; [done|]. intros (i & ? & ? & _). lia.
  - destruct (index_of_str token (drop_str from prompt) from) as [idx|] eqn:Hidx.
    + apply index_of_str_Some in Hidx as (Hle & Hlen & Hst & Hmin).
      rewrite length_drop_str in Hlen. rewrite drop_str_add in Hst.
      replace (from + (idx - from)) with idx in Hst by lia.
      assert (∀ i, from <= i → i < idx → startsWith token (drop_str i prompt) = false) as Hmin'.
      { intros i Hi Hlt. specialize (Hmin (i - from)). rewrite drop_str_add in Hmin.
        replace (from + (i - from)) with i in Hmin by lia. apply Hmin. lia. }
      assert (idx <= String.length prompt) as Hbound.
      { destruct (decide (from <= String.length prompt)); [lia|].
        exfalso. apply Hne. clear - Hst Hle Hlen n.
        assert (drop_str idx prompt = "") as E.
        { assert (String.length (drop_str idx prompt) = 0) as E by (rewrite length_drop_str; lia).
          by destruct (drop_str idx prompt). }
        rewrite E in Hst. by destruct token. }
      destruct (boundary (drop_str (idx + String.length token) prompt)) eqn:Hb.
      * split; [|done]. intros _. by exists idx.
      * rewrite IH by (done || lia). split.
        -- intros (i & ? & ? & ?). exists i. split_and!; [lia|done..].
        -- intros (i & Hi & ? & [Hsi Hbi]). exists i. split_and!; [|done|done].
           destruct (decide (i = idx)) as [->|]; [by rewrite Hb in Hbi|].
           destruct (decide (i < idx)); [by rewrite Hmin' in Hsi|lia].
    + split; [done|]. intros (i & Hi & Hle & [Hs _]).
      pose proof (index_of_str_None _ _ _ (i - from) Hidx) as Hn.
      rewrite length_drop_str, drop_str_add in Hn. replace (from + (i - from)) with i in Hn by lia.
      rewrite Hn in Hs by lia. done.
Qed.

(** The scan decides whether some occurrence of the token ends at a word
    boundary; the loop's fuel is the length of the prompt. *)
Lemma tokenAppearsInPrompt_spec prompt token :
  tokenAppearsInPrompt prompt token = true ↔
  token ≠ "" ∧ ∃ i, i <= String.length prompt ∧ next_boundary prompt token i.
Proof.
  unfold tokenAppearsInPrompt. destruct token as [|a token]; [naive_solver|].
  set (t := String a token). change (Nat.eqb (String.length t) 0) with false. cbv iota.
  rewrite token_loop_spec by (done || simpl; lia). split.
  - intros (i & _ & ? & ?). split; [done|]. by exists i.
  - intros [_ (i & ? & ?)]. exists i. split_and!; [lia|done..].
Qed.

Example tokens_of_a_prompt :
  tokenAppearsInPrompt "Implement TASK-12 and TASK-1." "TASK-1" = true
  ∧ tokenAppearsInPrompt "Implement TASK-12." "TASK-1" = false.
Proof. split; vm_compute; reflexivity. Qed.
