(* ===== verification/SprintLaneSpec.v ===== *)
(** * What the sprint lane store guarantees

    The theorems about [SprintLanes]: the specification of the tables' moves
    and that every operation refines it, the invariants over every history, the
    outcome of minting a batch, of a retry's reset and of the dispatch
    backstop, and a small sprint the witnesses run. *)

From Stdlib Require Import SpecFloat Ascii.
From S2P Require Import Prelude RunStateMachine Database JsString Regex JsNumber WorkflowDef Wp LaneTables SprintLanes.

Open Scope js_scope.

(** ** Requeueing the failed lanes *)

Definition requeue : lane_patch := mk_patch (Some "queued") (Some None) None.

(** A row update that touches the rows of one batch whose task is in a list. *)
Definition patch_tasks (b : string) (ts : list string) (p : lane_patch) (now : instant) (r : lane_row) : lane_row :=
  if in_batch b r && bool_decide (r.(ln_task) ∈ ts) then apply_patch p now r else r.

Definition patch_db (b : string) (ts : list string) (p : lane_patch) (now : instant) (d : lane_db) : lane_db :=
  set_lanes (patch_tasks b ts p now <$> d.(ld_lanes)) d.(ld_next_id) d.

Lemma patched_patch_db d b t l p now :
  lanes_wf d → find_lane d b t = Some l → patched l p now d = patch_db b [t] p now d.
Proof.
  intros Hwf Hf. unfold patched, patch_db. f_equal. unfold map_lane.
  apply list_fmap_ext. intros i r Hr%list_elem_of_lookup_2. unfold patch_tasks, in_batch.
  pose proof Hf as (Hl & Hb & Ht)%find_lane_Some.
  destruct (Nat.eqb_spec (ln_id r) (ln_id l)) as [He|He].
  - assert (r = l) as -> by (by apply (wf_id_eq d)).
    rewrite Hb, Ht, String.eqb_refl, bool_decide_eq_true_2; [done|left].
  - destruct (String.eqb_spec (ln_batch r) b) as [Eb|]; [|done].
    destruct (bool_decide_reflect (ln_task r ∈ [t])) as [Et%list_elem_of_singleton|]; [|done].
    exfalso. apply He. f_equal. apply (wf_pair_eq d); congruence.
Qed.

Lemma patch_db_app d b t ts p now :
  t ∉ ts → patch_db b ts p now (patch_db b [t] p now d) = patch_db b (t :: ts) p now d.
Proof.
  intros Ht. unfold patch_db, set_lanes. simpl. f_equal. rewrite <- list_fmap_compose.
  apply list_fmap_ext. intros i r _. unfold compose, patch_tasks.
  destruct (in_batch b r) eqn:Hb; simpl; [|by rewrite Hb].
  destruct (bool_decide_reflect (ln_task r ∈ [t])) as [Et%list_elem_of_singleton|Hn]; simpl.
  - rewrite !Et, (bool_decide_eq_true_2 (t ∈ t :: ts)) by left.
    by rewrite (bool_decide_eq_false_2 (t ∈ ts)), andb_false_r.
  - rewrite Hb. simpl. rewrite list_elem_of_singleton in Hn.
    rewrite (bool_decide_ext (ln_task r ∈ ts) (ln_task r ∈ t :: ts)); [done|].
    rewrite elem_of_cons. naive_solver.
Qed.

Section LaneTheorems.
Context (JSON_parse : string → option json_value).
Context (resolveDef : string → option string → option workflow_definition).
Context (caps : option (cli_substrate → option scalar)).

Lemma requeue_tasks runId b now ts s :
  lanes_wf s.(ls_db) → NoDup ts →
  (∀ t, t ∈ ts → ∃ l, l ∈ s.(ls_db).(ld_lanes) ∧ l.(ln_batch) = b ∧ l.(ln_task) = t) →
  ∃ log, mapM_ (λ t, mbind (updateLane JSON_parse runId b t requeue None now) (λ _, mret tt)) ts s
    = (Ok tt, mk_store (patch_db b ts requeue now s.(ls_db)) s.(ls_cache) (s.(ls_log) ++ log)).
Proof.
  revert s. induction ts as [|t ts IH]; intros s Hwf Hnd Hts.
  - exists []. rewrite app_nil_r. simpl. unfold mret. f_equal. destruct s as [d c l]; simpl. f_equal.
    unfold patch_db. replace (_ <$> ld_lanes d) with (ld_lanes d); [by destruct d|].
    symmetry. rewrite <- (list_fmap_id (ld_lanes d)) at 2. apply list_fmap_ext. intros i r _.
    unfold patch_tasks. by rewrite andb_false_r.
  - apply NoDup_cons in Hnd as [Ht Hnd].
    destruct (Hts t) as (l0 & Hl0 & Hb0 & Ht0); [left|].
    pose proof (find_lane_row _ l0 Hwf Hl0) as Hf. rewrite Hb0, Ht0 in Hf.
    simpl. unfold mbind. rewrite (updateLane_run JSON_parse runId b t l0) by done.
    rewrite (patched_patch_db _ b t) by done. unfold mret. cbv beta iota.
    match goal with |- ∃ log, mapM_ _ _ ?s1 = _ => destruct (IH s1) as [log Hlog] end.
    + simpl. rewrite <- (patched_patch_db _ b t l0) by done. by apply (patch_wf _ _ SPRINT_LANE_STEP_IDS).
    + done.
    + intros t' Ht'. destruct (Hts t') as (x & Hx & Hxb & Hxt); [by right|].
      exists (patch_tasks b [t] requeue now x). simpl. split; [by apply list_elem_of_fmap_2|].
      unfold patch_tasks. by case_match.
    + eexists. unfold mbind, mret in Hlog. rewrite Hlog. simpl. rewrite patch_db_app by done.
      by rewrite <- app_assoc.
Qed.

(** The lanes a retry puts back into the queue. *)
Definition to_requeue (b : string) (l : lane_row) : Prop :=
  l.(ln_batch) = b ∧ (l.(ln_status) = l_failed ∨ l.(ln_status) = l_blocked).
#[local] Instance to_requeue_dec b l : Decision (to_requeue b l).
Proof. unfold to_requeue. apply _. Defined.

(** A retry's reset requeues exactly the failed lanes of a batch that a run owns,
    and returns their number. *)
Theorem resetFailedLanes_spec b now s :
  lanes_wf s.(ls_db) →
  let owned := is_some (resolveOwningRunId s.(ls_db) b) in
  ∃ s', resetFailedLanes JSON_parse b now s
      = (Ok (if owned then length (filter (to_requeue b) s.(ls_db).(ld_lanes)) else 0), s')
    ∧ s'.(ls_db) = set_lanes
        ((λ l, if decide (to_requeue b l ∧ owned = true) then apply_patch requeue now l else l)
           <$> s.(ls_db).(ld_lanes)) s.(ls_db).(ld_next_id) s.(ls_db).
Proof.
  intros Hwf owned. unfold resetFailedLanes, catch, mbind at 1, gets.
  set (rs := filter (λ l, ln_batch l = b ∧ (ln_status l = l_failed ∨ ln_status l = l_blocked)) (ld_lanes (ls_db s))).
  assert (rs = filter (to_requeue b) (ld_lanes (ls_db s))) as Hrs by (apply list_filter_iff; done).
  assert (∀ (P : lane_row → Prop) (HP : ∀ l, Decision (P l ∧ owned = true)),
      (∀ l, l ∈ ld_lanes (ls_db s) → P l → owned = true → False) →
      s.(ls_db) = set_lanes ((λ l, if decide (P l ∧ owned = true) then apply_patch requeue now l else l)
                      <$> s.(ls_db).(ld_lanes)) s.(ls_db).(ld_next_id) s.(ls_db)) as Hsame.
  { intros P HP Hno. replace (_ <$> _) with (ld_lanes (ls_db s)); [by destruct (ls_db s)|].
    rewrite <- (list_fmap_id (ld_lanes (ls_db s))) at 1. apply list_fmap_ext. intros i l Hl.
    destruct (decide (P l ∧ owned = true)) as [[Hp Ho]|]; [|done].
    destruct (Hno l); [by eapply list_elem_of_lookup_2|done..]. }
  cbv zeta. fold rs. destruct (ln_task <$> rs) as [|t ts] eqn:Hts.
  { apply fmap_nil_inv in Hts. exists s. rewrite <- Hrs, Hts. split; [by destruct owned|].
    apply (Hsame (to_requeue b)). intros l Hl Hq _.
    assert (l ∈ rs) as Hin by (rewrite Hrs; by apply list_elem_of_filter).
    rewrite Hts in Hin. by apply elem_of_nil in Hin. }
  rewrite <- Hts. unfold owned in *. destruct (resolveOwningRunId (ls_db s) b) as [runId|] eqn:Ho.
  2:{ exists s. split; [done|]. apply (Hsame (to_requeue b)). done. }
  assert (NoDup (ln_task <$> rs)) as Hnd.
  { pose proof (wf_pairs _ Hwf) as Hp.
    assert (NoDup ((λ l, (ln_batch l, ln_task l)) <$> rs)) as Hp'.
    { eapply sublist_NoDup; [exact Hp|]. apply fmap_sublist, sublist_filter. }
    assert ((λ l, (ln_batch l, ln_task l)) <$> rs = (pair b) <$> (ln_task <$> rs)) as E.
    { rewrite <- list_fmap_compose. apply list_fmap_ext. intros i l Hl. unfold compose.
      apply list_elem_of_lookup_2 in Hl. apply list_elem_of_filter in Hl as [[-> _] _]. done. }
    rewrite E in Hp'. by apply NoDup_fmap_1 in Hp'. }
  destruct (requeue_tasks runId b now (ln_task <$> rs) s Hwf Hnd) as [log Hlog].
  { intros x (l & -> & Hl)%list_elem_of_fmap. apply list_elem_of_filter in Hl as [[Hb _] Hl]. eauto. }
  unfold mbind in *. unfold requeue, mret in *. rewrite Hlog. cbv beta iota.
  eexists. split; [rewrite <- Hrs, length_fmap; done|].
  cbn [ls_db]. unfold patch_db. f_equal. apply list_fmap_ext. intros i l Hl.
  apply list_elem_of_lookup_2 in Hl. unfold patch_tasks, in_batch.
  destruct (decide (to_requeue b l ∧ is_some (Some runId) = true)) as [[[Hb Hq] _]|Hn].
  - rewrite Hb, String.eqb_refl, bool_decide_eq_true_2; [done|].
    apply list_elem_of_fmap. exists l. split; [done|]. rewrite Hrs. by apply list_elem_of_filter.
  - destruct (String.eqb_spec (ln_batch l) b) as [Hb|]; [|done].
    rewrite bool_decide_eq_false_2; [done|]. intros (l' & Ht & Hl')%list_elem_of_fmap.
    apply Hn. split; [|done]. rewrite Hrs in Hl'. apply list_elem_of_filter in Hl' as [Hq' Hl'].
    pose proof Hq' as [Hb' _]. replace l with l'; [done|]. apply (wf_pair_eq (ls_db s)); congruence.
Qed.
End LaneTheorems.

(** ** The eligibility rule, as the comments state it *)

Definition current_schema (d : lane_db) : Prop := d.(ld_schema) = mk_schema true true true true true true.

Definition live_run_holds (d : lane_db) (r : lane_run) (id : string) : Prop :=
  r.(lr_task) = Some id ∨
  ∃ l, l ∈ d.(ld_lanes) ∧ r.(lr_batch) = Some l.(ln_batch) ∧ l.(ln_task) = id.

Definition sprint_eligible (d : lane_db) (projectId : Z) (id : string) : Prop :=
  ∃ t stage, d.(ld_tasks) !! id = Some t ∧ d.(ld_stages) !! t.(tk_stage) = Some stage
    ∧ t.(tk_project) = projectId ∧ is_Some t.(tk_approved_at) ∧ t.(tk_archived_at) = None
    ∧ t.(tk_executor) ≠ "human"
    ∧ (6 <= stage.(stg_position))%Z ∧ stage.(stg_terminal) = false
    ∧ (∀ r, r ∈ d.(ld_runs) → run_is_active r = true → ¬ live_run_holds d r id)
    ∧ (∀ e status, (e, id) ∈ d.(ld_seeds) → d.(ld_experiments) !! e = Some status →
         experiment_live status = false).

Lemma is_live_seed_false d id :
  is_live_seed d id = false ↔
  ∀ e status, (e, id) ∈ d.(ld_seeds) → d.(ld_experiments) !! e = Some status → experiment_live status = false.
Proof.
  rewrite <- not_true_iff_false. unfold is_live_seed. rewrite existsb_exists. split.
  - intros H e st Hin He. destruct (experiment_live st) eqn:Hl; [|done]. exfalso. apply H.
    exists (e, id). simpl. by rewrite <- list_elem_of_In, String.eqb_refl, He.
  - intros H ([e t] & Hin & Hx). apply list_elem_of_In in Hin. simpl in Hx.
    apply andb_true_iff in Hx as [->%String.eqb_eq Hx]. destruct (_ !! e) as [st|] eqn:He; [|done].
    by rewrite (H e st) in Hx.
Qed.

Lemma eligible_iff d projectId id :
  current_schema d →
  (match d.(ld_tasks) !! id with
   | Some t => (t.(tk_project) =? projectId)%Z && eligible_clauses d id t
   | None => false
   end = true) ↔ sprint_eligible d projectId id.
Proof.
  intros Hsc. unfold sprint_eligible, eligible_clauses. rewrite Hsc. simpl.
  assert (has_active_run d id = false ↔ ∀ r, r ∈ d.(ld_runs) → run_is_active r = true → ¬ live_run_holds d r id) as Hact.
  { rewrite <- not_true_iff_false, has_active_run_spec. unfold live_run_holds. naive_solver. }
  setoid_rewrite <- Hact. setoid_rewrite <- is_live_seed_false. destruct (ld_tasks d !! id) as [t|]; [|naive_solver].
  destruct (ld_stages d !! tk_stage t) as [st|] eqn:Hst.
  - rewrite !andb_true_iff, !negb_true_iff, String.eqb_neq, Z.eqb_eq, Z.leb_le.
    assert (is_some (tk_approved_at t) = true ↔ is_Some (tk_approved_at t)) as ->
      by (destruct (tk_approved_at t); split; naive_solver).
    assert (is_some (tk_archived_at t) = false ↔ tk_archived_at t = None) as ->
      by (destruct (tk_archived_at t); split; done).
    split; [|naive_solver]. intros H. exists t, st. tauto.
  - rewrite andb_false_r. naive_solver.
Qed.

Lemma cap_bounds caps sub : (1 <= resolveSprintMaxTasks caps sub <= 100)%Z.
Proof.
  unfold resolveSprintMaxTasks, clampSprintMaxTasks, SPRINT_MAX_TASKS_MIN, SPRINT_MAX_TASKS_MAX.
  repeat case_match; simplify_eq; try lia; by destruct sub.
Qed.

(** Minting a sprint batch takes the distinct eligible task ids in the order given:
    with at least one and at most the cap of the substrate, clamped to 1..100, it writes the
    batch, one queued lane per task and the binding of the run; otherwise it throws the
    matching error (bad_request, no_eligible_tasks, batch_too_large, or a duplicate batch
    id) and writes nothing. *)
Theorem createForRun_spec caps project sub ids b now s :
  lanes_wf s.(ls_db) → current_schema s.(ls_db) →
  let d := s.(ls_db) in
  let cap := resolveSprintMaxTasks caps sub in
  (1 <= cap <= 100)%Z ∧
  ∃ el, el `sublist_of` js_unique ids
    ∧ (∀ id, id ∈ el ↔ id ∈ ids ∧ sprint_eligible d project id)
    ∧ match createForRun caps project sub ids b now s with
      | (Ok b', s') =>
          b' = b ∧ el ≠ [] ∧ (Z.of_nat (length el) <= cap)%Z ∧ d.(ld_batches) !! b = None
          ∧ s'.(ls_db) = seeded_db project sub b el now d
      | (Throw e, s') =>
          s' = s ∧ match e with
                   | SprintLaneError e_bad_request => ids = []
                   | SprintLaneError e_no_eligible_tasks => ids ≠ [] ∧ el = []
                   | SprintLaneError e_batch_too_large => (cap < Z.of_nat (length el))%Z
                   | SprintLaneError e_lane_not_found => False
                   | SqlNoSuch => False
                   | SqlUnique => is_Some (d.(ld_batches) !! b)
                   end
      end.
Proof.
  intros Hwf Hsc d cap. split; [apply cap_bounds|].
  exists (filterEligibleTaskIds d project ids).
  assert (full_schema d) as Hfull by (unfold full_schema, d; by rewrite Hsc).
  split_and!.
  - rewrite filterEligible_spec by done. apply sublist_filter.
  - intros id. rewrite filterEligible_spec by done. unfold select_tasks.
    rewrite list_elem_of_filter, elem_of_js_unique, (eligible_iff d) by done. tauto.
  - rewrite createForRun_eq by done. cbv zeta. fold d.
    destruct ids as [|i0 ids]; [done|].
    destruct (filterEligibleTaskIds d project (i0 :: ids)) as [|x el] eqn:He; [done|].
    fold cap. destruct (Z.ltb_spec cap (Z.of_nat (length (x :: el)))); [done|].
    destruct (ld_batches d !! b) as [row|]; [by split|]. done.
Qed.

Section LaneClaims.
Context (JSON_parse : string → option json_value).
Context (resolveDef : string → option string → option workflow_definition).
Context (caps : option (cli_substrate → option scalar)).

Lemma op_moves op now s :
  lanes_wf s.(ls_db) →
  rtc lane_move s.(ls_db) (run_op JSON_parse resolveDef caps op now s).(ls_db).
Proof.
  intros Hwf. destruct op; simpl; first
    [ by apply (seed_run_moves caps) | apply (addLane_moves JSON_parse) | apply removeLane_moves
    | apply (updateLane_moves JSON_parse) | apply (derive_moves JSON_parse resolveDef)
    | apply (resetFailedLanes_moves JSON_parse) | apply (reviveLane_moves JSON_parse)
    | apply markBatchTerminal_moves | apply reopenBatch_moves ].
Qed.

(** C25: Every operation of the sprint lane store, error and no-op branches included, is a
    sequence of moves of an abstract specification of the sprint tables (mint a batch, add,
    patch or remove one lane of a batch, move a batch along its status edges, stamp or
    create a run): nothing else in the tables ever changes. *)
Theorem lane_store_refines op now s :
  lanes_wf s.(ls_db) →
  rtc lane_move s.(ls_db) (run_op JSON_parse resolveDef caps op now s).(ls_db).
Proof. apply op_moves. Qed.

(** A property every move and every step of the environment keeps holds along
    every history. *)
Lemma history_invariant (P : lane_db → Prop) s s' :
  (∀ d d', lanes_wf d → lane_move d d' → P d → P d') →
  (∀ d d', env_move d d' → P d → P d') →
  rtc (store_step JSON_parse resolveDef caps) s s' →
  lanes_wf s.(ls_db) → P s.(ls_db) → lanes_wf s'.(ls_db) ∧ P s'.(ls_db).
Proof.
  intros Hmove Henv. induction 1 as [s|s1 s2 s3 Hstep _ IH]; [done|]. intros Hwf HP.
  assert (lanes_wf s2.(ls_db) ∧ P s2.(ls_db)) as [? ?]; [|by apply IH].
  destruct Hstep as [op now|d' He].
  - clear IH. pose proof (op_moves op now s1 Hwf) as Hm. revert Hwf HP.
    induction Hm as [d|d1 d2 d3 Hm1 _ IHm]; [done|]. intros Hwf HP.
    apply IHm; [by eapply move_wf|by eapply Hmove].
  - split; [by eapply env_wf|by eapply Henv].
Qed.

Lemma move_schema d d' : lane_move d d' → d'.(ld_schema) = d.(ld_schema).
Proof. by intros []. Qed.

(** C24: On a database of the current schema, no history of lane-store operations and run
    starts breaks the tables of the sprints or puts a task into two live runs: lane ids and
    pairs of batch and task stay unique, every lane and every run's batch exists, an
    integrated lane has its timestamp, a batch has a completion time exactly when it is
    terminal and belongs to at most one run, and no task has lanes in two sprints whose runs
    are both active. *)
Theorem lane_store_safe s s' :
  lanes_wf s.(ls_db) → full_schema s.(ls_db) → no_double_pull s.(ls_db) →
  rtc (store_step JSON_parse resolveDef caps) s s' →
  lanes_wf s'.(ls_db) ∧ no_double_pull s'.(ls_db).
Proof.
  intros Hwf Hfull Hdp Hh.
  destruct (history_invariant (λ d, full_schema d ∧ no_double_pull d) s s') as [? [_ ?]]; try done.
  - intros d d' Hwfd Hm [Hf Hd]. split; [|by eapply move_no_double_pull].
    unfold full_schema in *. by rewrite (move_schema _ _ Hm).
  - intros d d' He [Hf Hd]. split; [|by eapply env_no_double_pull].
    unfold full_schema in *. destruct He as (-> & _). done.
Qed.

(** A batch that was completed or canceled stays so under every history of the lane
    store, its row is never written again and no lane is added to it. *)
Theorem terminal_batch_final s s' b row :
  lanes_wf s.(ls_db) → s.(ls_db).(ld_batches) !! b = Some row →
  row.(sb_status) = b_completed ∨ row.(sb_status) = b_canceled →
  rtc (store_step JSON_parse resolveDef caps) s s' →
  s'.(ls_db).(ld_batches) !! b = Some row
  ∧ ∀ l', l' ∈ s'.(ls_db).(ld_lanes) → l'.(ln_batch) = b →
      ∃ l, l ∈ s.(ls_db).(ld_lanes) ∧ l.(ln_id) = l'.(ln_id) ∧ l.(ln_batch) = b ∧ l.(ln_task) = l'.(ln_task).
Proof.
  intros Hwf Hb Hs Hh. eapply (history_invariant (λ d, d.(ld_batches) !! b = Some row ∧
    ∀ l', l' ∈ d.(ld_lanes) → l'.(ln_batch) = b →
      ∃ l, l ∈ s.(ls_db).(ld_lanes) ∧ l.(ln_id) = l'.(ln_id) ∧ l.(ln_batch) = b ∧ l.(ln_task) = l'.(ln_task))
    s s'); [|..|done|done|split; [done|]; intros l' Hl' ?; by exists l'].
  - clear s' Hh. intros d d' _ Hm [Hrow Hl].
    assert (∀ x, d.(ld_batches) !! b = Some x → x = row) as Huniq by (intros; congruence).
    destruct Hm as [id x Hid|id x t now Hx Hxt|l Hlin|l al p now Hlin|id x t now Hx Hxt|id x now Hx Hxt|];
      simpl; (split; [try done|]).
    + rewrite lookup_insert_ne; [done|congruence].
    + done.
    + intros l' [Hin| ->%list_elem_of_singleton]%elem_of_app; [by apply Hl|]. simpl. intros ->.
      rewrite (Huniq x) in Hxt by done. by destruct Hs as [E|E]; rewrite E in Hxt.
    + intros l' [_ Hin]%list_elem_of_filter. by apply Hl.
    + intros l' (x & Hin & ->)%elem_of_map_lane Hbx. destruct (Nat.eqb (ln_id x) _); by apply (Hl x).
    + destruct (decide (id = b)) as [->|]; [|by rewrite lookup_insert_ne].
      rewrite (Huniq x) in Hxt by done. by destruct Hs as [E|E]; rewrite E in Hxt.
    + done.
    + destruct (decide (id = b)) as [->|]; [|by rewrite lookup_insert_ne].
      rewrite (Huniq x) in Hxt by done. by destruct Hs as [E|E]; rewrite E in Hxt.
    + done.
    + done.
  - intros d d' (_ & Eb & El & _) [Hrow Hl]. by rewrite Eb, El.
Qed.

(** The dispatch backstop never throws and never moves a lane back: it changes nothing,
    or it sets exactly one lane of the run's batch, attributed by the prompt, to running at
    the step of the dispatched agent, and only when the lane is neither integrated nor
    failed and stands strictly before that step in the run's chain. *)
Theorem derive_forward runId tool sub prompt now s :
  lanes_wf s.(ls_db) →
  ∃ s', deriveLaneFromTaskDispatch JSON_parse resolveDef runId tool sub prompt now s = (Ok tt, s')
    ∧ (s'.(ls_db) = s.(ls_db)
       ∨ ∃ l b agent step order allowed,
           l ∈ s.(ls_db).(ld_lanes) ∧ l.(ln_batch) = b
           ∧ (find_run s.(ls_db) runId ≫= lr_batch) = Some b
           ∧ sub = Some agent
           ∧ dispatch_step (chain_of resolveDef runId s) agent = Some (step, order, allowed)
           ∧ attribute_lane (listLanes JSON_parse s.(ls_db) b) prompt = Some (toLaneRow JSON_parse s.(ls_db) l)
           ∧ l.(ln_status) ≠ l_integrated ∧ l.(ln_status) ≠ l_failed
           ∧ (match l.(ln_step) with Some c => index_in c order | None => -1 end < index_in step order)%Z
           ∧ s'.(ls_db) = patched l (running_at step) now s.(ls_db)).
Proof.
  intros Hwf. destruct (derive_run JSON_parse resolveDef runId tool sub prompt now s Hwf) as (c & log & ->).
  eexists. split; [done|]. simpl. unfold derive_choice.
  destruct (_ || _); [by left|]. destruct sub as [sub|]; [|by left]. simpl.
  destruct (dispatch_step _ sub) as [[[step order] allowed]|] eqn:Hd; [|by left]. simpl.
  destruct (find_run (ls_db s) runId ≫= lr_batch) as [b|] eqn:Hb; [|by left]. simpl.
  destruct (String.eqb b ""); [by left|]. simpl.
  destruct (attribute_lane _ prompt) as [lane|] eqn:Hat; [|by left]. simpl.
  destruct (lane_settled (lv_status lane)) eqn:Hse; [by left|]. simpl.
  destruct (moves_forward order (lv_step lane) step) eqn:Hm; [|by left]. simpl.
  pose proof Hat as (l & Hf & ->)%attribute_lane_in%listLanes_lane; [|done].
  simpl in *. pose proof Hf as (Hl & Hlb & _)%find_lane_Some. rewrite Hlb, Hf. right.
  exists l, b, sub, step, order, allowed. unfold lane_settled in Hse. bool_hyps.
  unfold moves_forward in Hm. apply Z.ltb_lt in Hm. done.
Qed.
End LaneClaims.

(** ** A small sprint *)

Definition sample_json : string → option json_value := λ _, None.
Definition sample_defs : string → option string → option workflow_definition := λ _ _, None.

Definition ready_task (ref : string) : task_row :=
  mk_task 1 (Some ref) ref "ready" (Some 5%Z) None "agent" None.

(** Three tasks, one of them not approved, and two runs without a batch. *)
Definition lane_sample : lane_db :=
  mk_lane_db (mk_schema true true true true true true) ∅ [] 1
    (<["t1" := ready_task "TASK-1"]> (<["t2" := ready_task "TASK-2"]>
      (<["t3" := mk_task 1 (Some "TASK-3") "TASK-3" "ready" None None "agent" None]> ∅)))
    {["ready" := mk_stage 6%Z false]}
    [mk_lane_run "run-1" running 1 None None (Some "programmatic") "wf" None None 0%Z;
     mk_lane_run "run-2" running 1 None None (Some "programmatic") "wf" None None 0%Z]
    ∅ ∅ [] ∅ [] [].
Definition store_sample : lane_store := mk_store lane_sample [] [].

Definition seeded_sample : lane_store :=
  run_op sample_json sample_defs None
    (op_seed false "run-1" 1 sub_sdk ["t1"; "t2"; "t1"; "t3"] "batch-1") 7000%Z store_sample.

Example seeded_lanes :
  (λ l, (l.(ln_id), l.(ln_task), l.(ln_status))) <$> seeded_sample.(ls_db).(ld_lanes)
  = [(1, "t1", l_queued); (2, "t2", l_queued)].
Proof. vm_compute. reflexivity. Qed.

Lemma lane_sample_wf : lanes_wf lane_sample.
Proof.
  split; simpl; try (intros *; rewrite ?lookup_empty; by intros ?%elem_of_nil || done).
  - constructor.
  - constructor.
  - by apply (bool_decide_eq_true_1 (NoDup ["run-1"; "run-2"])).
  - intros r id [->|[->|?%elem_of_nil]%elem_of_cons]%elem_of_cons; done.
  - intros r r' id [->|[->|?%elem_of_nil]%elem_of_cons]%elem_of_cons; done.
Qed.

Lemma sample_no_double_pull : no_double_pull lane_sample.
Proof. by intros r r' l l' _ _ _ _ ?%elem_of_nil. Qed.

Lemma seeded_sample_wf : lanes_wf seeded_sample.(ls_db).
Proof.
  destruct (history_invariant sample_json sample_defs None (λ _, True) store_sample seeded_sample)
    as [? _]; try done; [|apply lane_sample_wf].
  apply rtc_once. apply (step_op _ _ _ _ (op_seed _ _ _ _ _ _) 7000%Z).
Qed.

Definition closed_sample : lane_store :=
  run_op sample_json sample_defs None (op_close "batch-1" tb_completed) 8000%Z seeded_sample.

Lemma createForRun_spec_witness :
  lanes_wf store_sample.(ls_db) ∧
  let '(r, s') := createForRun None 1 sub_sdk ["t1"; "t2"; "t1"; "t3"] "batch-1" 7000%Z store_sample in
  r = Ok "batch-1" ∧ ln_task <$> s'.(ls_db).(ld_lanes) = ["t1"; "t2"].
Proof.
  split; [apply lane_sample_wf|].
  destruct (createForRun_spec None 1 sub_sdk ["t1"; "t2"; "t1"; "t3"] "batch-1" 7000%Z store_sample
              lane_sample_wf eq_refl) as (_ & el & _ & _ & H).
  vm_compute in H |- *. by split.
Defined.

Lemma lane_store_refines_witness :
  rtc lane_move lane_sample seeded_sample.(ls_db) ∧ length seeded_sample.(ls_db).(ld_lanes) = 2.
Proof.
  split; [|vm_compute; reflexivity].
  exact (lane_store_refines sample_json sample_defs None
    (op_seed false "run-1" 1 sub_sdk ["t1"; "t2"; "t1"; "t3"] "batch-1") 7000%Z store_sample lane_sample_wf).
Defined.

Lemma lane_store_safe_witness :
  let s' := run_op sample_json sample_defs None
    (op_seed false "run-2" 1 sub_sdk ["t1"; "t2"] "batch-2") 9000%Z seeded_sample in
  lanes_wf s'.(ls_db) ∧ no_double_pull s'.(ls_db) ∧ s'.(ls_db).(ld_batches) !! "batch-2" = None.
Proof.
  intros s'.
  destruct (lane_store_safe sample_json sample_defs None store_sample s' lane_sample_wf) as [? ?].
  - by split.
  - apply sample_no_double_pull.
  - apply (rtc_l _ _ seeded_sample); [apply (step_op _ _ _ _ (op_seed _ _ _ _ _ _) 7000%Z)|].
    apply rtc_once. apply (step_op _ _ _ _ (op_seed _ _ _ _ _ _) 9000%Z).
  - split_and!; [done..|vm_compute; reflexivity].
Defined.

Lemma terminal_batch_final_witness :
  let s' := run_op sample_json sample_defs None (op_reopen "batch-1") 9000%Z closed_sample in
  s'.(ls_db).(ld_batches) !! "batch-1"
  = Some (mk_batch 1 sub_sdk b_completed 5 8000%Z (Some 8000%Z)).
Proof.
  intros s'.
  assert (lanes_wf closed_sample.(ls_db)) as Hwf.
  { destruct (history_invariant sample_json sample_defs None (λ _, True) seeded_sample closed_sample)
      as [? _]; try done; [|apply seeded_sample_wf].
    apply rtc_once. apply (step_op _ _ _ _ (op_close "batch-1" tb_completed) 8000%Z). }
  destruct (terminal_batch_final sample_json sample_defs None closed_sample s' "batch-1"
    (mk_batch 1 sub_sdk b_completed 5 8000%Z (Some 8000%Z)) Hwf) as [H _];
    [vm_compute; reflexivity|by left| |done].
  apply rtc_once. apply (step_op _ _ _ _ (op_reopen "batch-1") 9000%Z).
Defined.

Lemma derive_forward_witness :
  let s' := exec (deriveLaneFromTaskDispatch sample_json sample_defs "run-1" "Task"
    (Some "cyboflow-code-review") (Some "review TASK-2 now") 9000%Z) seeded_sample in
  s' ≠ seeded_sample
  ∧ (λ l, (l.(ln_task), l.(ln_step))) <$> s'.(ls_db).(ld_lanes) = [("t1", None); ("t2", Some "code-review")].
Proof.
  intros s'.
  destruct (derive_forward sample_json sample_defs "run-1" "Task" (Some "cyboflow-code-review")
    (Some "review TASK-2 now") 9000%Z seeded_sample seeded_sample_wf) as (s1 & H & _).
  assert (s' = s1) as -> by (unfold s', exec; by rewrite H).
  vm_compute in H. injection H as <-. split; [done|reflexivity].
Defined.

Lemma resetFailedLanes_spec_witness :
  let s1 := exec (updateLane sample_json "run-1" "batch-1" "TASK-2"
                    (mk_patch (Some "failed") (Some (Some "implement")) None) None 8000%Z) seeded_sample in
  ∃ s', resetFailedLanes sample_json "batch-1" 9000%Z s1 = (Ok 1, s')
    ∧ (λ l, (l.(ln_task), l.(ln_status), l.(ln_step))) <$> s'.(ls_db).(ld_lanes)
      = [("t1", l_queued, None); ("t2", l_queued, None)].
Proof.
  intros s1.
  assert (lanes_wf s1.(ls_db)) as Hwf.
  { destruct (history_invariant sample_json sample_defs None (λ _, True) seeded_sample s1)
      as [? _]; try done; [|apply seeded_sample_wf].
    apply rtc_once. apply (step_op _ _ _ _ (op_update _ _ _ _ _) 8000%Z). }
  destruct (resetFailedLanes_spec sample_json "batch-1" 9000%Z s1 Hwf) as (s' & H & Hd).
  exists s'. split; [rewrite H; vm_compute; reflexivity|]. rewrite Hd. vm_compute. reflexivity.
Defined.
