(* ===== verification/MergeGate.v ===== *)
(** * The visual merge gate

    Models [orchestrator/verify/mergeGateLaneAdvance.ts]: the verdict of an
    asynchronous visual check drives the lane that waits for it, through
    [SprintLanes.updateLane].  The judged verdict itself is not read by the
    decision and is left out; so are the log lines. *)

From Stdlib Require Import SpecFloat Ascii.
From S2P Require Import Prelude RunStateMachine Database JsString Regex JsNumber WorkflowDef Wp LaneTables SprintLanes SprintLaneSpec.

Open Scope js_scope.

Definition MERGE_GATE_ATTEMPT_CAP : Z := 3.

Inductive merge_gate_action :=
  | advance_integrated
  | loopback_implement (nextAttempt : Z)
  | mark_failed
  | gate_noop (reason : string).

Definition decideMergeGate (status : request_status) (currentAttempts : Z) : merge_gate_action :=
  match status with
  | rq_passed | rq_low_confidence => advance_integrated
  | rq_failed =>
      if (MERGE_GATE_ATTEMPT_CAP <=? currentAttempts)%Z then mark_failed
      else loopback_implement (Z.max currentAttempts 1 + 1)
  | rq_skipped | rq_timeout => advance_integrated
  | rq_queued | rq_leased | rq_running => gate_noop (request_status_string status)
  end.

Definition isMergeGateBlocking (a : merge_gate_action) : bool :=
  match a with mark_failed | loopback_implement _ => true | _ => false end.

Record gate_steps := mk_gate_steps {
  gs_advance : string;
  gs_loopback : string;
  gs_allowed : option (list string)
}.

Section Gate.
Context (JSON_parse : string → option json_value).
Context (resolveDef : string → option string → option workflow_definition).

(** The step ids read off a resolved chain. *)
Definition gate_steps_of (inner : option (list inner_step)) : gate_steps :=
  let visualStep := inner ≫= List.find (λ s, String.eqb s.(is_id) SPRINT_VISUAL_VERIFY_STEP) in
  match inner, visualStep with
  | Some inner, Some visual =>
      mk_gate_steps visual.(is_id)
        (match visual.(is_loopback) with
         | Some l => l
         | None => if existsb (λ s, String.eqb s.(is_id) SPRINT_IMPLEMENT_STEP) inner
                   then SPRINT_IMPLEMENT_STEP
                   else match inner with i :: _ => i.(is_id) | [] => "" end
         end)
        (Some ((is_id <$> inner) ++ [AWAITING_VERIFY_STEP]))
  | _, _ => mk_gate_steps SPRINT_VISUAL_VERIFY_STEP SPRINT_IMPLEMENT_STEP None
  end.

Definition resolveMergeGateStepIds (d : lane_db) (runId : string) : gate_steps :=
  gate_steps_of (resolveRunFanOutInner resolveDef d runId).

(** The batch of the run, and the lane the verdict is for. *)
Definition resolveLaneForVerdict (d : lane_db) (runId : string) (taskRef : option string)
    : option (string * lane_view) :=
  batchId ← nonempty_opt (find_run d runId ≫= lr_batch);
  let lanes := listLanes JSON_parse d batchId in
  match nonempty_opt taskRef with
  | Some ref =>
      lane ← List.find (λ l, String.eqb l.(lv_task) ref || bool_decide (l.(lv_ref) = Some ref)) lanes;
      Some (batchId, lane)
  | None => match lanes with [lane] => Some (batchId, lane) | _ => None end
  end.

(** The lane write of an action. *)
Definition gate_patch (steps : gate_steps) (a : merge_gate_action) : option lane_patch :=
  match a with
  | advance_integrated => Some (mk_patch (Some "integrated") (Some (Some steps.(gs_advance))) None)
  | loopback_implement n =>
      Some (mk_patch (Some "running") (Some (Some steps.(gs_loopback))) (Some (num_of_Z n)))
  | mark_failed => Some (mk_patch (Some "failed") (Some (Some AWAITING_VERIFY_STEP)) None)
  | gate_noop _ => None
  end.

(** [store_ready]: [SprintLaneStore.getInstance()] does not throw. *)
Definition applyMergeGateVerdict (store_ready : bool) (runId : string) (status : request_status)
    (taskRef : option string) (requestAttempt : option Z) (now : instant) : laneM merge_gate_action :=
  if negb store_ready then mret (gate_noop "store-uninitialized")
  else
    d <- gets ls_db ;;
    match resolveLaneForVerdict d runId taskRef with
    | None => mret (gate_noop "lane-unresolved")
    | Some (batchId, lane) =>
        if lane_settled lane.(lv_status)
        then mret (gate_noop ("lane-terminal:" +:+ lane_status_string lane.(lv_status)))
        else if match requestAttempt with Some a => (a <? lane.(lv_attempts))%Z | None => false end
        then mret (gate_noop "stale-or-replayed")
        else
          let action := decideMergeGate status lane.(lv_attempts) in
          let steps := resolveMergeGateStepIds d runId in
          catch (
            match gate_patch steps action with
            | Some p => updateLane JSON_parse runId batchId lane.(lv_task) p steps.(gs_allowed) now ;;;
                        mret action
            | None => mret action
            end) (λ _, mret (gate_noop "lane-write-failed"))
    end.

Definition resolveLaneAttempts (store_ready : bool) (d : lane_db) (runId : string)
    (taskRef : option string) : option Z :=
  if negb store_ready then None
  else '(_, lane) ← resolveLaneForVerdict d runId taskRef; Some lane.(lv_attempts).
End Gate.

(** ** Which row a verdict is for *)

Definition gate_key (d : lane_db) (ref : string) (l : lane_row) : bool :=
  String.eqb l.(ln_task) ref || bool_decide ((d.(ld_tasks) !! l.(ln_task) ≫= tk_ref) = Some ref).

Definition gate_row (d : lane_db) (batchId : string) (taskRef : option string) : option lane_row :=
  let rows := filter (λ l, in_batch batchId l = true) d.(ld_lanes) in
  match nonempty_opt taskRef with
  | Some ref => List.find (gate_key d ref) rows
  | None => match rows with [l] => Some l | _ => None end
  end.

Lemma find_fmap {A B} (f : A → B) (p : B → bool) l :
  List.find p (f <$> l) = f <$> List.find (λ x, p (f x)) l.
Proof. induction l as [|x l IH]; simpl; [done|]. case_match; [done|apply IH]. Qed.

Lemma find_ext {A} (p q : A → bool) l : (∀ x, p x = q x) → List.find p l = List.find q l.
Proof. intros H. induction l as [|x l IH]; simpl; [done|]. by rewrite H, IH. Qed.

Section GateFacts.
Context (JSON_parse : string → option json_value).
Context (resolveDef : string → option string → option workflow_definition).

Lemma resolve_gate_row d runId taskRef :
  resolveLaneForVerdict JSON_parse d runId taskRef =
  (b ← nonempty_opt (find_run d runId ≫= lr_batch);
   l ← gate_row d b taskRef; Some (b, toLaneRow JSON_parse d l)).
Proof.
  unfold resolveLaneForVerdict. destruct (nonempty_opt (find_run d runId ≫= lr_batch)) as [b|]; [|done].
  simpl. unfold gate_row, listLanes. destruct (nonempty_opt taskRef) as [ref|].
  - rewrite find_fmap. simpl. by destruct (List.find _ _).
  - by destruct (filter _ _) as [|x [|y l]].
Qed.

Lemma filter_fmap_keys (f : lane_row → lane_row) b (l : list lane_row) :
  (∀ r, (f r).(ln_batch) = r.(ln_batch)) →
  filter (λ r, in_batch b r = true) (f <$> l) = f <$> filter (λ r, in_batch b r = true) l.
Proof.
  intros Hf. induction l as [|x l IH]; [done|]. rewrite fmap_cons, !filter_cons, IH.
  assert (in_batch b (f x) = in_batch b x) as E by (unfold in_batch; by rewrite Hf).
  by destruct (decide (in_batch b (f x) = true)), (decide (in_batch b x = true)); try congruence.
Qed.

Lemma gate_row_patched d b taskRef i p now :
  gate_row (set_lanes (map_lane i (apply_patch p now) d.(ld_lanes)) d.(ld_next_id) d) b taskRef
  = (λ r, if Nat.eqb r.(ln_id) i then apply_patch p now r else r) <$> gate_row d b taskRef.
Proof.
  unfold gate_row. simpl. unfold map_lane. rewrite filter_fmap_keys by (intros r; by case_match).
  destruct (nonempty_opt taskRef) as [ref|].
  - rewrite find_fmap. f_equal. apply find_ext. intros r. unfold gate_key. by case_match.
  - by destruct (filter _ _) as [|x [|y l]].
Qed.

Lemma gate_row_in d b taskRef l :
  gate_row d b taskRef = Some l → l ∈ d.(ld_lanes) ∧ l.(ln_batch) = b.
Proof.
  unfold gate_row. intros H.
  assert (l ∈ filter (λ r, in_batch b r = true) d.(ld_lanes)) as [Hb Hl]%list_elem_of_filter.
  { destruct (nonempty_opt taskRef).
    - apply List.find_some in H as [H _]. by apply list_elem_of_In.
    - destruct (filter _ _) as [|x [|y r]]; simplify_eq. left. }
  split; [done|]. unfold in_batch in Hb. by apply String.eqb_eq in Hb.
Qed.

(** The loopback targets of a chain are steps of the chain. *)
Definition chain_closed (inner : list inner_step) : Prop :=
  ∀ s x, s ∈ inner → s.(is_loopback) = Some x → x ∈ is_id <$> inner.

Lemma gate_steps_ok inner :
  (∀ i, inner = Some i → chain_closed i) →
  let steps := gate_steps_of inner in
  let allowed := match steps.(gs_allowed) with Some a => a | None => SPRINT_LANE_STEP_IDS end in
  steps.(gs_advance) ∈ allowed ∧ steps.(gs_loopback) ∈ allowed ∧ AWAITING_VERIFY_STEP ∈ allowed.
Proof.
  intros Hc. unfold gate_steps_of. destruct inner as [inner|]; simpl;
    [|split_and!; apply (bool_decide_eq_true_1 _); reflexivity].
  destruct (List.find _ inner) as [v|] eqn:Hv; simpl;
    [|split_and!; apply (bool_decide_eq_true_1 _); reflexivity].
  apply List.find_some in Hv as [Hv _]. apply list_elem_of_In in Hv.
  split_and!; rewrite elem_of_app.
  - left. by apply list_elem_of_fmap_2.
  - left. destruct (is_loopback v) as [x|] eqn:Hl; [by eapply Hc|].
    destruct (existsb _ inner) eqn:He.
    + apply existsb_exists in He as (s & Hs & <-%String.eqb_eq). apply list_elem_of_In in Hs.
      by apply list_elem_of_fmap_2.
    + destruct inner as [|i l]; [by apply elem_of_nil in Hv|]. left.
  - right. left.
Qed.

(** The union of the chains of an accepted definition is closed. *)
Lemma elem_of_foldl_union (l acc : list inner_step) i :
  i ∈ is_id <$> foldl (λ union inner, if bool_decide (inner.(is_id) ∈ (is_id <$> union)) then union
                                      else union ++ [inner]) acc l
  ↔ i ∈ is_id <$> acc ∨ i ∈ is_id <$> l.
Proof.
  revert acc. induction l as [|x l IH]; intros acc; cbn [foldl]; [rewrite elem_of_nil; tauto|].
  rewrite IH. case_bool_decide as Hx; rewrite fmap_cons, elem_of_cons; [naive_solver|].
  rewrite fmap_app, elem_of_app. simpl. rewrite list_elem_of_singleton. tauto.
Qed.

Lemma foldl_union_subset (l acc : list inner_step) s :
  s ∈ foldl (λ union inner, if bool_decide (inner.(is_id) ∈ (is_id <$> union)) then union
                            else union ++ [inner]) acc l → s ∈ acc ∨ s ∈ l.
Proof.
  revert acc. induction l as [|x l IH]; intros acc; simpl; [tauto|]. intros [H|H]%IH.
  - case_bool_decide; [by left|]. apply elem_of_app in H as [?|Hx]; [by left|apply list_elem_of_singleton in Hx as ->].
    right. left.
  - right. by right.
Qed.

Lemma union_inner_closed def :
  valid_definition def = true → chain_closed (union_inner def).
Proof.
  intros Hv%bool_decide_eq_true s x Hs Hx.
  unfold schema_issues in Hv.
  destruct (check _ _ ++ _) as [|i issues] eqn:Hshape; [|done]. clear Hshape.
  unfold definition_refine in Hv. apply app_nil in Hv as [_ Hv].
  unfold union_inner in *. apply foldl_union_subset in Hs as [Hs|Hs]; [by apply elem_of_nil in Hs|].
  apply elem_of_foldl_union. right.
  apply list_elem_of_In, in_flat_map in Hs as (ph & Hph & Hs).
  apply in_flat_map in Hs as (st & Hst & Hs).
  destruct (ws_fanOut st) as [f|] eqn:Hf; [|done].
  assert (phase_refine ph = []) as Hpr.
  { destruct (phase_refine ph) as [|i l] eqn:E; [done|].
    assert (In i (flat_map phase_refine (wd_phases def))) as Hin.
    { apply in_flat_map. exists ph. split; [done|]. rewrite E. by left. }
    by rewrite Hv in Hin. }
  unfold phase_refine in Hpr. apply app_nil in Hpr as [_ Hpr]. apply app_nil in Hpr as [Hpr _].
  assert (fan_out_refine st = []) as Hfr.
  { destruct (fan_out_refine st) as [|i l] eqn:E; [done|].
    assert (In i (flat_map fan_out_refine (ph_steps ph))) as Hin.
    { apply in_flat_map. exists st. split; [done|]. rewrite E. by left. }
    by rewrite Hpr in Hin. }
  unfold fan_out_refine in Hfr. rewrite Hf in Hfr. apply app_nil in Hfr as [_ Hfr].
  apply fmap_nil_inv in Hfr. unfold unresolved in Hfr.
  assert (x ∈ is_id <$> fo_inner f) as (y & -> & Hy)%list_elem_of_fmap.
  { destruct (decide (x ∈ is_id <$> fo_inner f)) as [|Hn]; [done|]. exfalso.
    assert (x ∈ omap (λ t, match t with
                           | Some l => if bool_decide (l ∈ is_id <$> fo_inner f) then None else Some l
                           | None => None
                           end) (is_loopback <$> fo_inner f)) as Hin.
    { apply list_elem_of_omap. exists (Some x). split; [|by rewrite bool_decide_eq_false_2].
      rewrite <- Hx. apply list_elem_of_fmap_2. by apply list_elem_of_In. }
    rewrite Hfr in Hin. by apply elem_of_nil in Hin. }
  apply list_elem_of_fmap_2, list_elem_of_In, in_flat_map. exists ph. split; [done|].
  apply in_flat_map. exists st. split; [done|]. rewrite Hf. by apply list_elem_of_In.
Qed.
End GateFacts.

(** ** The outcome of a verdict *)

Definition superseded (requestAttempt : option Z) (attempts : Z) : bool :=
  match requestAttempt with Some a => (a <? attempts)%Z | None => false end.

(** The row a verdict leaves: [None] leaves it as it was. *)
Definition gate_outcome (steps : gate_steps) (status : request_status) (requestAttempt : option Z)
    (l : lane_row) : option (lane_status * option string * Z) :=
  if lane_settled l.(ln_status) || superseded requestAttempt l.(ln_attempts) then None
  else match status with
       | rq_queued | rq_leased | rq_running => None
       | rq_failed =>
           if (l.(ln_attempts) <? 3)%Z
           then Some (l_running, Some steps.(gs_loopback), Z.max l.(ln_attempts) 1 + 1)%Z
           else Some (l_failed, Some AWAITING_VERIFY_STEP, l.(ln_attempts))
       | _ => Some (l_integrated, Some steps.(gs_advance), l.(ln_attempts))
       end.

Definition progress (l : lane_row) : lane_status * option string * Z :=
  (l.(ln_status), l.(ln_step), l.(ln_attempts)).

Section GateTheorems.
Context (JSON_parse : string → option json_value).
Context (resolveDef : string → option string → option workflow_definition).

Lemma small_attempt_roundtrip n : (2 <= n <= 3)%Z → to_Z (num_of_Z n) = Some n ∧ isInteger (num_of_Z n) = true
  ∧ nltb (num_of_Z n) (num_of_Z 1) = false.
Proof. intros H. assert (n = 2 ∨ n = 3)%Z as [-> | ->] by lia; split_and!; vm_compute; reflexivity. Qed.

(** The patch of an action, applied to the row it was decided for. *)
Lemma gate_patch_effect steps status requestAttempt l now p :
  (0 <= l.(ln_attempts))%Z →
  lane_settled l.(ln_status) = false → superseded requestAttempt l.(ln_attempts) = false →
  gate_patch steps (decideMergeGate status l.(ln_attempts)) = Some p →
  gate_outcome steps status requestAttempt l = Some (progress (apply_patch p now l)).
Proof.
  intros Ha Hs Hsup. unfold gate_outcome. rewrite Hs, Hsup. simpl. unfold decideMergeGate, MERGE_GATE_ATTEMPT_CAP.
  destruct status; simpl; try (intros [= <-]; reflexivity); try done.
  destruct (Z.leb_spec 3 (ln_attempts l)) as [H3|H3]; simpl; intros [= <-].
  - destruct (Z.ltb_spec (ln_attempts l) 3); [lia|done].
  - destruct (Z.ltb_spec (ln_attempts l) 3); [|lia]. unfold progress, apply_patch. simpl.
    destruct (small_attempt_roundtrip (Z.max (ln_attempts l) 1 + 1)) as (-> & _); [lia|done].
Qed.

Lemma patch_ok_attempt allowed step a :
  step ∈ allowed → isInteger a = true → nltb a (num_of_Z 1) = false →
  patch_ok allowed (mk_patch (Some "running") (Some (Some step)) (Some a)) = true.
Proof. intros H1 H2 H3. unfold patch_ok. cbn [pt_status pt_step pt_attempt]. by rewrite bool_decide_eq_true_2, H2, H3. Qed.

Lemma gate_patch_ok steps status att p :
  let allowed := match steps.(gs_allowed) with Some a => a | None => SPRINT_LANE_STEP_IDS end in
  (0 <= att)%Z → steps.(gs_advance) ∈ allowed → steps.(gs_loopback) ∈ allowed → AWAITING_VERIFY_STEP ∈ allowed →
  gate_patch steps (decideMergeGate status att) = Some p → patch_ok allowed p = true.
Proof.
  intros allowed Hatt Ha Hl Hw. unfold decideMergeGate, MERGE_GATE_ATTEMPT_CAP.
  assert (∀ st, st ∈ allowed → bool_decide (st ∈ allowed) = true) as Hin by (intros; by apply bool_decide_eq_true_2).
  destruct status; cbn [gate_patch]; intros Hp; simplify_eq;
    try (unfold patch_ok; simpl; by rewrite Hin).
  destruct (Z.leb_spec 3 att); cbn [gate_patch] in Hp; simplify_eq.
  - unfold patch_ok. simpl. by rewrite Hin.
  - destruct (small_attempt_roundtrip (Z.max att 1 + 1)) as (_ & ? & ?); [lia|]. by apply patch_ok_attempt.
Qed.

(** The effect of a delivery on the database. *)
Lemma apply_gate_run runId status taskRef requestAttempt now s b l :
  lanes_wf s.(ls_db) →
  nonempty_opt (find_run s.(ls_db) runId ≫= lr_batch) = Some b →
  gate_row s.(ls_db) b taskRef = Some l →
  (∀ i, resolveRunFanOutInner resolveDef s.(ls_db) runId = Some i → chain_closed i) →
  let steps := resolveMergeGateStepIds resolveDef s.(ls_db) runId in
  ∃ r s', applyMergeGateVerdict JSON_parse resolveDef true runId status taskRef requestAttempt now s = (Ok r, s')
    ∧ match gate_outcome steps status requestAttempt l with
      | None => s' = s ∧ isMergeGateBlocking r = false ∧ r ≠ advance_integrated
      | Some out => ∃ p, s'.(ls_db) = patched l p now s.(ls_db) ∧ progress (apply_patch p now l) = out
          ∧ gate_patch steps r = Some p
          ∧ (∃ al, patch_ok al p = true)
          ∧ r = decideMergeGate status l.(ln_attempts)
      end.
Proof.
  intros Hwf Hb Hrow Hcl steps. unfold applyMergeGateVerdict. simpl. unfold mbind at 1, gets.
  rewrite resolve_gate_row, Hb. simpl. rewrite Hrow. simpl.
  pose proof (gate_row_in _ _ _ _ Hrow) as [Hl Hlb].
  pose proof (wf_attempts _ Hwf l Hl) as Hatt.
  unfold gate_outcome. destruct (lane_settled (ln_status l)) eqn:Hset; [by eexists _, _|]. simpl.
  fold (superseded requestAttempt (ln_attempts l)).
  destruct (superseded requestAttempt (ln_attempts l)) eqn:Hsup; [by eexists _, _|]. simpl.
  fold steps.
  destruct (gate_steps_ok _ Hcl) as (H1 & H2 & H3). fold (resolveMergeGateStepIds resolveDef (ls_db s) runId) in H1, H2, H3.
  fold steps in H1, H2, H3.
  destruct (gate_patch steps (decideMergeGate status (ln_attempts l))) as [p|] eqn:Hp.
  - pose proof (gate_patch_effect steps status requestAttempt l now p Hatt Hset Hsup Hp) as He.
    unfold gate_outcome in He. rewrite Hset, Hsup in He. simpl in He. rewrite He.
    pose proof (gate_patch_ok steps status _ p Hatt H1 H2 H3 Hp) as Hok.
    pose proof (find_lane_row _ l Hwf Hl) as Hf. rewrite Hlb in Hf.
    unfold catch, mbind. rewrite (updateLane_run JSON_parse runId b _ l) by done. simpl.
    eexists _, _. split; [done|]. exists p. split_and!; eauto.
  - exists (decideMergeGate status (ln_attempts l)), s. split; [done|].
    unfold decideMergeGate in *. destruct status; simpl in *; try done; by case_match.
Qed.
End GateTheorems.

(** ** Claims *)

Section GateClaims.
Context (JSON_parse : string → option json_value).
Context (resolveDef : string → option string → option workflow_definition).

(** The verdict of a run has a lane to go to, and the run's chain is one the
    definition validator accepts. *)
Definition attributed (d : lane_db) (runId : string) (taskRef : option string) (b : string) (l : lane_row) : Prop :=
  nonempty_opt (find_run d runId ≫= lr_batch) = Some b
  ∧ gate_row d b taskRef = Some l
  ∧ (∀ i, resolveRunFanOutInner resolveDef d runId = Some i → chain_closed i).

Lemma attributed_patched d runId taskRef b l p now :
  attributed d runId taskRef b l →
  attributed (patched l p now d) runId taskRef b (apply_patch p now l).
Proof.
  intros (Hb & Hr & Hc). split_and!; [done| |done].
  unfold patched. rewrite gate_row_patched, Hr. simpl. by rewrite Nat.eqb_refl.
Qed.

(** The verdict of a visual check of an attributed lane does what the decision says:
    passed, low-confidence, skipped and timed-out checks integrate the lane, a failed one
    sends it back to the implement step with the next attempt while fewer than three were
    made and fails it after, and a non-terminal status, a settled lane or a verdict of an
    older attempt changes nothing; no other lane changes and nothing is thrown. *)
Theorem verdict_drives_lane runId status taskRef requestAttempt now s b l :
  lanes_wf s.(ls_db) → attributed s.(ls_db) runId taskRef b l →
  let steps := resolveMergeGateStepIds resolveDef s.(ls_db) runId in
  ∃ r s', applyMergeGateVerdict JSON_parse resolveDef true runId status taskRef requestAttempt now s = (Ok r, s')
    ∧ match gate_outcome steps status requestAttempt l with
      | None => s' = s
      | Some out =>
          r = decideMergeGate status l.(ln_attempts)
          ∧ (∃ l', find_lane s'.(ls_db) b l.(ln_task) = Some l' ∧ progress l' = out)
          ∧ ∀ b2 t2, (b2, t2) ≠ (b, l.(ln_task)) →
              find_lane s'.(ls_db) b2 t2 = find_lane s.(ls_db) b2 t2
      end.
Proof.
  intros Hwf (Hb & Hrow & Hc) steps.
  destruct (apply_gate_run JSON_parse resolveDef runId status taskRef requestAttempt now s b l Hwf Hb Hrow Hc)
    as (r & s' & Hrun & H). exists r, s'. split; [done|]. fold steps in H.
  destruct (gate_outcome steps status requestAttempt l) as [out|]; [|tauto].
  destruct H as (p & Hd & Hp & _ & _ & Hr). split; [done|].
  pose proof (gate_row_in _ _ _ _ Hrow) as [Hl Hlb].
  pose proof (find_lane_row _ l Hwf Hl) as Hf. rewrite Hlb in Hf. rewrite Hd. split.
  - exists (apply_patch p now l). split; [by apply find_patched|done].
  - intros b2 t2 Hne. by apply (find_patched_ne _ b (ln_task l)).
Qed.

(** Delivering the same verdict twice is delivering it once: after a verdict of the
    lane's current attempt or an older one was applied, a second delivery changes nothing
    and does not report a block. *)
Theorem verdict_replay_noop runId status taskRef a now now' s b l :
  lanes_wf s.(ls_db) → attributed s.(ls_db) runId taskRef b l →
  (a <= Z.max l.(ln_attempts) 1)%Z →
  let deliver now := applyMergeGateVerdict JSON_parse resolveDef true runId status taskRef (Some a) now in
  let s1 := exec (deliver now) s in
  exec (deliver now') s1 = s1 ∧ ∃ r, eval (deliver now') s1 = Ok r ∧ isMergeGateBlocking r = false.
Proof.
  intros Hwf Hat Ha deliver s1. pose proof Hat as (Hb & Hrow & Hc).
  destruct (apply_gate_run JSON_parse resolveDef runId status taskRef (Some a) now s b l Hwf Hb Hrow Hc)
    as (r & s' & Hrun & H). set (steps := resolveMergeGateStepIds resolveDef (ls_db s) runId) in H.
  assert (s1 = s') as Hs1 by (unfold s1, exec, deliver; by rewrite Hrun).
  clearbody s1. subst s1.
  assert (∃ l1, lanes_wf s'.(ls_db) ∧ attributed s'.(ls_db) runId taskRef b l1
    ∧ gate_outcome (resolveMergeGateStepIds resolveDef (ls_db s') runId) status (Some a) l1 = None)
    as (l1 & Hwf1 & (Hb1 & Hrow1 & Hc1) & Hnone).
  { destruct (gate_outcome steps status (Some a) l) as [out|] eqn:Ho.
    2:{ destruct H as [-> _]. by exists l. }
    destruct H as (p & Hd & Hp & _ & (al & Hok) & _). exists (apply_patch p now l). rewrite Hd.
    split_and!; [by apply (patch_wf _ _ al)|by apply attributed_patched|].
    unfold progress in Hp. unfold gate_outcome in Ho |- *.
    destruct (_ || _) eqn:Hss in Ho; [done|]. apply orb_false_iff in Hss as [Hset Hsup].
    assert (lane_settled (ln_status (apply_patch p now l)) || superseded (Some a) (ln_attempts (apply_patch p now l)) = true)
      as ->; [|done].
    destruct status; try done;
      try (assert (ln_status (apply_patch p now l) = l_integrated) as -> by congruence; done).
    destruct (Z.ltb_spec (ln_attempts l) 3).
    - assert (ln_attempts (apply_patch p now l) = Z.max (ln_attempts l) 1 + 1)%Z as -> by congruence.
      apply orb_true_iff. right. apply Z.ltb_lt. lia.
    - by assert (ln_status (apply_patch p now l) = l_failed) as -> by congruence. }
  destruct (apply_gate_run JSON_parse resolveDef runId status taskRef (Some a) now' s' b l1 Hwf1 Hb1 Hrow1 Hc1)
    as (r1 & s2 & Hrun1 & H1). rewrite Hnone in H1. destruct H1 as (-> & Hbl & _).
  unfold exec, eval, deliver. rewrite Hrun1. split; [done|]. by exists r1.
Qed.

(** A verdict as it is delivered: its status, the attempt its request was made
    for and the time. *)
Record delivery := mk_delivery {
  dl_status : request_status;
  dl_attempt : option Z;
  dl_now : instant
}.

Definition deliver (runId : string) (taskRef : option string) (v : delivery) : lane_store → lane_store :=
  exec (applyMergeGateVerdict JSON_parse resolveDef true runId v.(dl_status) taskRef v.(dl_attempt) v.(dl_now)).

Definition deliver_all (runId : string) (taskRef : option string) (vs : list delivery) (s : lane_store) : lane_store :=
  foldl (λ s v, deliver runId taskRef v s) s vs.

(** A terminal verdict whose request is of the attempt the lane is at, or of no
    older one. *)
Definition live_verdict (v : delivery) (attempts : Z) : bool :=
  bool_decide (v.(dl_status) ∈ TERMINAL_REQUEST_STATUSES) && negb (superseded v.(dl_attempt) attempts).

(** How many of the verdicts are live when they are delivered. *)
Fixpoint live_count (runId : string) (taskRef : option string) (vs : list delivery) (s : lane_store) : nat :=
  match vs with
  | [] => 0
  | v :: vs =>
      (match resolveLaneAttempts JSON_parse true s.(ls_db) runId taskRef with
       | Some attempts => if live_verdict v attempts then 1 else 0
       | None => 0
       end + live_count runId taskRef vs (deliver runId taskRef v s))%nat
  end.

(** How many FAIL verdicts a lane at this attempt still takes. *)
Definition fails_left (attempts : Z) : nat := Z.to_nat (4 - Z.min 3 (Z.max attempts 1)).

Lemma attributed_attempts d runId taskRef b l :
  attributed d runId taskRef b l → resolveLaneAttempts JSON_parse true d runId taskRef = Some l.(ln_attempts).
Proof. intros (Hb & Hr & _). unfold resolveLaneAttempts. simpl. by rewrite resolve_gate_row, Hb; simpl; rewrite Hr. Qed.

(** A verdict that is not live, or comes to a settled lane, changes nothing. *)
Lemma deliver_quiet runId taskRef v s b l :
  lanes_wf s.(ls_db) → attributed s.(ls_db) runId taskRef b l →
  lane_settled l.(ln_status) = true ∨ live_verdict v l.(ln_attempts) = false →
  deliver runId taskRef v s = s.
Proof.
  intros Hwf (Hb & Hrow & Hc) Hq. unfold deliver, exec. destruct v as [st a now]. cbn [dl_status dl_attempt dl_now].
  destruct (apply_gate_run JSON_parse resolveDef runId st taskRef a now s b l Hwf Hb Hrow Hc) as (r & s' & -> & H).
  assert (gate_outcome (resolveMergeGateStepIds resolveDef (ls_db s) runId) st a l = None) as Hn; [|by rewrite Hn in H; destruct H].
  unfold gate_outcome. destruct Hq as [->|Hl]; [done|]. unfold live_verdict in Hl. cbn [dl_status dl_attempt] in Hl.
  destruct (superseded a (ln_attempts l)); [by rewrite orb_true_r|]. rewrite andb_true_r in Hl. rewrite orb_false_r.
  destruct (lane_settled (ln_status l)); [done|]. apply bool_decide_eq_false in Hl.
  destruct st; try done; exfalso; apply Hl; by apply (bool_decide_eq_true_1 _).
Qed.

Lemma deliver_settled runId taskRef vs s b l :
  lanes_wf s.(ls_db) → attributed s.(ls_db) runId taskRef b l → lane_settled l.(ln_status) = true →
  deliver_all runId taskRef vs s = s.
Proof.
  intros Hwf Hat Hset. induction vs as [|v vs IH]; [done|]. unfold deliver_all. cbn [foldl].
  rewrite (deliver_quiet runId taskRef v s b l) by (try done; by left). exact IH.
Qed.

(** A live verdict either settles the lane or sends it back one attempt further. *)
Lemma deliver_live runId taskRef v s b l :
  lanes_wf s.(ls_db) → attributed s.(ls_db) runId taskRef b l →
  lane_settled l.(ln_status) = false → live_verdict v l.(ln_attempts) = true →
  ∃ l', lanes_wf (deliver runId taskRef v s).(ls_db)
    ∧ attributed (deliver runId taskRef v s).(ls_db) runId taskRef b l' ∧ l'.(ln_task) = l.(ln_task)
    ∧ (v.(dl_status) = rq_failed ∧ (l.(ln_attempts) < 3)%Z ∧ l'.(ln_status) = l_running
         ∧ l'.(ln_attempts) = (Z.max l.(ln_attempts) 1 + 1)%Z
       ∨ v.(dl_status) = rq_failed ∧ (3 <= l.(ln_attempts))%Z ∧ l'.(ln_status) = l_failed
         ∧ l'.(ln_attempts) = l.(ln_attempts)
       ∨ v.(dl_status) ≠ rq_failed ∧ l'.(ln_status) = l_integrated ∧ l'.(ln_attempts) = l.(ln_attempts)).
Proof.
  intros Hwf Hat Hset Hlive. pose proof Hat as (Hb & Hrow & Hc). destruct v as [st a now].
  unfold live_verdict in Hlive. cbn [dl_status dl_attempt] in *. apply andb_true_iff in Hlive as [Hst%bool_decide_eq_true Hsup%negb_true_iff].
  destruct (apply_gate_run JSON_parse resolveDef runId st taskRef a now s b l Hwf Hb Hrow Hc) as (r & s' & Hrun & H).
  assert (deliver runId taskRef (mk_delivery st a now) s = s') as -> by (unfold deliver, exec; cbn [dl_status dl_attempt dl_now]; by rewrite Hrun).
  unfold gate_outcome in H. rewrite Hset, Hsup in H. cbn [orb] in H.
  assert (∀ p out, s'.(ls_db) = patched l p now s.(ls_db) → progress (apply_patch p now l) = out → (∃ al, patch_ok al p = true) →
    ∃ l', lanes_wf s'.(ls_db) ∧ attributed s'.(ls_db) runId taskRef b l' ∧ l'.(ln_task) = l.(ln_task) ∧ progress l' = out) as Hnext.
  { intros p out Hd Hp [al Hok]. exists (apply_patch p now l). rewrite Hd. split_and!; [by apply (patch_wf _ _ al)|by apply attributed_patched|done|done]. }
  assert (∃ l' out, (lanes_wf s'.(ls_db) ∧ attributed s'.(ls_db) runId taskRef b l' ∧ l'.(ln_task) = l.(ln_task) ∧ progress l' = out)
    ∧ if decide (st = rq_failed) then
        if (l.(ln_attempts) <? 3)%Z then ∃ step, out = (l_running, step, Z.max l.(ln_attempts) 1 + 1)%Z
        else ∃ step, out = (l_failed, step, l.(ln_attempts))
      else ∃ step, out = (l_integrated, step, l.(ln_attempts))) as (l' & out & (Hwf' & Hat' & Ht' & Hp') & Hout).
  { destruct st; try (destruct (Z.ltb_spec (ln_attempts l) 3)); cbn [decide] in *;
      first [ destruct H as (p & Hd & Hp & _ & Hok & _); destruct (Hnext p _ Hd Hp Hok) as (l' & Hl'); by do 2 eexists; split; [exact Hl'|eexists]
            | exfalso; revert Hst; unfold TERMINAL_REQUEST_STATUSES; rewrite !elem_of_cons, elem_of_nil; intuition discriminate ]. }
  exists l'. split_and!; [done..|]. unfold progress in Hp'. case_decide as Hf.
  - destruct (Z.ltb_spec (ln_attempts l) 3); destruct Hout as [step ->]; injection Hp' as ? ? ?; [left|right; left]; by split_and!.
  - destruct Hout as [step ->]. injection Hp' as ? ? ?. right. right. by split_and!.
Qed.

(** C31: The loop of implementing and checking a lane ends: whatever verdicts are delivered,
    each with the attempt its request was made for or none, a lane that is not settled is,
    after as many live ones (terminal, and of an attempt not below the one the lane is at
    when it is delivered) as it has attempts left under the cap, failed, with its attempt
    count not raised past three, or integrated, and integrated only by a terminal verdict
    that did not fail, however many stale and non-terminal ones come in between. *)
Theorem merge_gate_settles runId taskRef vs s b l :
  lanes_wf s.(ls_db) → attributed s.(ls_db) runId taskRef b l → lane_settled l.(ln_status) = false →
  fails_left l.(ln_attempts) <= live_count runId taskRef vs s →
  ∃ l', find_lane (deliver_all runId taskRef vs s).(ls_db) b l.(ln_task) = Some l'
    ∧ (l'.(ln_status) = l_failed ∧ (l'.(ln_attempts) <= Z.max 3 l.(ln_attempts))%Z
       ∨ l'.(ln_status) = l_integrated
         ∧ ∃ v, v ∈ vs ∧ v.(dl_status) ∈ TERMINAL_REQUEST_STATUSES ∧ v.(dl_status) ≠ rq_failed).
Proof.
  revert s l. induction vs as [|v vs IH]; intros s l Hwf Hat Hset Hlen.
  { exfalso. unfold fails_left in Hlen. simpl in Hlen. lia. }
  cbn [live_count] in Hlen. rewrite (attributed_attempts _ _ _ _ _ Hat) in Hlen.
  change (deliver_all runId taskRef (v :: vs) s) with (deliver_all runId taskRef vs (deliver runId taskRef v s)).
  destruct (live_verdict v (ln_attempts l)) eqn:Hlive.
  2: { rewrite (deliver_quiet runId taskRef v s b l) in * by (try done; by right).
       destruct (IH s l Hwf Hat Hset Hlen) as (l' & Hf & [?|(? & w & ? & ?)]); exists l'; (split; [done|]); [by left|].
       right. split; [done|]. exists w. split; [by right|done]. }
  destruct (deliver_live runId taskRef v s b l Hwf Hat Hset Hlive) as (l1 & Hwf1 & Hat1 & Ht1 & Hcase).
  set (s1 := deliver runId taskRef v s) in *. rewrite <- Ht1.
  assert (lane_settled (ln_status l1) = true →
    find_lane (ls_db (deliver_all runId taskRef vs s1)) b (ln_task l1) = Some l1) as Hdone.
  { intros Hs. rewrite (deliver_settled runId taskRef vs s1 b l1 Hwf1 Hat1 Hs).
    destruct Hat1 as (_ & [Hin <-]%gate_row_in & _). by apply find_lane_row. }
  destruct Hcase as [(Hst & H3 & Hs1 & Ha1)|[(Hst & H3 & Hs1 & Ha1)|(Hst & Hs1 & Ha1)]].
  - destruct (IH s1 l1 Hwf1 Hat1) as (l' & Hf & Hc); [by rewrite Hs1| |].
    { rewrite Ha1. unfold fails_left in *. lia. }
    exists l'. split; [done|]. destruct Hc as [[? ?]|(? & w & ? & ?)]; [left; split; [done|lia]|right; split; [done|]].
    exists w. split; [by right|done].
  - exists l1. split; [apply Hdone; by rewrite Hs1|]. left. split; [done|lia].
  - exists l1. split; [apply Hdone; by rewrite Hs1|]. right. split; [done|]. exists v. split_and!; [left| |done].
    unfold live_verdict in Hlive. apply andb_true_iff in Hlive as [Hterm _]. by apply bool_decide_eq_true in Hterm.
Qed.
End GateClaims.

(** ** Witnesses: the second lane of the sample sprint fails its check *)

Lemma sample_attributed :
  ∃ l, attributed sample_defs seeded_sample.(ls_db) "run-1" (Some "TASK-2") "batch-1" l
    ∧ l.(ln_task) = "t2" ∧ l.(ln_attempts) = 0%Z ∧ lane_settled l.(ln_status) = false.
Proof.
  exists (mk_lane 2 "batch-1" "t2" l_queued None 0 None 7000%Z).
  split; [|by vm_compute]. split_and!; [vm_compute; reflexivity..|].
  intros i H. vm_compute in H. done.
Qed.

Lemma verdict_drives_lane_witness :
  ∃ r s', applyMergeGateVerdict sample_json sample_defs true "run-1" rq_failed (Some "TASK-2") (Some 1%Z)
            8000%Z seeded_sample = (Ok r, s') ∧ r = loopback_implement 2.
Proof.
  destruct sample_attributed as (l & Hat & Ht & Ha & Hs).
  destruct (verdict_drives_lane sample_json sample_defs "run-1" rq_failed (Some "TASK-2") (Some 1%Z) 8000%Z
              seeded_sample "batch-1" l seeded_sample_wf Hat) as (r & s' & Hrun & H).
  exists r, s'. split; [done|]. revert H. unfold gate_outcome. rewrite Hs, Ha. simpl.
  intros (-> & _). reflexivity.
Defined.

Lemma verdict_replay_noop_witness :
  let deliver now := applyMergeGateVerdict sample_json sample_defs true "run-1" rq_failed (Some "TASK-2")
                       (Some 1%Z) now in
  let s1 := exec (deliver 8000%Z) seeded_sample in
  exec (deliver 9000%Z) s1 = s1 ∧ s1 ≠ seeded_sample.
Proof.
  destruct sample_attributed as (l & Hat & Ht & Ha & Hs).
  assert (1 <= Z.max l.(ln_attempts) 1)%Z as Hle by lia.
  destruct (verdict_replay_noop sample_json sample_defs "run-1" rq_failed (Some "TASK-2") 1 8000%Z 9000%Z
              seeded_sample "batch-1" l seeded_sample_wf Hat Hle) as [H _].
  split; [exact H|by vm_compute].
Defined.

(** The attempts of the requests are those of the lane when they were made, none
    yet counting as the first; the second delivery of the first request is stale. *)
Lemma merge_gate_settles_witness :
  let vs := [mk_delivery rq_failed (Some 1%Z) 8000%Z; mk_delivery rq_failed (Some 1%Z) 8001%Z;
             mk_delivery rq_failed (Some 2%Z) 8002%Z; mk_delivery rq_failed (Some 3%Z) 8003%Z] in
  live_count sample_json sample_defs "run-1" (Some "TASK-2") vs seeded_sample = 3 ∧
  ∃ l', find_lane (deliver_all sample_json sample_defs "run-1" (Some "TASK-2") vs seeded_sample).(ls_db)
          "batch-1" "t2" = Some l' ∧ l'.(ln_status) = l_failed ∧ l'.(ln_attempts) = 3%Z.
Proof.
  intros vs. destruct sample_attributed as (l & Hat & Ht & Ha & Hs). split; [vm_compute; reflexivity|].
  destruct (merge_gate_settles sample_json sample_defs "run-1" (Some "TASK-2") vs seeded_sample "batch-1" l
              seeded_sample_wf Hat Hs) as (l' & Hf & _).
  - rewrite Ha. apply Nat.leb_le. vm_compute. reflexivity.
  - exists l'. rewrite Ht in Hf. split; [done|]. vm_compute in Hf. by injection Hf as <-.
Defined.
