(* ===== verification/RunRedrive.v ===== *)
(** * Retry, rewind and lane rewind

    Models [orchestrator/retryRunHandler.ts], [rewindRunHandler.ts] and
    [laneRewindHandler.ts], with [orchestrator/stepResultStore.ts], over the
    tables of [LaneTables] and the lane store of [SprintLanes].

    A handler reads first, outside the run's queue, then enqueues a task; what
    the rest of the process does before the task runs (the aborted walk's
    teardown included) is the argument [between].  The optional collaborators
    are flags; those that act on other tables (pending gates, approvals,
    questions) and the executor's entry points are entries of the log.  The
    columns [error_message], [ended_at] and [outcome] are not modelled. *)

From Stdlib Require Import SpecFloat Ascii.
From S2P Require Import Prelude RunStateMachine Database JsString Regex JsNumber WorkflowDef Wp LaneTables SprintLanes SprintLaneSpec.

Open Scope js_scope.

(** ** Step results *)

Inductive step_outcome := so_done | so_skipped | so_failed | so_rejected | so_canceled.
#[export] Instance step_outcome_eq_dec : EqDecision step_outcome.
Proof. solve_decision. Defined.

Record step_result := mk_result { sr_run : string; sr_step : string; sr_outcome : step_outcome }.

Inductive ctl_effect :=
  | CStatusChanged (runId : string) (s : run_status)
  | CResumeStep (runId stepId : string)
  | CCompletedSteps (runId : string) (ids : list string)
  | CExecute (runId : string)
  | CCancelWalk (runId : string)
  | CStopLiveRun (runId : string)
  | CClearGates (runId : string)
  | CClearApprovals (runId : string)
  | CClearQuestions (runId : string)
  | CLaneRewind (runId taskId stepId : string)
  | CAbortSpawn (spawnKey : string).

Record ctl := mk_ctl {
  ct_store : lane_store;
  ct_results : list step_result;
  (* the runs [execute] holds *)
  ct_live : list string;
  ct_log : list ctl_effect
}.

Definition ct_db (s : ctl) : lane_db := s.(ct_store).(ls_db).

Inductive ctl_error := CLane (e : lane_error) | CRace.
Notation ctlM A := (M ctl_error ctl A).

Definition with_store (st : lane_store) (s : ctl) : ctl :=
  mk_ctl st s.(ct_results) s.(ct_live) s.(ct_log).
Definition with_results (l : list step_result) (s : ctl) : ctl :=
  mk_ctl s.(ct_store) l s.(ct_live) s.(ct_log).
Definition log_ctl (e : ctl_effect) : ctlM unit :=
  modify (λ s, mk_ctl s.(ct_store) s.(ct_results) s.(ct_live) (s.(ct_log) ++ [e])).

Definition in_lanes {A} (m : laneM A) : ctlM A := λ s,
  match m s.(ct_store) with
  | (Ok a, st) => (Ok a, with_store st s)
  | (Throw e, st) => (Throw (CLane e), with_store st s)
  end.

(** [db.transaction]: a throw undoes the tables; events already emitted stay. *)
Definition db_transaction {A} (m : ctlM A) : ctlM A := λ s,
  match m s with
  | (Ok a, s') => (Ok a, s')
  | (Throw e, s') =>
      (Throw e, with_results s.(ct_results)
        (with_store (mk_store (ct_db s) s'.(ct_store).(ls_cache) s'.(ct_store).(ls_log)) s'))
  end.

Definition listForRun (runId : string) (s : ctl) : list step_result :=
  filter (λ r, r.(sr_run) = runId) s.(ct_results).

(** [INSERT OR REPLACE]: the row of the step moves to the end. *)
Definition record_result (runId stepId : string) (o : step_outcome) (l : list step_result) : list step_result :=
  filter (λ r, ¬ (r.(sr_run) = runId ∧ r.(sr_step) = stepId)) l ++ [mk_result runId stepId o].

Definition deleteForSteps (runId : string) (ids : list string) (l : list step_result) : list step_result :=
  filter (λ r, ¬ (r.(sr_run) = runId ∧ r.(sr_step) ∈ ids)) l.

Definition completedStepIds (runId : string) (s : ctl) : list string :=
  sr_step <$> filter (λ r, r.(sr_outcome) = so_done ∨ r.(sr_outcome) = so_skipped) (listForRun runId s).

(** The ids of the run's 'done' rows. *)
Definition done_ids (runId : string) (s : ctl) : list string :=
  sr_step <$> filter (λ r, r.(sr_outcome) = so_done) (listForRun runId s).

(** [UPDATE workflow_runs SET ... WHERE id = ? AND p] *)
Definition update_lane_run (runId : string) (p : lane_run → bool) (f : lane_run → lane_run) : ctlM nat :=
  s <- get ;;
  let hit r := String.eqb r.(lr_id) runId && p r in
  modify (λ s, with_store (update_db (λ d, set_lane_runs ((λ r, if hit r then f r else r) <$> d.(ld_runs)) d)
                             s.(ct_store)) s) ;;;
  mret (length (filter (λ r, hit r = true) (ct_db s).(ld_runs))).

Definition restart_run (step : option string) (now : instant) (r : lane_run) : lane_run :=
  mk_lane_run r.(lr_id) starting r.(lr_project) r.(lr_task) r.(lr_batch) r.(lr_model) r.(lr_workflow)
    r.(lr_spec_hash) (match step with Some st => Some st | None => r.(lr_current_step) end)
    (current_timestamp now).

Definition status_among (l : list run_status) (r : lane_run) : bool := bool_decide (r.(lr_status) ∈ l).

Section Redrive.
Context (JSON_parse : string → option json_value).
Context (resolveDef : string → option string → option workflow_definition).

Definition frozen_definition (d : lane_db) (runId : string) : option workflow_definition :=
  '(name, spec) ← resolveRunFrozenSpec d runId; resolveDef name spec.

Definition flat_entries (def : option workflow_definition) : list (workflow_step * string) :=
  match def with
  | Some def => flat_map (λ ph, (λ st, (st, ph.(ph_id))) <$> ph.(ph_steps)) def.(wd_phases)
  | None => []
  end.
Definition flat_steps (def : option workflow_definition) : list workflow_step := fst <$> flat_entries def.

Fixpoint step_index (id : string) (l : list workflow_step) : option nat :=
  match l with
  | [] => None
  | s :: l' => if String.eqb s.(ws_id) id then Some 0 else S <$> step_index id l'
  end.

Definition is_programmatic_run (r : lane_run) : bool := bool_decide (r.(lr_model) = Some "programmatic").
Definition has_live (runId : string) (s : ctl) : bool := bool_decide (runId ∈ s.(ct_live)).

(** ** Retry *)

Inductive retry_refusal :=
  | rt_not_found | rt_not_programmatic | rt_not_retryable | rt_no_target_step | rt_unknown_step | rt_race.

(** The guards of the pre-flight, which are also the first ones in the queue. *)
Definition retry_refused (runId : string) (s : ctl) : retry_refusal + lane_run :=
  match find_run (ct_db s) runId with
  | None => inl rt_not_found
  | Some row =>
      if negb (is_programmatic_run row) then inl rt_not_programmatic
      else if bool_decide (row.(lr_status) = failed)
              || (bool_decide (row.(lr_status) = awaiting_review) && negb (has_live runId s))
      then inr row
      else inl rt_not_retryable
  end.

(** The explicit step, else the last failed result, else the current step. *)
Definition retry_target (runId : string) (stepId : option string) (row : lane_run) (s : ctl) : option string :=
  match stepId with
  | Some st => Some st
  | None =>
      match last (filter (λ r, r.(sr_outcome) = so_failed) (listForRun runId s)) with
      | Some r => Some r.(sr_step)
      | None => row.(lr_current_step)
      end
  end.

Definition retry_guard (reopen reset : bool) (runId : string) (stepId : option string)
    (preflightUpdatedAt now : instant) : ctlM (retry_refusal + string) :=
  s <- get ;;
  match retry_refused runId s with
  | inl reason => mret (inl reason)
  | inr row =>
      match retry_target runId stepId row s with
      | None => mret (inl rt_no_target_step)
      | Some target =>
          let allSteps := flat_steps (frozen_definition (ct_db s) runId) in
          match List.find (λ st, String.eqb st.(ws_id) target) allSteps with
          | None => mret (inl rt_unknown_step)
          | Some targetStep =>
              changes <- update_lane_run runId
                (λ r, status_among [failed; awaiting_review] r
                      && (r.(lr_updated_at) =? preflightUpdatedAt)%Z)
                (restart_run None now) ;;
              if Nat.eqb changes 0 then mret (inl rt_race)
              else
                match nonempty_opt row.(lr_batch) with
                | Some batchId =>
                    (when reopen do (in_lanes (reopenBatch batchId now) ;;; mret tt)) ;;;
                    (when (reset && is_some targetStep.(ws_fanOut)) do
                       (in_lanes (resetFailedLanes JSON_parse batchId now) ;;; mret tt))
                | None => mret tt
                end ;;;
                mret (inr target)
          end
      end
  end.

Definition retryRunHandler (reopen reset : bool) (runId : string) (stepId : option string)
    (between : ctl → ctl) (now : instant) : ctlM (retry_refusal + string) :=
  s <- get ;;
  match retry_refused runId s with
  | inl reason => mret (inl reason)
  | inr preflightRow =>
      modify between ;;;
      guard <- retry_guard reopen reset runId stepId preflightRow.(lr_updated_at) now ;;
      match guard with
      | inl reason => mret (inl reason)
      | inr target =>
          log_ctl (CStatusChanged runId starting) ;;;
          log_ctl (CResumeStep runId target) ;;;
          s <- get ;;
          let completed := filter (λ id, id ≠ target) (js_unique (done_ids runId s)) in
          (when (negb (Nat.eqb (length completed) 0)) do log_ctl (CCompletedSteps runId completed)) ;;;
          log_ctl (CExecute runId) ;;;
          mret (inr target)
      end
  end.

(** ** Rewind *)

Inductive rewind_refusal :=
  | rw_not_found | rw_not_programmatic | rw_not_rewindable | rw_unknown_step | rw_target_not_prior
  | rw_fanout_settled | rw_race.

Record rewind_result := mk_rewind {
  rr_step : string;
  rr_abortedLiveWalk : bool;
  rr_fanOutKeptSettled : bool
}.

(** Which optional collaborators are wired. *)
Record RewindRunDeps := mk_rewind_deps {
  rd_stopLiveRun : bool;
  rd_recordStepResult : bool;
  rd_resetFailedLanes : bool;
  rd_countRedispatchableLanes : bool;
  rd_reopenBatch : bool;
  rd_clearPendingGateItems : bool;
  rd_clearPendingApprovals : bool;
  rd_clearPendingQuestions : bool
}.

Definition REWINDABLE_STATUSES : list run_status := [running; awaiting_review; failed; paused].

Definition rewind_refused (runId : string) (s : ctl) : rewind_refusal + lane_run :=
  match find_run (ct_db s) runId with
  | None => inl rw_not_found
  | Some row =>
      if negb (is_programmatic_run row) then inl rw_not_programmatic
      else if negb (status_among REWINDABLE_STATUSES row) then inl rw_not_rewindable
      else inr row
  end.

(** The target is a step of the definition, at or before the current one. *)
Definition rewind_target (flat : list workflow_step) (stepId : string) (row : lane_run)
    : rewind_refusal + nat :=
  match step_index stepId flat with
  | None => inl rw_unknown_step
  | Some targetIdx =>
      match nonempty_opt row.(lr_current_step) ≫= λ c, step_index c flat with
      | Some currentIdx => if Nat.ltb currentIdx targetIdx then inl rw_target_not_prior else inr targetIdx
      | None => inr targetIdx
      end
  end.

(** The lanes a re-entered fan-out step would dispatch after a reset. *)
Definition countRedispatchableLanes (d : lane_db) (batchId : string) : nat :=
  length (filter (λ l, l.(lv_status) ≠ l_integrated) (listLanes JSON_parse d batchId)).

Record rewind_plan := mk_plan {
  pl_purge : list string;
  pl_kept : list string;
  pl_reset : bool
}.

(** What to purge, what to keep settled, whether to requeue the failed lanes. *)
Definition plan_rewind (deps : RewindRunDeps) (flat : list workflow_step) (tIdx : nat) (row : lane_run)
    (d : lane_db) : rewind_refusal + rewind_plan :=
  let purgeSlice := drop tIdx flat in
  let purgeIds := ws_id <$> purgeSlice in
  let fanOuts := filter (λ st, is_some st.(ws_fanOut) = true) purgeSlice in
  match nonempty_opt row.(lr_batch), fanOuts with
  | Some batchId, _ :: _ =>
      if deps.(rd_countRedispatchableLanes) && Nat.eqb (countRedispatchableLanes d batchId) 0 then
        if match flat !! tIdx with Some st => is_some st.(ws_fanOut) | None => false end
        then inl rw_fanout_settled
        else
          let kept := ws_id <$> fanOuts in
          inr (mk_plan (filter (λ id, id ∉ kept) purgeIds) kept false)
      else inr (mk_plan purgeIds [] deps.(rd_resetFailedLanes))
  | _, _ => inr (mk_plan purgeIds [] false)
  end.

Definition apply_rewind (deps : RewindRunDeps) (runId stepId : string) (row : lane_run)
    (plan : rewind_plan) (markers : list string) (now : instant) : ctlM unit :=
  db_transaction (
    match nonempty_opt row.(lr_batch) with
    | Some batchId =>
        (when plan.(pl_reset) do (in_lanes (resetFailedLanes JSON_parse batchId now) ;;; mret tt)) ;;;
        (when deps.(rd_reopenBatch) do (in_lanes (reopenBatch batchId now) ;;; mret tt))
    | None => mret tt
    end ;;;
    (when deps.(rd_recordStepResult) do
       modify (λ s, with_results (foldl (λ l id, record_result runId id so_done l) s.(ct_results) markers) s)) ;;;
    modify (λ s, with_results (deleteForSteps runId plan.(pl_purge) s.(ct_results)) s) ;;;
    changes <- update_lane_run runId (status_among REWINDABLE_STATUSES) (restart_run (Some stepId) now) ;;
    if Nat.eqb changes 0 then throw CRace else mret tt).

Definition rewind_guard (deps : RewindRunDeps) (runId stepId : string) (now : instant)
    : ctlM (rewind_refusal + rewind_plan) :=
  s <- get ;;
  match rewind_refused runId s with
  | inl reason => mret (inl reason)
  | inr row =>
      let flatEntries := flat_entries (frozen_definition (ct_db s) runId) in
      let flatSteps := fst <$> flatEntries in
      match step_index stepId flatSteps with
      | None => mret (inl rw_unknown_step)
      | Some tIdx =>
          match plan_rewind deps flatSteps tIdx row (ct_db s) with
          | inl reason => mret (inl reason)
          | inr plan =>
              let markers := (λ e, e.1.(ws_id)) <$>
                filter (λ e, e.1.(ws_id) ∈ plan.(pl_kept) ∧ e.1.(ws_id) ∉ done_ids runId s) flatEntries in
              done <- catch (apply_rewind deps runId stepId row plan markers now ;;; mret true)
                        (λ e, match e with CRace => mret false | _ => throw e end) ;;
              if negb done then mret (inl rw_race)
              else
                (when deps.(rd_clearPendingGateItems) do log_ctl (CClearGates runId)) ;;;
                (when deps.(rd_clearPendingApprovals) do log_ctl (CClearApprovals runId)) ;;;
                (when deps.(rd_clearPendingQuestions) do log_ctl (CClearQuestions runId)) ;;;
                mret (inr plan)
          end
      end
  end.

(** The steps the re-driven walk skips. *)
Definition rewind_completed (runId stepId : string) (flat : list workflow_step) (targetIdx : nat)
    (kept : list string) (s : ctl) : list string :=
  filter (λ id,
      (if String.eqb id stepId then false
       else if bool_decide (id ∈ kept) then true
       else match step_index id flat with Some i => Nat.ltb i targetIdx | None => false end) = true)
    (js_unique (done_ids runId s ++ kept)).

Definition rewindRunHandler (deps : RewindRunDeps) (runId stepId : string) (between : ctl → ctl)
    (now : instant) : ctlM (rewind_refusal + rewind_result) :=
  s <- get ;;
  match rewind_refused runId s with
  | inl reason => mret (inl reason)
  | inr preflightRow =>
      let flat := flat_steps (frozen_definition (ct_db s) runId) in
      match rewind_target flat stepId preflightRow with
      | inl reason => mret (inl reason)
      | inr targetIdx =>
          let abortedLiveWalk := has_live runId s in
          (when abortedLiveWalk do
             (log_ctl (CCancelWalk runId) ;;;
              (when deps.(rd_stopLiveRun) do log_ctl (CStopLiveRun runId)))) ;;;
          modify between ;;;
          guard <- rewind_guard deps runId stepId now ;;
          match guard with
          | inl reason => mret (inl reason)
          | inr plan =>
              log_ctl (CStatusChanged runId starting) ;;;
              log_ctl (CResumeStep runId stepId) ;;;
              s <- get ;;
              let completed := rewind_completed runId stepId flat targetIdx plan.(pl_kept) s in
              (when (negb (Nat.eqb (length completed) 0)) do log_ctl (CCompletedSteps runId completed)) ;;;
              log_ctl (CExecute runId) ;;;
              mret (inr (mk_rewind stepId abortedLiveWalk
                           (negb (Nat.eqb (length plan.(pl_kept)) 0))))
          end
      end
  end.

(** ** Lane rewind *)

Inductive lane_rewind_refusal :=
  | lw_not_found | lw_not_programmatic | lw_run_not_running | lw_no_fan_out | lw_unknown_task
  | lw_lane_not_found | lw_lane_not_live (laneStatus : lane_status) | lw_unknown_step | lw_target_not_prior.

Record lane_rewind_result := mk_lane_rewind {
  lr_taskId : string;
  lr_ref : string;
  lr_stepId : string;
  lr_fromStepId : option string;
  lr_abortedSpawn : bool
}.

Fixpoint chain_position (id : string) (inner : list inner_step) : option nat :=
  match inner with
  | [] => None
  | i :: inner' => if String.eqb i.(is_id) id then Some 0 else S <$> chain_position id inner'
  end.

(** Where the lane's pointer sits in the chain; parked lanes sit at the visual check. *)
Definition laneChainIndex (inner : list inner_step) (currentStepId : option string) : option nat :=
  match currentStepId with
  | None => None
  | Some c =>
      if String.eqb c AWAITING_VERIFY_STEP then
        match chain_position SPRINT_VISUAL_VERIFY_STEP inner with
        | Some i => Some i
        | None => match inner with [] => None | _ => Some (length inner - 1) end
        end
      else chain_position c inner
  end.

(** The task the lane rewind names: by id, or by ref within the run's project. *)
Definition lane_rewind_task (d : lane_db) (projectId : Z) (taskRef : string) : option string :=
  resolveTaskId d projectId taskRef.

Definition lane_rewind_check (runId taskRef stepId : string) (d : lane_db)
    : lane_rewind_refusal + (string * lane_row) :=
  match find_run d runId with
  | None => inl lw_not_found
  | Some run =>
      if negb (is_programmatic_run run) then inl lw_not_programmatic
      else if negb (bool_decide (run.(lr_status) = running)) then inl lw_run_not_running
      else match run.(lr_batch) with
      | None => inl lw_no_fan_out
      | Some batchId =>
          match lane_rewind_task d run.(lr_project) taskRef with
          | None => inl lw_unknown_task
          | Some taskId =>
              match find_lane d batchId taskId with
              | None => inl lw_lane_not_found
              | Some lane =>
                  if negb (bool_decide (lane.(ln_status) = l_running))
                  then inl (lw_lane_not_live lane.(ln_status))
                  else match resolveRunFanOutInner resolveDef d runId with
                  | None | Some [] => inl lw_no_fan_out
                  | Some inner =>
                      match chain_position stepId inner with
                      | None => inl lw_unknown_step
                      | Some targetIdx =>
                          match laneChainIndex inner lane.(ln_step) with
                          | Some currentIdx =>
                              if Nat.ltb currentIdx targetIdx then inl lw_target_not_prior
                              else inr (taskId, lane)
                          | None => inr (taskId, lane)
                          end
                      end
                  end
              end
          end
      end
  end.

(** [listLiveSpawnKeys] is absent or lists the live spawn keys; [abort] is
    absent, or tells whether the kill succeeds. *)
Definition laneRewindHandler (runId taskRef stepId : string)
    (listLiveSpawnKeys : option (list string)) (abort : option bool)
    : ctlM (lane_rewind_refusal + lane_rewind_result) :=
  d <- gets ct_db ;;
  match lane_rewind_check runId taskRef stepId d with
  | inl reason => mret (inl reason)
  | inr (taskId, lane) =>
      log_ctl (CLaneRewind runId taskId stepId) ;;;
      let spawnKey := runId +:+ ":" +:+ taskId in
      let is_live := match listLiveSpawnKeys with
                     | Some keys => bool_decide (spawnKey ∈ keys)
                     | None => true
                     end in
      abortedSpawn <-
        match abort with
        | Some ok => if is_live then log_ctl (CAbortSpawn spawnKey) ;;; mret ok else mret false
        | None => mret false
        end ;;
      mret (inr (mk_lane_rewind taskId
        (match d.(ld_tasks) !! taskId ≫= tk_ref with Some r => r | None => taskId end)
        stepId lane.(ln_step) abortedSpawn))
  end.
End Redrive.

(** ** What the lane store leaves alone *)

Definition lane_only (s s' : lane_store) : Prop :=
  s'.(ls_db).(ld_runs) = s.(ls_db).(ld_runs)
  ∧ s'.(ls_db).(ld_workflows) = s.(ls_db).(ld_workflows)
  ∧ s'.(ls_db).(ld_revisions) = s.(ls_db).(ld_revisions)
  ∧ s'.(ls_db).(ld_tasks) = s.(ls_db).(ld_tasks).

#[export] Instance lane_only_preorder : PreOrder lane_only.
Proof.
  split; [by intros s|]. intros s1 s2 s3 (? & ? & ? & ?) (? & ? & ? & ?).
  unfold lane_only. split_and!; congruence.
Qed.

Ltac lane_only_with tac :=
  preserve_with ltac:(first [apply lane_only_preorder | tac]).

Section LaneOnly.
Context (JSON_parse : string → option json_value).

Lemma updateLane_only runId b t p allowed now :
  preserves lane_only (updateLane JSON_parse runId b t p allowed now).
Proof.
  unfold updateLane, update_lane_by_id, emit_lane.
  lane_only_with ltac:(apply preserves_modify; by intros s).
Qed.

Lemma resetFailedLanes_only b now : preserves lane_only (resetFailedLanes JSON_parse b now).
Proof. unfold resetFailedLanes. lane_only_with ltac:(apply updateLane_only). Qed.

Lemma update_batch_only id p f : preserves lane_only (update_batch id p f).
Proof.
  unfold update_batch. apply preserves_gets_bind. intros s.
  destruct (sql_update_id _ _ _ _) as [n t]. by simpl.
Qed.

Lemma reopenBatch_only b now : preserves lane_only (reopenBatch b now).
Proof. unfold reopenBatch. lane_only_with ltac:(apply update_batch_only). Qed.

Lemma catch_zero_total {A} (m : laneM A) (a : A) : total (catch m (λ _, mret a)).
Proof. apply total_catch. intros e. apply total_ret. Qed.

(** A reset or a reopen inside a handler: it returns, and moves lanes and batches only. *)
Lemma in_lanes_quiet {A} (m : laneM A) s :
  total m → preserves lane_only m →
  ∃ a st, in_lanes m s = (Ok a, with_store st s) ∧ lane_only s.(ct_store) st.
Proof.
  intros Ht Hp. unfold in_lanes. destruct (Ht s.(ct_store)) as (a & st & Hm).
  specialize (Hp s.(ct_store)). rewrite Hm in *. eauto.
Qed.

Lemma reset_quiet b now s :
  ∃ n st, in_lanes (resetFailedLanes JSON_parse b now) s = (Ok n, with_store st s)
    ∧ lane_only s.(ct_store) st.
Proof. apply in_lanes_quiet; [apply catch_zero_total|apply resetFailedLanes_only]. Qed.

Lemma reopen_quiet b now s :
  ∃ n st, in_lanes (reopenBatch b now) s = (Ok n, with_store st s) ∧ lane_only s.(ct_store) st.
Proof. apply in_lanes_quiet; [apply catch_zero_total|apply reopenBatch_only]. Qed.
End LaneOnly.

(** ** The guarded revive *)

Definition restarted (runId : string) (p : lane_run → bool) (step : option string) (now : instant)
    (runs : list lane_run) : list lane_run :=
  (λ r, if String.eqb r.(lr_id) runId && p r then restart_run step now r else r) <$> runs.

Lemma find_run_Some d runId r : find_run d runId = Some r → r ∈ d.(ld_runs) ∧ r.(lr_id) = runId.
Proof.
  intros H. apply List.find_some in H as [H ?%String.eqb_eq]. by apply list_elem_of_In in H.
Qed.

Lemma find_run_restarted d d' runId p step now r :
  d'.(ld_runs) = restarted runId p step now d.(ld_runs) →
  find_run d runId = Some r → p r = true →
  find_run d' runId = Some (restart_run step now r).
Proof.
  intros Hd. unfold find_run. rewrite Hd. clear Hd. unfold restarted. induction (ld_runs d) as [|x l IH]; [done|]. simpl.
  destruct (String.eqb (lr_id x) runId) eqn:He; simpl.
  - intros [= ->] Hp. rewrite Hp. simpl. by rewrite He.
  - rewrite He. apply IH.
Qed.

Lemma update_lane_run_run runId p f s :
  ∃ n st, update_lane_run runId p f s = (Ok n, with_store st s)
    ∧ ls_db st = set_lane_runs ((λ r, if String.eqb r.(lr_id) runId && p r then f r else r)
                   <$> (ct_db s).(ld_runs)) (ct_db s)
    ∧ (n = 0 → ∀ r, r ∈ (ct_db s).(ld_runs) → String.eqb r.(lr_id) runId && p r = false)
    ∧ (n ≠ 0 → ∃ r, r ∈ (ct_db s).(ld_runs) ∧ r.(lr_id) = runId ∧ p r = true).
Proof.
  unfold update_lane_run, mbind, get, modify, mret. eexists _, _. split; [done|]. split; [done|].
  set (hits := filter _ _). assert (∀ x, x ∈ hits ↔ String.eqb (lr_id x) runId && p x = true ∧ x ∈ (ct_db s).(ld_runs)) as Hin
    by (intros x; unfold hits; by rewrite list_elem_of_filter). split.
  - intros H0%length_zero_iff_nil r Hr. destruct (_ && _) eqn:Hp; [|done].
    assert (r ∈ hits) as Hx by (by apply Hin). rewrite H0 in Hx. by apply elem_of_nil in Hx.
  - intros Hn. destruct hits as [|x l]; [done|]. destruct (proj1 (Hin x)) as [Hx Hr]; [left|].
    apply andb_true_iff in Hx as [Hid%String.eqb_eq Hpx]. by exists x.
Qed.

(** ** The crash-atomic part of a rewind *)

Section RewindFacts.
Context (JSON_parse : string → option json_value).
Context (resolveDef : string → option string → option workflow_definition).

Lemma find_run_lane_only s st runId :
  lane_only s.(ct_store) st → find_run (ls_db st) runId = find_run (ct_db s) runId.
Proof. intros (Hr & _). unfold find_run. by rewrite Hr. Qed.

(** The lane and batch writes of a handler. *)
Definition quiet (m : ctlM nat) : Prop :=
  ∀ s, ∃ n st, m s = (Ok n, with_store st s) ∧ lane_only s.(ct_store) st.

Lemma batch_writes_quiet (f1 f2 : bool) (m1 m2 : string → ctlM nat) batch s :
  (∀ b, quiet (m1 b)) → (∀ b, quiet (m2 b)) →
  ∃ st, (match nonempty_opt batch with
         | Some b => mbind (when f1 do mbind (m1 b) (λ _, mret tt))
                       (λ _, when f2 do mbind (m2 b) (λ _, mret tt))
         | None => mret tt
         end) s = (Ok tt, with_store st s) ∧ lane_only s.(ct_store) st.
Proof.
  intros Hm1 Hm2.
  assert (∀ s : ctl, ∃ st, (mret tt : ctlM unit) s = (Ok tt, with_store st s) ∧ lane_only s.(ct_store) st) as Hret.
  { intros s0. exists s0.(ct_store). split; [by destruct s0|reflexivity]. }
  destruct (nonempty_opt batch) as [b|]; [|apply Hret].
  assert (∀ (flag : bool) (m : ctlM nat) s, quiet m →
    ∃ st, (when flag do mbind m (λ _, mret tt)) s = (Ok tt, with_store st s) ∧ lane_only s.(ct_store) st) as Hwhen.
  { intros flag m s0 Hm. destruct flag; [|apply Hret].
    destruct (Hm s0) as (n & st & Hn & Hq). exists st. split; [|done]. unfold mbind. by rewrite Hn. }
  destruct (Hwhen f1 (m1 b) s (Hm1 b)) as (st1 & H1 & Hq1).
  destruct (Hwhen f2 (m2 b) (with_store st1 s) (Hm2 b)) as (st2 & H2 & Hq2).
  exists st2. split; [|by etrans]. unfold mbind at 1. by rewrite H1, H2.
Qed.

Definition purged_results (deps : RewindRunDeps) (runId : string) (plan : rewind_plan)
    (markers : list string) (l : list step_result) : list step_result :=
  deleteForSteps runId plan.(pl_purge)
    (if deps.(rd_recordStepResult) then foldl (λ l id, record_result runId id so_done l) l markers else l).

Lemma apply_rewind_run deps runId stepId row plan markers now s :
  find_run (ct_db s) runId = Some row → status_among REWINDABLE_STATUSES row = true →
  ∃ st, apply_rewind JSON_parse deps runId stepId row plan markers now s
      = (Ok tt, with_store st (with_results (purged_results deps runId plan markers s.(ct_results)) s))
    ∧ find_run (ls_db st) runId = Some (restart_run (Some stepId) now row)
    ∧ (ls_db st).(ld_workflows) = (ct_db s).(ld_workflows)
    ∧ (ls_db st).(ld_revisions) = (ct_db s).(ld_revisions).
Proof.
  intros Hrow Hst. unfold apply_rewind, db_transaction.
  destruct (batch_writes_quiet plan.(pl_reset) deps.(rd_reopenBatch)
    (λ b, in_lanes (resetFailedLanes JSON_parse b now)) (λ b, in_lanes (reopenBatch b now)) row.(lr_batch) s)
    as (st1 & H1 & Hq1); [intros b s0; apply reset_quiet|intros b s0; apply reopen_quiet|].
  unfold mbind at 1. rewrite H1. clear H1. cbv beta iota.
  set (s1 := with_store st1 s).
  set (res1 := if deps.(rd_recordStepResult) then foldl (λ l id, record_result runId id so_done l) s.(ct_results) markers
               else s.(ct_results)).
  unfold mbind at 1.
  match goal with |- context [(if rd_recordStepResult deps then ?m else ?n) s1] =>
    assert ((if rd_recordStepResult deps then m else n) s1 = (Ok tt, with_results res1 s1)) as ->
  end.
  { unfold res1. destruct (rd_recordStepResult deps); [done|]. by destruct s. }
  cbv beta iota. unfold mbind at 1, modify. cbv beta iota.
  set (s2 := with_results _ (with_results res1 s1)).
  destruct (update_lane_run_run runId (status_among REWINDABLE_STATUSES) (restart_run (Some stepId) now) s2)
    as (n & st & Hu & Hdb & Hzero & _).
  assert (find_run (ct_db s2) runId = Some row) as Hrow2.
  { unfold s2, s1, ct_db. simpl. by rewrite (find_run_lane_only s st1). }
  unfold mbind at 1. rewrite Hu. destruct (Nat.eqb_spec n 0) as [->|_].
  { pose proof Hrow2 as [Hin Hid]%find_run_Some. specialize (Hzero eq_refl row Hin).
    by rewrite Hid, String.eqb_refl, Hst in Hzero. }
  exists st. split; [done|]. split.
  - apply (find_run_restarted (ct_db s2) _ runId (status_among REWINDABLE_STATUSES)); [by rewrite Hdb|done|done].
  - rewrite Hdb. simpl. destruct Hq1 as (_ & ? & ? & _). done.
Qed.

Definition clear_log (deps : RewindRunDeps) (runId : string) : list ctl_effect :=
  (if deps.(rd_clearPendingGateItems) then [CClearGates runId] else [])
  ++ (if deps.(rd_clearPendingApprovals) then [CClearApprovals runId] else [])
  ++ (if deps.(rd_clearPendingQuestions) then [CClearQuestions runId] else []).

(** The queue task of a rewind: refused without a write, or the plan applied. *)
Lemma rewind_guard_run deps runId stepId now s :
  ∃ g s', rewind_guard JSON_parse resolveDef deps runId stepId now s = (Ok g, s')
    ∧ match g with
      | inl reason => s' = s ∧ reason ≠ rw_race
      | inr plan => ∃ row tIdx markers st,
          rewind_refused runId s = inr row
          ∧ step_index stepId (flat_steps (frozen_definition resolveDef (ct_db s) runId)) = Some tIdx
          ∧ plan_rewind JSON_parse deps (flat_steps (frozen_definition resolveDef (ct_db s) runId)) tIdx row (ct_db s)
            = inr plan
          ∧ (∀ m, m ∈ markers → m ∈ plan.(pl_kept))
          ∧ (∀ x, x ∈ plan.(pl_kept) → x ∈ ws_id <$> flat_steps (frozen_definition resolveDef (ct_db s) runId) →
               x ∈ markers ∨ x ∈ done_ids runId s)
          ∧ s' = mk_ctl st (purged_results deps runId plan markers s.(ct_results)) s.(ct_live) (s.(ct_log) ++ clear_log deps runId)
          ∧ find_run (ls_db st) runId = Some (restart_run (Some stepId) now row)
      end.
Proof.
  unfold rewind_guard, mbind at 1, get.
  destruct (rewind_refused runId s) as [reason|row] eqn:Href.
  { eexists _, _. split; [done|]. split; [done|]. intros ->. revert Href. unfold rewind_refused.
    repeat case_match; naive_solver. }
  assert (find_run (ct_db s) runId = Some row ∧ status_among REWINDABLE_STATUSES row = true) as [Hrow Hst].
  { revert Href. unfold rewind_refused. destruct (find_run (ct_db s) runId) as [r|]; [|done].
    destruct (is_programmatic_run r); [|done]. destruct (status_among _ r) eqn:E; [|done]. by intros [= <-]. }
  cbv zeta. fold (flat_steps (frozen_definition resolveDef (ct_db s) runId)).
  destruct (step_index stepId _) as [tIdx|] eqn:Hidx; [|by eexists _, _].
  destruct (plan_rewind _ _ _ _ _ _) as [reason|plan] eqn:Hplan.
  { eexists _, _. split; [done|]. split; [done|]. intros ->. revert Hplan. unfold plan_rewind.
    repeat case_match; naive_solver. }
  set (markers := _ <$> filter _ _).
  destruct (apply_rewind_run deps runId stepId row plan markers now s Hrow Hst) as (st & Hap & Hfind & _).
  unfold mbind at 1, catch, mbind at 1. rewrite Hap. cbn [negb].
  set (s1 := with_store st _).
  assert (∀ (flag : bool) e (s : ctl), (when flag do log_ctl e) s =
    (Ok tt, mk_ctl s.(ct_store) s.(ct_results) s.(ct_live) (s.(ct_log) ++ (if flag then [e] else [])))) as Hwhen.
  { intros [] e s0; [done|]. simpl. rewrite app_nil_r. by destruct s0. }
  unfold mret at 1. cbv beta iota. unfold mbind. cbn [negb]. cbv beta iota. rewrite !Hwhen.
  eexists _, _. split; [done|].
  exists row, tIdx, markers, st. split_and!; try done.
  - unfold markers. intros m ((e & o) & -> & [[? ?] _]%list_elem_of_filter)%list_elem_of_fmap. done.
  - intros x Hk (st0 & -> & (e & -> & He)%list_elem_of_fmap)%list_elem_of_fmap.
    destruct (decide (ws_id e.1 ∈ done_ids runId s)); [by right|left]. unfold markers.
    apply list_elem_of_fmap. exists e. split; [done|]. by apply list_elem_of_filter.
  - unfold s1. simpl. by rewrite <- !app_assoc.
Qed.
End RewindFacts.

(** ** The tables after a purge *)

Lemma elem_of_record runId id o l e :
  e ∈ record_result runId id o l ↔
  e = mk_result runId id o ∨ (e ∈ l ∧ ¬ (e.(sr_run) = runId ∧ e.(sr_step) = id)).
Proof.
  unfold record_result. rewrite elem_of_app, list_elem_of_filter, list_elem_of_singleton. tauto.
Qed.

Lemma elem_of_records runId markers l e :
  (e ∈ foldl (λ l id, record_result runId id so_done l) l markers → e ∈ l ∨ (e.(sr_run) = runId ∧ e.(sr_step) ∈ markers))
  ∧ (e ∈ l → ¬ (e.(sr_run) = runId ∧ e.(sr_step) ∈ markers) →
     e ∈ foldl (λ l id, record_result runId id so_done l) l markers).
Proof.
  revert l. induction markers as [|m ms IH]; intros l; simpl; [tauto|].
  destruct (IH (record_result runId m so_done l)) as [H1 H2]. split.
  - intros [H|[? ?]]%H1; [|right; split; [done|by right]].
    apply elem_of_record in H as [->|[? _]]; [right; split; [done|left]|by left].
  - intros Hin Hno. apply H2.
    + apply elem_of_record. right. split; [done|]. intros [? ?]. apply Hno. split; [done|]. subst. left.
    + intros [? ?]. apply Hno. split; [done|by right].
Qed.

Lemma recorded_marker runId markers l m :
  m ∈ markers → mk_result runId m so_done ∈ foldl (λ l id, record_result runId id so_done l) l markers.
Proof.
  revert l. induction markers as [|n ms IH]; intros l; [by intros ?%elem_of_nil|].
  destruct (decide (m ∈ ms)) as [Hm|Hm]; [intros _; by apply IH|]. intros [->|?]%elem_of_cons; [|done]. cbn [foldl].
  apply elem_of_records; [apply elem_of_record; by left|by intros [_ ?]].
Qed.

Lemma elem_of_purged deps runId plan markers l e :
  (e ∈ purged_results deps runId plan markers l →
   ¬ (e.(sr_run) = runId ∧ e.(sr_step) ∈ plan.(pl_purge))
   ∧ (e ∈ l ∨ (e.(sr_run) = runId ∧ e.(sr_step) ∈ markers)))
  ∧ (e ∈ l → ¬ (e.(sr_run) = runId ∧ e.(sr_step) ∈ plan.(pl_purge)) →
     ¬ (e.(sr_run) = runId ∧ e.(sr_step) ∈ markers) → e ∈ purged_results deps runId plan markers l).
Proof.
  unfold purged_results, deleteForSteps. rewrite list_elem_of_filter.
  destruct (rd_recordStepResult deps); [|tauto].
  destruct (elem_of_records runId markers l e) as [H1 H2]. tauto.
Qed.

Section RewindClaims.
Context (JSON_parse : string → option json_value).
Context (resolveDef : string → option string → option workflow_definition).

Lemma plan_rewind_facts deps flat tIdx row d plan :
  plan_rewind JSON_parse deps flat tIdx row d = inr plan →
  (∀ x, x ∈ ws_id <$> drop tIdx flat ↔ x ∈ plan.(pl_purge) ∨ x ∈ plan.(pl_kept))
  ∧ (∀ x, x ∈ plan.(pl_purge) → x ∉ plan.(pl_kept))
  ∧ (plan.(pl_kept) = [] ∨
     ((∃ b, row.(lr_batch) = Some b ∧ countRedispatchableLanes JSON_parse d b = 0)
      ∧ plan.(pl_kept) = ws_id <$> filter (λ st, is_some st.(ws_fanOut) = true) (drop tIdx flat))
     ∧ ∀ st, flat !! tIdx = Some st → st.(ws_fanOut) = None).
Proof.
  unfold plan_rewind. set (slice := drop tIdx flat).
  assert (∀ r, (inr (mk_plan (ws_id <$> slice) [] r) : rewind_refusal + rewind_plan) = inr plan →
    (∀ x, x ∈ ws_id <$> slice ↔ x ∈ plan.(pl_purge) ∨ x ∈ plan.(pl_kept))
    ∧ (∀ x, x ∈ plan.(pl_purge) → x ∉ plan.(pl_kept)) ∧ plan.(pl_kept) = []) as Hplain.
  { intros r Hr. simplify_eq/=. split_and!; [|intros x _; apply not_elem_of_nil|done].
    intros x. rewrite elem_of_nil. tauto. }
  destruct (nonempty_opt (lr_batch row)) as [b|] eqn:Hb; [|by intros (? & ? & ?)%Hplain; eauto].
  destruct (filter _ slice) as [|f fs] eqn:Hf; [by intros (? & ? & ?)%Hplain; eauto|].
  destruct (_ && _) eqn:Hcnt; [|by intros (? & ? & ?)%Hplain; eauto].
  apply andb_true_iff in Hcnt as [_ Hcnt%Nat.eqb_eq].
  destruct (match flat !! tIdx with Some st => is_some (ws_fanOut st) | None => false end) eqn:Hfan; [done|].
  intros Hr. simplify_eq/=. split_and!.
  - intros x. rewrite list_elem_of_filter. split.
    + intros Hx. destruct (decide (x ∈ ws_id <$> f :: fs)); [by right|by left].
    + intros [[_ ?]|Hx]; [done|]. change (x ∈ ws_id <$> f :: fs) in Hx. apply list_elem_of_fmap in Hx as (y & -> & Hy).
      apply list_elem_of_fmap_2. rewrite <- Hf in Hy. by apply list_elem_of_filter in Hy as [_ ?].
  - by intros x [? _]%list_elem_of_filter.
  - right. split; [split; [|done]|].
    + exists b. split; [|done]. destruct (lr_batch row) as [b'|]; simpl in Hb; [|done].
      by destruct (String.eqb b' ""); simplify_eq.
    + intros st Hst. rewrite Hst in Hfan. by destruct (ws_fanOut st).
Qed.

Definition after_abort (deps : RewindRunDeps) (runId : string) (s : ctl) : ctl :=
  if has_live runId s then
    mk_ctl s.(ct_store) s.(ct_results) s.(ct_live)
      (s.(ct_log) ++ CCancelWalk runId :: (if deps.(rd_stopLiveRun) then [CStopLiveRun runId] else []))
  else s.

(** What the handler does after its pre-flight. *)
Lemma rewind_handler_run deps runId stepId between now s :
  rewindRunHandler JSON_parse resolveDef deps runId stepId between now s =
  match rewind_refused runId s with
  | inl reason => (Ok (inl reason), s)
  | inr preflightRow =>
      let flat := flat_steps (frozen_definition resolveDef (ct_db s) runId) in
      match rewind_target flat stepId preflightRow with
      | inl reason => (Ok (inl reason), s)
      | inr targetIdx =>
          let s1 := between (after_abort deps runId s) in
          match rewind_guard JSON_parse resolveDef deps runId stepId now s1 with
          | (Throw e, s2) => (Throw e, s2)
          | (Ok (inl reason), s2) => (Ok (inl reason), s2)
          | (Ok (inr plan), s2) =>
              let completed := rewind_completed runId stepId flat targetIdx plan.(pl_kept) s2 in
              (Ok (inr (mk_rewind stepId (has_live runId s) (negb (Nat.eqb (length plan.(pl_kept)) 0)))),
               mk_ctl s2.(ct_store) s2.(ct_results) s2.(ct_live)
                 (s2.(ct_log) ++ [CStatusChanged runId starting; CResumeStep runId stepId]
                    ++ (if Nat.eqb (length completed) 0 then [] else [CCompletedSteps runId completed])
                    ++ [CExecute runId]))
          end
      end
  end.
Proof.
  unfold rewindRunHandler. unfold mbind at 1, get. destruct (rewind_refused runId s) as [reason|row]; [done|].
  cbv zeta. destruct (rewind_target _ stepId row) as [reason|targetIdx]; [done|].
  assert (∀ (A : Type) (k : unit → ctlM A),
    mbind (when (has_live runId s) do
             (mbind (log_ctl (CCancelWalk runId)) (λ _,
               when deps.(rd_stopLiveRun) do log_ctl (CStopLiveRun runId)))) k s
    = k tt (after_abort deps runId s)) as Hab.
  { intros A k. unfold after_abort, mbind, log_ctl, modify. destruct (has_live runId s); [|by unfold mret].
    destruct (rd_stopLiveRun deps); simpl; [by rewrite <- app_assoc|done]. }
  rewrite Hab. unfold mbind at 1, modify. cbv beta iota.
  set (s1 := between (after_abort deps runId s)).
  unfold mbind at 1. destruct (rewind_guard _ _ _ _ _ _ s1) as [[[reason|plan]|e] s2]; [done| |done].
  unfold log_ctl, modify, mbind, get, mret. cbv beta iota zeta. simpl ct_store.
  change (rewind_completed runId stepId (flat_steps (frozen_definition resolveDef (ct_db s) runId)) targetIdx
    (pl_kept plan) (mk_ctl (ct_store s2) (ct_results s2) (ct_live s2)
       ((ct_log s2 ++ [CStatusChanged runId starting]) ++ [CResumeStep runId stepId]))) with
    (rewind_completed runId stepId (flat_steps (frozen_definition resolveDef (ct_db s) runId)) targetIdx
       (pl_kept plan) s2).
  destruct (Nat.eqb _ 0); simpl; by rewrite <- !app_assoc.
Qed.
End RewindClaims.

(** ** Claims *)

Section RedriveClaims.
Context (JSON_parse : string → option json_value).
Context (resolveDef : string → option string → option workflow_definition).

Lemma elem_of_done_ids runId s x :
  x ∈ done_ids runId s ↔ mk_result runId x so_done ∈ s.(ct_results).
Proof.
  unfold done_ids, listForRun. rewrite list_elem_of_fmap. split.
  - intros ([r st o] & -> & [Ho [Hr Hin]%list_elem_of_filter]%list_elem_of_filter). simpl in *. by subst.
  - intros Hin. exists (mk_result runId x so_done). split; [done|]. by rewrite !list_elem_of_filter.
Qed.

Lemma elem_of_rewind_completed runId stepId flat tIdx kept s x :
  x ∈ rewind_completed runId stepId flat tIdx kept s ↔
  x ≠ stepId ∧ (x ∈ kept ∨ (∃ i, step_index x flat = Some i ∧ i < tIdx)
                            ∧ (mk_result runId x so_done ∈ s.(ct_results) ∨ x ∈ kept)).
Proof.
  unfold rewind_completed. rewrite list_elem_of_filter, elem_of_js_unique, elem_of_app, elem_of_done_ids.
  destruct (String.eqb_spec x stepId); [naive_solver|]. case_bool_decide; [naive_solver|].
  destruct (step_index x flat) as [i|]; [rewrite Nat.ltb_lt|]; naive_solver.
Qed.

Lemma rewind_target_facts flat stepId row tIdx :
  rewind_target flat stepId row = inr tIdx →
  step_index stepId flat = Some tIdx
  ∧ ∀ current cIdx, nonempty_opt row.(lr_current_step) = Some current → step_index current flat = Some cIdx → tIdx <= cIdx.
Proof.
  unfold rewind_target. destruct (step_index stepId flat) as [t|]; [|done].
  destruct (nonempty_opt (lr_current_step row)) as [c|]; simpl; [|by intros [= ->]].
  destruct (step_index c flat) as [ci|] eqn:Hc; [destruct (Nat.ltb_spec ci t); [done|]|]; intros [= ->]; split; try done;
    intros ? ? [= <-] Hi; [|congruence]. rewrite Hc in Hi. by injection Hi as <-.
Qed.

Lemma rewind_refused_row runId s row :
  rewind_refused runId s = inr row → find_run (ct_db s) runId = Some row ∧ row.(lr_status) ∈ REWINDABLE_STATUSES.
Proof.
  unfold rewind_refused, status_among. repeat case_match; try done. intros [= <-]. split; [done|]. by bool_hyps.
Qed.

(** A result of another run, or of a step that is neither purged nor marked. *)
Lemma purged_outside deps runId plan markers l e :
  e.(sr_run) ≠ runId ∨ (e.(sr_step) ∉ plan.(pl_purge) ∧ e.(sr_step) ∉ markers) →
  e ∈ purged_results deps runId plan markers l ↔ e ∈ l.
Proof.
  intros Hout. destruct (elem_of_purged deps runId plan markers l e) as [H1 H2]. split.
  - intros [_ [?|[? ?]]]%H1; [done|]. tauto.
  - intros He. apply H2; [done|tauto..].
Qed.

(** A kept step is done after the purge, where its result is recorded. *)
Lemma kept_done deps runId plan markers s x :
  deps.(rd_recordStepResult) = true → x ∉ plan.(pl_purge) → x ∈ markers ∨ x ∈ done_ids runId s →
  mk_result runId x so_done ∈ purged_results deps runId plan markers s.(ct_results).
Proof.
  intros Hrec Hp Hx. unfold purged_results, deleteForSteps. rewrite Hrec, list_elem_of_filter.
  split; [simpl; tauto|]. destruct (decide (x ∈ markers)) as [Hm|Hm]; [by apply recorded_marker|].
  destruct Hx as [?|Hx%elem_of_done_ids]; [done|]. apply elem_of_records; [done|]. by intros [_ ?].
Qed.

(** C34: An accepted rewind restarts the run at a step of its frozen definition that is not
    after the step the run was at in the pre-flight, where that is a step of the definition:
    the step results from the target on are purged, except those kept, which are none, or
    exactly the fan-out steps from there on when every lane of the batch is integrated, and
    are then marked done where results are recorded; no others are touched; the completed
    steps seeded are exactly the kept ones and the done ones before the target, without the
    target; and the teardown, the status change, the resume target and the re-execution are
    announced once, in that order. It is assumed that the frozen definition does not change
    while the walk is aborted. *)
Theorem rewind_delivered deps runId stepId between now s s' r :
  rewindRunHandler JSON_parse resolveDef deps runId stepId between now s = (Ok (inr r), s') →
  let s1 := between (after_abort deps runId s) in
  let flat := flat_steps (frozen_definition resolveDef (ct_db s1) runId) in
  frozen_definition resolveDef (ct_db s1) runId = frozen_definition resolveDef (ct_db s) runId →
  ∃ prow row tIdx kept completed,
    rewind_refused runId s = inr prow
    ∧ (∀ current cIdx, nonempty_opt prow.(lr_current_step) = Some current → step_index current flat = Some cIdx → tIdx <= cIdx)
    ∧ find_run (ct_db s1) runId = Some row ∧ row.(lr_status) ∈ REWINDABLE_STATUSES
    ∧ step_index stepId flat = Some tIdx
    ∧ find_run (ct_db s') runId = Some (restart_run (Some stepId) now row)
    ∧ (kept = [] ∨ kept = ws_id <$> filter (λ st, is_some st.(ws_fanOut) = true) (drop tIdx flat)
         ∧ ∃ b, row.(lr_batch) = Some b ∧ countRedispatchableLanes JSON_parse (ct_db s1) b = 0)
    ∧ (∀ e, e ∈ s'.(ct_results) → e.(sr_run) = runId → e.(sr_step) ∈ ws_id <$> drop tIdx flat →
         e.(sr_step) ∈ kept)
    ∧ (deps.(rd_recordStepResult) = true → ∀ x, x ∈ kept → mk_result runId x so_done ∈ s'.(ct_results))
    ∧ (∀ e, e.(sr_run) ≠ runId ∨ e.(sr_step) ∉ ws_id <$> drop tIdx flat →
         e ∈ s'.(ct_results) ↔ e ∈ s1.(ct_results))
    ∧ (∀ x, x ∈ completed ↔ x ≠ stepId ∧
         (x ∈ kept ∨ (∃ i, step_index x flat = Some i ∧ i < tIdx) ∧ x ∉ ws_id <$> drop tIdx flat
                     ∧ mk_result runId x so_done ∈ s1.(ct_results)))
    ∧ s'.(ct_log) = s1.(ct_log) ++ clear_log deps runId
        ++ [CStatusChanged runId starting; CResumeStep runId stepId]
        ++ (if Nat.eqb (length completed) 0 then [] else [CCompletedSteps runId completed])
        ++ [CExecute runId].
Proof.
  rewrite rewind_handler_run. intros Hrun s1 flat Hfrozen.
  destruct (rewind_refused runId s) as [?|prow] eqn:Hpre; [done|]. cbv zeta in Hrun.
  rewrite <- Hfrozen in Hrun. fold flat s1 in Hrun.
  destruct (rewind_target flat stepId prow) as [?|targetIdx] eqn:Htgt; [done|].
  destruct (rewind_guard_run JSON_parse resolveDef deps runId stepId now s1) as (g & s2 & Hg & H).
  rewrite Hg in Hrun. destruct g as [reason|plan]; [done|]. injection Hrun as _ <-.
  destruct H as (row & tIdx & markers & st & Href & Hidx & Hplan & Hmark & Hmarked & Hs2 & Hfind).
  destruct (plan_rewind_facts JSON_parse resolveDef deps _ _ _ _ _ Hplan) as (Hsl & Hdisj & Hkept).
  fold flat in Hidx, Hsl, Hkept. destruct (rewind_target_facts _ _ _ _ Htgt) as [Hidx' Hprior].
  assert (targetIdx = tIdx) as -> by congruence.
  destruct (rewind_refused_row _ _ _ Href) as [Hrow Hst].
  assert (∀ e, e.(sr_run) ≠ runId ∨ e.(sr_step) ∉ ws_id <$> drop tIdx flat → e ∈ s2.(ct_results) ↔ e ∈ s1.(ct_results)) as Hout.
  { intros e Hout. rewrite Hs2. apply purged_outside. destruct Hout as [?|Hout]; [by left|]. right.
    split; intros Hin; apply Hout, Hsl; [by left|right; by apply Hmark]. }
  assert (∀ e, e ∈ s2.(ct_results) → e.(sr_run) = runId → e.(sr_step) ∈ ws_id <$> drop tIdx flat → e.(sr_step) ∈ plan.(pl_kept)) as Hin.
  { intros e He Hr Hs. rewrite Hs2 in He. apply (elem_of_purged deps runId plan markers) in He as [Hno _].
    apply Hsl in Hs as [?|?]; [|done]. by destruct Hno. }
  exists prow, row, tIdx, plan.(pl_kept), (rewind_completed runId stepId flat tIdx plan.(pl_kept) s2). split_and!; try done.
  - by rewrite Hs2.
  - destruct Hkept as [?|[[? ?] _]]; [by left|by right].
  - intros Hrec x Hx. rewrite Hs2. cbn [ct_results]. apply (kept_done deps runId plan markers s1); [done|by intros ?%Hdisj|].
    apply Hmarked; [done|]. fold flat. assert (x ∈ ws_id <$> drop tIdx flat) as Hd by (apply Hsl; by right).
    rewrite <- (take_drop tIdx flat), fmap_app, elem_of_app. by right.
  - intros x. rewrite elem_of_rewind_completed. apply and_iff_compat_l. split.
    + intros [?|[Hx [Hd|?]]]; [by left| |by left]. destruct (decide (x ∈ pl_kept plan)) as [|Hk]; [by left|]. right.
      assert (x ∉ ws_id <$> drop tIdx flat) as Hdrop by (intros Hs; by apply Hk, (Hin _ Hd)).
      split_and!; [done|done|]. apply Hout; [by right|done].
    + intros [?|(Hx & Hdrop & Hd)]; [by left|right]. split; [done|left]. apply Hout; [by right|done].
  - rewrite Hs2. simpl. by rewrite <- app_assoc.
Qed.

(** A refused rewind writes nothing: the state is the one it was asked in, or, when the
    pre-flight had passed, the one the aborted walk left; it is never refused as a race. *)
Theorem rewind_refused_quiet deps runId stepId between now s s' reason :
  rewindRunHandler JSON_parse resolveDef deps runId stepId between now s = (Ok (inl reason), s') →
  (s' = s ∨ s' = between (after_abort deps runId s)) ∧ reason ≠ rw_race
  ∧ (s' = s ∨ (∃ row, rewind_refused runId s = inr row)).
Proof.
  rewrite rewind_handler_run.
  destruct (rewind_refused runId s) as [r|prow] eqn:Hpre.
  { intros [= <- <-]. split_and!; [by left| |by left]. intros ->. revert Hpre. unfold rewind_refused.
    repeat case_match; naive_solver. }
  cbv zeta. destruct (rewind_target _ stepId prow) as [r|targetIdx] eqn:Htgt.
  { intros [= <- <-]. split_and!; [by left| |by left]. intros ->. revert Htgt. unfold rewind_target.
    repeat case_match; naive_solver. }
  destruct (rewind_guard_run JSON_parse resolveDef deps runId stepId now (between (after_abort deps runId s)))
    as (g & s2 & -> & H).
  destruct g as [r|plan]; [|done]. destruct H as [-> Hr]. intros [= <- <-].
  split_and!; [by right|done|right; by exists prow].
Qed.

(** A retry, from the pre-flight to the re-drive. *)
Lemma retry_guard_run reopen reset runId stepId pre now s :
  ∃ g s', retry_guard JSON_parse resolveDef reopen reset runId stepId pre now s = (Ok g, s')
    ∧ match g with
      | inl reason => ct_db s' = ct_db s ∧ s'.(ct_results) = s.(ct_results) ∧ s'.(ct_log) = s.(ct_log)
      | inr target => ∃ row,
          retry_refused runId s = inr row
          ∧ retry_target runId stepId row s = Some target
          ∧ target ∈ ws_id <$> flat_steps (frozen_definition resolveDef (ct_db s) runId)
          ∧ (∃ r, r ∈ (ct_db s).(ld_runs) ∧ r.(lr_id) = runId ∧ r.(lr_updated_at) = pre
                  ∧ r.(lr_status) ∈ [failed; awaiting_review])
          ∧ (ct_db s').(ld_runs) = restarted runId
               (λ r, status_among [failed; awaiting_review] r && (r.(lr_updated_at) =? pre)%Z) None now (ct_db s).(ld_runs)
          ∧ s'.(ct_results) = s.(ct_results) ∧ s'.(ct_log) = s.(ct_log)
      end.
Proof.
  unfold retry_guard, mbind at 1, get. destruct (retry_refused runId s) as [reason|row] eqn:Href; [by eexists _, _|].
  destruct (retry_target runId stepId row s) as [target|] eqn:Ht; [|by eexists _, _]. cbv zeta.
  destruct (List.find _ _) as [st|] eqn:Hfind; [|by eexists _, _].
  set (p := λ r, status_among [failed; awaiting_review] r && (r.(lr_updated_at) =? pre)%Z).
  destruct (update_lane_run_run runId p (restart_run None now) s) as (n & st1 & Hu & Hdb & Hzero & Hex).
  unfold mbind at 1. rewrite Hu. destruct (Nat.eqb_spec n 0) as [->|Hn].
  - eexists _, _. split; [done|]. split; [|done]. unfold ct_db at 1. simpl. rewrite Hdb.
    replace (_ <$> ld_runs (ct_db s)) with (ld_runs (ct_db s)); [by destruct (ct_db s)|].
    rewrite <- (list_fmap_id (ld_runs (ct_db s))) at 1. apply list_fmap_ext. intros i r Hr.
    destruct (String.eqb (lr_id r) runId && p r) eqn:Hp; [|done]. by rewrite (Hzero eq_refl r) in Hp; [|eapply list_elem_of_lookup_2].
  - destruct (batch_writes_quiet reopen (reset && is_some (ws_fanOut st))
      (λ b, in_lanes (reopenBatch b now)) (λ b, in_lanes (resetFailedLanes JSON_parse b now)) row.(lr_batch)
      (with_store st1 s)) as (st2 & H2 & Hq2); [intros b s0; apply reopen_quiet|intros b s0; apply reset_quiet|].
    unfold mbind at 1. rewrite H2. unfold mret. eexists _, _. split; [done|]. exists row. split_and!; try done.
    + apply List.find_some in Hfind as [Hin <-%String.eqb_eq]. apply list_elem_of_fmap_2. by apply list_elem_of_In.
    + destruct (Hex Hn) as (r & Hr & Hid & Hp). exists r. unfold p, status_among in Hp. bool_hyps.
      apply Z.eqb_eq in H0. done.
    + destruct Hq2 as (Hruns & _). simpl in Hruns |- *. unfold ct_db at 1. simpl. by rewrite Hruns, Hdb.
Qed.
End RedriveClaims.

Section RedriveClaims2.
Context (JSON_parse : string → option json_value).
Context (resolveDef : string → option string → option workflow_definition).

(** retryRunHandler always returns. A refusal writes nothing to the run tables or the
    step results; an accepted retry was still failed or awaiting review and not updated
    since the pre-flight, restarts the run at a step of its frozen definition, keeps all
    step results, seeds exactly the done steps other than the target and announces the
    restart once, in order. *)
Theorem retry_spec reopen reset runId stepId between now s :
  ∃ g s', retryRunHandler JSON_parse resolveDef reopen reset runId stepId between now s = (Ok g, s')
    ∧ let s1 := between s in
      match g with
      | inl reason =>
          s' = s ∨ (ct_db s' = ct_db s1 ∧ s'.(ct_results) = s1.(ct_results) ∧ s'.(ct_log) = s1.(ct_log))
      | inr target => ∃ pre row completed,
          retry_refused runId s = inr pre ∧ retry_refused runId s1 = inr row
          ∧ (∃ r, r ∈ (ct_db s1).(ld_runs) ∧ r.(lr_id) = runId
                  ∧ r.(lr_updated_at) = pre.(lr_updated_at) ∧ r.(lr_status) ∈ [failed; awaiting_review])
          ∧ retry_target runId stepId row s1 = Some target
          ∧ target ∈ ws_id <$> flat_steps (frozen_definition resolveDef (ct_db s1) runId)
          ∧ (ct_db s').(ld_runs) = restarted runId
               (λ r, status_among [failed; awaiting_review] r && (r.(lr_updated_at) =? pre.(lr_updated_at))%Z)
               None now (ct_db s1).(ld_runs)
          ∧ s'.(ct_results) = s1.(ct_results)
          ∧ (∀ x, x ∈ completed ↔ x ≠ target ∧ mk_result runId x so_done ∈ s1.(ct_results))
          ∧ s'.(ct_log) = s1.(ct_log) ++ [CStatusChanged runId starting; CResumeStep runId target]
              ++ (if Nat.eqb (length completed) 0 then [] else [CCompletedSteps runId completed])
              ++ [CExecute runId]
      end.
Proof.
  unfold retryRunHandler, mbind at 1, get. destruct (retry_refused runId s) as [reason|pre] eqn:Hpre.
  { eexists _, _. split; [done|]. by left. }
  unfold mbind at 1, modify. cbv beta iota.
  destruct (retry_guard_run JSON_parse resolveDef reopen reset runId stepId pre.(lr_updated_at) now (between s))
    as (g & s2 & Hg & H).
  unfold mbind at 1. rewrite Hg. destruct g as [reason|target].
  { eexists _, _. split; [done|]. by right. }
  destruct H as (row & Href & Htgt & Hin & Hex & Hruns & Hres & Hlog).
  set (completed := filter (λ id, id ≠ target) (js_unique (done_ids runId s2))).
  assert (done_ids runId s2 = done_ids runId (between s)) as Hdone by (unfold done_ids, listForRun; by rewrite Hres).
  eexists (inr target), (mk_ctl s2.(ct_store) s2.(ct_results) s2.(ct_live)
    (s2.(ct_log) ++ [CStatusChanged runId starting; CResumeStep runId target]
      ++ (if Nat.eqb (length completed) 0 then [] else [CCompletedSteps runId completed]) ++ [CExecute runId])).
  split.
  - unfold mbind, log_ctl, modify, get, mret.
    match goal with |- context [js_unique (done_ids runId ?s3)] =>
      change (done_ids runId s3) with (done_ids runId s2) end.
    fold completed.
    destruct (Nat.eqb (length completed) 0); simpl; by rewrite <- !app_assoc.
  - exists pre, row, completed. split_and!; try done.
    + intros x. unfold completed. by rewrite list_elem_of_filter, elem_of_js_unique, Hdone, elem_of_done_ids.
    + simpl. by rewrite Hlog.
Qed.

(** A lane rewind always returns and writes no table: a refusal changes nothing,
    and an accepted one asks for a running lane of a running sprint to restart at
    a step of its chain it has reached, aborting the lane's live agent if any. *)
Theorem lane_rewind_spec runId taskRef stepId keys abort s :
  ∃ g s', laneRewindHandler resolveDef runId taskRef stepId keys abort s = (Ok g, s')
    ∧ s'.(ct_store) = s.(ct_store) ∧ s'.(ct_results) = s.(ct_results) ∧ s'.(ct_live) = s.(ct_live)
    ∧ match g with
      | inl _ => s' = s
      | inr r => ∃ run b lane inner target,
          find_run (ct_db s) runId = Some run ∧ run.(lr_status) = running ∧ run.(lr_batch) = Some b
          ∧ find_lane (ct_db s) b r.(lr_taskId) = Some lane ∧ lane.(ln_status) = l_running
          ∧ resolveRunFanOutInner resolveDef (ct_db s) runId = Some inner
          ∧ chain_position stepId inner = Some target
          ∧ (∀ current, laneChainIndex inner lane.(ln_step) = Some current → target <= current)
          ∧ ∃ rest, s'.(ct_log) = s.(ct_log) ++ CLaneRewind runId r.(lr_taskId) stepId :: rest
              ∧ (rest = [] ∨ rest = [CAbortSpawn (runId +:+ ":" +:+ r.(lr_taskId))])
              ∧ (r.(lr_abortedSpawn) = true → rest ≠ [])
      end.
Proof.
  unfold laneRewindHandler, mbind at 1, gets.
  destruct (lane_rewind_check resolveDef runId taskRef stepId (ct_db s)) as [reason|[taskId lane]] eqn:Hc;
    [by eexists _, _|].
  assert (∃ run b inner target, find_run (ct_db s) runId = Some run ∧ run.(lr_status) = running
    ∧ run.(lr_batch) = Some b ∧ find_lane (ct_db s) b taskId = Some lane ∧ lane.(ln_status) = l_running
    ∧ resolveRunFanOutInner resolveDef (ct_db s) runId = Some inner ∧ chain_position stepId inner = Some target
    ∧ (∀ current, laneChainIndex inner lane.(ln_step) = Some current → target <= current)) as Hfacts.
  { revert Hc. unfold lane_rewind_check. destruct (find_run (ct_db s) runId) as [run|] eqn:Hrun; [|done].
    destruct (negb (is_programmatic_run run)); [done|].
    destruct (negb (bool_decide (lr_status run = running))) eqn:Hst; [done|].
    destruct (lr_batch run) as [b|] eqn:Hb; [|done].
    destruct (lane_rewind_task _ _ _) as [t|]; [|done].
    destruct (find_lane (ct_db s) b t) as [l|] eqn:Hl; [|done].
    destruct (negb (bool_decide (ln_status l = l_running))) eqn:Hls; [done|].
    destruct (resolveRunFanOutInner resolveDef (ct_db s) runId) as [[|i inner]|] eqn:Hin; [done| |done].
    destruct (chain_position stepId (i :: inner)) as [ti|] eqn:Ht; [|done]. bool_hyps.
    destruct (laneChainIndex (i :: inner) (ln_step l)) as [ci|] eqn:Hci.
    - destruct (Nat.ltb_spec ci ti); [done|]. intros [= <- <-]. exists run, b, (i :: inner), ti.
      split_and!; try done. intros c. rewrite Hci. intros [= <-]. lia.
    - intros [= <- <-]. exists run, b, (i :: inner), ti. split_and!; try done. intros c. by rewrite Hci. }
  destruct Hfacts as (run & b & inner & target & Hrun & Hst & Hb & Hl & Hls & Hin & Ht & Hle).
  set (key := runId +:+ ":" +:+ taskId).
  set (live := match keys with Some keys => bool_decide (key ∈ keys) | None => true end).
  assert (∃ (ok : bool) rest,
    (match abort with
     | Some ok => if live then mbind (log_ctl (CAbortSpawn key)) (λ _, mret ok) else mret false
     | None => mret false
     end : ctlM bool) (mk_ctl s.(ct_store) s.(ct_results) s.(ct_live) (s.(ct_log) ++ [CLaneRewind runId taskId stepId]))
    = (Ok ok, mk_ctl s.(ct_store) s.(ct_results) s.(ct_live) (s.(ct_log) ++ CLaneRewind runId taskId stepId :: rest))
    ∧ (rest = [] ∨ rest = [CAbortSpawn key]) ∧ (ok = true → rest ≠ [])) as (ok & rest & Hab & Hrest & Hok).
  { destruct abort as [ok|]; [|exists false, []; by split_and!; [|left|]].
    destruct live; [|exists false, []; by split_and!; [|left|]].
    exists ok, [CAbortSpawn key]. split_and!; [|by right|done].
    unfold mbind, log_ctl, modify, mret. simpl. by rewrite <- app_assoc. }
  eexists _, _. split.
  - unfold mbind at 1, log_ctl at 1, modify. cbv beta iota zeta. fold key live.
    unfold mbind at 1. rewrite Hab. reflexivity.
  - split_and!; try done. exists run, b, lane, inner, target. split_and!; try done. by exists rest.
Qed.
End RedriveClaims2.

(** ** A run to re-drive, and what re-driving does not check *)

Definition redrive_step (id : string) (fan : option fan_out_spec) : workflow_step :=
  mk_step id id "agent" 0 false false None fan false false.
Definition redrive_definition : workflow_definition :=
  mk_definition "sprint"
    [mk_phase "p1" "one" "#000000"
       [redrive_step "plan" None;
        redrive_step "lanes" (Some (mk_fan_out "tasks" [mk_inner "implement" "dev" false None false] None))];
     mk_phase "p2" "two" "#000000" [redrive_step "ship" None]].
Definition redrive_defs : string → option string → option workflow_definition :=
  λ _ _, Some redrive_definition.

Definition all_deps : RewindRunDeps := mk_rewind_deps true true true true true true true true.

(** Run "run-1" owns a batch of "t1"; its lane and its status are given. *)
Definition redrive_sample (st : run_status) (ls : lane_status) (step : string) (live : list string)
    (results : list step_result) : ctl :=
  mk_ctl (mk_store
    (mk_lane_db lane_sample.(ld_schema)
       {["batch-1" := mk_batch 1 sub_sdk b_running 5 7000%Z None]}
       [mk_lane 1 "batch-1" "t1" ls None 1 None 7000%Z] 2
       lane_sample.(ld_tasks) lane_sample.(ld_stages)
       [mk_lane_run "run-1" st 1 None (Some "batch-1") (Some "programmatic") "wf" None (Some step) 7000%Z;
        mk_lane_run "run-2" running 1 None None (Some "programmatic") "wf" None None 7000%Z]
       {["wf" := mk_workflow "sprint" (Some "spec")]} ∅ [] ∅ [] []) [] [])
    results live [].

Definition all_done : list step_result :=
  [mk_result "run-1" "plan" so_done; mk_result "run-1" "lanes" so_done; mk_result "run-1" "ship" so_failed].

Lemma rewind_delivered_witness :
  let s := redrive_sample running l_failed "ship" ["run-1"] all_done in
  ∃ r s', rewindRunHandler sample_json redrive_defs all_deps "run-1" "lanes" (λ s, s) 9500%Z s = (Ok (inr r), s')
    ∧ s'.(ct_results) = [mk_result "run-1" "plan" so_done]
    ∧ (λ l, (l.(ln_task), l.(ln_status))) <$> (ct_db s').(ld_lanes) = [("t1", l_queued)]
    ∧ s'.(ct_log) = [CCancelWalk "run-1"; CStopLiveRun "run-1"; CClearGates "run-1"; CClearApprovals "run-1";
        CClearQuestions "run-1"; CStatusChanged "run-1" starting; CResumeStep "run-1" "lanes";
        CCompletedSteps "run-1" ["plan"]; CExecute "run-1"].
Proof.
  intros s.
  destruct (rewindRunHandler sample_json redrive_defs all_deps "run-1" "lanes" (λ s, s) 9500%Z s)
    as [[[|r]|] s'] eqn:Hrun; [by vm_compute in Hrun| |by vm_compute in Hrun].
  exists r, s'. split; [done|].
  destruct (rewind_delivered sample_json redrive_defs all_deps "run-1" "lanes" (λ s, s) 9500%Z s s' r Hrun eq_refl)
    as (_ & _ & _ & _ & _).
  vm_compute in Hrun. injection Hrun as _ <-. by split_and!.
Defined.

Lemma rewind_refused_quiet_witness :
  ∃ s', rewindRunHandler sample_json redrive_defs all_deps "run-1" "ship" (λ s, s) 9500%Z
          (redrive_sample failed l_failed "lanes" [] all_done) = (Ok (inl rw_target_not_prior), s')
    ∧ s' = redrive_sample failed l_failed "lanes" [] all_done.
Proof.
  eexists. split; [vm_compute; reflexivity|].
  refine (match proj1 (rewind_refused_quiet sample_json redrive_defs all_deps "run-1" "ship" (λ s, s) 9500%Z
            (redrive_sample failed l_failed "lanes" [] all_done) _ rw_target_not_prior _) with
          | or_introl H => H | or_intror H => H end).
  vm_compute. reflexivity.
Defined.

(** A rewind of a live run to a fan-out step whose lanes are all integrated is
    refused only after its walk was cancelled: the run keeps the status it
    had, with nothing left to drive it. *)
Lemma settled_rewind_strands_run :
  let s := redrive_sample running l_integrated "ship" ["run-1"] all_done in
  ∃ s', rewindRunHandler sample_json redrive_defs all_deps "run-1" "lanes"
          (λ s, mk_ctl s.(ct_store) s.(ct_results) [] s.(ct_log)) 9500%Z s = (Ok (inl rw_fanout_settled), s')
    ∧ lr_status <$> find_run (ct_db s') "run-1" = Some running
    ∧ has_live "run-1" s' = false
    ∧ s'.(ct_log) = [CCancelWalk "run-1"; CStopLiveRun "run-1"].
Proof. eexists. vm_compute. by split_and!. Qed.

(** [CURRENT_TIMESTAMP] has whole seconds: the run restarted and failed again
    within the second of the pre-flight read is retried as if nothing moved. *)
Definition fail_again (now : instant) (s : ctl) : ctl :=
  with_store (update_db (λ d, set_lane_runs ((λ r, if String.eqb r.(lr_id) "run-1" then
      mk_lane_run r.(lr_id) failed r.(lr_project) r.(lr_task) r.(lr_batch) r.(lr_model) r.(lr_workflow)
        r.(lr_spec_hash) (Some "plan") (current_timestamp now) else r) <$> d.(ld_runs)) d) s.(ct_store)) s.

Lemma retry_same_second :
  let s := redrive_sample failed l_failed "ship" [] all_done in
  (retryRunHandler sample_json redrive_defs true true "run-1" (Some "ship") (fail_again 7400%Z) 7500%Z s).1
    = Ok (inr "ship")
  ∧ (retryRunHandler sample_json redrive_defs true true "run-1" (Some "ship") (fail_again 8400%Z) 8500%Z s).1
    = Ok (inl rt_race).
Proof. vm_compute. by split. Qed.

(** A task of a failed sprint may be pulled by another one; retrying the first
    then puts it in two live runs. *)
Definition pulled_again : ctl :=
  let s := redrive_sample failed l_failed "lanes" [] all_done in
  with_store (run_op sample_json redrive_defs None (op_seed false "run-2" 1 sub_sdk ["t1"] "batch-2") 8000%Z
                s.(ct_store)) s.

Lemma retry_double_pull :
  no_double_pull (ct_db pulled_again) ∧
  ∃ s', retryRunHandler sample_json redrive_defs true true "run-1" None (λ s, s) 9000%Z pulled_again
          = (Ok (inr "ship"), s')
    ∧ ¬ no_double_pull (ct_db s').
Proof.
  split.
  - intros r r' l l' Hr Hr' Ha Ha'. vm_compute in Hr, Hr'.
    apply elem_of_cons in Hr as [->|[->|H%elem_of_nil]%elem_of_cons]; [done| |done].
    by apply elem_of_cons in Hr' as [->|[->|H%elem_of_nil]%elem_of_cons].
  - eexists. split; [vm_compute; reflexivity|]. intros H.
    specialize (H (mk_lane_run "run-1" starting 1 None (Some "batch-1") (Some "programmatic") "wf" None
                     (Some "lanes") 9000%Z)
                  (mk_lane_run "run-2" running 1 None (Some "batch-2") (Some "programmatic") "wf" None None 8000%Z)
                  (mk_lane 1 "batch-1" "t1" l_failed None 1 None 7000%Z)
                  (mk_lane 2 "batch-2" "t1" l_queued None 0 None 8000%Z)).
    discriminate H; first [reflexivity | by left | right; by left].
Qed.
