(* ===== verification/GateVerdicts.v ===== *)
(** * The gate-resolution grammar

    The grammar of a human gate's answer ([shared/types/reviews.ts]:
    [composeGateResolution], [parseGateResolution]) and the verdict the
    controller reads from it ([orchestrator/programmatic/humanGate.ts],
    [parseGateVerdict]).  The regular expression is deterministic (a verdict
    word, a bracketed modifier, a colon), so its match is a scan. *)

From Stdlib Require Import Ascii.
From S2P Require Import Prelude JsString Regex.

Inductive gate_word := gw_approve | gw_reject | gw_revise.
#[export] Instance gate_word_eq_dec : EqDecision gate_word.
Proof. solve_decision. Defined.

Definition gate_word_string (v : gate_word) : string :=
  match v with gw_approve => "approve" | gw_reject => "reject" | gw_revise => "revise" end.

Record ParsedGateResolution := mk_resolution {
  gr_verdict : gate_word;
  gr_modifier : option string;
  gr_note : option string
}.

(** [x?.trim()], empty texts dropped *)
Definition trimmed (o : option string) : option string :=
  match o with
  | Some s => if String.eqb (trim s) "" then None else Some (trim s)
  | None => None
  end.

Definition composeGateResolution (p : ParsedGateResolution) : string :=
  let head := match trimmed p.(gr_modifier) with
              | Some m => gate_word_string p.(gr_verdict) +:+ "[" +:+ m +:+ "]"
              | None => gate_word_string p.(gr_verdict)
              end in
  match trimmed p.(gr_note) with
  | Some n => head +:+ ": " +:+ n
  | None => head
  end.

(** [^word] under the [i] flag: what follows the word. *)
Fixpoint strip_word (w s : string) : option string :=
  match w, s with
  | EmptyString, _ => Some s
  | String a w', String b s' => if Ascii.eqb a (lower_ascii b) then strip_word w' s' else None
  | _, _ => None
  end.

(** [[a-z-]] under the [i] flag *)
Definition modifier_char (c : ascii) : bool := is_alpha c || Ascii.eqb c "-".

Fixpoint str_span (p : ascii → bool) (s : string) : string * string :=
  match s with
  | EmptyString => (EmptyString, EmptyString)
  | String a s' => if p a then let '(x, y) := str_span p s' in (String a x, y) else (EmptyString, s)
  end.

(** The optional bracketed modifier. *)
Definition parse_modifier (s : string) : option (option string * string) :=
  match s with
  | String "[" s' =>
      match str_span modifier_char s' with
      | (EmptyString, _) => None
      | (m, String "]" rest) => Some (Some (toLowerCase m), rest)
      | _ => None
      end
  | _ => Some (None, s)
  end.

(** The optional note after a colon, up to the end. *)
Definition parse_note (s : string) : option (option string) :=
  match s with
  | EmptyString => Some None
  | String ":" note => Some (trimmed (Some note))
  | _ => None
  end.

Definition gate_words : list gate_word := [gw_approve; gw_reject; gw_revise].

Definition parse_word (s : string) : option (gate_word * string) :=
  head (omap (λ v, pair v <$> strip_word (gate_word_string v) s) gate_words).

Definition parseGateResolution (resolution : option string) : option ParsedGateResolution :=
  s ← resolution;
  '(v, rest) ← parse_word (trim s);
  '(m, rest') ← parse_modifier rest;
  n ← parse_note rest';
  Some (mk_resolution v m n).

(** The verdict a resolution means to the walk: the grammar first, else a
    word anywhere in a free text, else an approval. *)
Definition parseGateVerdict (resolution : option string) : gate_word :=
  match parseGateResolution resolution with
  | Some p => p.(gr_verdict)
  | None =>
      let r := toLowerCase (trim (default "" resolution)) in
      if includes "reject" r then gw_reject
      else if includes "revise" r then gw_revise
      else if includes "retry" r then gw_revise
      else gw_approve
  end.

(** ** Round trip *)

(** The same resolution as the parser reports it. *)
Definition normalized (p : ParsedGateResolution) : ParsedGateResolution :=
  mk_resolution p.(gr_verdict) (trimmed p.(gr_modifier)) (trimmed p.(gr_note)).

Lemma strip_word_app w t : str_forall is_lower w = true → strip_word w (w +:+ t) = Some t.
Proof.
  induction w as [|a w IH]; [done|]. simpl. intros [Ha Hw]%andb_true_iff.
  assert (lower_ascii a = a) as ->.
  { clear -Ha. destruct a as [[] [] [] [] [] [] [] []]; vm_compute in *; congruence. }
  rewrite Ascii.eqb_refl. by apply IH.
Qed.

Lemma parse_word_app v t : parse_word (gate_word_string v +:+ t) = Some (v, t).
Proof. destruct v; reflexivity. Qed.

Lemma str_span_app p m t :
  str_forall p m = true → match t with EmptyString => True | String c _ => p c = false end →
  str_span p (m +:+ t) = (m, t).
Proof.
  intros Hm Ht. induction m as [|a m IH]; simpl.
  - destruct t as [|c t]; [done|]. simpl. by rewrite Ht.
  - simpl in Hm. apply andb_true_iff in Hm as [Ha Hm]. by rewrite Ha, IH.
Qed.

Lemma modifier_char_lower c : is_lower c || Ascii.eqb c "-" = true → modifier_char c = true ∧ lower_ascii c = c.
Proof. destruct c as [[] [] [] [] [] [] [] []]; vm_compute; intros; split; congruence. Qed.

Definition lower_modifier (o : option string) : bool :=
  match o with Some m => str_forall (λ c, is_lower c || Ascii.eqb c "-") m | None => true end.

Lemma parse_modifier_app m t :
  m ≠ "" → str_forall (λ c, is_lower c || Ascii.eqb c "-") m = true →
  parse_modifier ("[" +:+ m +:+ "]" +:+ t) = Some (Some m, t).
Proof.
  intros Hne Hm.
  assert (str_forall modifier_char m = true ∧ toLowerCase m = m) as [Hc Hl].
  { clear Hne. induction m as [|c m IH]; [done|]. simpl in *. apply andb_true_iff in Hm as [Ha Hm].
    destruct (modifier_char_lower c Ha) as [-> ->]. by destruct (IH Hm) as [-> ->]. }
  change ("[" +:+ m +:+ "]" +:+ t) with (String "[" (m +:+ ("]" +:+ t))). simpl.
  change (String "]" t) with ("]" +:+ t).
  rewrite (str_span_app _ m ("]" +:+ t)) by done. simpl. rewrite Hl. by destruct m.
Qed.

Lemma trim_end_app a b : trim_end b ≠ "" → trim_end (a +:+ b) = a +:+ trim_end b.
Proof.
  intros Hb. induction a as [|c a IH]; [done|]. rewrite !str_app_cons. simpl. rewrite IH.
  destruct a as [|d a]; simpl; [|done]. rewrite str_app_nil_l. by destruct (trim_end b).
Qed.

(** A text that starts with a word and ends in a trimmed text is trimmed. *)
Lemma trim_solid v a b : b ≠ "" → trim b = b →
  trim (gate_word_string v +:+ a +:+ b) = gate_word_string v +:+ a +:+ b.
Proof.
  intros Hb Htr. unfold trim at 1.
  assert (trim_start (gate_word_string v +:+ a +:+ b) = gate_word_string v +:+ a +:+ b) as -> by by destruct v.
  assert (trim_end b = b) as He.
  { rewrite <- Htr at 2. unfold trim. rewrite <- Htr at 1. unfold trim. by rewrite trim_end_idem. }
  rewrite trim_end_app; rewrite trim_end_app; rewrite ?He; try done.
  intros H. by destruct a.
Qed.

Lemma trimmed_Some o n : trimmed o = Some n → n ≠ "" ∧ trim n = n.
Proof.
  destruct o as [s|]; simpl; [|done]. destruct (String.eqb_spec (trim s) ""); [done|].
  intros [= <-]. split; [done|apply trim_idem].
Qed.

(** What the parser finds behind the verdict word. *)
Definition tail_of (m n : option string) : string :=
  match m with Some m => "[" +:+ m +:+ "]" | None => "" end
  +:+ match n with Some n => ": " +:+ n | None => "" end.

Lemma compose_tail p :
  composeGateResolution p =
  gate_word_string p.(gr_verdict) +:+ tail_of (trimmed p.(gr_modifier)) (trimmed p.(gr_note)).
Proof.
  unfold composeGateResolution, tail_of.
  destruct (trimmed (gr_modifier p)), (trimmed (gr_note p)); by rewrite ?str_app_assoc, ?str_app_nil_r.
Qed.

Lemma trim_compose v m n :
  (∀ x, n = Some x → x ≠ "" ∧ trim x = x) → trim (gate_word_string v +:+ tail_of m n) = gate_word_string v +:+ tail_of m n.
Proof.
  intros Hn. unfold tail_of. destruct n as [x|].
  - destruct (Hn x eq_refl) as [Hx Ht].
    destruct m as [m|]; rewrite ?str_app_assoc, ?str_app_nil_l.
    + replace ("[" +:+ m +:+ "]" +:+ ": " +:+ x) with (("[" +:+ m +:+ "]" +:+ ": ") +:+ x)
        by by rewrite !str_app_assoc.
      by apply trim_solid.
    + by apply trim_solid.
  - rewrite str_app_nil_r. destruct m as [m|]; [|by destruct v].
    replace ("[" +:+ m +:+ "]") with (("[" +:+ m) +:+ "]") by by rewrite !str_app_assoc.
    by apply trim_solid.
Qed.

Lemma parse_tail m n :
  lower_modifier m = true → (∀ x, m = Some x → x ≠ "") → (∀ x, n = Some x → x ≠ "" ∧ trim x = x) →
  ∃ rest, parse_modifier (tail_of m n) = Some (m, rest) ∧ parse_note rest = Some n.
Proof.
  intros Hlow Hm Hn. unfold tail_of.
  exists (match n with Some n => ": " +:+ n | None => "" end). split.
  - destruct m as [m|]; [|by destruct n].
    rewrite !str_app_assoc. apply parse_modifier_app; [by apply Hm|done].
  - destruct n as [n|]; [|done]. destruct (Hn n eq_refl) as [Hne Ht].
    change (Some (trimmed (Some (String " " n))) = Some (Some n)). unfold trimmed.
    change (trim (String " " n)) with (trim n). rewrite Ht. by destruct (String.eqb_spec n "").
Qed.

(** C40: What the server composes for a gate's verdict is read back as the same verdict,
    whatever the human's note says: parsing a composed resolution gives the verdict, the
    modifier and the trimmed note, provided the modifier is made of lower-case letters and
    hyphens. *)
Theorem gate_resolution_roundtrip p :
  lower_modifier (trimmed p.(gr_modifier)) = true →
  parseGateResolution (Some (composeGateResolution p)) = Some (normalized p)
  ∧ parseGateVerdict (Some (composeGateResolution p)) = p.(gr_verdict).
Proof.
  intros Hlow.
  assert (parseGateResolution (Some (composeGateResolution p)) = Some (normalized p)) as Hp.
  { rewrite compose_tail. unfold parseGateResolution. simpl.
    rewrite trim_compose, parse_word_app by apply trimmed_Some. simpl.
    destruct (parse_tail (trimmed p.(gr_modifier)) (trimmed p.(gr_note)) Hlow) as (rest & -> & Hn).
    - by intros x [? _]%trimmed_Some.
    - by intros x ?%trimmed_Some.
    - simpl. by rewrite Hn. }
  split; [done|]. unfold parseGateVerdict. by rewrite Hp.
Qed.

Lemma gate_resolution_roundtrip_witness :
  let p := mk_resolution gw_revise (Some " no-findings ") (Some "the design rejects empty input ") in
  composeGateResolution p = "revise[no-findings]: the design rejects empty input"
  ∧ parseGateVerdict (Some (composeGateResolution p)) = gw_revise.
Proof.
  intros p. split; [reflexivity|]. apply (gate_resolution_roundtrip p). reflexivity.
Defined.

(** Free text outside the grammar is searched for the words. *)
Example legacy_verdicts :
  parseGateVerdict <$> [Some "please Revise this"; Some "I reject it"; Some "retry"; Some "ok"; Some ""; None]
  = [gw_revise; gw_reject; gw_revise; gw_approve; gw_approve; gw_approve].
Proof. reflexivity. Qed.
