(* ===== verification/GateQueue.v ===== *)
(** * What a waiting gate sees of the review queue

    The three checkpoints of a programmatic walk (the human gate, the
    blocking-items gate, the systemic-pause gate) park a run and wait for the
    review queue.  They see the queue through injected operations and through
    the change events its routers emit; this file states what they may rely on:
    a [ReviewQueue] gives the state of each item and whether the run is blocked,
    [queue_step] is a move of the rest of the process (an item that leaves
    [pending] is announced in the same turn, and stays as it was triaged), and
    [GateOpener] are the operations of the human gate.  The instances are the
    operations of [HumanSteps] on the database. *)

From S2P Require Import Prelude RunStateMachine Database ReviewItems HumanSteps.

Inductive item_state := it_pending | it_resolved (resolution : option string) | it_dismissed.
#[export] Instance item_state_eq_dec : EqDecision item_state.
Proof. solve_decision. Defined.

(** A change event: the item, and its action. *)
Inductive item_event :=
  | ev_resolved (id : string) (resolution : option string)
  | ev_dismissed (id : string)
  | ev_other (id : string).

Definition event_of (id : string) (st : item_state) : option item_event :=
  match st with
  | it_resolved r => Some (ev_resolved id r)
  | it_dismissed => Some (ev_dismissed id)
  | it_pending => None
  end.

(** [action === 'resolved' || action === 'dismissed'] *)
Definition triage_event (e : item_event) : bool :=
  match e with ev_other _ => false | _ => true end.

(** Truthiness of an item id. *)
Definition truthy_id (id : option string) : option string :=
  match id with Some i => if String.eqb i "" then None else Some i | None => None end.

Class ReviewQueue (W : Type) := {
  rq_state : W → string → option item_state;
  rq_blocked : W → bool
}.

Section Queue.
Context {W : Type} {Q : ReviewQueue W}.

Record queue_step (w : W) (evs : list item_event) (w' : W) : Prop := {
  qs_final : ∀ id st, rq_state w id = Some st → st ≠ it_pending → rq_state w' id = Some st;
  qs_announced : ∀ id, rq_state w id = Some it_pending →
    rq_state w' id = Some it_pending
    ∨ ∃ st e, rq_state w' id = Some st ∧ event_of id st = Some e ∧ e ∈ evs;
  qs_truthful : ∀ id st e, event_of id st = Some e → e ∈ evs → rq_state w' id = Some st
}.

(** Blocking items clear by triage only. *)
Definition unblocks_by_triage (w : W) (evs : list item_event) (w' : W) : Prop :=
  rq_blocked w = true → rq_blocked w' = false → ∃ e, e ∈ evs ∧ triage_event e = true.

End Queue.

(** A move that leaves every item as it was. *)
Lemma queue_step_quiet {W : Type} {Q : ReviewQueue W} w id w' :
  (∀ i, rq_state w' i = rq_state w i) → queue_step w [ev_other id] w'.
Proof.
  intros H. split; [by intros; rewrite H|intros i Hi; left; by rewrite H|].
  intros i [] e He ->%list_elem_of_singleton; discriminate He.
Qed.

(** ** Chains of turns that end *)

Section Turns.
Context {A : Type} (R : A → A → Prop) (rank : A → nat) (quiet : A → Prop).
Hypothesis turn_or_quiet : ∀ a, quiet a ∨ ∃ b, R a b.
Hypothesis rank_decreases : ∀ a b, R a b → rank b < rank a.

Lemma turns_end a : ∃ b, rtc R a b ∧ quiet b.
Proof.
  remember (rank a) as n eqn:Hn. revert a Hn. induction n as [n IH] using lt_wf_ind. intros a ->.
  destruct (turn_or_quiet a) as [Hq|[b Hb]]; [by exists a|].
  destruct (IH (rank b) (rank_decreases _ _ Hb) b eq_refl) as (c & Hr & Hc). exists c. split; [by eapply rtc_l|done].
Qed.

Lemma turns_bounded n a b : nsteps R n a b → n <= rank a.
Proof. induction 1 as [|n a b c Ht _ IH]; [lia|]. apply rank_decreases in Ht. lia. Qed.
End Turns.

(** The operations the human gate is given; a throw is [Throw tt]. *)
Class GateOpener (W : Type) {Q : ReviewQueue W} := {
  go_open : W → result unit (option string) * W;
  go_find : W → result unit (option string);
  go_read : W → string → option item_state;
  go_resume : W → W;
  go_open_pending : ∀ w w' id, go_open w = (Ok (Some id), w') → rq_state w' id = Some it_pending;
  go_find_pending : ∀ w id, go_find w = Ok (Some id) → rq_state w id = Some it_pending;
  go_read_sound : ∀ w id st, go_read w id = Some st → rq_state w id = Some st;
  go_resume_items : ∀ w id, rq_state (go_resume w) id = rq_state w id
}.

(** The operations of the blocking-items gate; a park may throw. *)
Class GateParker (W : Type) {Q : ReviewQueue W} := {
  gp_park : W → result unit bool * W;
  gp_resume : W → W;
  gp_park_blocked : ∀ w, rq_blocked (gp_park w).2 = rq_blocked w;
  gp_resume_blocked : ∀ w, rq_blocked (gp_resume w) = rq_blocked w;
  gp_park_items : ∀ w id, rq_state (gp_park w).2 id = rq_state w id;
  gp_resume_items : ∀ w id, rq_state (gp_resume w) id = rq_state w id
}.

(** ** The database *)

Definition row_state (v : review_row) : item_state :=
  match v.(v_status) with
  | rv_pending => it_pending
  | rv_resolved => it_resolved v.(v_resolution)
  | rv_dismissed => it_dismissed
  end.

#[export] Instance sys_queue (runId : string) : ReviewQueue sys := {
  rq_state s id := row_state <$> items_of s.(sys_db) !! id;
  rq_blocked s := hasPendingBlockingItems s.(sys_db) runId
}.

Lemma openHumanGate_item f r st sn h si x now s s' id :
  openHumanGate f r st sn h si x now s = (Ok (Some id), s') →
  ∃ v, items_of s'.(sys_db) !! id = Some v ∧ v.(v_status) = rv_pending.
Proof.
  destruct s as [d p l q]. unfold openHumanGate. unfold mbind at 1, gets. simpl.
  destruct (hasReviewItemsTable d) eqn:Hh; simpl; [|done].
  unfold mbind at 1, emit, modify. unfold open_task. unfold mbind at 1, gets. simpl.
  destruct (match first_item d _ with Some (i, _) => negb (String.eqb i "") | None => false end); [done|].
  unfold hasReviewItemsTable in Hh. destruct (d.(review_items)) as [t|] eqn:Ht; [|done].
  unfold mbind at 1, in_db, zoom. simpl. rewrite (open_txn_eq _ _ _ _ _ _ _ _ d t) by done.
  destruct (d.(workflow_runs) !! r) as [row|]; [|done].
  destruct (has_status_in _ row); [|done]. destruct (t !! f); [done|].
  unfold mbind, emit, modify, add_log, set_db, emit_opt, emitReviewItemChangedById, gets, mbind, mret. simpl.
  change (items_of (opened_db f r st sn h si x now row t d))
    with (<[f := gate_row d row.(r_project_id) r st sn h si x now]> t).
  rewrite lookup_insert_eq. simpl. intros [= <- <-]. eexists. split; [apply lookup_insert_eq|done].
Qed.

Lemma findPendingGate_item d r st id :
  findPendingGate d r st = Some id → ∃ v, items_of d !! id = Some v ∧ v.(v_status) = rv_pending.
Proof.
  unfold findPendingGate, findPendingItemBySource. destruct (negb _); [done|].
  unfold first_item. destruct (sql_select _ _) as [|[i v] l] eqn:Hs; [done|]. simpl. intros [= <-].
  assert ((i, v) ∈ sql_select (λ _ v, pending_decision r (source_is (sourceForStep st)) v) (items_of d)) as Hin
    by (rewrite Hs; left).
  apply elem_of_sql_select in Hin as [Hv Hp]. exists v. split; [done|].
  unfold pending_decision, review_pending in Hp. bool_hyps. done.
Qed.

Lemma resume_frame runId now s :
  (exec (maybeResumeRun runId now) s).(sys_db).(review_items) = s.(sys_db).(review_items).
Proof.
  destruct s as [d p l q]. unfold exec, maybeResumeRun. unfold mbind at 1, gets. simpl.
  destruct (negb _); [done|]. destruct (decide _); [done|]. unfold mbind, in_db, zoom. simpl.
  rewrite unpark_eq. destruct (d.(workflow_runs) !! runId) as [row|]; [|done].
  by destruct (has_status awaiting_review row).
Qed.

Lemma park_frame runId now s :
  ∃ b s', parkForBlockingReview runId now s = (Ok b, s')
    ∧ s'.(sys_db).(review_items) = s.(sys_db).(review_items).
Proof.
  destruct s as [d p l q]. unfold parkForBlockingReview. unfold mbind at 1, gets. simpl.
  destruct (negb _); [by eexists _, _|]. unfold mbind at 1, emit, modify. simpl.
  unfold park_task. unfold mbind at 1, gets. simpl. destruct (decide _); [by eexists _, _|].
  unfold mbind, in_db, zoom. simpl.
  destruct (update_run_cases runId (has_status running) (set_status awaiting_review now) d)
    as [(r & _ & _ & ->)|[_ ->]]; by eexists _, _.
Qed.

(** The operations of one gate of a run, as [HumanStepManager] offers them. *)
#[export, refine] Instance sys_opener (freshId runId stepId stepName : string) (gateHeader : option string)
    (since : option instant) (x : gate_texts) (now : instant)
    : GateOpener sys (Q := sys_queue runId) := {
  go_open s :=
    match openHumanGate freshId runId stepId stepName gateHeader since x now s with
    | (Ok id, s') => (Ok id, s')
    | (Throw _, s') => (Throw tt, s')
    end;
  go_find s := Ok (findPendingGate s.(sys_db) runId stepId);
  go_read s id := (λ sn, match sn.(gs_status) with
                         | rv_pending => it_pending
                         | rv_resolved => it_resolved sn.(gs_resolution)
                         | rv_dismissed => it_dismissed
                         end) <$> readGateItem s.(sys_db) id;
  go_resume s := exec (maybeResumeRun runId now) s
}.
Proof.
  - intros w w' id. destruct (openHumanGate _ _ _ _ _ _ _ _ w) as [[i|e] s'] eqn:H; [|done].
    intros [= -> ->]. apply openHumanGate_item in H as (v & Hv & Hs). simpl. rewrite Hv. simpl.
    unfold row_state. by rewrite Hs.
  - intros w id [= H]. apply findPendingGate_item in H as (v & Hv & Hs). simpl. rewrite Hv. simpl.
    unfold row_state. by rewrite Hs.
  - intros w id st. unfold readGateItem. simpl. destruct (negb _); [done|].
    destruct (items_of _ !! id) as [v|]; [|done]. simpl. intros [= <-]. done.
  - intros w id. simpl. unfold items_of. by rewrite resume_frame.
Defined.

Lemma blocked_frame runId d d' :
  d'.(review_items) = d.(review_items) → hasPendingBlockingItems d' runId = hasPendingBlockingItems d runId.
Proof.
  intros H. unfold hasPendingBlockingItems, countPendingBlockingReviewItems, hasReviewItemsTable, items_of.
  by rewrite H.
Qed.

#[export, refine] Instance sys_parker (runId : string) (now : instant)
    : GateParker sys (Q := sys_queue runId) := {
  gp_park s :=
    match parkForBlockingReview runId now s with
    | (Ok b, s') => (Ok b, s')
    | (Throw _, s') => (Throw tt, s')
    end;
  gp_resume s := exec (maybeResumeRun runId now) s
}.
Proof.
  - intros w. simpl. apply blocked_frame. by destruct (park_frame runId now w) as (b & s' & -> & ?).
  - intros w. simpl. by apply blocked_frame, resume_frame.
  - intros w id. simpl. destruct (park_frame runId now w) as (b & s' & Hp & Hf). rewrite Hp. simpl. unfold items_of. by rewrite Hf.
  - intros w id. simpl. unfold items_of. by rewrite resume_frame.
Defined.

(** Triaging a pending item is a move the gates may rely on. *)
Lemma triage_queue_step runId id st who resolution now rid s v :
  items_of s.(sys_db) !! id = Some v → review_pending v = true → st ≠ rv_pending →
  let s' := set_db (exec (transitionReviewItemRow id st who resolution now rid) s.(sys_db)) s in
  queue_step (Q := sys_queue runId) s
    [match st with rv_dismissed => ev_dismissed id | _ => ev_resolved id resolution end] s'.
Proof.
  intros Hv Hp Hst s'.
  assert (items_of s'.(sys_db) = <[id := triage st who resolution now v]> (items_of s.(sys_db))) as Hit.
  { unfold s', exec. simpl. unfold items_of in *. destruct (s.(sys_db).(review_items)) as [t|] eqn:Ht; simpl in *;
      [|by rewrite lookup_empty in Hv].
    rewrite (transitionReviewItemRow_eq _ _ _ _ _ _ t) by done. by rewrite Hv, Hp. }
  clearbody s'.
  assert (row_state (triage st who resolution now v)
    = match st with rv_dismissed => it_dismissed | _ => it_resolved resolution end) as Hrow by by destruct st.
  assert (@rq_state sys (sys_queue runId) s id = Some it_pending) as Hpend.
  { simpl. rewrite Hv. simpl. unfold row_state. unfold review_pending in Hp. by apply bool_decide_eq_true in Hp as ->. }
  assert (∀ i, @rq_state sys (sys_queue runId) s' i
    = if decide (i = id) then Some (row_state (triage st who resolution now v))
      else @rq_state sys (sys_queue runId) s i) as Hs.
  { intros i. simpl. rewrite Hit. destruct (decide (i = id)) as [->|Hne].
    - by rewrite lookup_insert_eq.
    - by rewrite lookup_insert_ne. }
  split.
  - intros i x Hi Hx. rewrite Hs. destruct (decide (i = id)) as [->|]; [congruence|done].
  - intros i Hi. rewrite Hs. destruct (decide (i = id)) as [->|]; [|by left]. right. rewrite Hrow.
    destruct st; [done| |]; eexists _, _; (split; [done|]); (split; [done|left]).
  - intros i x e He Hin. apply list_elem_of_singleton in Hin as ->. rewrite Hs.
    destruct st; [done| |]; destruct x; simpl in He; simplify_eq; rewrite decide_True, Hrow; done.
Qed.

Lemma sys_quiet runId id s s' :
  row_state <$> items_of s'.(sys_db) = row_state <$> items_of s.(sys_db) →
  queue_step (Q := sys_queue runId) s [ev_other id] s'.
Proof.
  intros H. apply queue_step_quiet. intros i. simpl. by rewrite <- !lookup_fmap, H.
Qed.
