(* ===== verification/HumanGate.v ===== *)
(** * The human gate of a programmatic walk

    Models [ReviewQueueHumanGate] of [orchestrator/programmatic/humanGate.ts]:
    the promise the controller awaits at a human step.  One activation is a
    state machine: [open_turn] is the chain that opens the gate or re-attaches
    to a pending one and then arms itself on the item, [wake_turn] the chain
    from a triaged item to the settled promise, [on_change] the listener on the
    review queue, [on_abort] the listener on the cancel signal.  Each [await]
    is a point where the rest of the process may move ([hs_env]); the calls the
    chains make take effect at some moment between two turns.  [onOpened] is
    fire-and-forget and not part of the machine. *)

From S2P Require Import Prelude RunStateMachine Database Samples ReviewItems HumanSteps GateVerdicts GateQueue.

Inductive human_decision := gd_verdict (v : gate_word) | gd_abort.

(** What one activation does to the outside. *)
Inductive gate_effect :=
  | ge_side_effects (resolution : option string) (dismissed : bool) (reviewItemId : option string)
  | ge_resume
  | ge_resolve (d : human_decision)
  | ge_reject.

(** Where the opening chain stands: a call about to run, or about to return. *)
Inductive open_pc :=
  | OpCall
  | OpBack (r : result unit (option string))
  | OpFind
  | OpFound (r : result unit (option string))
  | OpEnd.

Inductive wake_pc := WIdle | WEffects (v : gate_word) | WResume (v : gate_word) | WWake (v : gate_word) | WDone.

Section HumanGate.
Context {W : Type} {Q : ReviewQueue W} {O : GateOpener W}.

Record human_gate := mk_gate {
  hg_world : W;
  hg_pc : open_pc;
  hg_target : option string;
  hg_settled : bool;
  (* the listeners on the review queue and on the signal *)
  hg_on : bool;
  hg_abort_on : bool;
  hg_aborted : bool;
  hg_wake : wake_pc;
  hg_log : list gate_effect
}.

Definition with_world (w : W) (g : human_gate) : human_gate :=
  mk_gate w g.(hg_pc) g.(hg_target) g.(hg_settled) g.(hg_on) g.(hg_abort_on) g.(hg_aborted) g.(hg_wake) g.(hg_log).
Definition with_pc (p : open_pc) (g : human_gate) : human_gate :=
  mk_gate g.(hg_world) p g.(hg_target) g.(hg_settled) g.(hg_on) g.(hg_abort_on) g.(hg_aborted) g.(hg_wake) g.(hg_log).
Definition with_wake (p : wake_pc) (effects : list gate_effect) (g : human_gate) : human_gate :=
  mk_gate g.(hg_world) g.(hg_pc) g.(hg_target) g.(hg_settled) g.(hg_on) g.(hg_abort_on) g.(hg_aborted) p
    (g.(hg_log) ++ effects).

(** [settled = true; cleanup()] *)
Definition human_settle (g : human_gate) : human_gate :=
  mk_gate g.(hg_world) g.(hg_pc) g.(hg_target) true false false g.(hg_aborted) g.(hg_wake) g.(hg_log).

(** Settle, and start the side effects that come before the resume and the wake. *)
Definition settleResumed (v : gate_word) (resolution : option string) (dismissed : bool) (g : human_gate)
    : human_gate :=
  with_wake (WEffects v) [ge_side_effects resolution dismissed g.(hg_target)] (human_settle g).

Definition on_change (g : human_gate) (e : item_event) : human_gate :=
  if negb g.(hg_on) || g.(hg_settled) then g
  else match g.(hg_target) with
       | None => g
       | Some target =>
           match e with
           | ev_resolved id r => if String.eqb id target then settleResumed (parseGateVerdict r) r false g else g
           | ev_dismissed id => if String.eqb id target then settleResumed gw_reject None true g else g
           | ev_other _ => g
           end
       end.

Definition on_abort (g : human_gate) : human_gate :=
  let g := mk_gate g.(hg_world) g.(hg_pc) g.(hg_target) g.(hg_settled) g.(hg_on) g.(hg_abort_on) true g.(hg_wake) g.(hg_log) in
  if negb g.(hg_abort_on) || g.(hg_settled) then g
  else with_wake g.(hg_wake) [ge_resolve gd_abort] (human_settle g).

(** [settled = true; cleanup(); reject(...)] *)
Definition reject_gate (g : human_gate) : human_gate := with_wake g.(hg_wake) [ge_reject] (human_settle (with_pc OpEnd g)).

(** Arm on the item, and read it back: it may have been answered meanwhile. *)
Definition arm (id : string) (g : human_gate) : human_gate :=
  let g := mk_gate g.(hg_world) OpEnd (Some id) g.(hg_settled) g.(hg_on) g.(hg_abort_on) g.(hg_aborted)
             g.(hg_wake) g.(hg_log) in
  match go_read g.(hg_world) id with
  | Some (it_resolved r) => settleResumed (parseGateVerdict r) r false g
  | Some it_dismissed => settleResumed gw_reject None true g
  | _ => g
  end.

Definition open_turn (g : human_gate) : option human_gate :=
  match g.(hg_pc) with
  | OpCall => let '(r, w) := go_open g.(hg_world) in Some (with_pc (OpBack r) (with_world w g))
  | OpBack (Throw _) | OpFound (Throw _) => Some (if g.(hg_settled) then with_pc OpEnd g else reject_gate g)
  | OpBack (Ok id) =>
      Some (if g.(hg_settled) then with_pc OpEnd g
            else match truthy_id id with Some i => arm i g | None => with_pc OpFind g end)
  | OpFind => Some (with_pc (OpFound (go_find g.(hg_world))) g)
  | OpFound (Ok id) =>
      Some (if g.(hg_settled) then with_pc OpEnd g
            else match truthy_id id with Some i => arm i g | None => reject_gate g end)
  | OpEnd => None
  end.

Definition wake_turn (g : human_gate) : option human_gate :=
  match g.(hg_wake) with
  | WEffects v => Some (with_wake (WResume v) [] g)
  | WResume v => Some (with_wake (WWake v) [ge_resume] (with_world (go_resume g.(hg_world)) g))
  | WWake v => Some (with_wake WDone [ge_resolve (gd_verdict v)] g)
  | WIdle | WDone => None
  end.

(** [resolve(req)]: an aborted signal opens nothing. *)
Definition resolve_gate (w : W) (signal : option bool) : human_decision + human_gate :=
  match signal with
  | Some true => inl gd_abort
  | Some false => inr (mk_gate w OpCall None false true true false WIdle [])
  | None => inr (mk_gate w OpCall None false true false false WIdle [])
  end.

Inductive turn (g : human_gate) : human_gate → Prop :=
  | turn_open g' : open_turn g = Some g' → turn g g'
  | turn_wake g' : wake_turn g = Some g' → turn g g'.

Inductive gate_step (g : human_gate) : human_gate → Prop :=
  | hs_turn g' : turn g g' → gate_step g g'
  | hs_env evs w' : queue_step g.(hg_world) evs w' → gate_step g (foldl on_change (with_world w' g) evs)
  | hs_abort : gate_step g (on_abort g).

Definition quiescent (g : human_gate) : Prop := open_turn g = None ∧ wake_turn g = None.

Definition settlement (e : gate_effect) : bool :=
  match e with ge_resolve _ | ge_reject => true | _ => false end.
Definition settlements (g : human_gate) : list gate_effect := filter (λ e, settlement e = true) g.(hg_log).

(** ** One emission *)

(** The verdict a triaged item means, its note, and whether it was dismissed. *)
Definition answer (st : item_state) : option (gate_word * option string * bool) :=
  match st with
  | it_resolved r => Some (parseGateVerdict r, r, false)
  | it_dismissed => Some (gw_reject, None, true)
  | it_pending => None
  end.

Lemma on_change_deaf g e : hg_settled g = true ∨ hg_target g = None → on_change g e = g.
Proof.
  intros H. unfold on_change. destruct (negb (hg_on g)); [done|]. simpl.
  destruct H as [->| ->]; [done|]. by destruct (hg_settled g).
Qed.

Lemma fold_deaf g evs : hg_settled g = true ∨ hg_target g = None → foldl on_change g evs = g.
Proof. intros H. induction evs as [|e evs IH]; [done|]. simpl. by rewrite on_change_deaf. Qed.

Lemma fold_armed g evs id :
  hg_settled g = false → hg_on g = true → hg_target g = Some id →
  (foldl on_change g evs = g ∧ ∀ st e, event_of id st = Some e → e ∉ evs)
  ∨ ∃ st e v r dm, event_of id st = Some e ∧ e ∈ evs ∧ answer st = Some (v, r, dm)
      ∧ foldl on_change g evs = settleResumed v r dm g.
Proof.
  intros Hs Hon Ht. induction evs as [|e evs IH].
  { left. split; [done|]. intros * _. apply not_elem_of_nil. }
  assert (on_change g e = g ∧ (∀ st, event_of id st ≠ Some e)
    ∨ ∃ st v r dm, event_of id st = Some e ∧ answer st = Some (v, r, dm) ∧ on_change g e = settleResumed v r dm g)
    as [[He Hne]|(st & v & r & dm & Hev & Ha & He)].
  { unfold on_change. rewrite Hs, Hon, Ht. simpl. destruct e as [i r|i|i].
    - destruct (String.eqb_spec i id) as [->|Hi]; [right; by exists (it_resolved r); eauto 10|left].
      split; [done|]. intros []; simpl; congruence.
    - destruct (String.eqb_spec i id) as [->|Hi]; [right; by exists it_dismissed; eauto 10|left].
      split; [done|]. intros []; simpl; congruence.
    - left. split; [done|]. intros []; simpl; congruence. }
  - simpl. rewrite He. destruct IH as [[IH Hno]|(st & e' & v & r & dm & H1 & H2 & H3 & H4)].
    + left. split; [done|]. intros st e' H' [->|Hin]%elem_of_cons; [by eapply Hne|by eapply Hno].
    + right. exists st, e', v, r, dm. split_and!; try done. by right.
  - right. exists st, e, v, r, dm. split_and!; try done; [left|]. simpl. rewrite He. apply fold_deaf. by left.
Qed.

(** ** The invariant *)

(** Reading an item back answers whenever the item exists. *)
Definition reads_back : Prop := ∀ w id st, rq_state w id = Some st → go_read w id = Some st.

Definition wake_log (p : wake_pc) (v : gate_word) (se : gate_effect) (l : list gate_effect) : Prop :=
  match p with
  | WIdle => False
  | WEffects v' => v' = v ∧ l = [se]
  | WResume v' => v' = v ∧ l = [se]
  | WWake v' => v' = v ∧ l = [se; ge_resume]
  | WDone => l = [se; ge_resume; ge_resolve (gd_verdict v)]
  end.

Record gate_inv (g : human_gate) : Prop := {
  gi_open : g.(hg_settled) = false → g.(hg_on) = true ∧ g.(hg_wake) = WIdle ∧ g.(hg_log) = [];
  gi_off : g.(hg_settled) = true → g.(hg_on) = false ∧ g.(hg_abort_on) = false;
  gi_unarmed : g.(hg_pc) ≠ OpEnd → g.(hg_target) = None;
  gi_known : ∀ id, g.(hg_pc) = OpBack (Ok (Some id)) ∨ g.(hg_pc) = OpFound (Ok (Some id)) →
    ∃ st, rq_state g.(hg_world) id = Some st;
  gi_armed : g.(hg_settled) = false → g.(hg_pc) = OpEnd →
    ∃ id, g.(hg_target) = Some id ∧ (reads_back → rq_state g.(hg_world) id = Some it_pending);
  gi_done : g.(hg_settled) = true →
    (g.(hg_wake) = WIdle
     ∧ (g.(hg_log) = [ge_resolve gd_abort] ∧ g.(hg_aborted) = true ∨ g.(hg_log) = [ge_reject] ∧ g.(hg_target) = None))
    ∨ ∃ id st v r dm, g.(hg_target) = Some id ∧ rq_state g.(hg_world) id = Some st
        ∧ answer st = Some (v, r, dm) ∧ wake_log g.(hg_wake) v (ge_side_effects r dm (Some id)) g.(hg_log)
}.

Lemma queue_step_known w evs w' id st :
  queue_step w evs w' → rq_state w id = Some st → ∃ st', rq_state w' id = Some st'.
Proof.
  intros Hq Hst. destruct (decide (st = it_pending)) as [->|Hne].
  - destruct (qs_announced _ _ _ Hq id Hst) as [?|(st' & _ & ? & _)]; eauto.
  - exists st. by apply (qs_final _ _ _ Hq).
Qed.

Lemma answer_settled st x : answer st = Some x → st ≠ it_pending.
Proof. by intros H ->. Qed.

Lemma human_inv_settle g id st v r dm :
  hg_wake g = WIdle → hg_log g = [] → hg_pc g = OpEnd → hg_target g = Some id →
  rq_state g.(hg_world) id = Some st → answer st = Some (v, r, dm) → gate_inv (settleResumed v r dm g).
Proof.
  intros Hw Hl Hpc Ht Hst Ha. unfold settleResumed. split; simpl; try done.
  - intros i. rewrite Hpc. by intros [?|?].
  - intros _. right. exists id, st, v, r, dm. rewrite Hl, Ht. by split_and!.
Qed.

Lemma human_inv_start w signal g : resolve_gate w signal = inr g → gate_inv g.
Proof.
  destruct signal as [[]|]; [done| |]; intros [= <-]; (split; simpl; try done); by intros id [?|?].
Qed.

Lemma human_inv_env g evs w' :
  queue_step g.(hg_world) evs w' → gate_inv g → gate_inv (foldl on_change (with_world w' g) evs).
Proof.
  intros Hq [Hopen Hoff Hun Hkn Harm Hdone].
  assert (∀ id, hg_pc g = OpBack (Ok (Some id)) ∨ hg_pc g = OpFound (Ok (Some id)) →
    ∃ st, rq_state w' id = Some st) as Hkn'.
  { intros id [st Hst]%Hkn. by eapply queue_step_known. }
  destruct (hg_settled g) eqn:Hs.
  { rewrite fold_deaf by by left. split; simpl; rewrite ?Hs; try done. intros _.
    destruct (Hdone eq_refl) as [?|(id & st & v & r & dm & Ht & Hst & Ha & Hl)]; [by left|right].
    exists id, st, v, r, dm. split_and!; try done. eapply qs_final; [done..|]. by eapply answer_settled. }
  destruct (Hopen eq_refl) as (Hon & Hw & Hl).
  destruct (hg_target g) as [id|] eqn:Ht.
  2: { rewrite fold_deaf by by right. split; simpl; rewrite ?Hs, ?Ht; try done.
       intros _ Hpc. by destruct (Harm eq_refl Hpc) as (? & ? & _). }
  assert (hg_pc g = OpEnd) as Hpc.
  { destruct (hg_pc g); try done; by specialize (Hun ltac:(done)). }
  destruct (fold_armed (with_world w' g) evs id) as [[-> Hno]|(st & e & v & r & dm & Hev & Hin & Ha & ->)];
    try done.
  - split; simpl; rewrite ?Hs, ?Ht; try done. intros _ _. exists id. split; [done|]. intros Hrb.
    destruct (Harm eq_refl Hpc) as (id' & [= <-] & Hp).
    destruct (qs_announced _ _ _ Hq id (Hp Hrb)) as [?|(st & e & _ & He & Hin)]; [done|].
    by destruct (Hno st e He).
  - apply (human_inv_settle _ id st); try done. by eapply qs_truthful.
Qed.

Lemma human_inv_abort g : gate_inv g → gate_inv (on_abort g).
Proof.
  intros [Hopen Hoff Hun Hkn Harm Hdone]. unfold on_abort. simpl.
  destruct (negb (hg_abort_on g) || hg_settled g) eqn:Hc.
  - split; simpl; try done. intros Hs. destruct (Hdone Hs) as [[? [[? ?]|?]]|?]; [by left; split; [|left]|left|by right].
    by split; [|right].
  - apply orb_false_iff in Hc as [_ Hs]. destruct (Hopen Hs) as (Hon & Hw & Hl).
    split; simpl; try done. intros _. left. rewrite Hl. split; [done|]. by left.
Qed.

Lemma human_inv_reject g : hg_settled g = false → hg_target g = None → gate_inv g → gate_inv (reject_gate g).
Proof.
  intros Hs Ht [Hopen Hoff Hun Hkn Harm Hdone]. destruct (Hopen Hs) as (Hon & Hw & Hl).
  split; simpl; try done; try (by intros id [?|?]). intros _. left. rewrite Hl. split; [done|]. by right.
Qed.

Lemma human_inv_end g : hg_settled g = true → gate_inv g → gate_inv (with_pc OpEnd g).
Proof.
  intros Hs [Hopen Hoff Hun Hkn Harm Hdone]. split; simpl; try done; [by intros id [?|?]|]. by rewrite Hs.
Qed.

Lemma truthy_Some id i : truthy_id id = Some i → id = Some i.
Proof. destruct id as [j|]; simpl; [|done]. destruct (String.eqb j ""); [done|]. by intros [= ->]. Qed.

(** Arming on an item that exists. *)
Lemma human_inv_arm g id st :
  hg_settled g = false → rq_state g.(hg_world) id = Some st → gate_inv g → gate_inv (arm id g).
Proof.
  intros Hs Hst [Hopen Hoff Hun Hkn Harm Hdone]. destruct (Hopen Hs) as (Hon & Hw & Hl).
  unfold arm. simpl. destruct (go_read (hg_world g) id) as [[|r|]|] eqn:Hr.
  - split; simpl; rewrite ?Hs; try done; try (by intros i [?|?]). intros _ _. exists id. split; [done|].
    intros _. by apply go_read_sound.
  - apply go_read_sound in Hr. by eapply (human_inv_settle _ id (it_resolved r)).
  - apply go_read_sound in Hr. by eapply (human_inv_settle _ id it_dismissed).
  - split; simpl; rewrite ?Hs; try done; try (by intros i [?|?]). intros _ _. exists id. split; [done|].
    intros Hrb. apply Hrb in Hst. congruence.
Qed.

Lemma human_inv_open g g' : open_turn g = Some g' → gate_inv g → gate_inv g'.
Proof.
  intros Ho Hi. pose proof Hi as [Hopen Hoff Hun Hkn Harm Hdone]. unfold open_turn in Ho.
  assert (hg_pc g ≠ OpEnd → hg_settled g = true → hg_wake g = WIdle ∧
    (hg_log g = [ge_resolve gd_abort] ∧ hg_aborted g = true ∨ hg_log g = [ge_reject] ∧ hg_target g = None)) as Hd.
  { intros Hpc Hs. destruct (Hdone Hs) as [?|(id & _ & _ & _ & _ & Ht & _)]; [done|].
    rewrite (Hun Hpc) in Ht. done. }
  destruct (hg_pc g) as [|[id|[]]| |[id|[]]|] eqn:Hpc; [| | | | | |done]; simplify_eq.
  - destruct (go_open (hg_world g)) as [r w] eqn:Hgo. simplify_eq. split; simpl; try done.
    + by rewrite Hun.
    + intros id [[= ->]|]; [|done]. exists it_pending. by eapply go_open_pending.
    + intros Hs. left. by apply Hd.
  - destruct (hg_settled g) eqn:Hs; [by apply human_inv_end|].
    destruct (truthy_id id) as [i|] eqn:Hi'.
    + apply truthy_Some in Hi' as ->. destruct (Hkn i) as [st Hst]; [by left|]. by eapply human_inv_arm.
    + split; simpl; rewrite ?Hs; try done; try (by rewrite Hun); by intros i [?|?].
  - destruct (hg_settled g) eqn:Hs; [by apply human_inv_end|]. apply human_inv_reject; [done|by apply Hun|done].
  - split; simpl; try done; try (by rewrite Hun).
    intros id [?|[= Hf]]; [done|]. exists it_pending. by apply go_find_pending.
  - destruct (hg_settled g) eqn:Hs; [by apply human_inv_end|].
    destruct (truthy_id id) as [i|] eqn:Hi'.
    + apply truthy_Some in Hi' as ->. destruct (Hkn i) as [st Hst]; [by right|]. by eapply human_inv_arm.
    + apply human_inv_reject; [done|by apply Hun|done].
  - destruct (hg_settled g) eqn:Hs; [by apply human_inv_end|]. apply human_inv_reject; [done|by apply Hun|done].
Qed.

Lemma human_inv_wake g g' : wake_turn g = Some g' → gate_inv g → gate_inv g'.
Proof.
  intros Ho [Hopen Hoff Hun Hkn Harm Hdone]. unfold wake_turn in Ho.
  assert (hg_wake g ≠ WIdle → hg_settled g = true) as Hset.
  { intros Hw. destruct (hg_settled g); [done|]. by destruct (Hopen eq_refl) as (_ & ? & _). }
  assert (∀ p (l : list gate_effect) w, hg_wake g ≠ WIdle → (∀ id, rq_state w id = rq_state (hg_world g) id) →
    (∀ v se, wake_log (hg_wake g) v se (hg_log g) → wake_log p v se (hg_log g ++ l)) →
    gate_inv (with_wake p l (with_world w g))) as Hstep.
  { intros p l w Hne Hw Hl. specialize (Hset Hne). split; simpl; rewrite ?Hset in *; try done.
    - intros id H. rewrite Hw. by apply Hkn.
    - intros _. destruct (Hdone eq_refl) as [[? _]|(id & st & v & r & dm & Ht & Hst & Ha & Hlog)]; [done|].
      right. exists id, st, v, r, dm. rewrite Hw. split_and!; try done. by apply Hl. }
  assert (with_world (hg_world g) g = g) as Hid by by destruct g.
  destruct (hg_wake g) as [|v|v|v|] eqn:Hw; [done| | | |done]; simplify_eq.
  - rewrite <- Hid. apply Hstep; [done..|]. intros v' se. rewrite app_nil_r. done.
  - apply Hstep; [done|intros i; apply go_resume_items|]. intros v0 se [-> ->]. done.
  - rewrite <- Hid. apply Hstep; [done|done|]. intros v0 se [-> ->]. done.
Qed.

Lemma human_inv_step g g' : gate_step g g' → gate_inv g → gate_inv g'.
Proof.
  intros [g1 [g2 Ho|g2 Ho]|evs w' Hq|] Hi; [by eapply human_inv_open|by eapply human_inv_wake|by apply human_inv_env|by apply human_inv_abort].
Qed.

Lemma human_reachable w signal g0 g : resolve_gate w signal = inr g0 → rtc gate_step g0 g → gate_inv g.
Proof.
  intros H0%human_inv_start Hr. revert H0. induction Hr as [|g1 g2 g3 Hs _ IH]; [done|]. intros Hi. by apply IH, (human_inv_step g1).
Qed.

(** ** Every chain of turns ends *)

Definition open_rank (p : open_pc) : nat :=
  match p with OpCall => 4 | OpBack _ => 3 | OpFind => 2 | OpFound _ => 1 | OpEnd => 0 end.
Definition wake_rank (p : wake_pc) : nat :=
  match p with WEffects _ => 3 | WResume _ => 2 | WWake _ => 1 | _ => 0 end.
Definition turns_left (g : human_gate) : nat := 4 * open_rank g.(hg_pc) + wake_rank g.(hg_wake).

Lemma arm_rank i g : hg_pc (arm i g) = OpEnd.
Proof. unfold arm. simpl. by destruct (go_read _ i) as [[| |]|]. Qed.

Lemma wake_rank_le p : wake_rank p <= 3.
Proof. destruct p; simpl; lia. Qed.

Lemma turn_decreases g g' : turn g g' → turns_left g' < turns_left g.
Proof.
  unfold turns_left. intros [g1 Ho|g1 Ho].
  - assert (open_rank (hg_pc g1) < open_rank (hg_pc g)) as Hlt.
    { unfold open_turn in Ho.
      destruct (hg_pc g) as [|[id|[]]| |[id|[]]|]; [| | | | | |done]; try destruct (go_open (hg_world g));
        simplify_eq; simpl; try lia; destruct (hg_settled g); simpl; try lia;
        destruct (truthy_id id); simpl; rewrite ?arm_rank; simpl; lia. }
    pose proof (wake_rank_le (hg_wake g1)). lia.
  - unfold wake_turn in Ho. destruct (hg_wake g); simplify_eq; simpl; lia.
Qed.

Lemma turn_or_quiet g : quiescent g ∨ ∃ g', turn g g'.
Proof.
  unfold quiescent. destruct (open_turn g) as [g'|] eqn:Ho; [right; exists g'; by constructor|].
  destruct (wake_turn g) as [g'|] eqn:Hw; [right; exists g'; by apply turn_wake|by left].
Qed.

Lemma turn_reaches g g' : rtc turn g g' → rtc gate_step g g'.
Proof. induction 1 as [|g1 g2 g3 Ht _ IH]; [done|]. eapply rtc_l; [by apply hs_turn|done]. Qed.

(** A triage of the armed item is never missed. *)
Lemma armed_answers g evs w' id :
  hg_settled g = false → hg_on g = true → hg_target g = Some id → rq_state g.(hg_world) id = Some it_pending →
  queue_step g.(hg_world) evs w' → rq_state w' id ≠ Some it_pending →
  hg_settled (foldl on_change (with_world w' g) evs) = true.
Proof.
  intros Hs Hon Ht Hp Hq Hne.
  destruct (fold_armed (with_world w' g) evs id) as [[_ Hno]|(st & e & v & r & dm & _ & _ & _ & ->)]; try done.
  destruct (qs_announced _ _ _ Hq id Hp) as [?|(st & e & _ & He & Hin)]; [done|]. by destruct (Hno st e He).
Qed.

(** Listening on a pending item, and woken by whatever triages it. *)
Definition waiting (g : human_gate) (id : string) : Prop :=
  hg_target g = Some id ∧ hg_on g = true ∧ rq_state g.(hg_world) id = Some it_pending
  ∧ ∀ evs w', queue_step g.(hg_world) evs w' → rq_state w' id ≠ Some it_pending →
      hg_settled (foldl on_change (with_world w' g) evs) = true.

Lemma quiescent_cases g :
  reads_back → gate_inv g → quiescent g → length (settlements g) = 1 ∨ ∃ id, waiting g id.
Proof.
  intros Hrb [Hopen Hoff Hun Hkn Harm Hdone] [Ho Hw]. destruct (hg_settled g) eqn:Hs.
  - left. unfold settlements. destruct (Hdone eq_refl) as [[_ [[-> _]|[-> _]]]|(id & st & v & r & dm & _ & _ & _ & Hl)];
      [done..|].
    unfold wake_turn in Hw. destruct (hg_wake g); simpl in Hl; simplify_eq; try done. by rewrite Hl.
  - right. destruct (Hopen eq_refl) as (Hon & _ & _).
    assert (hg_pc g = OpEnd) as Hpc.
    { unfold open_turn in Ho. destruct (hg_pc g) as [|[|[]]| |[|[]]|]; try done. by destruct (go_open (hg_world g)). }
    destruct (Harm eq_refl Hpc) as (id & Ht & Hp). exists id. split_and!; [done|done|by apply Hp|].
    intros evs w' Hq Hne. by eapply armed_answers, Hne; [..|by apply Hp|].
Qed.

Lemma wake_log_cases p v se l :
  wake_log p v se l → l = [se] ∨ l = [se; ge_resume] ∨ l = [se; ge_resume; ge_resolve (gd_verdict v)].
Proof. destruct p; simpl; intros H; try destruct H as [_ H]; auto. done. Qed.

(** ** Claims *)

(** C26: Under every interleaving with the review queue and the cancel signal, one
    activation of the human gate settles at most once and then listens to nothing; it says
    abort only after a cancel, and any other verdict is the one the triaged item stands for,
    given after its side effects and the resume of the run, each done exactly once and in
    that order. *)
Theorem human_gate_exact w signal g0 g :
  resolve_gate w signal = inr g0 → rtc gate_step g0 g →
  length (settlements g) <= 1
  ∧ (settlements g ≠ [] → hg_on g = false ∧ hg_abort_on g = false)
  ∧ (ge_resolve gd_abort ∈ hg_log g → hg_aborted g = true)
  ∧ (∀ v, ge_resolve (gd_verdict v) ∈ hg_log g → ∃ id st r dm,
       hg_target g = Some id ∧ rq_state (hg_world g) id = Some st ∧ answer st = Some (v, r, dm)
       ∧ hg_log g = [ge_side_effects r dm (Some id); ge_resume; ge_resolve (gd_verdict v)]).
Proof.
  intros H0 Hr. destruct (human_reachable w signal g0 g H0 Hr) as [Hopen Hoff Hun Hkn Harm Hdone].
  unfold settlements. destruct (hg_settled g) eqn:Hs.
  2: { destruct (Hopen eq_refl) as (_ & _ & ->). split_and!; [simpl; lia|done|by intros ?%elem_of_nil|by intros v ?%elem_of_nil]. }
  destruct (Hdone eq_refl) as [[_ [[-> Hab]|[-> _]]]|(id & st & v & r & dm & Ht & Hst & Ha & Hl)].
  - split_and!; [simpl; lia|by intros _; apply Hoff|done|]. by intros v ?%list_elem_of_singleton.
  - split_and!; [simpl; lia|by intros _; apply Hoff|by intros ?%list_elem_of_singleton|].
    by intros v ?%list_elem_of_singleton.
  - apply wake_log_cases in Hl. split_and!; [|by intros _; apply Hoff| |].
    + destruct Hl as [-> |[-> | ->]]; simpl; lia.
    + intros Hin. exfalso. destruct Hl as [Hl|[Hl|Hl]]; rewrite Hl in Hin; set_solver.
    + intros v' Hin. exists id, st, r, dm.
      destruct Hl as [Hl|[Hl|Hl]]; rewrite Hl in Hin; [exfalso; set_solver..|].
      assert (v' = v) as -> by set_solver. by split_and!.
Qed.

(** C27: No answer at a human gate is lost, where an item of the review queue can be read
    back (which the modelled database provides): from every reachable state the chains of
    the gate end within nineteen turns, and then it has settled or is listening on an item
    that is still pending, whatever triages it settling the gate. *)
Theorem human_gate_answers w signal g0 g :
  reads_back → resolve_gate w signal = inr g0 → rtc gate_step g0 g →
  (∃ g', rtc turn g g' ∧ quiescent g')
  ∧ (∀ n g', nsteps turn n g g' → n <= 19)
  ∧ ∀ g', rtc turn g g' → quiescent g' → length (settlements g') = 1 ∨ ∃ id, waiting g' id.
Proof.
  intros Hrb H0 Hr. split_and!; [apply (turns_end turn turns_left quiescent turn_or_quiet turn_decreases)| |].
  - intros n g' Hn%(turns_bounded turn turns_left turn_decreases). unfold turns_left in Hn.
    assert (open_rank (hg_pc g) <= 4) by (destruct (hg_pc g); simpl; lia).
    pose proof (wake_rank_le (hg_wake g)). lia.
  - intros g' Ht Hq. apply quiescent_cases; [done| |done]. apply (human_reachable w signal g0); [done|].
    etrans; [done|by apply turn_reaches].
Qed.
End HumanGate.

(** ** On the database *)

Definition sample_texts : gate_texts := mk_gate_texts None None [].
#[local] Instance sample_queue : ReviewQueue sys := sys_queue "run-1".
#[local] Instance sample_opener : GateOpener sys :=
  sys_opener "item-1" "run-1" "review" "Review" None None sample_texts 5000%Z.

Lemma sample_reads_back : reads_back (W := sys).
Proof.
  intros s id st. simpl. unfold readGateItem, hasReviewItemsTable, items_of.
  destruct (s.(sys_db).(review_items)) as [t|]; simpl; [|by rewrite lookup_empty].
  destruct (t !! id) as [v|]; [|done]. simpl. intros [= <-]. done.
Qed.

Definition gate_world : sys := sample_sys [("run-1", running)].
Definition gate_0 : human_gate := mk_gate gate_world OpCall None false true true false WIdle [].
Definition next (f : human_gate (W := sys) → option human_gate) (g : human_gate) : human_gate := default g (f g).
Definition gate_armed : human_gate := next open_turn (next open_turn gate_0).
Definition gate_answered_world : sys :=
  set_db (exec (transitionReviewItemRow "item-1" rv_resolved "user" (Some "revise: smaller steps") 6000%Z None)
            gate_armed.(hg_world).(sys_db)) gate_armed.(hg_world).
Definition gate_answered : human_gate :=
  foldl on_change (with_world gate_answered_world gate_armed) [ev_resolved "item-1" (Some "revise: smaller steps")].
Definition gate_done : human_gate := next wake_turn (next wake_turn (next wake_turn gate_answered)).

Lemma next_reached f (g : human_gate) :
  (∀ g g', f g = Some g' → turn g g') → rtc gate_step g (next f g).
Proof. intros Hf. unfold next. destruct (f g) as [g'|] eqn:Hg; [|done]. by apply rtc_once, hs_turn, Hf. Qed.

Lemma gate_armed_reached : rtc gate_step gate_0 gate_armed.
Proof. unfold gate_armed. etrans; apply next_reached, turn_open. Qed.

Lemma gate_done_reached : rtc gate_step gate_0 gate_done.
Proof.
  etrans; [apply gate_armed_reached|]. apply (rtc_l _ _ gate_answered).
  - apply hs_env.
    destruct (items_of gate_armed.(hg_world).(sys_db) !! "item-1") as [v|] eqn:Hv; [|by vm_compute in Hv].
    apply (triage_queue_step "run-1" "item-1" rv_resolved "user" (Some "revise: smaller steps") 6000%Z None _ v Hv);
      [|done]. vm_compute in Hv. by injection Hv as <-.
  - unfold gate_done. etrans; [etrans|]; apply next_reached, turn_wake.
Qed.

Lemma human_gate_exact_witness :
  hg_log gate_done = [ge_side_effects (Some "revise: smaller steps") false (Some "item-1"); ge_resume;
                      ge_resolve (gd_verdict gw_revise)]
  ∧ status_of gate_done.(hg_world).(sys_db) "run-1" = Some running.
Proof.
  split; [|vm_compute; reflexivity].
  destruct (human_gate_exact gate_world (Some false) gate_0 gate_done eq_refl gate_done_reached) as (_ & _ & _ & H).
  destruct (H gw_revise) as (id & st & r & dm & _ & _ & _ & Hl).
  - vm_compute. right. right. left.
  - rewrite Hl. vm_compute in Hl. injection Hl as Hd Hr Hi. by subst.
Defined.

Lemma human_gate_answers_witness :
  rtc gate_step gate_0 gate_armed ∧ (length (settlements gate_armed) = 1 ∨ ∃ id, waiting gate_armed id).
Proof.
  split; [apply gate_armed_reached|].
  apply (human_gate_answers gate_world (Some false) gate_0 gate_armed sample_reads_back eq_refl gate_armed_reached);
    [done|]. split; vm_compute; reflexivity.
Defined.
