(* ===== verification/BoundaryGate.v ===== *)
(** * The blocking-items gate at a step boundary

    Models [ReviewQueueBlockingItemsGate] of
    [orchestrator/programmatic/blockingItemsGate.ts]: before a step the walk
    waits until the run has no pending blocking item.  As in [HumanGate], one
    activation is a state machine: [park_turn] is the chain that parks the run
    and looks again, [proceed_turn] the chain from cleared items to the settled
    promise.  [E] says how the rest of the process may move meanwhile. *)

From S2P Require Import Prelude RunStateMachine Database Samples ReviewItems ApprovalRouter HumanSteps GateQueue.

Inductive boundary_effect := be_resume | be_proceed | be_canceled.
#[export] Instance boundary_effect_eq_dec : EqDecision boundary_effect.
Proof. solve_decision. Defined.

Inductive park_pc := PkCall | PkBack (r : result unit bool) | PkEnd.
Inductive proceed_pc := PrIdle | PrResume | PrWake | PrDone.

Section BoundaryGate.
Context {W : Type} {Q : ReviewQueue W} {P : GateParker W}.

Record boundary_gate := mk_boundary {
  bg_world : W;
  bg_pc : park_pc;
  bg_settled : bool;
  bg_on : bool;
  bg_abort_on : bool;
  bg_aborted : bool;
  bg_wake : proceed_pc;
  bg_log : list boundary_effect
}.

Definition boundary_world (w : W) (g : boundary_gate) : boundary_gate :=
  mk_boundary w g.(bg_pc) g.(bg_settled) g.(bg_on) g.(bg_abort_on) g.(bg_aborted) g.(bg_wake) g.(bg_log).
Definition boundary_pc (p : park_pc) (g : boundary_gate) : boundary_gate :=
  mk_boundary g.(bg_world) p g.(bg_settled) g.(bg_on) g.(bg_abort_on) g.(bg_aborted) g.(bg_wake) g.(bg_log).
Definition boundary_wake (p : proceed_pc) (l : list boundary_effect) (g : boundary_gate) : boundary_gate :=
  mk_boundary g.(bg_world) g.(bg_pc) g.(bg_settled) g.(bg_on) g.(bg_abort_on) g.(bg_aborted) p (g.(bg_log) ++ l).
Definition boundary_settle (g : boundary_gate) : boundary_gate :=
  mk_boundary g.(bg_world) g.(bg_pc) true false false g.(bg_aborted) g.(bg_wake) g.(bg_log).

Definition finishProceed (g : boundary_gate) : boundary_gate :=
  if g.(bg_settled) then g else boundary_wake PrResume [] (boundary_settle g).

Definition boundary_on_change (g : boundary_gate) (e : item_event) : boundary_gate :=
  if negb g.(bg_on) || g.(bg_settled) then g
  else if negb (triage_event e) then g
  else if rq_blocked g.(bg_world) then g
  else finishProceed g.

Definition boundary_on_abort (g : boundary_gate) : boundary_gate :=
  let g := mk_boundary g.(bg_world) g.(bg_pc) g.(bg_settled) g.(bg_on) g.(bg_abort_on) true g.(bg_wake) g.(bg_log) in
  if negb g.(bg_abort_on) || g.(bg_settled) then g
  else boundary_wake g.(bg_wake) [be_canceled] (boundary_settle g).

(** The park, and the second look after it, whether it failed or not. *)
Definition park_turn (g : boundary_gate) : option boundary_gate :=
  match g.(bg_pc) with
  | PkCall => let '(r, w) := gp_park g.(bg_world) in Some (boundary_pc (PkBack r) (boundary_world w g))
  | PkBack _ =>
      let g := boundary_pc PkEnd g in
      Some (if g.(bg_settled) then g else if rq_blocked g.(bg_world) then g else finishProceed g)
  | PkEnd => None
  end.

Definition proceed_turn (g : boundary_gate) : option boundary_gate :=
  match g.(bg_wake) with
  | PrResume => Some (boundary_wake PrWake [be_resume] (boundary_world (gp_resume g.(bg_world)) g))
  | PrWake => Some (boundary_wake PrDone [be_proceed] g)
  | PrIdle | PrDone => None
  end.

(** [awaitClear]: settled at once when canceled or not blocked. *)
Definition awaitClear (w : W) (signal : option bool) : boundary_effect + boundary_gate :=
  if bool_decide (signal = Some true) then inl be_canceled
  else if negb (rq_blocked w) then inl be_proceed
  else inr (mk_boundary w PkCall false true (bool_decide (signal = Some false)) false PrIdle []).

Inductive boundary_turn (g : boundary_gate) : boundary_gate → Prop :=
  | bt_park g' : park_turn g = Some g' → boundary_turn g g'
  | bt_proceed g' : proceed_turn g = Some g' → boundary_turn g g'.

Inductive boundary_step (E : W → list item_event → W → Prop) (g : boundary_gate) : boundary_gate → Prop :=
  | bs_turn g' : boundary_turn g g' → boundary_step E g g'
  | bs_env evs w' : E g.(bg_world) evs w' → boundary_step E g (foldl boundary_on_change (boundary_world w' g) evs)
  | bs_abort : boundary_step E g (boundary_on_abort g).

Definition boundary_quiescent (g : boundary_gate) : Prop := park_turn g = None ∧ proceed_turn g = None.

(** Items are triaged through the chokepoint, and only that unblocks a run. *)
Definition triage_only (w : W) (evs : list item_event) (w' : W) : Prop :=
  queue_step w evs w' ∧ unblocks_by_triage w evs w'.

(** ** One emission *)

Lemma boundary_fold_deaf g evs :
  bg_settled g = true ∨ rq_blocked g.(bg_world) = true → foldl boundary_on_change g evs = g.
Proof.
  intros H. assert (∀ e, boundary_on_change g e = g) as He.
  { intros e. unfold boundary_on_change. destruct (negb (bg_on g)); [done|]. simpl.
    destruct H as [-> | ->]; [done|]. by destruct (bg_settled g), (negb (triage_event e)). }
  induction evs as [|e evs IH]; [done|]. simpl. by rewrite He.
Qed.

Lemma boundary_fold g evs :
  bg_settled g = false → bg_on g = true → rq_blocked g.(bg_world) = false →
  foldl boundary_on_change g evs = if existsb triage_event evs then finishProceed g else g.
Proof.
  intros Hs Hon Hb. induction evs as [|e evs IH]; [done|]. simpl.
  unfold boundary_on_change at 2. rewrite Hs, Hon, Hb. simpl. destruct (triage_event e); simpl; [|done].
  apply boundary_fold_deaf. left. unfold finishProceed. by rewrite Hs.
Qed.

(** ** The invariant *)

Definition proceed_log (p : proceed_pc) (l : list boundary_effect) : Prop :=
  match p with
  | PrIdle => False
  | PrResume => l = []
  | PrWake => l = [be_resume]
  | PrDone => l = [be_resume; be_proceed]
  end.

Record boundary_inv (g : boundary_gate) : Prop := {
  bi_open : g.(bg_settled) = false → g.(bg_on) = true ∧ g.(bg_wake) = PrIdle ∧ g.(bg_log) = [];
  bi_off : g.(bg_settled) = true → g.(bg_on) = false ∧ g.(bg_abort_on) = false;
  bi_blocked : g.(bg_settled) = false → g.(bg_pc) = PkEnd → rq_blocked g.(bg_world) = true;
  bi_done : g.(bg_settled) = true →
    (g.(bg_wake) = PrIdle ∧ g.(bg_log) = [be_canceled] ∧ g.(bg_aborted) = true)
    ∨ proceed_log g.(bg_wake) g.(bg_log)
}.

Lemma boundary_inv_finish g : g.(bg_settled) = false → boundary_inv g → boundary_inv (finishProceed g).
Proof.
  intros Hs [Hopen Hoff Hblk Hdone]. destruct (Hopen Hs) as (_ & _ & Hl). unfold finishProceed. rewrite Hs.
  split; simpl; try done. intros _. right. by rewrite Hl.
Qed.

Lemma boundary_inv_start w signal g : awaitClear w signal = inr g → boundary_inv g.
Proof. unfold awaitClear. do 2 (case_match; [done|]). intros [= <-]. by split. Qed.

Lemma boundary_inv_env g evs w' :
  triage_only g.(bg_world) evs w' → boundary_inv g → boundary_inv (foldl boundary_on_change (boundary_world w' g) evs).
Proof.
  intros [_ Hu] Hi. pose proof Hi as [Hopen Hoff Hblk Hdone].
  destruct (bg_settled g) eqn:Hs; [rewrite boundary_fold_deaf by (by left); split; simpl; by rewrite ?Hs|].
  destruct (rq_blocked w') eqn:Hb; [rewrite boundary_fold_deaf by (by right); split; simpl; by rewrite ?Hs|].
  destruct (Hopen eq_refl) as (Hon & Hw & Hl).
  rewrite boundary_fold by done. destruct (existsb triage_event evs) eqn:He.
  - unfold finishProceed. simpl. rewrite Hs. split; simpl; try done. intros _. right. by rewrite Hl.
  - split; simpl; rewrite ?Hs; try done. intros _ Hpc. exfalso.
    destruct (Hu (Hblk eq_refl Hpc) Hb) as (e & Hin & Ht).
    assert (existsb triage_event evs = true) as Hc; [|congruence].
    apply existsb_exists. exists e. split; [by apply list_elem_of_In|done].
Qed.

Lemma boundary_inv_abort g : boundary_inv g → boundary_inv (boundary_on_abort g).
Proof.
  intros [Hopen Hoff Hblk Hdone]. unfold boundary_on_abort. simpl.
  destruct (negb (bg_abort_on g) || bg_settled g) eqn:Hc.
  - split; simpl; try done. intros Hs. destruct (Hdone Hs) as [(? & ? & _)|?]; [by left|by right].
  - apply orb_false_iff in Hc as [_ Hs]. destruct (Hopen Hs) as (_ & Hw & Hl).
    split; simpl; try done. intros _. left. by rewrite Hl.
Qed.

Lemma boundary_inv_turn g g' : boundary_turn g g' → boundary_inv g → boundary_inv g'.
Proof.
  intros Ht Hi. pose proof Hi as [Hopen Hoff Hblk Hdone]. destruct Ht as [g' Ho|g' Ho].
  - unfold park_turn in Ho. destruct (bg_pc g) eqn:Hpc; [| |done].
    + destruct (gp_park (bg_world g)) as [r w]. simplify_eq. by split.
    + simplify_eq. simpl. destruct (bg_settled g) eqn:Hs; [split; simpl; by rewrite ?Hs|].
      destruct (rq_blocked (bg_world g)) eqn:Hb; [split; simpl; by rewrite ?Hs|].
      destruct (Hopen eq_refl) as (_ & _ & Hl). unfold finishProceed. simpl. rewrite Hs.
      split; simpl; try done. intros _. right. by rewrite Hl.
  - unfold proceed_turn in Ho. destruct (bg_wake g) eqn:Hw; [done| | |done]; simplify_eq;
      (destruct (bg_settled g) eqn:Hs; [|by destruct (Hopen eq_refl) as (_ & ? & _)]);
      (destruct (Hdone eq_refl) as [(? & _)|Hl]; [done|]); simpl in Hl;
      (split; simpl; rewrite ?Hs; try done); intros _; right; by rewrite Hl.
Qed.

Lemma boundary_reachable w signal g0 g :
  awaitClear w signal = inr g0 → rtc (boundary_step triage_only) g0 g → boundary_inv g.
Proof.
  intros H0%boundary_inv_start Hr. revert H0. induction Hr as [|g1 g2 g3 Hs _ IH]; [done|]. intros Hi. apply IH.
  destruct Hs as [g2 Ht|evs w' Hq|]; [by eapply boundary_inv_turn|by apply boundary_inv_env|by apply boundary_inv_abort].
Qed.

(** ** Every chain of turns ends *)

Definition boundary_turns_left (g : boundary_gate) : nat :=
  4 * match g.(bg_pc) with PkCall => 2 | PkBack _ => 1 | PkEnd => 0 end
  + match g.(bg_wake) with PrResume => 2 | PrWake => 1 | _ => 0 end.

Lemma boundary_turn_decreases g g' : boundary_turn g g' → boundary_turns_left g' < boundary_turns_left g.
Proof.
  unfold boundary_turns_left. intros [g1 Ho|g1 Ho].
  - unfold park_turn in Ho. destruct (bg_pc g); [| |done].
    + destruct (gp_park (bg_world g)). simplify_eq. simpl. destruct (bg_wake g); lia.
    + simplify_eq. simpl. unfold finishProceed. simpl. repeat case_match; simpl; simplify_eq/=; try lia.
  - unfold proceed_turn in Ho. destruct (bg_wake g); simplify_eq; simpl; lia.
Qed.
End BoundaryGate.

Section BoundaryClaims.
Context {W : Type} {Q : ReviewQueue W} {P : GateParker W}.

Lemma boundary_turn_or_quiet (g : boundary_gate) : boundary_quiescent g ∨ ∃ g', boundary_turn g g'.
Proof.
  unfold boundary_quiescent. destruct (park_turn g) as [g'|] eqn:Ho; [right; exists g'; by constructor|].
  destruct (proceed_turn g) as [g'|] eqn:Hw; [right; exists g'; by apply bt_proceed|by left].
Qed.

Lemma boundary_turn_reaches E (g g' : boundary_gate) : rtc boundary_turn g g' → rtc (boundary_step E) g g'.
Proof. induction 1 as [|g1 g2 g3 Ht _ IH]; [done|]. eapply rtc_l; [by apply bs_turn|done]. Qed.

(** Listening, blocked, and woken by whatever unblocks the run. *)
Definition boundary_waiting (g : boundary_gate) : Prop :=
  bg_settled g = false ∧ bg_on g = true ∧ rq_blocked (bg_world g) = true
  ∧ ∀ evs w', triage_only (bg_world g) evs w' → rq_blocked w' = false →
      bg_wake (foldl boundary_on_change (boundary_world w' g) evs) = PrResume.

Lemma boundary_quiescent_cases (g : boundary_gate) :
  boundary_inv g → boundary_quiescent g →
  bg_log g = [be_resume; be_proceed] ∨ bg_log g = [be_canceled] ∧ bg_aborted g = true ∨ boundary_waiting g.
Proof.
  intros [Hopen Hoff Hblk Hdone] [Ho Hw]. destruct (bg_settled g) eqn:Hs.
  - destruct (Hdone eq_refl) as [(? & ? & ?)|Hl]; [by right; left|left].
    unfold proceed_turn in Hw. by destruct (bg_wake g).
  - right. right. destruct (Hopen eq_refl) as (Hon & Hwk & _).
    assert (bg_pc g = PkEnd) as Hpc.
    { unfold park_turn in Ho. destruct (bg_pc g); try done. by destruct (gp_park (bg_world g)). }
    split_and!; [done|done|by apply Hblk|]. intros evs w' [_ Hu] Hb.
    rewrite boundary_fold by done. destruct (Hu (Hblk eq_refl Hpc) Hb) as (e & Hin & Ht).
    assert (existsb triage_event evs = true) as ->.
    { apply existsb_exists. exists e. split; [by apply list_elem_of_In|done]. }
    unfold finishProceed. simpl. by rewrite Hs.
Qed.

(** A step that settles the gate without a cancel leaves the run not blocked. *)
Lemma boundary_settles_unblocked g g' :
  boundary_inv g → boundary_step triage_only g g' → bg_settled g = false → bg_settled g' = true →
  rq_blocked (bg_world g') = false ∨ bg_log g' = [be_canceled].
Proof.
  intros [Hopen _ _ _] Hst Hs Hs'. destruct (Hopen Hs) as (Hon & Hw & Hl).
  destruct Hst as [g' [g1 Ho|g1 Ho]|evs w' _|].
  - left. unfold park_turn in Ho. destruct (bg_pc g); [| |done].
    + destruct (gp_park (bg_world g)). simplify_eq. simpl in Hs'. congruence.
    + simplify_eq. simpl in *. rewrite Hs in *. destruct (rq_blocked (bg_world g)) eqn:Hb; simpl in *; [congruence|].
      unfold finishProceed. simpl. by rewrite Hs.
  - unfold proceed_turn in Ho. by rewrite Hw in Ho.
  - left. destruct (rq_blocked w') eqn:Hb.
    + rewrite boundary_fold_deaf in Hs' by (by right). simpl in Hs'. congruence.
    + rewrite boundary_fold by done. unfold finishProceed. simpl. rewrite Hs. by destruct (existsb _ _).
  - right. unfold boundary_on_abort in *. simpl in *. rewrite Hs in *. destruct (bg_abort_on g); simpl in *; [by rewrite Hl|congruence].
Qed.

(** C28: When blocking items clear by triage only, the gate at a step boundary is never
    stranded: from every reachable state its chains end within ten turns, and then it has
    proceeded after resuming the run once, or was canceled, or is listening while the run is
    blocked and the triage that unblocks the run settles it; it proceeds only when the run
    is not blocked. *)
Theorem boundary_gate_answers w signal g0 g :
  awaitClear w signal = inr g0 → rtc (boundary_step triage_only) g0 g →
  (∃ g', rtc boundary_turn g g' ∧ boundary_quiescent g')
  ∧ (∀ n g', nsteps boundary_turn n g g' → n <= 10)
  ∧ (∀ g', rtc boundary_turn g g' → boundary_quiescent g' →
       bg_log g' = [be_resume; be_proceed] ∨ bg_log g' = [be_canceled] ∧ bg_aborted g' = true ∨ boundary_waiting g')
  ∧ (∀ g', boundary_step triage_only g g' → bg_settled g = false → bg_settled g' = true →
       rq_blocked (bg_world g') = false ∨ bg_log g' = [be_canceled]).
Proof.
  intros H0 Hr. pose proof (boundary_reachable w signal g0 g H0 Hr) as Hi. split_and!.
  - apply (turns_end _ boundary_turns_left _ boundary_turn_or_quiet boundary_turn_decreases).
  - intros n g' Hn%(turns_bounded _ boundary_turns_left boundary_turn_decreases).
    unfold boundary_turns_left in Hn. destruct (bg_pc g), (bg_wake g); lia.
  - intros g' Ht. apply boundary_quiescent_cases. apply (boundary_reachable w signal g0); [done|].
    etrans; [done|by apply boundary_turn_reaches].
  - intros g'. by apply boundary_settles_unblocked.
Qed.
End BoundaryClaims.

(** ** On the database *)

#[local] Instance boundary_queue : ReviewQueue sys := sys_queue "r1".
#[local] Instance boundary_parker : GateParker sys := sys_parker "r1" 9000%Z.

(** A run with an open approval, which blocks it. *)
Definition blocked_world : sys := exec (run_commands sample_request_cmds) (sample_sys [("r1", running)]).
Definition boundary_0 : boundary_gate := mk_boundary blocked_world PkCall false true true false PrIdle [].
Definition parked_gate : boundary_gate :=
  let step g := default g (park_turn g) in step (step boundary_0).

Lemma parked_gate_reached E : rtc (boundary_step E) boundary_0 parked_gate.
Proof.
  apply (rtc_l _ _ (default boundary_0 (park_turn boundary_0))).
  - apply bs_turn, bt_park. vm_compute. reflexivity.
  - apply rtc_once, bs_turn, bt_park. vm_compute. reflexivity.
Qed.

Lemma boundary_gate_answers_witness :
  awaitClear blocked_world (Some false) = inr boundary_0 ∧ boundary_waiting parked_gate.
Proof.
  assert (awaitClear blocked_world (Some false) = inr boundary_0) as H0 by (vm_compute; reflexivity).
  split; [exact H0|].
  destruct (boundary_gate_answers blocked_world (Some false) boundary_0 parked_gate H0 (parked_gate_reached _))
    as (_ & _ & H & _).
  destruct (H parked_gate) as [Hl|[[Hl _]|Hw]]; [apply rtc_refl|split; vm_compute; reflexivity|..|exact Hw];
    vm_compute in Hl; discriminate Hl.
Defined.

(** Marking the approval as not awaited unblocks the run with a 'mutated'
    event, which the gate ignores: nothing is pending that would wake it. *)
Definition unawaited_gate : boundary_gate :=
  boundary_world (exec (setAwaited "a1" false 9500%Z) parked_gate.(bg_world)) parked_gate.

(** The gate of a run whose only blocking item was unblocked with a change that
    is no triage: idle, not settled, and the run not blocked any more. *)
Theorem boundary_gate_stranded :
  awaitClear blocked_world (Some false) = inr boundary_0
  ∧ rtc (boundary_step queue_step) boundary_0 unawaited_gate
  ∧ boundary_quiescent unawaited_gate ∧ unawaited_gate.(bg_settled) = false
  ∧ rq_blocked unawaited_gate.(bg_world) = false.
Proof.
  split; [vm_compute; reflexivity|]. split; [|split; [split|split]; vm_compute; reflexivity].
  etrans; [apply parked_gate_reached|]. apply rtc_once.
  replace unawaited_gate with
    (foldl boundary_on_change (boundary_world (exec (setAwaited "a1" false 9500%Z) parked_gate.(bg_world)) parked_gate)
       [ev_other "rvw_1"]) by (vm_compute; reflexivity).
  apply bs_env, sys_quiet. vm_compute. reflexivity.
Qed.
