(* ===== verification/PauseGate.v ===== *)
(** * The systemic-pause gate

    Models [ReviewQueueSystemicPauseGate] of
    [orchestrator/programmatic/systemicPauseGate.ts]: a step that died on a
    usage limit or an outage waits for a human or for the advertised reset.  As
    in [HumanGate], one activation is a state machine: [open_chain] finds or
    mints the pause item, latches it, arms the timer and parks the run;
    [timer_chain] runs after the timer fired; [verdict_chain] leads from the
    first settling event to the promise.  The texts of the item (title, body,
    payload) are not part of the machine.  The queue's operations are an
    interface, because creating and triaging an item go through the
    [ReviewItemRouter]. *)

From S2P Require Import Prelude SystemicError ReviewItems HumanSteps GateQueue.

Definition AUTO_RESUME_BUFFER_MS : Z := 60000.
Definition auto_retry : string := "auto-retry: usage limit reset".

Inductive clear_verdict := pv_retry | pv_giveup | pv_canceled.
#[export] Instance clear_verdict_eq_dec : EqDecision clear_verdict.
Proof. solve_decision. Defined.

(** [SystemicPauseItemOps] and [SystemicPauseParker]; [Throw] is a rejection.
    A resolve or dismiss that is refused changes nothing. *)
Class PauseQueue (W : Type) {Q : ReviewQueue W} := {
  pq_now : W → Z;
  pq_find : W → result unit (option string);
  pq_create : W → result unit string * W;
  pq_triage : item_state → string → W → result unit unit * W;
  pq_park : W → W;
  pq_resume : W → W;
  pq_find_pending : ∀ w id, pq_find w = Ok (Some id) → rq_state w id = Some it_pending;
  pq_create_pending : ∀ w id w', pq_create w = (Ok id, w') → rq_state w' id = Some it_pending;
  pq_create_keeps : ∀ w id st, rq_state w id = Some st → rq_state (pq_create w).2 id = Some st;
  pq_triage_ok : ∀ st id w w', pq_triage st id w = (Ok tt, w') → rq_state w id = Some it_pending ∧
    ∀ i, rq_state w' i = if decide (i = id) then Some st else rq_state w i;
  pq_triage_refused : ∀ st id w w', pq_triage st id w = (Throw tt, w') → ∀ i, rq_state w' i = rq_state w i;
  pq_park_items : ∀ w i, rq_state (pq_park w) i = rq_state w i;
  pq_resume_items : ∀ w i, rq_state (pq_resume w) i = rq_state w i
}.

(** The ways of one activation that are seen from outside, in order. *)
Inductive pause_event :=
  | pe_open_failed
  | pe_timer_fired
  | pe_resume
  | pe_settled (v : clear_verdict).

Inductive pause_pc :=
  | PgFind
  | PgFound (r : result unit (option string))
  | PgCreate
  | PgCreated (r : result unit string)
  | PgPark
  | PgEnd.
Inductive timer_pc := TmIdle | TmResolve (id : string) | TmBack.
Inductive verdict_pc := PvIdle | PvResume (v : clear_verdict) | PvWake (v : clear_verdict) | PvDismiss (id : string) | PvCancel | PvDone.

Section PauseGate.
Context {W : Type} {Q : ReviewQueue W} {P : PauseQueue W}.
Variable local_time_on_day_of : Z → Z → Z → Z.
Variable date_parse : string → option Z.
(** The failing step's error text. *)
Variable error : option string.

Record pause_gate := mk_pause {
  pg_world : W;
  pg_pc : pause_pc;
  pg_target : option string;
  (* ghost: the state of the item when it was latched *)
  pg_latched : option item_state;
  pg_settled : bool;
  pg_on : bool;
  pg_abort_on : bool;
  pg_aborted : bool;
  (* the armed timer: its item and its delay *)
  pg_timer : option (string * Z);
  pg_fired : timer_pc;
  pg_wake : verdict_pc;
  pg_log : list pause_event
}.

Definition pause_world (w : W) (g : pause_gate) : pause_gate :=
  mk_pause w g.(pg_pc) g.(pg_target) g.(pg_latched) g.(pg_settled) g.(pg_on) g.(pg_abort_on) g.(pg_aborted)
    g.(pg_timer) g.(pg_fired) g.(pg_wake) g.(pg_log).
Definition pause_at (p : pause_pc) (g : pause_gate) : pause_gate :=
  mk_pause g.(pg_world) p g.(pg_target) g.(pg_latched) g.(pg_settled) g.(pg_on) g.(pg_abort_on) g.(pg_aborted)
    g.(pg_timer) g.(pg_fired) g.(pg_wake) g.(pg_log).
Definition pause_fired (p : timer_pc) (g : pause_gate) : pause_gate :=
  mk_pause g.(pg_world) g.(pg_pc) g.(pg_target) g.(pg_latched) g.(pg_settled) g.(pg_on) g.(pg_abort_on) g.(pg_aborted)
    g.(pg_timer) p g.(pg_wake) g.(pg_log).
Definition pause_wake (p : verdict_pc) (l : list pause_event) (g : pause_gate) : pause_gate :=
  mk_pause g.(pg_world) g.(pg_pc) g.(pg_target) g.(pg_latched) g.(pg_settled) g.(pg_on) g.(pg_abort_on) g.(pg_aborted)
    g.(pg_timer) g.(pg_fired) p (g.(pg_log) ++ l).

(** [settled = true; cleanup()] *)
Definition pause_settle (g : pause_gate) : pause_gate :=
  mk_pause g.(pg_world) g.(pg_pc) g.(pg_target) g.(pg_latched) true false false g.(pg_aborted)
    None g.(pg_fired) g.(pg_wake) g.(pg_log).

Definition pause_settleResumed (v : clear_verdict) (l : list pause_event) (g : pause_gate) : pause_gate :=
  if g.(pg_settled) then g else pause_wake (PvResume v) l (pause_settle g).

Definition pause_on_change (g : pause_gate) (e : item_event) : pause_gate :=
  if negb g.(pg_on) || g.(pg_settled) then g
  else match g.(pg_target) with
       | None => g
       | Some target =>
           match e with
           | ev_resolved id _ => if String.eqb id target then pause_settleResumed pv_retry [] g else g
           | ev_dismissed id => if String.eqb id target then pause_settleResumed pv_giveup [] g else g
           | ev_other _ => g
           end
       end.

(** Cancel: the item is dismissed first, when it is known. *)
Definition pause_on_abort (g : pause_gate) : pause_gate :=
  let g := mk_pause g.(pg_world) g.(pg_pc) g.(pg_target) g.(pg_latched) g.(pg_settled) g.(pg_on) g.(pg_abort_on) true
             g.(pg_timer) g.(pg_fired) g.(pg_wake) g.(pg_log) in
  if negb g.(pg_abort_on) || g.(pg_settled) then g
  else match g.(pg_target) with
       | Some id => pause_wake (PvDismiss id) [] (pause_settle g)
       | None => pause_wake PvDone [pe_settled pv_canceled] (pause_settle g)
       end.

(** The chain threw: the failure follows the normal path of the step. *)
Definition open_failed (g : pause_gate) : pause_gate := pause_settleResumed pv_giveup [pe_open_failed] (pause_at PgEnd g).

(** Latch the item and arm the timer; the park comes next. *)
Definition latch (id : string) (g : pause_gate) : pause_gate :=
  mk_pause g.(pg_world) PgPark (Some id) (rq_state g.(pg_world) id) g.(pg_settled) g.(pg_on) g.(pg_abort_on) g.(pg_aborted)
    ((λ d, (id, d + AUTO_RESUME_BUFFER_MS)%Z)
       <$> parseLimitResetDelayMs local_time_on_day_of date_parse error (pq_now g.(pg_world)))
    g.(pg_fired) g.(pg_wake) g.(pg_log).

Definition open_chain (g : pause_gate) : option pause_gate :=
  match g.(pg_pc) with
  | PgFind => Some (pause_at (PgFound (pq_find g.(pg_world))) g)
  | PgFound (Throw _) | PgCreated (Throw _) => Some (open_failed g)
  | PgFound (Ok id) =>
      Some (if g.(pg_settled) then pause_at PgEnd g
            else match truthy_id id with Some i => latch i g | None => pause_at PgCreate g end)
  | PgCreate => let '(r, w) := pq_create g.(pg_world) in Some (pause_at (PgCreated r) (pause_world w g))
  | PgCreated (Ok id) => Some (if g.(pg_settled) then pause_at PgEnd g else latch id g)
  | PgPark => Some (pause_at PgEnd (pause_world (pq_park g.(pg_world)) g))
  | PgEnd => None
  end.

(** The timer's callback. *)
Definition fire_timer (g : pause_gate) : option pause_gate :=
  match g.(pg_timer) with
  | Some (id, _) =>
      let g := mk_pause g.(pg_world) g.(pg_pc) g.(pg_target) g.(pg_latched) g.(pg_settled) g.(pg_on) g.(pg_abort_on)
                 g.(pg_aborted) None g.(pg_fired) g.(pg_wake) (g.(pg_log) ++ [pe_timer_fired]) in
      Some (if g.(pg_settled) then g else pause_fired (TmResolve id) g)
  | None => None
  end.

(** Resolve the item as the orchestrator, whose event arrives in that turn, and
    settle in any case. *)
Definition timer_chain (g : pause_gate) : option pause_gate :=
  match g.(pg_fired) with
  | TmResolve id =>
      let '(r, w) := pq_triage (it_resolved (Some auto_retry)) id g.(pg_world) in
      let g := pause_fired TmBack (pause_world w g) in
      Some (match r with Ok _ => pause_on_change g (ev_resolved id (Some auto_retry)) | Throw _ => g end)
  | TmBack => Some (pause_settleResumed pv_retry [] (pause_fired TmIdle g))
  | TmIdle => None
  end.

Definition verdict_chain (g : pause_gate) : option pause_gate :=
  match g.(pg_wake) with
  | PvResume v => Some (pause_wake (PvWake v) [pe_resume] (pause_world (pq_resume g.(pg_world)) g))
  | PvWake v => Some (pause_wake PvDone [pe_settled v] g)
  | PvDismiss id => Some (pause_wake PvCancel [] (pause_world (pq_triage it_dismissed id g.(pg_world)).2 g))
  | PvCancel => Some (pause_wake PvDone [pe_settled pv_canceled] g)
  | PvIdle | PvDone => None
  end.

Definition awaitPauseClear (w : W) (signal : option bool) : clear_verdict + pause_gate :=
  if bool_decide (signal = Some true) then inl pv_canceled
  else inr (mk_pause w PgFind None None false true (bool_decide (signal = Some false)) false None TmIdle PvIdle []).

Inductive pause_turn (g : pause_gate) : pause_gate → Prop :=
  | pt_open g' : open_chain g = Some g' → pause_turn g g'
  | pt_timer g' : timer_chain g = Some g' → pause_turn g g'
  | pt_verdict g' : verdict_chain g = Some g' → pause_turn g g'.

Inductive pause_step (g : pause_gate) : pause_gate → Prop :=
  | ps_turn g' : pause_turn g g' → pause_step g g'
  | ps_fire g' : fire_timer g = Some g' → pause_step g g'
  | ps_env evs w' : queue_step g.(pg_world) evs w' → pause_step g (foldl pause_on_change (pause_world w' g) evs)
  | ps_abort : pause_step g (pause_on_abort g).

Definition pause_quiescent (g : pause_gate) : Prop :=
  open_chain g = None ∧ timer_chain g = None ∧ verdict_chain g = None.
End PauseGate.

Section PauseInvariant.
Context {W : Type} {Q : ReviewQueue W} {P : PauseQueue W}.
Variable local_time_on_day_of : Z → Z → Z → Z.
Variable date_parse : string → option Z.
Variable error : option string.
Notation gate := (pause_gate (W := W)).
Notation open_chain := (open_chain local_time_on_day_of date_parse error).
Notation latch := (latch local_time_on_day_of date_parse error).
Notation pause_turn := (pause_turn local_time_on_day_of date_parse error).
Notation pause_step := (pause_step local_time_on_day_of date_parse error).
Notation pause_quiescent := (pause_quiescent local_time_on_day_of date_parse error).

(** ** One emission *)

(** The verdict a triaged item means. *)
Definition pause_answer (st : item_state) : option clear_verdict :=
  match st with it_resolved _ => Some pv_retry | it_dismissed => Some pv_giveup | it_pending => None end.

Lemma pause_fold_deaf (g : gate) evs :
  pg_settled g = true ∨ pg_target g = None → foldl pause_on_change g evs = g.
Proof.
  intros H. assert (∀ e, pause_on_change g e = g) as He.
  { intros e. unfold pause_on_change. destruct (negb (pg_on g)); [done|]. simpl.
    destruct H as [-> | ->]; [done|]. by destruct (pg_settled g). }
  induction evs as [|e evs IH]; [done|]. simpl. by rewrite He.
Qed.

Lemma pause_change_armed (g : gate) e id :
  pg_settled g = false → pg_on g = true → pg_target g = Some id →
  (pause_on_change g e = g ∧ ∀ st, event_of id st ≠ Some e)
  ∨ ∃ st v, event_of id st = Some e ∧ pause_answer st = Some v ∧ pause_on_change g e = pause_settleResumed v [] g.
Proof.
  intros Hs Hon Ht. unfold pause_on_change. rewrite Hs, Hon, Ht. simpl. destruct e as [i r|i|i].
  - destruct (String.eqb_spec i id) as [->|Hi]; [right; by exists (it_resolved r); eauto|left].
    split; [done|]. intros []; simpl; congruence.
  - destruct (String.eqb_spec i id) as [->|Hi]; [right; by exists it_dismissed; eauto|left].
    split; [done|]. intros []; simpl; congruence.
  - left. split; [done|]. intros []; simpl; congruence.
Qed.

Lemma pause_fold_armed (g : gate) evs id :
  pg_settled g = false → pg_on g = true → pg_target g = Some id →
  (foldl pause_on_change g evs = g ∧ ∀ st e, event_of id st = Some e → e ∉ evs)
  ∨ ∃ st e v, event_of id st = Some e ∧ e ∈ evs ∧ pause_answer st = Some v
      ∧ foldl pause_on_change g evs = pause_settleResumed v [] g.
Proof.
  intros Hs Hon Ht. induction evs as [|e evs IH].
  { left. split; [done|]. intros * _. apply not_elem_of_nil. }
  simpl. destruct (pause_change_armed g e id Hs Hon Ht) as [[He Hne]|(st & v & Hev & Ha & He)]; rewrite He.
  - destruct IH as [[IH Hno]|(st & e' & v & H1 & H2 & H3 & H4)].
    + left. split; [done|]. intros st e' H' [->|Hin]%elem_of_cons; [by eapply Hne|by eapply Hno].
    + right. exists st, e', v. split_and!; try done. by right.
  - right. exists st, e, v. split_and!; try done; [left|]. apply pause_fold_deaf. left.
    unfold pause_settleResumed. by rewrite Hs.
Qed.

(** ** The invariant *)

Definition verdicts (l : list pause_event) : list clear_verdict :=
  omap (λ e, match e with pe_settled v => Some v | _ => None end) l.

Definition verdict_reason (v : clear_verdict) (g : gate) : Prop :=
  match v with
  | pv_retry => (∃ id r, pg_target g = Some id ∧ rq_state (pg_world g) id = Some (it_resolved r)) ∨ pe_timer_fired ∈ pg_log g
  | pv_giveup => (∃ id, pg_target g = Some id ∧ rq_state (pg_world g) id = Some it_dismissed) ∨ pe_open_failed ∈ pg_log g
  | pv_canceled => pg_aborted g = true
  end.

(** The verdict on its way, or given. *)
Definition verdict_stage (v : clear_verdict) (g : gate) : Prop :=
  match pg_wake g with
  | PvIdle => False
  | PvResume v' | PvWake v' => v' = v ∧ verdicts (pg_log g) = []
  | PvDismiss _ | PvCancel => v = pv_canceled ∧ verdicts (pg_log g) = []
  | PvDone => verdicts (pg_log g) = [v]
  end.

Definition latching (p : pause_pc) : bool := match p with PgPark | PgEnd => false | _ => true end.

Record pause_inv (g : gate) : Prop := {
  pi_open : pg_settled g = false → pg_on g = true ∧ pg_wake g = PvIdle ∧ verdicts (pg_log g) = [];
  pi_off : pg_settled g = true → pg_on g = false ∧ pg_abort_on g = false ∧ pg_timer g = None;
  pi_unlatched : latching (pg_pc g) = true → pg_target g = None ∧ pg_timer g = None ∧ pg_fired g = TmIdle;
  pi_known : ∀ id, pg_pc g = PgFound (Ok (Some id)) ∨ pg_pc g = PgCreated (Ok id) →
    ∃ st, rq_state (pg_world g) id = Some st;
  pi_latched : latching (pg_pc g) = false → pg_settled g = false → ∃ id, pg_target g = Some id
    ∧ (pg_latched g = Some it_pending → rq_state (pg_world g) id = Some it_pending);
  pi_fired : pg_fired g ≠ TmIdle → pe_timer_fired ∈ pg_log g;
  pi_timer : ∀ id, pg_fired g = TmResolve id ∨ (∃ d, pg_timer g = Some (id, d)) → pg_target g = Some id;
  pi_delay : ∀ id d, pg_timer g = Some (id, d) → ∃ n d0,
    parseLimitResetDelayMs local_time_on_day_of date_parse error n = Some d0 ∧ d = (d0 + AUTO_RESUME_BUFFER_MS)%Z;
  pi_done : pg_settled g = true → ∃ v, verdict_stage v g ∧ verdict_reason v g
}.

Lemma pause_inv_settle v (g : gate) l :
  pg_settled g = false → pause_inv g → verdicts l = [] → verdict_reason v (pause_settleResumed v l g) →
  pause_inv (pause_settleResumed v l g).
Proof.
  intros Hs [Hopen Hoff Hun Hkn Hla Hfi Hti Hde Hdone] Hl Hr. destruct (Hopen Hs) as (_ & _ & Hv).
  unfold pause_settleResumed in *. rewrite Hs in *. split; simpl; try done.
  - intros Hp. by destruct (Hun Hp) as (? & ? & ?).
  - intros Hf. apply elem_of_app. left. by apply Hfi.
  - intros id [Hf|[d Hd]]; [|done]. apply Hti. by left.
  - intros _. exists v. split; [|done]. unfold verdict_stage. simpl. split; [done|].
    unfold verdicts in *. by rewrite omap_app, Hv, Hl.
Qed.

(** Reasons last: triaged items stay triaged, and the log only grows. *)
Lemma reason_mono v (g g' : gate) :
  (∀ id st, rq_state (pg_world g) id = Some st → st ≠ it_pending → rq_state (pg_world g') id = Some st) →
  pg_target g' = pg_target g → (∃ l, pg_log g' = pg_log g ++ l) → (pg_aborted g = true → pg_aborted g' = true) →
  verdict_reason v g → verdict_reason v g'.
Proof.
  intros Hst Ht [l Hl] Ha. unfold verdict_reason. rewrite Ht, Hl.
  destruct v; [intros [(id & r & ? & ?)|?]|intros [(id & ? & ?)|?]|auto].
  - left. exists id, r. split; [done|]. by apply Hst.
  - right. apply elem_of_app. by left.
  - left. exists id. split; [done|]. by apply Hst.
  - right. apply elem_of_app. by left.
Qed.

(** Moves that leave the gate's own control alone. *)
Lemma pause_inv_move w' (g : gate) :
  (∀ id st, rq_state (pg_world g) id = Some st → st ≠ it_pending → rq_state w' id = Some st) →
  (∀ id, rq_state (pg_world g) id = Some it_pending → ∃ st, rq_state w' id = Some st) →
  (∀ id, pg_settled g = false → pg_target g = Some id → rq_state (pg_world g) id = Some it_pending →
     rq_state w' id = Some it_pending) →
  pause_inv g → pause_inv (pause_world w' g).
Proof.
  intros Hfin Hex Hkeep [Hopen Hoff Hun Hkn Hla Hfi Hti Hde Hdone]. split; simpl; try done.
  - intros id [st Hst]%Hkn. destruct (decide (st = it_pending)) as [->|Hne]; eauto.
  - intros Hl Hs. destruct (Hla Hl Hs) as (id & Ht & Hp). exists id. split; [done|]. intros H. apply Hkeep; auto.
  - intros Hs. destruct (Hdone Hs) as (v & Hv & Hr). exists v. split; [done|].
    eapply reason_mono, Hr; simpl; try done. exists []. by rewrite app_nil_r.
Qed.

Lemma pause_inv_env (g : gate) evs w' :
  queue_step (pg_world g) evs w' → pause_inv g → pause_inv (foldl pause_on_change (pause_world w' g) evs).
Proof.
  intros Hq Hi. pose proof Hi as [Hopen Hoff Hun Hkn Hla Hfi Hti Hde Hdone].
  assert (∀ id st, rq_state (pg_world g) id = Some st → st ≠ it_pending → rq_state w' id = Some st) as Hfin
    by apply (qs_final _ _ _ Hq).
  assert (∀ id, rq_state (pg_world g) id = Some it_pending → ∃ st, rq_state w' id = Some st) as Hex.
  { intros id [?|(st & _ & ? & _)]%(qs_announced _ _ _ Hq); eauto. }
  destruct (pg_settled g) eqn:Hs.
  { rewrite pause_fold_deaf by by left. apply pause_inv_move; try done. congruence. }
  destruct (pg_target g) as [id|] eqn:Ht.
  2: { rewrite pause_fold_deaf by by right. apply pause_inv_move; try done. intros id _. rewrite Ht. done. }
  destruct (Hopen eq_refl) as (Hon & _ & _).
  destruct (pause_fold_armed (pause_world w' g) evs id) as [[-> Hno]|(st & e & v & Hev & Hin & Ha & ->)]; try done.
  - apply pause_inv_move; try done. intros i _. rewrite Ht. intros [= <-] Hp.
    destruct (qs_announced _ _ _ Hq id Hp) as [?|(st & e & _ & He & Hin)]; [done|]. by destruct (Hno st e He).
  - assert (rq_state w' id = Some st) as Hst by by eapply qs_truthful.
    unfold pause_settleResumed. simpl. rewrite Hs.
    split; simpl; try done.
    + intros Hl. destruct (Hun Hl) as (? & _). congruence.
    + intros i [sti Hsti]%Hkn. destruct (decide (sti = it_pending)) as [->|Hne]; eauto.
    + intros Hf. rewrite app_nil_r. auto.
    + intros i [Hf|[d Hd]]; [|done]. rewrite ?Ht. apply Hti. by left.
    + intros _. exists v. rewrite ?app_nil_r. split.
      * unfold verdict_stage. simpl. split; [done|]. rewrite app_nil_r. by apply Hopen.
      * destruct st; simpl in Ha; simplify_eq; simpl; left; [exists id, resolution|exists id]; by rewrite Ht.
Qed.

Lemma pause_inv_abort (g : gate) : pause_inv g → pause_inv (pause_on_abort g).
Proof.
  intros [Hopen Hoff Hun Hkn Hla Hfi Hti Hde Hdone]. unfold pause_on_abort. simpl.
  destruct (negb (pg_abort_on g) || pg_settled g) eqn:Hc.
  - split; simpl; try done. intros Hs. destruct (Hdone Hs) as (v & Hv & Hr). exists v. split; [done|].
    eapply reason_mono, Hr; simpl; try done. exists []. by rewrite app_nil_r.
  - apply orb_false_iff in Hc as [_ Hs]. destruct (Hopen Hs) as (Hon & Hw & Hv).
    destruct (pg_target g) as [id|] eqn:Ht.
    + split; simpl; try done.
      * intros Hl. destruct (Hun Hl) as (? & _). congruence.
      * intros Hf. apply elem_of_app. left. auto.
      * intros i [Hf|[d Hd]]; [|done]. rewrite ?Ht. apply Hti. by left.
      * intros _. exists pv_canceled. split; [|done]. unfold verdict_stage. simpl. by rewrite app_nil_r.
    + split; simpl; try done.
      * intros Hl. by destruct (Hun Hl) as (? & ? & ?).
      * intros Hf. apply elem_of_app. left. auto.
      * intros i [Hf|[d Hd]]; [|done]. rewrite ?Ht. apply Hti. by left.
      * intros _. exists pv_canceled. split; [|done]. unfold verdict_stage, verdicts in *. simpl.
        by rewrite omap_app, Hv.
Qed.

Lemma pause_inv_fire (g g' : gate) : fire_timer g = Some g' → pause_inv g → pause_inv g'.
Proof.
  unfold fire_timer. destruct (pg_timer g) as [[id d]|] eqn:Htm; [|done]. intros [= <-].
  intros [Hopen Hoff Hun Hkn Hla Hfi Hti Hde Hdone].
  destruct (pg_settled g) eqn:Hs; simpl; [destruct (Hoff eq_refl) as (_ & _ & ?); congruence|].
  destruct (Hopen eq_refl) as (Hon & Hw & Hv).
  split; simpl; try done.
  - intros _. unfold verdicts in *. by rewrite omap_app, Hv.
  - intros Hl. destruct (Hun Hl) as (? & ? & _). congruence.
  - intros _. apply elem_of_app. right. left.
  - intros i [[= <-]|[? ?]]; [|done]. apply Hti. right. by exists d.
Qed.
End PauseInvariant.

Section PauseTurns.
Context {W : Type} {Q : ReviewQueue W} {P : PauseQueue W}.
Variable local_time_on_day_of : Z → Z → Z → Z.
Variable date_parse : string → option Z.
Variable error : option string.
Notation gate := (pause_gate (W := W)).
Notation open_chain := (open_chain local_time_on_day_of date_parse error).
Notation latch := (latch local_time_on_day_of date_parse error).
Notation pause_turn := (pause_turn local_time_on_day_of date_parse error).
Notation pause_step := (pause_step local_time_on_day_of date_parse error).
Notation pause_quiescent := (pause_quiescent local_time_on_day_of date_parse error).
Notation pause_inv := (pause_inv local_time_on_day_of date_parse error).

(** The chain goes on, the gate's other state untouched. *)
Lemma pause_inv_at p (g : gate) :
  pause_inv g → (latching p = true → latching (pg_pc g) = true) →
  (latching p = false → pg_settled g = false → latching (pg_pc g) = false) →
  (∀ id, p = PgFound (Ok (Some id)) ∨ p = PgCreated (Ok id) → ∃ st, rq_state (pg_world g) id = Some st) →
  pause_inv (pause_at p g).
Proof.
  intros [Hopen Hoff Hun Hkn Hla Hfi Hti Hde Hdone] Hl1 Hl2 Hk. split; simpl; try done; auto.
Qed.

Lemma pause_inv_latch id st (g : gate) :
  pause_inv g → pg_settled g = false → latching (pg_pc g) = true → rq_state (pg_world g) id = Some st →
  pause_inv (latch id g).
Proof.
  intros [Hopen Hoff Hun Hkn Hla Hfi Hti Hde Hdone] Hs Hl Hst.
  destruct (Hun Hl) as (Ht & Htm & Hf). split; simpl; try done; try congruence.
  - intros i [?|?]; done.
  - intros _ _. exists id. split; [done|]. by rewrite Hst.
  - intros i [?|[d Hd]]; [congruence|]. destruct (parseLimitResetDelayMs _ _ _ _); by simplify_eq/=.
  - intros i d Hd. destruct (parseLimitResetDelayMs _ _ _ (pq_now (pg_world g))) as [d0|] eqn:Hp; [|done].
    simplify_eq/=. by exists (pq_now (pg_world g)), d0.
Qed.

Lemma pause_inv_open (g g' : gate) : open_chain g = Some g' → pause_inv g → pause_inv g'.
Proof.
  intros Ho Hi. pose proof Hi as [Hopen Hoff Hun Hkn Hla Hfi Hti Hde Hdone]. unfold open_chain in Ho.
  assert (latching (pg_pc g) = true → pause_inv (open_failed g)) as Hfail.
  { intros Hl. unfold open_failed. destruct (pg_settled g) eqn:Hs.
    - unfold pause_settleResumed. simpl. rewrite Hs. apply pause_inv_at; try done; [congruence|by intros id [?|?]].
    - destruct (Hopen eq_refl) as (_ & _ & Hv). destruct (Hun Hl) as (Ht & Htm & Hf).
      unfold pause_settleResumed. simpl. rewrite Hs. split; simpl; try done; try congruence.
      + by intros id [?|?].
      + intros id [?|[d ?]]; congruence.
      + intros _. exists pv_giveup. unfold verdict_stage, verdicts in *. simpl. rewrite omap_app, Hv. split; [done|].
        right. apply elem_of_app. right. left. }
  destruct (pg_pc g) as [|[id|[]]| |[id|[]]| |] eqn:Hpc; [| | | | | | |done]; simplify_eq.
  - apply pause_inv_at; rewrite ?Hpc; try done. intros id [[= Hf]|?]; [|done]. exists it_pending. by apply pq_find_pending.
  - destruct (pg_settled g) eqn:Hs; [apply pause_inv_at; rewrite ?Hpc; try done; [congruence|by intros i [?|?]]|].
    destruct (truthy_id id) as [i|] eqn:Hti'.
    + assert (id = Some i) as ->.
      { destruct id as [j|]; simpl in Hti'; [|done]. destruct (String.eqb j ""); by simplify_eq. }
      destruct (Hkn i) as [st Hst]; [by left|]. eapply pause_inv_latch; [done|done|by rewrite Hpc|done].
    + apply pause_inv_at; rewrite ?Hpc; try done. by intros i [?|?].
  - by apply Hfail.
  - destruct (pq_create (pg_world g)) as [r w] eqn:Hcr. simplify_eq.
    assert (∀ i st, rq_state (pg_world g) i = Some st → rq_state w i = Some st) as Hk.
    { intros i st Hst. apply pq_create_keeps in Hst. by rewrite Hcr in Hst. }
    apply pause_inv_at; [apply pause_inv_move; try done; eauto| | |]; simpl; rewrite ?Hpc; try done.
    intros id [?|[= ->]]; [done|]. exists it_pending. by eapply pq_create_pending.
  - destruct (pg_settled g) eqn:Hs; [apply pause_inv_at; rewrite ?Hpc; try done; [congruence|by intros i [?|?]]|].
    destruct (Hkn id) as [st Hst]; [by right|]. eapply pause_inv_latch; [done|done|by rewrite Hpc|done].
  - by apply Hfail.
  - apply pause_inv_at; simpl; rewrite ?Hpc; try done; [|by intros i [?|?]].
    apply pause_inv_move; try done; intros; rewrite pq_park_items; eauto.
Qed.

Lemma pause_inv_fired p (g : gate) :
  pause_inv g → (p = TmIdle ∨ p = TmBack ∧ pg_fired g ≠ TmIdle) → pause_inv (pause_fired p g).
Proof.
  intros [Hopen Hoff Hun Hkn Hla Hfi Hti Hde Hdone] Hp. split; simpl; try done.
  - intros Hl. destruct (Hun Hl) as (? & ? & ?). by destruct Hp as [?|[_ ?]].
  - intros Hne. destruct Hp as [?|[_ ?]]; [done|auto].
  - intros id [?|?]; [by destruct Hp as [?|[? _]]; subst|]. apply Hti. by right.
Qed.

Lemma pause_inv_timer (g g' : gate) : timer_chain g = Some g' → pause_inv g → pause_inv g'.
Proof.
  intros Ho Hi. pose proof Hi as [Hopen Hoff Hun Hkn Hla Hfi Hti Hde Hdone]. unfold timer_chain in Ho.
  destruct (pg_fired g) as [|id|] eqn:Hf; [done| |]; simplify_eq.
  - destruct (pq_triage (it_resolved (Some auto_retry)) id (pg_world g)) as [[[]|[]] w] eqn:Htr; simplify_eq.
    + apply pq_triage_ok in Htr as [Hpend Hw].
      assert (pg_target g = Some id) as Ht by (apply Hti; by left).
      assert (queue_step (pg_world g) [ev_resolved id (Some auto_retry)] w) as Hq.
      { split.
        - intros i st Hi' Hne. rewrite Hw. destruct (decide (i = id)) as [->|]; [congruence|done].
        - intros i Hi'. rewrite Hw. destruct (decide (i = id)) as [->|]; [|by left]. right.
          eexists _, _. split; [done|]. split; [done|left].
        - intros i st e He ->%list_elem_of_singleton. rewrite Hw. destruct st; simpl in He; simplify_eq.
          by rewrite decide_True. }
      apply (pause_inv_env _ _ _ (pause_fired TmBack g) _ w Hq). apply pause_inv_fired; [done|]. rewrite Hf. by right.
    + assert (∀ i, rq_state w i = rq_state (pg_world g) i) as Hw by by eapply pq_triage_refused.
      apply (pause_inv_fired TmBack (pause_world w g)); [|simpl; rewrite Hf; by right].
      apply pause_inv_move; try done; intros; rewrite Hw; eauto.
  - destruct (pg_settled g) eqn:Hs.
    + unfold pause_settleResumed. simpl. rewrite Hs. apply pause_inv_fired; [done|by left].
    + apply pause_inv_settle; [done|apply pause_inv_fired; [done|by left]|done|].
      unfold pause_settleResumed. simpl. rewrite Hs. simpl. right. rewrite app_nil_r. by apply Hfi.
Qed.

(** The verdict's chain goes on. *)
Lemma pause_inv_wake p l (g : gate) :
  pause_inv g → pg_wake g ≠ PvIdle →
  (∀ v, verdict_stage v g → verdict_stage v (pause_wake p l g)) → pause_inv (pause_wake p l g).
Proof.
  intros [Hopen Hoff Hun Hkn Hla Hfi Hti Hde Hdone] Hw Hst.
  assert (pg_settled g = true) as Hs.
  { destruct (pg_settled g); [done|]. by destruct (Hopen eq_refl) as (_ & ? & _). }
  split; simpl; try done; rewrite ?Hs; try done.
  - intros Hf. apply elem_of_app. left. auto.
  - intros _. destruct (Hdone Hs) as (v & Hv & Hr). exists v. split; [by apply Hst|].
    eapply reason_mono, Hr; simpl; try done. by exists l.
Qed.

Lemma pause_inv_verdict (g g' : gate) : verdict_chain g = Some g' → pause_inv g → pause_inv g'.
Proof.
  intros Ho Hi. unfold verdict_chain in Ho.
  assert (∀ w', (∀ id st, rq_state (pg_world g) id = Some st → st ≠ it_pending → rq_state w' id = Some st) →
    (∀ id, rq_state (pg_world g) id = Some it_pending → ∃ st, rq_state w' id = Some st) →
    pg_wake g ≠ PvIdle → pause_inv (pause_world w' g)) as Hmove.
  { intros w' H1 H2 Hw. apply pause_inv_move; [done|done| |done]. intros id Hs.
    by destruct (pi_open _ _ _ _ Hi Hs) as (_ & ? & _). }
  assert (∀ v : clear_verdict, ∀ l, verdicts l = [] → verdicts (l ++ [pe_settled v]) = [v]) as Hadd
    by (intros v l Hl; unfold verdicts in *; by rewrite omap_app, Hl).
  assert (∀ l, verdicts l = [] → verdicts (l ++ [pe_resume]) = []) as Hadd'
    by (intros l Hl; unfold verdicts in *; by rewrite omap_app, Hl).
  destruct (pg_wake g) as [|v|v|id| |] eqn:Hw; [done| | | | |done]; simplify_eq.
  - apply pause_inv_wake; simpl; rewrite ?Hw; [|done|].
    + apply Hmove; [..|done]; intros; rewrite pq_resume_items; eauto.
    + unfold verdict_stage. simpl. rewrite Hw. intros v' [-> ?]. auto.
  - apply pause_inv_wake; simpl; rewrite ?Hw; [done|done|].
    unfold verdict_stage. simpl. rewrite Hw. intros v' [-> ?]. auto.
  - apply pause_inv_wake; simpl; rewrite ?Hw; [|done|].
    + apply Hmove; [..|done]; destruct (pq_triage it_dismissed id (pg_world g)) as [[[]|[]] w] eqn:Htr; simpl.
      * apply pq_triage_ok in Htr as [Hp Hs]. intros i st Hi' Hne. rewrite Hs.
        destruct (decide (i = id)) as [->|]; [congruence|done].
      * intros i st Hi' Hne. by rewrite (pq_triage_refused _ _ _ _ Htr).
      * apply pq_triage_ok in Htr as [Hp Hs]. intros i Hi'. rewrite Hs. destruct (decide (i = id)); eauto.
      * intros i Hi'. rewrite (pq_triage_refused _ _ _ _ Htr). eauto.
    + unfold verdict_stage. simpl. rewrite Hw. intros v' [-> ?]. by rewrite app_nil_r.
  - apply pause_inv_wake; simpl; rewrite ?Hw; [done|done|].
    unfold verdict_stage. simpl. rewrite Hw. intros v' [-> ?]. auto.
Qed.

Lemma pause_inv_step (g g' : gate) : pause_step g g' → pause_inv g → pause_inv g'.
Proof.
  intros [g1 [g2 Ho|g2 Ho|g2 Ho]|g1 Ho|evs w' Hq|];
    [by apply pause_inv_open|by apply pause_inv_timer|by apply pause_inv_verdict|by apply pause_inv_fire
    |by apply pause_inv_env|by apply pause_inv_abort].
Qed.

Lemma pause_reachable w signal g0 (g : gate) :
  awaitPauseClear w signal = inr g0 → rtc pause_step g0 g → pause_inv g.
Proof.
  intros H0 Hr. assert (pause_inv g0) as Hi.
  { revert H0. unfold awaitPauseClear. case_match; [done|]. intros [= <-]. split; simpl; try done.
    - by intros id [?|?].
    - intros id [?|[? ?]]; done. }
  clear H0. revert Hi. induction Hr as [|g1 g2 g3 Hs _ IH]; [done|]. intros Hi. by apply IH, (pause_inv_step g1).
Qed.
End PauseTurns.

Section PauseClaims.
Context {W : Type} {Q : ReviewQueue W} {P : PauseQueue W}.
Variable local_time_on_day_of : Z → Z → Z → Z.
Variable date_parse : string → option Z.
Variable error : option string.
Notation gate := (pause_gate (W := W)).
Notation open_chain := (open_chain local_time_on_day_of date_parse error).
Notation pause_turn := (pause_turn local_time_on_day_of date_parse error).
Notation pause_step := (pause_step local_time_on_day_of date_parse error).
Notation pause_quiescent := (pause_quiescent local_time_on_day_of date_parse error).
Notation pause_inv := (pause_inv local_time_on_day_of date_parse error).

(** ** Every chain of turns ends *)

Definition open_left (p : pause_pc) : nat :=
  match p with PgFind => 5 | PgFound _ => 4 | PgCreate => 3 | PgCreated _ => 2 | PgPark => 1 | PgEnd => 0 end.
Definition timer_left (p : timer_pc) : nat := match p with TmResolve _ => 2 | TmBack => 1 | TmIdle => 0 end.
Definition verdict_left (p : verdict_pc) : nat :=
  match p with PvResume _ | PvDismiss _ => 2 | PvWake _ | PvCancel => 1 | PvIdle | PvDone => 0 end.
Definition pause_left (g : gate) : nat :=
  3 * (open_left g.(pg_pc) + timer_left g.(pg_fired)) + verdict_left g.(pg_wake).

Lemma verdict_left_le p : verdict_left p <= 2.
Proof. destruct p; simpl; lia. Qed.

Lemma settleResumed_control v l (g : gate) :
  pg_pc (pause_settleResumed v l g) = pg_pc g ∧ pg_fired (pause_settleResumed v l g) = pg_fired g.
Proof. unfold pause_settleResumed. by destruct (pg_settled g). Qed.

Lemma pause_change_control (g : gate) e :
  pg_pc (pause_on_change g e) = pg_pc g ∧ pg_fired (pause_on_change g e) = pg_fired g.
Proof.
  unfold pause_on_change. destruct (negb (pg_on g) || pg_settled g); [done|]. destruct (pg_target g); [|done].
  destruct e; [case_match; [apply settleResumed_control|done]..|done].
Qed.

Lemma pause_turn_decreases (g g' : gate) : pause_turn g g' → pause_left g' < pause_left g.
Proof.
  unfold pause_left. intros [g1 Ho|g1 Ho|g1 Ho].
  - assert (open_left (pg_pc g1) < open_left (pg_pc g) ∧ pg_fired g1 = pg_fired g) as [Hlt ->].
    { unfold open_chain, open_failed in Ho.
      destruct (pg_pc g) as [|[id|[]]| |[id|[]]| |]; [| | | | | | |done]; try destruct (pq_create (pg_world g));
        simplify_eq; simpl; try (split; [lia|done]);
        try (destruct (settleResumed_control pv_giveup [pe_open_failed] (pause_at PgEnd g)) as [-> ->]; simpl; split; [lia|done]);
        destruct (pg_settled g); simpl; try (split; [lia|done]).
      destruct (truthy_id id); simpl; split; done || lia. }
    pose proof (verdict_left_le (pg_wake g1)). lia.
  - assert (timer_left (pg_fired g1) < timer_left (pg_fired g) ∧ pg_pc g1 = pg_pc g) as [Hlt ->].
    { unfold timer_chain in Ho. destruct (pg_fired g) as [|id|] eqn:Hf; [done| |]; simplify_eq.
      - destruct (pq_triage _ id (pg_world g)) as [[]]; simplify_eq; simpl; [|split; [lia|done]].
        match goal with |- context [pause_on_change ?a ?b] => destruct (pause_change_control a b) as [-> ->] end.
        simpl. split; [lia|done].
      - destruct (settleResumed_control pv_retry [] (pause_fired TmIdle g)) as [-> ->]. simpl. split; [lia|done]. }
    pose proof (verdict_left_le (pg_wake g1)). lia.
  - unfold verdict_chain in Ho. destruct (pg_wake g); simplify_eq; simpl; lia.
Qed.

Lemma pause_turn_or_quiet (g : gate) : pause_quiescent g ∨ ∃ g', pause_turn g g'.
Proof.
  unfold pause_quiescent.
  destruct (open_chain g) as [g'|] eqn:H1; [right; exists g'; by constructor|].
  destruct (timer_chain g) as [g'|] eqn:H2; [right; exists g'; by apply pt_timer|].
  destruct (verdict_chain g) as [g'|] eqn:H3; [right; exists g'; by apply pt_verdict|by left].
Qed.

Lemma pause_turn_reaches (g g' : gate) : rtc pause_turn g g' → rtc pause_step g g'.
Proof. induction 1 as [|g1 g2 g3 Ht _ IH]; [done|]. eapply rtc_l; [by apply ps_turn|done]. Qed.

(** Listening on a pending item, and woken by whatever triages it. *)
Definition pause_waiting (g : gate) (id : string) : Prop :=
  pg_target g = Some id ∧ pg_on g = true ∧ rq_state g.(pg_world) id = Some it_pending
  ∧ ∀ evs w', queue_step g.(pg_world) evs w' → rq_state w' id ≠ Some it_pending →
      pg_settled (foldl pause_on_change (pause_world w' g) evs) = true.

Lemma pause_armed_answers (g : gate) evs w' id :
  pg_settled g = false → pg_on g = true → pg_target g = Some id → rq_state g.(pg_world) id = Some it_pending →
  queue_step g.(pg_world) evs w' → rq_state w' id ≠ Some it_pending →
  pg_settled (foldl pause_on_change (pause_world w' g) evs) = true.
Proof.
  intros Hs Hon Ht Hp Hq Hne.
  destruct (pause_fold_armed (pause_world w' g) evs id) as [[_ Hno]|(st & e & v & _ & _ & _ & ->)]; try done.
  - destruct (qs_announced _ _ _ Hq id Hp) as [?|(st & e & _ & He & Hin)]; [done|]. by destruct (Hno st e He).
  - unfold pause_settleResumed. simpl. by rewrite Hs.
Qed.

Lemma pause_quiescent_cases (g : gate) :
  pause_inv g → pause_quiescent g →
  length (verdicts (pg_log g)) = 1 ∨ (∃ id, pause_waiting g id) ∨ pg_latched g ≠ Some it_pending.
Proof.
  intros [Hopen Hoff Hun Hkn Hla Hfi Hti Hde Hdone] (Ho & _ & Hv). destruct (pg_settled g) eqn:Hs.
  - left. destruct (Hdone eq_refl) as (v & Hst & _). unfold verdict_stage, verdict_chain in *.
    destruct (pg_wake g); try done. by rewrite Hst.
  - right. destruct (Hopen eq_refl) as (Hon & _ & _).
    assert (latching (pg_pc g) = false) as Hpc.
    { unfold open_chain in Ho. destruct (pg_pc g) as [|[|[]]| |[|[]]| |]; try done.
      by destruct (pq_create (pg_world g)). }
    destruct (decide (pg_latched g = Some it_pending)) as [Hl|]; [left|by right].
    destruct (Hla Hpc eq_refl) as (id & Ht & Hp). exists id. split_and!; [done|done|by apply Hp|].
    intros evs w' Hq Hne. by eapply pause_armed_answers, Hne; [..|by apply Hp|].
Qed.

Lemma verdict_stage_log v (g : gate) : verdict_stage v g → verdicts (pg_log g) = [] ∨ verdicts (pg_log g) = [v].
Proof. unfold verdict_stage. destruct (pg_wake g); intuition. Qed.

(** ** Claims *)

(** C29: Under every interleaving, one activation of the systemic-pause gate gives at most
    one verdict, and then listens to nothing and has no timer armed; it says retry only if
    the pause item was resolved or the timer fired, giveup only if it was dismissed or could
    not be opened, canceled only after a cancel; an armed timer aims at the latched item
    with the advertised delay plus the buffer of a minute. *)
Theorem pause_gate_exact w signal g0 (g : gate) :
  awaitPauseClear w signal = inr g0 → rtc pause_step g0 g →
  length (verdicts (pg_log g)) <= 1
  ∧ (verdicts (pg_log g) ≠ [] → pg_on g = false ∧ pg_abort_on g = false ∧ pg_timer g = None)
  ∧ (∀ v, v ∈ verdicts (pg_log g) → verdict_reason v g)
  ∧ ∀ id d, pg_timer g = Some (id, d) → pg_target g = Some id ∧ ∃ n d0,
      parseLimitResetDelayMs local_time_on_day_of date_parse error n = Some d0 ∧ d = (d0 + AUTO_RESUME_BUFFER_MS)%Z.
Proof.
  intros H0 Hr. pose proof (pause_reachable _ _ _ w signal g0 g H0 Hr) as [Hopen Hoff Hun Hkn Hla Hfi Hti Hde Hdone].
  assert (∀ id d, pg_timer g = Some (id, d) → pg_target g = Some id) as Htm by (intros id d H; apply Hti; eauto).
  destruct (pg_settled g) eqn:Hs.
  - destruct (Hdone eq_refl) as (v & Hv%verdict_stage_log & Hrs).
    split_and!; [destruct Hv as [-> | ->]; simpl; lia|by intros _; apply Hoff| |by eauto].
    intros v' Hin. destruct Hv as [Hv|Hv]; rewrite Hv in Hin; [by apply elem_of_nil in Hin|].
    by apply list_elem_of_singleton in Hin as ->.
  - destruct (Hopen eq_refl) as (_ & _ & ->). split_and!; [simpl; lia|done|by intros v ?%elem_of_nil|by eauto].
Qed.

(** C30: From every reachable state the chains of the systemic-pause gate end within twenty-
    three turns, and then it has given its verdict, or is listening on an item that is still
    pending, whatever triages it settling the gate, or the item had already been triaged
    when it was latched. *)
Theorem pause_gate_answers w signal g0 (g : gate) :
  awaitPauseClear w signal = inr g0 → rtc pause_step g0 g →
  (∃ g', rtc pause_turn g g' ∧ pause_quiescent g')
  ∧ (∀ n g', nsteps pause_turn n g g' → n <= 23)
  ∧ ∀ g', rtc pause_turn g g' → pause_quiescent g' →
      length (verdicts (pg_log g')) = 1 ∨ (∃ id, pause_waiting g' id) ∨ pg_latched g' ≠ Some it_pending.
Proof.
  intros H0 Hr. split_and!; [apply (turns_end _ pause_left _ pause_turn_or_quiet pause_turn_decreases)| |].
  - intros n g' Hn%(turns_bounded _ pause_left pause_turn_decreases). unfold pause_left in Hn.
    assert (open_left (pg_pc g) <= 5) by (destruct (pg_pc g); simpl; lia).
    assert (timer_left (pg_fired g) <= 2) by (destruct (pg_fired g); simpl; lia).
    pose proof (verdict_left_le (pg_wake g)). lia.
  - intros g' Ht Hq. apply pause_quiescent_cases; [|done]. eapply pause_reachable; [done|].
    etrans; [done|by apply pause_turn_reaches].
Qed.
End PauseClaims.

(** ** An inbox, and what the gate loses *)

(** A queue of one run with one pause item, [p1]. *)
Record pause_inbox := mk_inbox { ib_item : option item_state; ib_running : bool }.
#[local] Instance inbox_queue : ReviewQueue pause_inbox := {
  rq_state b id := if String.eqb id "p1" then b.(ib_item) else None;
  rq_blocked b := bool_decide (b.(ib_item) = Some it_pending)
}.
#[local, refine] Instance inbox_ops : PauseQueue pause_inbox := {
  pq_now _ := 1751234000000%Z;
  pq_find b := Ok (if decide (b.(ib_item) = Some it_pending) then Some "p1" else None);
  pq_create b := match b.(ib_item) with
                 | None => (Ok "p1", mk_inbox (Some it_pending) b.(ib_running))
                 | Some _ => (Throw tt, b)
                 end;
  pq_triage st id b := if decide (id = "p1" ∧ b.(ib_item) = Some it_pending)
                       then (Ok tt, mk_inbox (Some st) b.(ib_running)) else (Throw tt, b);
  pq_park b := mk_inbox b.(ib_item) false;
  pq_resume b := mk_inbox b.(ib_item) true
}.
Proof.
  - intros w id. case_decide; [|done]. intros [= <-]. done.
  - intros w id w'. destruct (ib_item w); [done|]. by intros [= <- <-].
  - intros w id st. destruct (String.eqb_spec id "p1") as [->|Hne].
    + simpl. intros Hi. by rewrite Hi.
    + apply String.eqb_neq in Hne. unfold rq_state, inbox_queue. by rewrite Hne.
  - intros st id w w'. case_decide as Hd; [|done]. destruct Hd as [-> Hi]. intros [= <-]. split; [done|].
    intros i. simpl. destruct (String.eqb_spec i "p1") as [->|Hne]; [by rewrite decide_True|by rewrite decide_False].
  - intros st id w w'. case_decide; [done|]. by intros [= <-].
  - done.
  - done.
Defined.


Definition limit_error : option string := Some "Claude AI usage limit reached|1751234567".
Notation sample_open := (open_chain (λ _ _ _, 0%Z) (λ _, None) limit_error).
Notation sample_pause_step := (pause_step (λ _ _ _, 0%Z) (λ _, None) limit_error).

Definition inbox_gate (b : pause_inbox) : pause_gate :=
  mk_pause b PgFind None None false true true false None TmIdle PvIdle [].
Definition follow (f : pause_gate (W := pause_inbox) → option pause_gate) (n : nat) (g : pause_gate) : pause_gate :=
  Nat.iter n (λ g, default g (f g)) g.

Lemma follow_steps f n (g : pause_gate) :
  (∀ g g', f g = Some g' → sample_pause_step g g') → rtc sample_pause_step g (follow f n g).
Proof.
  intros Hf. induction n as [|n IH]; [done|]. etrans; [exact IH|].
  change (follow f (S n) g) with (default (follow f n g) (f (follow f n g))).
  destruct (f (follow f n g)) as [g'|] eqn:Ho; [|done]. simpl. by apply rtc_once, Hf.
Qed.

(** The item is minted, the run parked, the timer armed; it fires, resolves the
    item and the gate says retry. *)
Definition pause_armed : pause_gate := follow sample_open 6 (inbox_gate (mk_inbox None true)).
Definition pause_done : pause_gate := follow verdict_chain 2 (follow timer_chain 2 (follow fire_timer 1 pause_armed)).

Lemma pause_armed_reached : rtc sample_pause_step (inbox_gate (mk_inbox None true)) pause_armed.
Proof. apply follow_steps. intros. by apply ps_turn, pt_open. Qed.

Lemma pause_done_reached : rtc sample_pause_step (inbox_gate (mk_inbox None true)) pause_done.
Proof.
  etrans; [apply pause_armed_reached|]. unfold pause_done.
  etrans; [apply (follow_steps fire_timer 1); intros; by apply ps_fire|].
  etrans; [apply (follow_steps timer_chain 2); intros; by apply ps_turn, pt_timer|].
  apply follow_steps. intros. by apply ps_turn, pt_verdict.
Qed.

Lemma pause_gate_exact_witness :
  pg_timer pause_armed = Some ("p1", 627000%Z) ∧ verdicts (pg_log pause_done) = [pv_retry]
  ∧ pg_timer pause_done = None ∧ pg_world pause_done = mk_inbox (Some (it_resolved (Some auto_retry))) true.
Proof.
  split_and!; [vm_compute; reflexivity|vm_compute; reflexivity| |vm_compute; reflexivity].
  apply (pause_gate_exact _ _ limit_error (mk_inbox None true) (Some false) (inbox_gate (mk_inbox None true)) pause_done
    eq_refl pause_done_reached). vm_compute. discriminate.
Defined.

Lemma pause_gate_answers_witness : pause_waiting pause_armed "p1".
Proof.
  destruct (pause_gate_answers _ _ limit_error (mk_inbox None true) (Some false) (inbox_gate (mk_inbox None true))
    pause_armed eq_refl pause_armed_reached) as (_ & _ & H).
  destruct (H pause_armed) as [Hl|[[id Hw]|Hl]]; [done|split_and!; vm_compute; reflexivity|..].
  - vm_compute in Hl. discriminate Hl.
  - destruct Hw as (Ht & Hw). assert (id = "p1") as -> by (vm_compute in Ht; congruence). by split.
  - exfalso. apply Hl. vm_compute. reflexivity.
Defined.

(** ** What the gate loses *)

(** A pending item found, triaged before the latch: its event is ignored, and
    nothing will wake the gate. *)
Definition found_gate : pause_gate := follow sample_open 1 (inbox_gate (mk_inbox (Some it_pending) true)).
Definition missed_gate : pause_gate :=
  foldl pause_on_change (pause_world (mk_inbox (Some it_dismissed) true) found_gate) [ev_dismissed "p1"].
Definition deaf_gate : pause_gate := follow (open_chain (λ _ _ _, 0%Z) (λ _, None) None) 3 missed_gate.

Lemma inbox_triage st b r :
  ib_item b = Some it_pending → st ≠ it_pending → event_of "p1" st = Some r →
  queue_step b [r] (mk_inbox (Some st) (ib_running b)).
Proof.
  intros Hb Hne Hr. split; simpl.
  - intros id st' Hst Hne'. destruct (String.eqb id "p1"); congruence.
  - intros id. destruct (String.eqb_spec id "p1") as [->|]; [|done]. intros _. right. exists st, r. split_and!; [done..|left].
  - intros id st' e He ->%list_elem_of_singleton. destruct st, st'; simpl in *; simplify_eq; done.
Qed.

(** The item is dismissed between the gate's probe and its latch: the gate is
    idle, not settled, without a timer, and its run is parked. *)
Theorem pause_gate_lost_answer :
  ∃ g : pause_gate (W := pause_inbox),
    rtc (pause_step (λ _ _ _, 0%Z) (λ _, None) None) (inbox_gate (mk_inbox (Some it_pending) true)) g
    ∧ pause_quiescent (λ _ _ _, 0%Z) (λ _, None) None g
    ∧ pg_settled g = false ∧ pg_timer g = None ∧ ib_running (pg_world g) = false
    ∧ ib_item (pg_world g) = Some it_dismissed.
Proof.
  exists deaf_gate. split; [|unfold pause_quiescent; split_and!; vm_compute; reflexivity].
  apply (rtc_l _ _ found_gate); [by apply ps_turn, pt_open|].
  apply (rtc_l _ _ missed_gate); [by apply (ps_env _ _ _ found_gate), inbox_triage|].
  unfold deaf_gate, follow. simpl.
  eapply rtc_l; [apply ps_turn, pt_open; vm_compute; reflexivity|].
  eapply rtc_l; [apply ps_turn, pt_open; vm_compute; reflexivity|]. vm_compute. apply rtc_refl.
Qed.

(** A cancel while the item is being created leaves it pending. *)
Lemma pause_orphan_on_cancel :
  let g := follow sample_open 1 (pause_on_abort (follow sample_open 3 (inbox_gate (mk_inbox None true)))) in
  rtc sample_pause_step (inbox_gate (mk_inbox None true)) g
  ∧ pg_log g = [pe_settled pv_canceled] ∧ pg_pc g = PgEnd ∧ ib_item (pg_world g) = Some it_pending.
Proof.
  intros g. split; [|split_and!; vm_compute; reflexivity]. unfold g.
  etrans; [apply (follow_steps sample_open 3); intros; by apply ps_turn, pt_open|].
  eapply rtc_l; [apply ps_abort|]. apply follow_steps. intros. by apply ps_turn, pt_open.
Qed.
