(* ===== verification/Leases.v ===== *)
(** * Named locks and verification leases

    Models [main/src/utils/mutex.ts] and the lease pool of
    [orchestrator/verify/verificationLeases.ts].  Promises are cut at their
    [await]s: what runs between two of them is one atomic step, so a history of
    the process is a sequence of steps ([lease_step]).  The identity of a lock's
    promise is a token.  A handle's [released] flag is membership in the set
    of the handles released.  What the callers hold ([lp_live]) is ghost
    state: by the contract of [LeaseHandle] a caller ends a handle once, by
    [release] or by [quarantine]. *)

From stdpp Require Import pretty.
From S2P Require Import Prelude.

(** ** The mutex *)

Record mutex_state := mk_mutex {
  mx_locks : gmap string nat;
  mx_counts : gmap string nat;
  (* the next promise *)
  mx_next : nat
}.

Definition isLocked (m : mutex_state) (name : string) : bool := bool_decide (is_Some (m.(mx_locks) !! name)).

Definition getLockedResources (m : mutex_state) : gset string := dom m.(mx_locks).

(** Store a new lock promise. *)
Definition take_lock (name : string) (m : mutex_state) : nat * mutex_state :=
  (m.(mx_next),
   mk_mutex (<[name := m.(mx_next)]> m.(mx_locks))
     (<[name := S (default 0 (m.(mx_counts) !! name))]> m.(mx_counts)) (S m.(mx_next))).

(** The release function [acquire] returns. *)
Definition free_lock (name : string) (token : nat) (m : mutex_state) : mutex_state :=
  if decide (m.(mx_locks) !! name = Some token)
  then mk_mutex (delete name m.(mx_locks)) m.(mx_counts) m.(mx_next) else m.

(** [acquire]: the name is looked at once every 10 ms.  [polls] gives the time
    and the mutex at each look; [None]: still waiting after the last. *)
Fixpoint acquire (name : string) (timeout start : Z) (polls : list (Z * mutex_state))
    : option (result unit (nat * mutex_state)) :=
  match polls with
  | [] => None
  | (now, m) :: rest =>
      if isLocked m name then
        if (timeout <? now - start)%Z then Some (Throw tt) else acquire name timeout start rest
      else Some (Ok (take_lock name m))
  end.

Definition defaultTimeout : Z := 30000.

(** Looks at least 10 ms apart. *)
Fixpoint spaced (from : Z) (polls : list (Z * mutex_state)) : Prop :=
  match polls with
  | [] => True
  | (now, _) :: rest => (from <= now)%Z ∧ spaced (now + 10) rest
  end.

Lemma acquire_wait_late name timeout start from polls :
  spaced from polls → acquire name timeout start polls = None →
  polls = [] ∨ (from + 10 * (Z.of_nat (length polls) - 1) <= start + timeout)%Z.
Proof.
  revert from. induction polls as [|[now m] polls IH]; intros from Hsp Ha; [by left|right].
  simpl in *. destruct Hsp as [Hnow Hsp]. destruct (isLocked m name); [|done].
  destruct (Z.ltb_spec timeout (now - start)); [done|].
  destruct (IH _ Hsp Ha) as [->|Hb]; [simpl; lia|lia].
Qed.

(** [acquire] ends: after more looks than fit in the timeout it has taken the
    lock or thrown. *)
Lemma acquire_ends name timeout start polls :
  (0 <= timeout)%Z → spaced start polls → (timeout / 10 + 1 < Z.of_nat (length polls))%Z →
  acquire name timeout start polls ≠ None.
Proof.
  intros Ht Hsp Hlen Hn. destruct (acquire_wait_late _ _ _ _ _ Hsp Hn) as [->|Hb]; simpl in *.
  - assert (0 <= timeout / 10)%Z by (apply Z.div_pos; lia). lia.
  - pose proof (Z.div_mod timeout 10). pose proof (Z.mod_pos_bound timeout 10). lia.
Qed.

Lemma acquire_spec name timeout start polls :
  match acquire name timeout start polls with
  | Some (Ok r) => ∃ now m, (now, m) ∈ polls ∧ m.(mx_locks) !! name = None ∧ r = take_lock name m
  | Some (Throw _) => ∃ now m, (now, m) ∈ polls ∧ is_Some (m.(mx_locks) !! name) ∧ (timeout < now - start)%Z
  | None => ∀ now m, (now, m) ∈ polls → is_Some (m.(mx_locks) !! name)
  end.
Proof.
  induction polls as [|[now m] polls IH]; simpl; [by intros ? ? ?%elem_of_nil|].
  unfold isLocked. case_bool_decide as Hl.
  - destruct (Z.ltb_spec timeout (now - start)).
    + exists now, m. split_and!; [left|done|done].
    + destruct (acquire name timeout start polls) as [[r|u]|].
      * destruct IH as (n' & m' & ? & ?). exists n', m'. split; [by right|done].
      * destruct IH as (n' & m' & ? & ?). exists n', m'. split; [by right|done].
      * intros n' m' [[= -> ->]|Hin]%elem_of_cons; [done|by eapply IH].
  - exists now, m. split_and!; [left| |done]. by apply eq_None_not_Some.
Qed.

(** ** The lease pool *)

Definition VERIFY_SCREEN_LEASE : string := "verify:screen".
Definition verifyAgentSlot (index : nat) : string := "verify:agent:" +:+ pretty index.
Definition verifyPortLease (port : nat) : string := "verify:port:" +:+ pretty port.
Definition sprintVerifyBatchLease (batchId : string) : string := "sprint-verify-" +:+ batchId.

(** Where an activation of [tryAcquireOneOf] stands: the candidates left, a
    probe of a quarantined name in flight, its result, or a rejection. *)
Inductive try_pc :=
  | TryNext (candidates : list string)
  | TryProbe (name : string) (token : nat) (rest : list string)
  | TryDone (handle : option (string * nat))
  | TryThrown.

Record lease_pool := mk_pool {
  lp_mutex : mutex_state;
  (* the token whose release is retained; the probe and the reason are not kept *)
  lp_quarantined : gmap string nat;
  lp_released : gset (string * nat);
  lp_tries : gmap nat try_pc;
  lp_live : gset (string * nat)
}.

Definition with_mutex (m : mutex_state) (p : lease_pool) : lease_pool :=
  mk_pool m p.(lp_quarantined) p.(lp_released) p.(lp_tries) p.(lp_live).
Definition with_try (i : nat) (pc : try_pc) (p : lease_pool) : lease_pool :=
  mk_pool p.(lp_mutex) p.(lp_quarantined) p.(lp_released) (<[i := pc]> p.(lp_tries)) p.(lp_live).

(** [handle.release()] *)
Definition release_handle (h : string * nat) (p : lease_pool) : lease_pool :=
  if decide (h ∈ p.(lp_released)) then p
  else mk_pool (free_lock h.1 h.2 p.(lp_mutex)) p.(lp_quarantined) ({[h]} ∪ p.(lp_released)) p.(lp_tries) p.(lp_live).

(** Hand a handle out, or take it back from its caller. *)
Definition hand_out (h : string * nat) (p : lease_pool) : lease_pool :=
  mk_pool p.(lp_mutex) p.(lp_quarantined) p.(lp_released) p.(lp_tries) ({[h]} ∪ p.(lp_live)).
Definition hand_in (h : string * nat) (p : lease_pool) : lease_pool :=
  mk_pool p.(lp_mutex) p.(lp_quarantined) p.(lp_released) p.(lp_tries) (p.(lp_live) ∖ {[h]}).

Definition quarantine (h : string * nat) (p : lease_pool) : lease_pool :=
  mk_pool p.(lp_mutex) (<[h.1 := h.2]> p.(lp_quarantined)) p.(lp_released) p.(lp_tries) p.(lp_live).
Definition isQuarantined (p : lease_pool) (name : string) : bool := bool_decide (is_Some (p.(lp_quarantined) !! name)).

(** The tail of the loop body: take the name when it is free, else say that the
    next candidate is to be looked at. *)
Definition try_name (i : nat) (name : string) (p : lease_pool) : option lease_pool :=
  if isLocked p.(lp_mutex) name then None
  else let '(token, m) := take_lock name p.(lp_mutex) in
       Some (hand_out (name, token) (with_try i (TryDone (Some (name, token))) (with_mutex m p))).

(** Run activation [i] of [tryAcquireOneOf] to its next [await]. *)
Fixpoint try_candidates (i : nat) (candidates : list string) (p : lease_pool) : lease_pool :=
  match candidates with
  | [] => with_try i (TryDone None) p
  | name :: rest =>
      match p.(lp_quarantined) !! name with
      | Some token => with_try i (TryProbe name token rest) p
      | None => match try_name i name p with Some p' => p' | None => try_candidates i rest p end
      end
  end.

(** [probeFree] answered, or rejected: a quarantined name whose resource is free
    is released and goes through the normal acquire. *)
Definition probed (i : nat) (name : string) (token : nat) (rest : list string) (free : option bool) (p : lease_pool)
    : lease_pool :=
  match free with
  | Some true =>
    let p := release_handle (name, token)
               (mk_pool p.(lp_mutex) (delete name p.(lp_quarantined)) p.(lp_released) p.(lp_tries) p.(lp_live)) in
    match try_name i name p with Some p' => p' | None => try_candidates i rest p end
  | Some false => try_candidates i rest p
  | None => with_try i TryThrown p
  end.

(** [tryAcquireOneOf] starts: when another one may be waiting for a probe is the
    argument [overlap]. *)
Definition probing (p : lease_pool) : Prop := ∃ i name token rest, p.(lp_tries) !! i = Some (TryProbe name token rest).

Inductive lease_step (overlap : bool) (p : lease_pool) : lease_pool → Prop :=
  | ls_try i candidates :
      p.(lp_tries) !! i = None → (overlap = false → ¬ probing p) →
      lease_step overlap p (try_candidates i candidates p)
  | ls_probed i name token rest free :
      p.(lp_tries) !! i = Some (TryProbe name token rest) →
      lease_step overlap p (probed i name token rest free p)
  | ls_release h : h ∈ p.(lp_live) → lease_step overlap p (hand_in h (release_handle h p))
  | ls_quarantine h : h ∈ p.(lp_live) → lease_step overlap p (hand_in h (quarantine h p))
  (* another holder of the shared mutex *)
  | ls_lock name :
      isLocked p.(lp_mutex) name = false →
      lease_step overlap p
        (hand_out (name, (take_lock name p.(lp_mutex)).1) (with_mutex (take_lock name p.(lp_mutex)).2 p)).

Definition pool_start : lease_pool := mk_pool (mk_mutex ∅ ∅ 0) ∅ ∅ ∅ ∅.

(** ** The invariant *)

Record lease_inv (overlap : bool) (p : lease_pool) : Prop := {
  (* a handle out there holds the lock, and was not released *)
  li_live : ∀ h, h ∈ p.(lp_live) → p.(lp_mutex).(mx_locks) !! h.1 = Some h.2 ∧ h ∉ p.(lp_released);
  li_quarantined : ∀ name token, p.(lp_quarantined) !! name = Some token →
    p.(lp_mutex).(mx_locks) !! name = Some token ∧ (name, token) ∉ p.(lp_released) ∧ (name, token) ∉ p.(lp_live);
  li_spent : ∀ h, h ∈ p.(lp_released) → h.2 < p.(lp_mutex).(mx_next);
  (* a probe is about a lease its caller gave up *)
  li_probe : ∀ i name token rest, p.(lp_tries) !! i = Some (TryProbe name token rest) →
    (name, token) ∉ p.(lp_live) ∧ token < p.(lp_mutex).(mx_next);
  li_locks : ∀ name token, p.(lp_mutex).(mx_locks) !! name = Some token → token < p.(lp_mutex).(mx_next);
  (* without overlap, one probe at a time, and every lock has an owner *)
  li_serial : overlap = false →
    (∀ i j name name' token token' rest rest',
       p.(lp_tries) !! i = Some (TryProbe name token rest) →
       p.(lp_tries) !! j = Some (TryProbe name' token' rest') → i = j)
    ∧ (∀ i name token rest, p.(lp_tries) !! i = Some (TryProbe name token rest) →
         p.(lp_quarantined) !! name = Some token)
    ∧ ∀ name token, p.(lp_mutex).(mx_locks) !! name = Some token →
        (name, token) ∈ p.(lp_live) ∨ p.(lp_quarantined) !! name = Some token
}.

(** Taking a free lock. *)
Lemma inv_take overlap name (p : lease_pool) :
  isLocked p.(lp_mutex) name = false → lease_inv overlap p →
  lease_inv overlap (hand_out (name, (take_lock name p.(lp_mutex)).1) (with_mutex (take_lock name p.(lp_mutex)).2 p)).
Proof.
  unfold isLocked. intros Hn%bool_decide_eq_false [Hl Hq Hs Hp Hf Hser]. apply eq_None_not_Some in Hn.
  split; simpl.
  - intros h [->%elem_of_singleton|Hh]%elem_of_union; simpl.
    + rewrite lookup_insert_eq. split; [done|]. intros Hin%Hs. simpl in Hin. lia.
    + destruct (Hl h Hh) as [Hh1 Hh2]. rewrite lookup_insert_ne; [done|congruence].
  - intros name' t Ht. destruct (Hq _ _ Ht) as (H1 & H2 & H3). rewrite lookup_insert_ne by congruence.
    split_and!; [done|done|]. intros [[= -> ->]%elem_of_singleton|?]%elem_of_union; [congruence|done].
  - intros h Hh%Hs. lia.
  - intros i name' t rest Ht. destruct (Hp _ _ _ _ Ht) as [H1 H2]. split; [|lia].
    intros [[= -> ->]%elem_of_singleton|?]%elem_of_union; [lia|done].
  - intros name' t [[-> <-]|[_ Ht]]%lookup_insert_Some; [lia|]. apply Hf in Ht. lia.
  - intros Ho. destruct (Hser Ho) as (S1 & S2 & S3). split_and!; [done|done|].
    intros name' t [[-> <-]|[_ Ht]]%lookup_insert_Some; [left; set_solver|]. destruct (S3 _ _ Ht); set_solver.
Qed.

(** A try that is not waiting for a probe may stand anywhere. *)
Lemma inv_with_try overlap i pc (p : lease_pool) :
  lease_inv overlap p →
  (∀ name token rest, pc = TryProbe name token rest → p.(lp_quarantined) !! name = Some token
     ∧ (overlap = false → ∀ j name' token' rest', p.(lp_tries) !! j = Some (TryProbe name' token' rest') → i = j)) →
  lease_inv overlap (with_try i pc p).
Proof.
  intros [Hl Hq Hs Hp Hf Hser] Hpc. split; simpl; try done.
  - intros j name token rest [[-> ->]|[_ Hj]]%lookup_insert_Some; [|by eapply Hp].
    destruct (Hpc _ _ _ eq_refl) as [Hqn _]. destruct (Hq _ _ Hqn) as (Hln & _ & ?). split; [done|by eapply Hf].
  - intros Ho. destruct (Hser Ho) as (S1 & S2 & S3). split_and!; [| |done].
    + intros i1 i2 * H1 H2. apply lookup_insert_Some in H1 as [[<- E1]|[_ H1]], H2 as [[<- E2]|[_ H2]]; subst.
      * done.
      * destruct (Hpc _ _ _ eq_refl) as [_ H]. by eapply H.
      * destruct (Hpc _ _ _ eq_refl) as [_ H]. symmetry. by eapply H.
      * by eapply S1.
    + intros j name token rest [[-> ->]|[_ Hj]]%lookup_insert_Some; [by apply (Hpc _ _ rest)|by eapply S2].
Qed.

Lemma inv_try_name overlap i name (p p' : lease_pool) :
  try_name i name p = Some p' → lease_inv overlap p → lease_inv overlap p'.
Proof.
  unfold try_name. destruct (isLocked _ name) eqn:Hn; [done|]. intros [= <-] Hi.
  pose proof (inv_take _ _ _ Hn Hi) as Ht.
  refine (inv_with_try overlap i (TryDone (Some (name, mx_next (lp_mutex p)))) _ Ht _). done.
Qed.

Lemma inv_try_candidates overlap i candidates (p : lease_pool) :
  lease_inv overlap p →
  (overlap = false → ∀ j name token rest, p.(lp_tries) !! j = Some (TryProbe name token rest) → i = j) →
  lease_inv overlap (try_candidates i candidates p).
Proof.
  intros Hi Ho. induction candidates as [|name rest IH]; simpl; [by apply inv_with_try|].
  destruct (lp_quarantined p !! name) as [token|] eqn:Hq.
  - apply inv_with_try; [done|]. intros ? ? ? [= <- <- <-]. done.
  - destruct (try_name i name p) as [p'|] eqn:Ht; [by eapply inv_try_name|done].
Qed.

(** The quarantined lock whose resource is free is released. *)
Lemma inv_unquarantine overlap i name token rest (p : lease_pool) :
  lease_inv overlap p → p.(lp_tries) !! i = Some (TryProbe name token rest) →
  lease_inv overlap (release_handle (name, token)
    (mk_pool p.(lp_mutex) (delete name p.(lp_quarantined)) p.(lp_released)
       (<[i := TryNext rest]> p.(lp_tries)) p.(lp_live))).
Proof.
  intros [Hl Hq Hs Hp Hf Hser] Hi. destruct (Hp _ _ _ _ Hi) as [Hni Hlt].
  unfold release_handle. simpl.
  assert (∀ j name' token' rest', (<[i:=TryNext rest]> (lp_tries p)) !! j = Some (TryProbe name' token' rest') →
    i ≠ j ∧ lp_tries p !! j = Some (TryProbe name' token' rest')) as Htry
    by (intros * [[_ ?]|?]%lookup_insert_Some; done).
  assert (overlap = false → ∀ j name' token' rest', (<[i:=TryNext rest]> (lp_tries p)) !! j = Some (TryProbe name' token' rest') → False) as Hone.
  { intros Ho * [Hne Hj]%Htry. destruct (Hser Ho) as (S1 & _). by eapply Hne, S1. }
  destruct (decide ((name, token) ∈ lp_released p)) as [Hr|Hr].
  - split; simpl; try done.
    + intros name' t [_ Ht]%lookup_delete_Some. by apply Hq.
    + intros j name' t rest' [_ Hj]%Htry. by eapply Hp.
    + intros Ho. destruct (Hser Ho) as (S1 & S2 & S3). exfalso.
      apply S2 in Hi. by destruct (Hq _ _ Hi) as (_ & ? & _).
  - assert (mx_next (free_lock name token (lp_mutex p)) = mx_next (lp_mutex p)) as Hnx
      by (unfold free_lock; by destruct (decide _)).
    assert (∀ n t, (n, t) ≠ (name, token) → mx_locks (lp_mutex p) !! n = Some t →
      mx_locks (free_lock name token (lp_mutex p)) !! n = Some t) as Hkeep.
    { intros n t Hne Hn. unfold free_lock. destruct (decide _) as [Hd|]; [|done]. simpl.
      rewrite lookup_delete_ne; [done|]. intros <-. congruence. }
    assert (∀ n t, mx_locks (free_lock name token (lp_mutex p)) !! n = Some t →
      (n, t) ≠ (name, token) ∧ mx_locks (lp_mutex p) !! n = Some t) as Hback.
    { intros n t. unfold free_lock. destruct (decide _) as [Hd|Hd]; simpl.
      - intros [? ?]%lookup_delete_Some. split; [congruence|done].
      - intros Hn. split; [|done]. intros [= -> ->]. done. }
    split; simpl; rewrite ?Hnx.
    + intros h Hh. destruct (Hl h Hh) as [H1 H2]. destruct h as [n t]. simpl in *.
      assert ((n, t) ≠ (name, token)) by congruence. split; [by apply Hkeep|set_solver].
    + intros name' t [Hne Ht]%lookup_delete_Some. destruct (Hq _ _ Ht) as (H1 & H2 & H3).
      assert ((name', t) ≠ (name, token)) by congruence. split_and!; [by apply Hkeep|set_solver|done].
    + intros h [->%elem_of_singleton|Hh]%elem_of_union; [done|by apply Hs].
    + intros j name' t rest' [_ Hj]%Htry. by eapply Hp.
    + intros n t [_ Hn]%Hback. by eapply Hf.
    + intros Ho. split_and!.
      * intros * H1 _. by exfalso; eapply Hone.
      * intros * H1. by exfalso; eapply Hone.
      * intros n t [Hne Hn]%Hback. destruct (Hser Ho) as (_ & S2 & S3). destruct (S3 _ _ Hn) as [?|Hqn]; [by left|right].
        rewrite lookup_delete_ne; [done|]. intros <-. apply S2 in Hi. congruence.
Qed.

(** A caller ends a handle. *)
Lemma inv_release overlap h (p : lease_pool) :
  h ∈ p.(lp_live) → lease_inv overlap p → lease_inv overlap (hand_in h (release_handle h p)).
Proof.
  intros Hh [Hl Hq Hs Hp Hf Hser]. destruct (Hl h Hh) as [Hlk Hr]. destruct h as [name token]. simpl in *.
  unfold release_handle. rewrite decide_False by done. unfold free_lock. simpl. rewrite decide_True by done.
  split; simpl.
  - intros [n t] [Hn Hne]%elem_of_difference. destruct (Hl _ Hn) as [H1 H2]. simpl in *.
    split; [|set_solver]. rewrite lookup_delete_ne; [done|]. intros <-. assert (t = token) as -> by congruence. set_solver.
  - intros n t Hn. destruct (Hq _ _ Hn) as (H1 & H2 & H3).
    assert (name ≠ n) by (intros <-; assert (t = token) as -> by congruence; done).
    rewrite lookup_delete_ne by done. split_and!; [done|set_solver|set_solver].
  - intros h [->%elem_of_singleton|?]%elem_of_union; [by eapply Hf|by apply Hs].
  - intros i n t rest Hi. destruct (Hp _ _ _ _ Hi). split; [set_solver|done].
  - intros n t [_ Hn]%lookup_delete_Some. by eapply Hf.
  - intros Ho. destruct (Hser Ho) as (S1 & S2 & S3). split_and!; [done|done|].
    intros n t [Hne Hn]%lookup_delete_Some. destruct (S3 _ _ Hn); [left|by right]. set_solver.
Qed.

Lemma inv_quarantine overlap h (p : lease_pool) :
  h ∈ p.(lp_live) → lease_inv overlap p → lease_inv overlap (hand_in h (quarantine h p)).
Proof.
  intros Hh [Hl Hq Hs Hp Hf Hser]. destruct (Hl h Hh) as [Hlk Hr]. destruct h as [name token]. simpl in *.
  assert (lp_quarantined p !! name = None) as Hnone.
  { destruct (lp_quarantined p !! name) as [t|] eqn:E; [|done]. destruct (Hq _ _ E) as (? & _ & ?).
    assert (t = token) as -> by congruence. done. }
  split; simpl; try done.
  - intros n [Hn _]%elem_of_difference. by apply Hl.
  - intros n t [[<- <-]|[_ Hn]]%lookup_insert_Some; [set_solver|]. destruct (Hq _ _ Hn) as (? & ? & ?). set_solver.
  - intros i n t rest Hi. destruct (Hp _ _ _ _ Hi). split; [set_solver|done].
  - intros Ho. destruct (Hser Ho) as (S1 & S2 & S3). split_and!; [done| |].
    + intros i n t rest Hi%S2. rewrite lookup_insert_ne; [done|congruence].
    + intros n t Hn. destruct (decide (n = name)) as [->|Hne].
      * right. rewrite lookup_insert_eq. congruence.
      * rewrite lookup_insert_ne by done. destruct (S3 _ _ Hn); [left|by right]. set_solver.
Qed.

(** The entry of an activation only matters while it waits for a probe. *)
Lemma try_candidates_over i pc candidates (p : lease_pool) :
  try_candidates i candidates (with_try i pc p) = try_candidates i candidates p.
Proof.
  induction candidates as [|name rest IH]; simpl; unfold with_try; simpl; [by rewrite insert_insert_eq|].
  destruct (lp_quarantined p !! name); [by rewrite insert_insert_eq|].
  unfold try_name. simpl. destruct (isLocked _ name); [done|]. unfold with_try, hand_out, with_mutex. simpl.
  by rewrite insert_insert_eq.
Qed.

Lemma try_name_over i pc name (p : lease_pool) : try_name i name (with_try i pc p) = try_name i name p.
Proof.
  unfold try_name. simpl. destruct (isLocked _ name); [done|]. unfold with_try, hand_out, with_mutex. simpl.
  by rewrite insert_insert_eq.
Qed.

Lemma inv_lease_step overlap (p p' : lease_pool) : lease_step overlap p p' → lease_inv overlap p → lease_inv overlap p'.
Proof.
  intros Hst Hi. destruct Hst as [i candidates Hn Ho|i name token rest free Hp|h Hh|h Hh|name Hn].
  - apply inv_try_candidates; [done|]. intros H * Hj. exfalso. apply (Ho H). by eexists _, _, _, _.
  - assert (∀ j n t r, overlap = false → lp_tries p !! j = Some (TryProbe n t r) → i = j) as Hone.
    { intros * Ho Hj. destruct (li_serial _ _ Hi Ho) as (S1 & _). by eapply S1. }
    destruct free as [[|]|]; simpl; [|by apply inv_try_candidates; eauto|by apply inv_with_try].
    pose proof (inv_unquarantine _ _ _ _ _ _ Hi Hp) as Hu.
    set (q := mk_pool (lp_mutex p) (delete name (lp_quarantined p)) (lp_released p) (lp_tries p) (lp_live p)).
    assert (release_handle (name, token) (with_try i (TryNext rest) q) = with_try i (TryNext rest) (release_handle (name, token) q)) as He
      by (unfold release_handle; simpl; by destruct (decide _)).
    change (lease_inv overlap (release_handle (name, token) (with_try i (TryNext rest) q))) in Hu. rewrite He in Hu.
    rewrite <- (try_name_over i (TryNext rest)), <- (try_candidates_over i (TryNext rest)).
    destruct (try_name i name _) as [p'|] eqn:Ht; [by eapply inv_try_name|].
    apply inv_try_candidates; [done|]. intros Ho j n t r. unfold release_handle.
    destruct (decide _); simpl; intros [[_ ?]|[_ Hj]]%lookup_insert_Some; [done|by eapply Hone|done|by eapply Hone].
  - by apply inv_release.
  - by apply inv_quarantine.
  - by apply inv_take.
Qed.

Lemma pool_reachable overlap (p : lease_pool) : rtc (lease_step overlap) pool_start p → lease_inv overlap p.
Proof.
  intros Hr. assert (lease_inv overlap pool_start) as H0.
  { split; simpl; try (intros; set_solver); intros; try (by rewrite lookup_empty in *). }
  revert H0. induction Hr as [|p1 p2 p3 Hs _ IH]; [done|]. intros H. by apply IH, (inv_lease_step _ p1).
Qed.

(** ** Claims *)

Lemma live_size (l : gset (string * nat)) (names : list string) :
  (∀ name t t', (name, t) ∈ l → (name, t') ∈ l → t = t') →
  size (filter (λ h, h.1 ∈ names) l) <= length names.
Proof.
  intros Hf. set (s := filter (λ h : string * nat, h.1 ∈ names) l).
  assert (NoDup (elements s).*1) as Hnd.
  { apply NoDup_fmap_2_strong; [|apply NoDup_elements]. intros [n t] [n' t'] H1 H2 Hn. simpl in Hn. subst n'.
    apply elem_of_elements, elem_of_filter in H1 as [_ H1], H2 as [_ H2]. f_equal. by eapply Hf. }
  change (length (elements s) <= length names). rewrite <- (length_fmap fst).
  apply submseteq_length, NoDup_submseteq; [done|].
  intros n [[n' t] [-> Hin]]%list_elem_of_fmap. by apply elem_of_elements, elem_of_filter in Hin as [? _].
Qed.

(** C35: On every history of the process, a lease name is held by at most one caller at a
    time, a held name is locked and not quarantined, and n slot names never have more than n
    holders; without overlapping probes every locked name still has an owner. *)
Theorem lease_pool_safe overlap (p : lease_pool) :
  rtc (lease_step overlap) pool_start p →
  (∀ name t t', (name, t) ∈ p.(lp_live) → (name, t') ∈ p.(lp_live) → t = t')
  ∧ (∀ name t, (name, t) ∈ p.(lp_live) → isLocked p.(lp_mutex) name = true ∧ isQuarantined p name = false)
  ∧ (∀ names, size (filter (λ h, h.1 ∈ names) p.(lp_live)) <= length names)
  ∧ (overlap = false → ∀ name, isLocked p.(lp_mutex) name = true →
       isQuarantined p name = true ∨ ∃ t, (name, t) ∈ p.(lp_live)).
Proof.
  intros Hr%pool_reachable. destruct Hr as [Hl Hq _ _ _ Hser].
  assert (∀ name t t', (name, t) ∈ p.(lp_live) → (name, t') ∈ p.(lp_live) → t = t') as Hone.
  { intros name t t' [H _]%Hl [H' _]%Hl. simpl in *. congruence. }
  split_and!; [done| |by intros names; apply live_size|].
  - intros name t Hin. destruct (Hl _ Hin) as [Hk _]. simpl in Hk. split; [by apply bool_decide_eq_true; eexists|].
    apply bool_decide_eq_false. intros [t' Ht']. destruct (Hq _ _ Ht') as (Hk' & _ & Hnl).
    assert (t' = t) as -> by congruence. done.
  - intros Ho name [t Ht]%bool_decide_eq_true. destruct (Hser Ho) as (_ & _ & S3).
    destruct (S3 _ _ Ht) as [?|Hqn]; [right; by exists t|left]. apply bool_decide_eq_true. by eexists.
Qed.

(** The result of an activation that meets no quarantined name: the first free
    candidate, or nothing when all are taken. *)
Lemma try_candidates_free i candidates (p : lease_pool) :
  (∀ name, name ∈ candidates → p.(lp_quarantined) !! name = None) →
  match List.find (λ name, negb (isLocked p.(lp_mutex) name)) candidates with
  | Some name => ∃ token, (try_candidates i candidates p).(lp_tries) !! i = Some (TryDone (Some (name, token)))
      ∧ (try_candidates i candidates p).(lp_live) = {[(name, token)]} ∪ p.(lp_live)
  | None => (try_candidates i candidates p).(lp_tries) !! i = Some (TryDone None)
      ∧ (try_candidates i candidates p).(lp_live) = p.(lp_live)
  end.
Proof.
  induction candidates as [|name rest IH]; intros Hq; simpl; [by rewrite lookup_insert_eq|].
  rewrite (Hq name) by left. unfold try_name. destruct (isLocked _ name) eqn:Hl; simpl.
  - apply IH. intros n Hn. apply Hq. by right.
  - eexists. by rewrite lookup_insert_eq.
Qed.

(** Two probes of one quarantined port that overlap: the second ends after the
    first took the port and quarantined it again, drops the new entry, and the
    port stays locked with no one to release it. *)
Lemma overlapping_probes_leak :
  ∃ p, rtc (lease_step true) pool_start p
    ∧ isLocked p.(lp_mutex) "verify:port:4100" = true
    ∧ isQuarantined p "verify:port:4100" = false ∧ p.(lp_live) = ∅.
Proof.
  set (n := "verify:port:4100").
  set (p1 := hand_out (n, 0) (with_mutex (take_lock n pool_start.(lp_mutex)).2 pool_start)).
  set (p2 := hand_in (n, 0) (quarantine (n, 0) p1)).
  set (p3 := try_candidates 0 [n] p2). set (p4 := try_candidates 1 [n] p3).
  set (p5 := probed 0 n 0 [] (Some true) p4). set (p6 := hand_in (n, 1) (quarantine (n, 1) p5)).
  set (p7 := probed 1 n 0 [] (Some true) p6).
  exists p7. split; [|split_and!; vm_compute; reflexivity].
  apply (rtc_l _ _ p1); [by apply (ls_lock true pool_start n)|].
  apply (rtc_l _ _ p2); [apply ls_quarantine; apply (bool_decide_unpack _); vm_compute; exact I|].
  apply (rtc_l _ _ p3); [apply ls_try; [by vm_compute|done]|].
  apply (rtc_l _ _ p4); [apply ls_try; [by vm_compute|done]|].
  apply (rtc_l _ _ p5); [apply ls_probed; by vm_compute|].
  apply (rtc_l _ _ p6); [apply ls_quarantine; apply (bool_decide_unpack _); vm_compute; exact I|].
  apply rtc_once, ls_probed. by vm_compute.
Qed.

(** Two deployments over two slots, and a third that finds none free. *)
Definition agent_slots : list string := verifyAgentSlot <$> seq 0 2.
Definition two_deployed : lease_pool :=
  try_candidates 2 agent_slots (try_candidates 1 agent_slots (try_candidates 0 agent_slots pool_start)).

Lemma lease_pool_safe_witness :
  two_deployed.(lp_tries) !! 2 = Some (TryDone None)
  ∧ size (filter (λ h, h.1 ∈ agent_slots) two_deployed.(lp_live)) = 2
  ∧ size (filter (λ h, h.1 ∈ agent_slots) two_deployed.(lp_live)) <= length agent_slots.
Proof.
  split_and!; [vm_compute; reflexivity|vm_compute; reflexivity|].
  apply (lease_pool_safe true). unfold two_deployed.
  apply (rtc_l _ _ (try_candidates 0 agent_slots pool_start)); [apply ls_try; [vm_compute; reflexivity|done]|].
  apply (rtc_l _ _ (try_candidates 1 agent_slots (try_candidates 0 agent_slots pool_start)));
    [apply ls_try; [vm_compute; reflexivity|done]|].
  apply rtc_once, ls_try; [vm_compute; reflexivity|done].
Defined.

(** ** An await bounded by an abort *)

Section Race.
Context {A E : Type}.

Inductive race_event := re_resolved (a : A) | re_rejected (e : E) | re_abort.
Inductive race_outcome := ro_value (a : A) | ro_error (e : E) | ro_aborted.

Record race := mk_race { rc_settled : option race_outcome; rc_listening : bool; rc_detached : nat }.

Definition race_on (r : race) (e : race_event) : race :=
  match e with
  | re_abort =>
      if r.(rc_listening) then
        match r.(rc_settled) with
        | Some _ => mk_race r.(rc_settled) false r.(rc_detached)
        | None => mk_race (Some ro_aborted) false r.(rc_detached)
        end
      else r
  | re_resolved _ | re_rejected _ =>
      match r.(rc_settled) with
      | Some _ => mk_race r.(rc_settled) false (S r.(rc_detached))
      | None => mk_race (Some (match e with re_resolved a => ro_value a | re_rejected x => ro_error x | re_abort => ro_aborted end))
                  false r.(rc_detached)
      end
  end.

Definition raceWithAbort (aborted : bool) (events : list race_event) : race :=
  if aborted then mk_race (Some ro_aborted) false 0
  else foldl race_on (mk_race None true 0) events.

(** The first event decides, whatever follows. *)
Lemma raceWithAbort_first e events :
  (raceWithAbort false (e :: events)).(rc_settled)
    = Some (match e with re_resolved a => ro_value a | re_rejected x => ro_error x | re_abort => ro_aborted end).
Proof.
  unfold raceWithAbort. simpl.
  assert (∀ r o, rc_settled r = Some o → rc_settled (foldl race_on r events) = Some o) as Hkeep.
  { induction events as [|e' events IH]; intros r o Hr; [done|]. simpl. apply IH.
    unfold race_on. destruct e'; rewrite ?Hr; simpl; [done..|]. by destruct (rc_listening r). }
  apply Hkeep. by destruct e.
Qed.
End Race.
