(* ===== verification/Sections.v ===== *)
(** * Sections of a markdown body

    The fence-aware section grammar of [shared/types/artifacts.ts]: the scan
    for the last section under a heading, the extractor and the replacer built
    on it, with the bodies on which replacing and extracting do not agree. *)

From Stdlib Require Import Ascii.
From S2P Require Import Prelude JsString.

(** ** Lines *)

(** The lines of a text with the terminator each match of [/\r?\n/] gives. *)
Fixpoint pieces (s : string) : list (string * string) :=
  match s with
  | EmptyString => [("", "")]
  | String c s' =>
      if Ascii.eqb c nl then ("", String nl "") :: pieces s'
      else match pieces s' with
           | (l, t) :: rest =>
               if Ascii.eqb c cr && String.eqb l "" && String.eqb t (String nl "")
               then ("", String cr (String nl "")) :: rest
               else (String c l, t) :: rest
           | [] => []
           end
  end.

(** [s.split(/\r?\n/)] *)
Definition body_lines (s : string) : list string := (pieces s).*1.

(** The offsets at which the lines start. *)
Fixpoint starts_from (off : nat) (ps : list (string * string)) : list nat :=
  match ps with
  | [] => []
  | (l, t) :: rest => off :: starts_from (off + String.length l + String.length t) rest
  end.
Definition lineStarts (s : string) : list nat := starts_from 0 (pieces s).

Definition tilde : ascii := ascii_of_nat 126.
Definition is_blank (c : ascii) : bool := Ascii.eqb c " " || Ascii.eqb c (ascii_of_nat 9).

(** A run of one character at the head of a text, and the text after it. *)
Fixpoint span (p : ascii → bool) (s : string) : nat * string :=
  match s with
  | String c s' => if p c then let '(n, rest) := span p s' in (S n, rest) else (0, s)
  | EmptyString => (0, "")
  end.

(** [/^##(?:[ \t]|$)/] *)
Definition H2_LINE_RE (line : string) : bool :=
  startsWith "##" line
  && match drop_str 2 line with EmptyString => true | String c _ => is_blank c end.

(** [new RegExp(`^##[ \\t]+${heading}[ \\t]*$`, 'i')], for a heading that
    starts with a letter *)
Definition heading_line_re (heading : string) (line : string) : bool :=
  startsWith "##" line
  && let '(n, rest) := span is_blank (drop_str 2 line) in
     negb (n =? 0)%nat && startsWith (toLowerCase heading) (toLowerCase rest)
     && str_forall is_blank (drop_str (String.length heading) rest).

(** The fence pattern: at most three spaces, a run of at least three backticks
    or tildes, and the rest of the line.  The result is the character, the length
    of the run and the rest. *)
Definition fence_marker (line : string) : option (ascii * nat * string) :=
  let '(n, rest) := span (Ascii.eqb " ") line in
  if (3 <? n)%nat then None
  else match rest with
       | String c _ =>
           if Ascii.eqb c backtick || Ascii.eqb c tilde then
             let '(len, info) := span (Ascii.eqb c) rest in
             (* [.] does not match a carriage return *)
             if (3 <=? len)%nat && negb (str_exists (Ascii.eqb cr) info) then Some (c, len, info) else None
           else None
       | EmptyString => None
       end.

Definition FenceState := option (ascii * nat).

(** [handleLine]: whether the line is a delimiter, and the state after it. *)
Definition handleLine (open : FenceState) (line : string) : bool * FenceState :=
  match fence_marker line with
  | None => (false, open)
  | Some (c, len, info) =>
      match open with
      | None =>
          if Ascii.eqb c backtick && includes (String backtick "") info then (false, None)
          else (true, Some (c, len))
      | Some (c', len') =>
          if Ascii.eqb c c' && (len' <=? len)%nat && String.eqb (trim info) "" then (true, None)
          else (false, open)
      end
  end.

(** ** The scan *)

Section Scan.
Context (headingLineRe : string → bool).

(** The loop both functions share; [start] is [None] for -1, [total] is the
    number of lines. *)
Fixpoint scan (total i : nat) (open : FenceState) (start : option nat) (stop : nat) (lines : list string)
    : option nat * nat :=
  match lines with
  | [] => (start, stop)
  | line :: rest =>
      let '(delimiter, open) := handleLine open line in
      if delimiter then scan total (S i) open start stop rest
      else match open with
           | Some _ => scan total (S i) open start stop rest
           | None =>
               if headingLineRe line then scan total (S i) open (Some (S i)) total rest
               else if bool_decide (is_Some start) && (stop =? total)%nat && H2_LINE_RE line
                    then scan total (S i) open start i rest
                    else scan total (S i) open start stop rest
           end
  end.

Definition find_section (lines : list string) : option nat * nat :=
  scan (length lines) 0 None None (length lines) lines.

Fixpoint join_lines (l : list string) : string :=
  match l with
  | [] => ""
  | [x] => x
  | x :: l' => x +:+ String nl (join_lines l')
  end.

Definition extractSection (body : option string) : option string :=
  match body with
  | None | Some "" => None
  | Some body =>
      let lines := body_lines body in
      match find_section lines with
      | (None, _) => None
      | (Some start, stop) =>
          let section := trim (join_lines (take (stop - start) (drop start lines))) in
          if String.eqb section "" then None else Some section
      end
  end.

(** [(?:\r?\n)*$] matches at the head of the text *)
Fixpoint all_newlines (s : string) : bool :=
  match s with
  | EmptyString => true
  | String c s' =>
      if Ascii.eqb c nl then all_newlines s'
      else match s' with
           | String c' s'' => Ascii.eqb c cr && Ascii.eqb c' nl && all_newlines s''
           | EmptyString => false
           end
  end.

(** [/(?:\r?\n)*$/.exec(s)[0]]: its first match. *)
Fixpoint trailing_newlines (s : string) : string :=
  if all_newlines s then s
  else match s with
       | EmptyString => ""
       | String _ s' => trailing_newlines s'
       end.

Definition strip_newlines (s : string) : string :=
  take_str (String.length s - String.length (trailing_newlines s)) s.

Definition replaceSection (body : option string) (newSection : string) : string :=
  let base := default "" body in
  let lines := body_lines base in
  match find_section lines with
  | (None, _) =>
      if (String.length base =? 0)%nat then newSection
      else
        let sep := if endsWith (String nl (String nl "")) base then ""
                   else if endsWith (String nl "") base then String nl ""
                   else String nl (String nl "") in
        base +:+ sep +:+ newSection
  | (Some start, stop) =>
      let headingStart := default 0 (lineStarts base !! (start - 1)) in
      let endOffset := if (stop <? length lines)%nat then default 0 (lineStarts base !! stop)
                       else String.length base in
      let region := take_str (endOffset - headingStart) (drop_str headingStart base) in
      take_str headingStart base +:+ strip_newlines newSection +:+ trailing_newlines region
        +:+ drop_str endOffset base
  end.
End Scan.

Definition ARCH_DESIGN_SECTION_HEADING : string := "Architecture design".
Definition DESIGN_SPEC_SECTION_HEADING : string := "Design spec".
Definition IDEA_SPEC_SECTION_HEADING : string := "Idea spec".

Definition extractArchDesignSection := extractSection (heading_line_re ARCH_DESIGN_SECTION_HEADING).
Definition replaceArchDesignSection := replaceSection (heading_line_re ARCH_DESIGN_SECTION_HEADING).
Definition extractDesignSpecSection := extractSection (heading_line_re DESIGN_SPEC_SECTION_HEADING).
Definition replaceDesignSpecSection := replaceSection (heading_line_re DESIGN_SPEC_SECTION_HEADING).
Definition extractIdeaSpecSection := extractSection (heading_line_re IDEA_SPEC_SECTION_HEADING).

(** Lines written with LF. *)
Definition text (l : list string) : string := join_lines l.

Example extract_last_section :
  extractArchDesignSection (Some (text ["intro"; "## Architecture design"; "old"; "## Other"; "x";
     "```"; "## Architecture design"; "```"; "##  ARCHITECTURE design "; ""; "new"; "### sub"; ""; "## Next"; "y"]))
  = Some (text ["new"; "### sub"]).
Proof. vm_compute. reflexivity. Qed.
Example replace_in_the_middle :
  replaceArchDesignSection (Some (text ["intro"; "## Architecture design"; "old"; ""; "## Other"; "x"]))
    (text ["## Architecture design"; "new"; ""; ""])
  = text ["intro"; "## Architecture design"; "new"; ""; "## Other"; "x"].
Proof. vm_compute. reflexivity. Qed.
Example replace_appends :
  replaceArchDesignSection (Some "intro") (text ["## Architecture design"; "new"])
  = text ["intro"; ""; "## Architecture design"; "new"].
Proof. vm_compute. reflexivity. Qed.

(** A section appended after an unclosed fence is not found again. *)
Example append_after_open_fence :
  extractArchDesignSection (Some (replaceArchDesignSection (Some "```") (text ["## Architecture design"; "new"]))) = None.
Proof. vm_compute. reflexivity. Qed.

(** A new section that leaves a fence open swallows what follows it. *)
Example replace_with_open_fence :
  let new := text ["## Architecture design"; "```"] in
  extractArchDesignSection (Some new) = Some "```"
  ∧ extractArchDesignSection
      (Some (replaceArchDesignSection (Some (text ["## Architecture design"; "old"; "## Other"])) new))
    = Some (text ["```"; "## Other"]).
Proof. vm_compute. split; reflexivity. Qed.
