(* ===== verification/Canonical.v ===== *)
(** * Canonical JSON

    [services/remoteSync/canonical.ts]: the text that both ends of the backlog
    synchronisation hash, and the comparison of field values that decides what
    is pushed and what is applied.

    A JSON value keeps its objects as lists of members in the order of
    insertion, and a number is the text [JSON.stringify] gives it.  The hash
    function is not modelled: the theorems are about the text it is given. *)

From stdpp Require Import sorting.
From Stdlib Require Import Ascii String.
From S2P Require Import Prelude JsString.

Open Scope js_scope.

(** ** Values *)

Inductive json :=
  | jnull
  | jbool (b : bool)
  | jnum (text : string)
  | jstr (s : string)
  | jarr (l : list json)
  | jobj (l : list (string * json)).

#[export] Instance json_eq_dec : EqDecision json.
Proof.
  refine (fix go a b :=
    let _ : EqDecision json := @go in
    match a, b with
    | jnull, jnull => left eq_refl
    | jbool x, jbool y => cast_if (decide (x = y))
    | jnum x, jnum y => cast_if (decide (x = y))
    | jstr x, jstr y => cast_if (decide (x = y))
    | jarr x, jarr y => cast_if (decide (x = y))
    | jobj x, jobj y => cast_if (decide (x = y))
    | _, _ => right _
    end); abstract congruence.
Defined.

Section JsonInd.
Context (P : json → Prop) (Hnull : P jnull) (Hbool : ∀ b, P (jbool b)) (Hnum : ∀ t, P (jnum t)) (Hstr : ∀ s, P (jstr s))
  (Harr : ∀ l, Forall P l → P (jarr l)) (Hobj : ∀ l, Forall (λ kv, P kv.2) l → P (jobj l)).

Fixpoint json_nested_ind (j : json) : P j :=
  match j with
  | jnull => Hnull
  | jbool b => Hbool b
  | jnum t => Hnum t
  | jstr s => Hstr s
  | jarr l => Harr l ((fix go l : Forall P l :=
      match l with [] => Forall_nil_2 _ | x :: l => Forall_cons_2 _ _ _ (json_nested_ind x) (go l) end) l)
  | jobj l => Hobj l ((fix go l : Forall (λ kv : string * json, P kv.2) l :=
      match l with [] => Forall_nil_2 _ | x :: l => Forall_cons_2 _ _ _ (json_nested_ind x.2) (go l) end) l)
  end.
End JsonInd.

(** ** [JSON.stringify] of a string *)

Definition hex_digit (n : nat) : ascii := ascii_of_nat (if (n <? 10)%nat then 48 + n else 87 + n).

Definition escape_char (c : ascii) : string :=
  let n := nat_of_ascii c in
  let backslashed (x : ascii) := String backslash (String x "") in
  if (n =? 34)%nat || (n =? 92)%nat then backslashed c
  else if (n =? 8)%nat then backslashed "b"%char else if (n =? 12)%nat then backslashed "f"%char
  else if (n =? 10)%nat then backslashed "n"%char else if (n =? 13)%nat then backslashed "r"%char
  else if (n =? 9)%nat then backslashed "t"%char
  else if (n <? 32)%nat
  then String backslash ("u00" +:+ String (hex_digit (n / 16)) (String (hex_digit (n mod 16)) ""))
  else String c "".

Fixpoint escape (s : string) : string :=
  match s with EmptyString => "" | String c s' => escape_char c +:+ escape s' end.

Definition quoted (s : string) : string := String dquote (escape s +:+ String dquote "").

(** ** [canonicalJson] *)

(** [parts.join(sep)] *)
Fixpoint join (sep : string) (l : list string) : string :=
  match l with
  | [] => ""
  | [x] => x
  | x :: rest => x +:+ sep +:+ join sep rest
  end.

(** [Object.keys(obj).sort()], with the member of each key; also the sort of the
    entities by their id. *)
Fixpoint insert_key {A} (kv : string * A) (l : list (string * A)) : list (string * A) :=
  match l with
  | [] => [kv]
  | x :: rest => if String.leb kv.1 x.1 then kv :: l else x :: insert_key kv rest
  end.
Definition sort_keys {A} (l : list (string * A)) : list (string * A) := foldr insert_key [] l.

Definition member_text (kv : string * string) : string := quoted kv.1 +:+ ":" +:+ kv.2.

Fixpoint canon (value : json) : string :=
  match value with
  | jnull => "null"
  | jbool true => "true"
  | jbool false => "false"
  | jnum text => text
  | jstr s => quoted s
  | jarr l => "[" +:+ join "," (map canon l) +:+ "]"
  | jobj l => "{" +:+ join "," (map member_text (sort_keys (map (λ kv, (kv.1, canon kv.2)) l))) +:+ "}"
  end.

(** [None] is [undefined]. *)
Definition canonicalJson (value : option json) : string :=
  match value with Some v => canon v | None => "null" end.

(** The comparison of field values in engine.ts and remoteApply.ts. *)
Definition same (a b : option json) : bool := String.eqb (canonicalJson a) (canonicalJson b).

(** [JSON.stringify(value)]: the members in their own order. *)
Fixpoint stringify (value : json) : string :=
  match value with
  | jarr l => "[" +:+ join "," (map stringify l) +:+ "]"
  | jobj l => "{" +:+ join "," (map (λ kv, member_text (kv.1, stringify kv.2)) l) +:+ "}"
  | v => canon v
  end.

(** The bytes of a Latin-1 text in UTF-8. *)
Fixpoint utf8_length (s : string) : nat :=
  match s with
  | EmptyString => 0
  | String c s' => (if (nat_of_ascii c <? 128)%nat then 1 else 2) + utf8_length s'
  end.
Definition jsonByteLength (value : json) : nat := utf8_length (stringify value).

(** ** The text [projectionHash] hashes *)

Record hashed_entity := mk_hashed {
  he_entityId : string;
  he_entityType : string;
  he_ref : option string;
  he_fields : list (string * json);
  he_deleted : option bool
}.

Definition tab : ascii := ascii_of_nat 9.

Definition entity_line (e : hashed_entity) : string :=
  e.(he_entityId) +:+ String tab (e.(he_entityType) +:+ String tab (default "" e.(he_ref)
    +:+ String tab (canon (jobj e.(he_fields)) +:+ String nl ""))).

Definition live (l : list hashed_entity) : list hashed_entity := filter (λ e, he_deleted e ≠ Some true) l.

Definition projection_text (entities : list hashed_entity) : string :=
  join "" (map (λ p : string * hashed_entity, entity_line p.2)
             (sort_keys (map (λ e, (e.(he_entityId), e)) (live entities)))).

(** ** Values that differ only in the order of members *)

Inductive jeq : json → json → Prop :=
  | jeq_refl v : jeq v v
  | jeq_arr l l' : Forall2 jeq l l' → jeq (jarr l) (jarr l')
  | jeq_obj l m l' m' : l ≡ₚ m → Forall2 (λ kv kv', kv.1 = kv'.1 ∧ jeq kv.2 kv'.2) m m' → m' ≡ₚ l' → jeq (jobj l) (jobj l').

(** What [JSON.parse] can return: the text of a number is not empty and has only
    the characters of a number, and no object has a key twice. *)
Definition num_char (c : ascii) : bool :=
  let n := nat_of_ascii c in
  ((48 <=? n) && (n <=? 57) || (n =? 45) || (n =? 43) || (n =? 46) || (n =? 101))%nat.

Inductive json_wf : json → Prop :=
  | wf_null : json_wf jnull
  | wf_bool b : json_wf (jbool b)
  | wf_num t : t ≠ "" → str_forall num_char t = true → json_wf (jnum t)
  | wf_str s : json_wf (jstr s)
  | wf_arr l : Forall json_wf l → json_wf (jarr l)
  | wf_obj l : NoDup l.*1 → Forall (λ kv, json_wf kv.2) l → json_wf (jobj l).

Example canonical_sorts :
  canon (jobj [("b", jnum "1"); ("a", jarr [jnull; jstr "x"])])
  = "{" +:+ quoted "a" +:+ ":[null," +:+ quoted "x" +:+ "]," +:+ quoted "b" +:+ ":1}".
Proof. reflexivity. Qed.

(** ** The text can be read back

    Each lemma below says that the text of a value, followed by something that
    cannot continue it, has one reading. *)

Lemma str_app_inv a r r' : a +:+ r = a +:+ r' → r = r'.
Proof. induction a as [|c a IH]; [done|]. rewrite !str_app_cons. intros [= H]. auto. Qed.

(** The first character [escape_char] encoded, with what follows. *)
Definition hex_value (c : ascii) : nat :=
  let n := nat_of_ascii c in if (n <? 58)%nat then n - 48 else n - 87.

Definition unescape (s : string) : option (ascii * string) :=
  match s with
  | String c r =>
      if Ascii.eqb c backslash then
        match r with
        | String "u"%char (String _ (String _ (String h (String l r)))) => Some (ascii_of_nat (16 * hex_value h + hex_value l), r)
        | String "b"%char r => Some (ascii_of_nat 8, r)
        | String "f"%char r => Some (ascii_of_nat 12, r)
        | String "n"%char r => Some (nl, r)
        | String "r"%char r => Some (cr, r)
        | String "t"%char r => Some (tab, r)
        | String c r => Some (c, r)
        | EmptyString => None
        end
      else if Ascii.eqb c dquote then None else Some (c, r)
  | EmptyString => None
  end.

Lemma unescape_escape c r : unescape (escape_char c +:+ r) = Some (c, r).
Proof. by destruct c as [[] [] [] [] [] [] [] []]. Qed.

Lemma escape_app_dquote s s' r r' :
  escape s +:+ String dquote r = escape s' +:+ String dquote r' → s = s' ∧ r = r'.
Proof.
  revert s'. induction s as [|c s IH]; intros [|c' s'] H; cbn [escape] in H.
  - rewrite !str_app_nil_l in H. by injection H.
  - apply (f_equal unescape) in H. by rewrite str_app_assoc, unescape_escape in H.
  - apply (f_equal unescape) in H. by rewrite str_app_assoc, unescape_escape in H.
  - apply (f_equal unescape) in H. rewrite !str_app_assoc, !unescape_escape in H. injection H as -> H.
    by apply IH in H as [-> ->].
Qed.

Lemma quoted_app s s' r r' : quoted s +:+ r = quoted s' +:+ r' → s = s' ∧ r = r'.
Proof.
  unfold quoted. rewrite !str_app_cons, !str_app_assoc, !str_app_cons, !str_app_nil_l. intros [= H].
  by apply escape_app_dquote in H.
Qed.

(** Nothing that continues a number. *)
Definition stops (r : string) : bool := match r with EmptyString => true | String c _ => negb (num_char c) end.

Lemma num_app t t' r r' :
  str_forall num_char t = true → str_forall num_char t' = true → stops r = true → stops r' = true →
  t +:+ r = t' +:+ r' → t = t' ∧ r = r'.
Proof.
  revert t'. induction t as [|c t IH]; intros [|c' t']; simpl; rewrite ?str_app_nil_l, ?str_app_cons.
  - done.
  - intros _ [Hc _]%andb_true_iff Hr _ ->. simpl in Hr. by rewrite Hc in Hr.
  - intros [Hc _]%andb_true_iff _ _ Hr <-. simpl in Hr. by rewrite Hc in Hr.
  - intros [_ Ht]%andb_true_iff [_ Ht']%andb_true_iff Hr Hr' [= -> H]. by destruct (IH t' Ht Ht' Hr Hr' H) as [-> ->].
Qed.

(** ** Sorting by key *)

Section Sort.
Context {A : Type}.
Implicit Types l : list (string * A).

Lemma insert_key_perm kv l : insert_key kv l ≡ₚ kv :: l.
Proof. induction l as [|x l IH]; simpl; [done|]. case_match; [done|]. rewrite IH. constructor. Qed.

Lemma sort_keys_perm l : sort_keys l ≡ₚ l.
Proof. induction l as [|kv l IH]; simpl; [done|]. by rewrite insert_key_perm, IH. Qed.

Definition key_lt (a b : string * A) : Prop := String.leb a.1 b.1 = true ∧ a.1 ≠ b.1.

Lemma key_lt_trans a b c : key_lt a b → key_lt b c → key_lt a c.
Proof.
  intros [H1 N1] [H2 N2]. split.
  - apply Is_true_true. apply (transitivity (R:=String.le) (y:=b.1)); by apply Is_true_true.
  - intros E. apply N1. apply String.leb_antisym; [done|]. by rewrite E.
Qed.

Lemma insert_key_sorted kv l :
  kv.1 ∉ l.*1 → StronglySorted key_lt l → StronglySorted key_lt (insert_key kv l).
Proof.
  induction l as [|x l IH]; simpl; intros Hin Hs; [repeat constructor|].
  apply not_elem_of_cons in Hin as [Hne Hin]. inversion_clear Hs as [|? ? Hl Hx].
  destruct (String.leb kv.1 x.1) eqn:E.
  - assert (key_lt kv x) as Hlt by (by split). repeat (constructor; try done).
    eapply Forall_impl; [exact Hx|]. intros y. by apply key_lt_trans.
  - constructor; [by apply IH|]. rewrite insert_key_perm. constructor; [|done].
    split; [|done]. destruct (String.leb_total kv.1 x.1) as [H|H]; [congruence|done].
Qed.

Lemma sort_keys_sorted l : NoDup l.*1 → StronglySorted key_lt (sort_keys l).
Proof.
  induction l as [|kv l IH]; simpl; [constructor|]. intros [Hin Hnd]%NoDup_cons.
  apply insert_key_sorted; [|by apply IH]. by rewrite sort_keys_perm.
Qed.

(** One order only. *)
Lemma sort_keys_unique l l' : l ≡ₚ l' → NoDup l.*1 → sort_keys l = sort_keys l'.
Proof.
  intros Hp Hnd. apply (StronglySorted_unique_strong key_lt).
  - intros x y _ _ [H1 N] [H2 _]. exfalso. apply N. by apply String.leb_antisym.
  - by apply sort_keys_sorted.
  - apply sort_keys_sorted. by rewrite <- Hp.
  - by rewrite !sort_keys_perm.
Qed.

Lemma sort_keys_map {B} (f : A → B) l :
  sort_keys (map (λ kv, (kv.1, f kv.2)) l) = map (λ kv, (kv.1, f kv.2)) (sort_keys l).
Proof.
  induction l as [|kv l IH]; simpl; [done|]. rewrite IH. generalize (sort_keys l). intros m.
  induction m as [|x m IHm]; simpl; [done|]. case_match; simpl; [done|]. by rewrite IHm.
Qed.
End Sort.

(** ** Reading back *)

(** What may follow a value inside a larger text. *)
Definition delimited (r : string) : Prop :=
  match r with EmptyString => True | String c _ => c = ","%char ∨ c = "]"%char ∨ c = "}"%char ∨ c = tab ∨ c = nl end.

Lemma delimited_stops r : delimited r → stops r = true.
Proof. destruct r as [|c r]; [done|]. by intros [->|[->|[->|[->| ->]]]]. Qed.

(** [v] is the only value, up to the order of members, that its text can start. *)
Definition readable (v : json) : Prop :=
  ∀ v' r r', json_wf v' → delimited r → delimited r' → canon v +:+ r = canon v' +:+ r' → jeq v v' ∧ r = r'.

(** The shape of a text is known from its first character. *)
Definition value_start (v : json) : ascii :=
  match v with
  | jnull => "n"%char
  | jbool true => "t"%char
  | jbool false => "f"%char
  | jnum (String c _) => c
  | jnum EmptyString => "0"%char
  | jstr _ => dquote
  | jarr _ => "["%char
  | jobj _ => "{"%char
  end.

Lemma canon_start v r : json_wf v → ∃ t, canon v +:+ r = String (value_start v) t.
Proof.
  intros Hv. destruct v as [|[]|t|s|l|l]; simpl; try by (eexists; rewrite ?str_app_cons).
  inversion_clear Hv as [| |? Hne _| | |]. destruct t; [done|]. by eexists.
Qed.

Lemma num_start t : json_wf (jnum t) → num_char (value_start (jnum t)) = true.
Proof. intros Hv. inversion_clear Hv as [| |? Hne H| | |]. destruct t; [done|]. simpl in *. by apply andb_true_iff in H as []. Qed.

Lemma same_start v v' r r' :
  json_wf v → json_wf v' → canon v +:+ r = canon v' +:+ r' → value_start v = value_start v'.
Proof.
  intros Hv Hv' H. destruct (canon_start v r Hv) as [t Ht], (canon_start v' r' Hv') as [t' Ht'].
  rewrite Ht, Ht' in H. by injection H.
Qed.

Lemma join_cons sep x l : join sep (x :: l) = x +:+ match l with [] => "" | _ => sep +:+ join sep l end.
Proof. destruct l; simpl; [by rewrite str_app_nil_r|done]. Qed.

(** A list of texts that are read one by one. *)
Lemma join_read {A B} (text : A → string) (text' : B → string) (R : A → B → Prop) (close : ascii) l l' r r' :
  (close = "]"%char ∨ close = "}"%char) →
  (∀ x y q q', x ∈ l → y ∈ l' → delimited q → delimited q' → text x +:+ q = text' y +:+ q' → R x y ∧ q = q') →
  (∀ y, y ∈ l' → ∀ q q', text' y +:+ q ≠ String close q') → (∀ x, x ∈ l → ∀ q q', text x +:+ q ≠ String close q') →
  join "," (map text l) +:+ String close r = join "," (map text' l') +:+ String close r' → Forall2 R l l' ∧ r = r'.
Proof.
  intros Hclose Hread Hl' Hl. revert l' Hread Hl'. induction l as [|x l IH]; intros [|y l'] Hread Hl' H; cbn [map] in H.
  - rewrite !str_app_nil_l in H. by injection H as ->.
  - exfalso. rewrite join_cons, str_app_nil_l, str_app_assoc in H. eapply Hl'; [left|]. by symmetry.
  - exfalso. rewrite join_cons, str_app_nil_l, str_app_assoc in H. eapply Hl; [left|done].
  - rewrite !join_cons, !str_app_assoc in H. apply Hread in H as [Hxy H]; [|left|left|..].
    + destruct l as [|x2 l], l' as [|y2 l']; cbn [map] in H; rewrite ?str_app_nil_l, ?str_app_cons, ?str_app_nil_l in H.
      * injection H as ->. by repeat constructor.
      * exfalso. destruct Hclose as [-> | ->]; by injection H.
      * exfalso. destruct Hclose as [-> | ->]; by injection H.
      * injection H as H.
        destruct (IH (λ z Hz, Hl z (list_elem_of_further z x _ Hz)) (y2 :: l')) as [HF ->]; [..|exact H|].
        -- intros z w q q' Hz Hw. apply Hread; by right.
        -- intros z Hz. apply Hl'. by right.
        -- split; [by constructor|done].
    + destruct l; cbn [map]; rewrite ?str_app_nil_l; simpl; tauto.
    + destruct l'; cbn [map]; rewrite ?str_app_nil_l; simpl; tauto.
Qed.

Lemma value_start_close v close : json_wf v → close = "]"%char ∨ close = "}"%char → value_start v ≠ close.
Proof.
  intros Hv Hc. destruct v as [|[]|t|s|l|l]; simpl; try (by destruct Hc as [-> | ->]).
  pose proof (num_start t Hv) as Hn. intros E. simpl in Hn. rewrite E in Hn. by destruct Hc as [-> | ->].
Qed.

Lemma no_close {A} (v : A → json) (close : ascii) l :
  (close = "]"%char ∨ close = "}"%char) → Forall json_wf (v <$> l) →
  ∀ x, x ∈ l → ∀ q q', canon (v x) +:+ q ≠ String close q'.
Proof.
  intros Hc Hl x Hx q q' E. assert (json_wf (v x)) as Hv.
  { rewrite Forall_forall in Hl. by apply Hl, list_elem_of_fmap_2. }
  destruct (canon_start (v x) q Hv) as [t Ht]. rewrite Ht in E. injection E as E _.
  by eapply value_start_close in E.
Qed.

Lemma member_text_read (kv kv' : string * json) q q' :
  readable kv.2 → json_wf kv'.2 → delimited q → delimited q' →
  member_text (kv.1, canon kv.2) +:+ q = member_text (kv'.1, canon kv'.2) +:+ q' →
  (kv.1 = kv'.1 ∧ jeq kv.2 kv'.2) ∧ q = q'.
Proof.
  intros Hr Hw Hq Hq'. unfold member_text. cbn [fst snd]. rewrite !str_app_assoc. intros H.
  apply quoted_app in H as [-> H]. rewrite !str_app_cons, !str_app_nil_l in H. injection H as H.
  by apply Hr in H as [? ->].
Qed.

Lemma sorted_members l :
  map member_text (sort_keys (map (λ kv, (kv.1, canon kv.2)) l))
  = map (λ kv : string * json, member_text (kv.1, canon kv.2)) (sort_keys l).
Proof. by rewrite sort_keys_map, map_map. Qed.

(** No other value starts as a number does. *)
Lemma not_number v t r : json_wf (jnum t) → value_start v = value_start (jnum t) → num_char (value_start v) = false → r.
Proof. intros Hv Hs Hn. pose proof (num_start t Hv) as H. rewrite <- Hs in H. congruence. Qed.

Lemma all_readable v : json_wf v → readable v.
Proof.
  induction v as [|b|t|s|l IH|l IH] using json_nested_ind; intros Hv v' r r' Hv' Hr Hr' H;
    pose proof (same_start _ _ _ _ Hv Hv' H) as Hs.
  - destruct v' as [|[]|t'|s'|l'|l']; try done; [|by eapply not_number].
    apply str_app_inv in H as ->. by split; [constructor|].
  - destruct v' as [|b'|t'|s'|l'|l']; try (by destruct b).
    + destruct b, b'; try done; apply str_app_inv in H as ->; by split; [constructor|].
    + eapply not_number; [done|exact Hs|by destruct b].
  - pose proof (num_start _ Hv) as Hn.
    destruct v' as [|[]|t'|s'|l'|l']; try (by rewrite Hs in Hn).
    inversion_clear Hv as [| |? _ Ht| | |]. inversion_clear Hv' as [| |? _ Ht'| | |].
    cbn [canon] in H. apply num_app in H as [-> ->]; [by split; [constructor|]|done|done|by apply delimited_stops..].
  - destruct v' as [|[]|t'|s'|l'|l']; try done.
    + by eapply not_number.
    + cbn [canon] in H. by apply quoted_app in H as [-> ->]; split; [constructor|].
  - destruct v' as [|[]|t'|s'|l'|l']; try done.
    { by eapply not_number. }
    inversion_clear Hv as [| | | |? Hl|]. inversion_clear Hv' as [| | | |? Hl'|].
    cbn [canon] in H. rewrite !str_app_cons, !str_app_assoc in H. injection H as H.
    apply (join_read canon canon jeq "]"%char) in H as [HF ->].
    + split; [by constructor|done].
    + by left.
    + intros x y q q' Hx Hy. rewrite Forall_forall in IH, Hl, Hl'. apply IH; auto.
    + apply (no_close id); [by left|by rewrite list_fmap_id].
    + apply (no_close id); [by left|by rewrite list_fmap_id].
  - destruct v' as [|[]|t'|s'|l'|l']; try done.
    { by eapply not_number. }
    inversion_clear Hv as [| | | | |? _ Hl]. inversion_clear Hv' as [| | | | |? _ Hl'].
    cbn [canon] in H. rewrite !sorted_members, !str_app_cons, !str_app_assoc in H. injection H as H.
    assert (∀ x, x ∈ sort_keys l → readable x.2) as IH'.
    { intros x Hx. rewrite sort_keys_perm in Hx. rewrite Forall_forall in IH, Hl. auto. }
    rewrite Forall_forall in Hl'.
    apply (join_read _ _ (λ kv kv', kv.1 = kv'.1 ∧ jeq kv.2 kv'.2) "}"%char) in H as [HF ->].
    + split; [|done]. by eapply jeq_obj; [|exact HF|]; rewrite sort_keys_perm.
    + by right.
    + intros x y q q' Hx Hy. apply member_text_read; [by apply IH'|]. rewrite sort_keys_perm in Hy. by apply Hl'.
    + done.
    + done.
Qed.

(** ** The comparison of values *)

Lemma canon_jeq a b : json_wf a → jeq a b → canon a = canon b.
Proof.
  revert b. induction a as [|?|?|?|l IH|l IH] using json_nested_ind; intros v Hw He; inversion He; subst; try done.
  - inversion_clear Hw as [| | | |? Hl|]. cbn [canon]. assert (map canon l = map canon l') as ->; [|done].
    match goal with H : Forall2 jeq l l' |- _ => clear He; revert IH Hl; induction H as [|x x' l l' Hx _ IHl] end; [done|].
    intros IH Hl. inversion_clear IH as [|? ? IHx IHr]. inversion_clear Hl. cbn [map]. f_equal; [by apply IHx|by apply IHl].
  - inversion_clear Hw as [| | | | |? Hnd Hl]. cbn [canon].
    assert (sort_keys (map (λ kv, (kv.1, canon kv.2)) l) = sort_keys (map (λ kv, (kv.1, canon kv.2)) l')) as ->; [|done].
    apply sort_keys_unique.
    + transitivity (map (λ kv, (kv.1, canon kv.2)) m); [by apply Permutation_map|].
      assert (map (λ kv, (kv.1, canon kv.2)) m = map (λ kv, (kv.1, canon kv.2)) m') as ->; [|by apply Permutation_map].
      assert (Forall (λ kv, ∀ b, jeq kv.2 b → canon kv.2 = canon b) m) as Hm.
      { rewrite <- H0. rewrite Forall_forall in IH, Hl |- *. intros kv Hkv b. by apply IH, Hl. }
      clear -H1 Hm. induction H1 as [|kv kv' m m' [Hk Hj] _ IHm]; [done|]. inversion_clear Hm. cbn [map].
      rewrite Hk. f_equal; [f_equal; auto|by apply IHm].
    + change (NoDup ((λ kv : string * string, kv.1) <$> ((λ kv, (kv.1, canon kv.2)) <$> l))).
      by rewrite <- list_fmap_compose.
Qed.

(** Two values print alike when and only when they differ in the order of members. *)
Theorem canonical_faithful a b :
  json_wf a → json_wf b → same (Some a) (Some b) = true ↔ jeq a b.
Proof.
  intros Ha Hb. unfold same, canonicalJson. rewrite String.eqb_eq. split; [|by apply canon_jeq].
  intros H. destruct (all_readable a Ha b "" "") as [? _]; [done..|by rewrite H|done].
Qed.

(** ** The text of a projection *)

Definition no_tab (s : string) : Prop := str_forall (λ c, negb (Ascii.eqb c tab)) s = true.

Record hashed_ok (e : hashed_entity) : Prop := {
  ho_id : no_tab e.(he_entityId);
  ho_type : no_tab e.(he_entityType);
  ho_ref : no_tab (default "" e.(he_ref));
  ho_fields : json_wf (jobj e.(he_fields))
}.

(** Two machines hold the same entity. *)
Record same_entity (e e' : hashed_entity) : Prop := {
  se_id : e.(he_entityId) = e'.(he_entityId);
  se_type : e.(he_entityType) = e'.(he_entityType);
  se_ref : default "" e.(he_ref) = default "" e'.(he_ref);
  se_fields : jeq (jobj e.(he_fields)) (jobj e'.(he_fields))
}.

Definition same_projection (l l' : list hashed_entity) : Prop :=
  ∃ m m', live l ≡ₚ m ∧ Forall2 same_entity m m' ∧ m' ≡ₚ live l'.

Lemma tab_app a b r r' : no_tab a → no_tab b → a +:+ String tab r = b +:+ String tab r' → a = b ∧ r = r'.
Proof.
  unfold no_tab. revert b. induction a as [|c a IH]; intros [|c' b] Ha Hb H; rewrite ?str_app_nil_l, ?str_app_cons in H.
  - by injection H.
  - injection H as <- H. done.
  - injection H as -> H. done.
  - injection H as -> H. simpl in Ha, Hb. apply andb_true_iff in Ha as [_ Ha], Hb as [_ Hb].
    by destruct (IH b Ha Hb H) as [-> ->].
Qed.

Lemma entity_line_app e e' r r' :
  hashed_ok e → hashed_ok e' → entity_line e +:+ r = entity_line e' +:+ r' → same_entity e e' ∧ r = r'.
Proof.
  intros [] []. unfold entity_line. rewrite !str_app_assoc, !str_app_cons, !str_app_assoc, !str_app_cons, !str_app_assoc,
    !str_app_cons, !str_app_assoc, !str_app_cons. intros H.
  apply tab_app in H as [? H]; [|done..]. apply tab_app in H as [? H]; [|done..]. apply tab_app in H as [? H]; [|done..].
  apply all_readable in H as [? H]; [|done|done|by do 4 right|by do 4 right]. rewrite !str_app_nil_l in H. injection H as ->. done.
Qed.

Lemma entity_line_cons e : ∃ c t, entity_line e = String c t.
Proof. unfold entity_line. destruct (he_entityId e); rewrite ?str_app_cons; eauto. Qed.

Lemma lines_read m m' :
  Forall hashed_ok m → Forall hashed_ok m' →
  join "" (map entity_line m) = join "" (map entity_line m') → Forall2 same_entity m m'.
Proof.
  assert (∀ x l, join "" (x :: l) = x +:+ join "" l) as Hj.
  { intros x [|y l]; [simpl; by rewrite str_app_nil_r|done]. }
  revert m'. induction m as [|e m IH]; intros [|e' m'] Hm Hm' H; cbn [map] in H; rewrite ?Hj in H.
  - done.
  - destruct (entity_line_cons e') as (c & t & E). by rewrite E in H.
  - destruct (entity_line_cons e) as (c & t & E). by rewrite E in H.
  - inversion_clear Hm. inversion_clear Hm'. apply entity_line_app in H as [? H]; [|done..]. by constructor; auto.
Qed.

Lemma projection_text_lines l :
  projection_text l = join "" (map snd (sort_keys (map (λ e, (e.(he_entityId), entity_line e)) (live l)))).
Proof.
  unfold projection_text. f_equal.
  replace (map (λ e, (e.(he_entityId), entity_line e)) (live l))
    with (map (λ kv : string * hashed_entity, (kv.1, entity_line kv.2)) (map (λ e, (e.(he_entityId), e)) (live l)))
    by (by rewrite map_map).
  by rewrite sort_keys_map, map_map.
Qed.

Lemma same_line e e' : hashed_ok e → same_entity e e' → entity_line e = entity_line e'.
Proof. intros [] []. unfold entity_line. rewrite (canon_jeq (jobj (he_fields e)) (jobj (he_fields e'))) by done. congruence. Qed.

(** C22: The text that the checksum hashes is faithful: two projections give the same text
    exactly when they hold the same live entities with the same id, type, ref and fields,
    whatever the order of the rows and of the members of an object, and an absent ref
    counting as an empty one. It is assumed that ids, types and refs hold no tab, that the
    fields are well-formed JSON, and that the ids of one projection are distinct. *)
Theorem projection_text_faithful l l' :
  Forall hashed_ok (live l) → Forall hashed_ok (live l') → NoDup (he_entityId <$> live l) →
  projection_text l = projection_text l' ↔ same_projection l l'.
Proof.
  intros Hl Hl' Hnd. split.
  - unfold projection_text. intros H.
    set (s := λ l, map snd (sort_keys (map (λ e, (e.(he_entityId), e)) (live l)))).
    assert (∀ l, s l ≡ₚ live l) as Hs.
    { intros l0. unfold s. rewrite sort_keys_perm, map_map. by rewrite map_id. }
    assert (∀ l, map (λ p : string * hashed_entity, entity_line p.2) (sort_keys (map (λ e, (e.(he_entityId), e)) (live l)))
      = map entity_line (s l)) as Hm by (intros l0; unfold s; by rewrite map_map).
    rewrite !Hm in H. exists (s l), (s l'). split_and!; [by rewrite Hs| |by rewrite Hs].
    apply lines_read; [by rewrite Hs..|done].
  - intros (m & m' & Hp & HF & Hp'). rewrite !projection_text_lines. do 2 f_equal.
    assert (map (λ e, (e.(he_entityId), entity_line e)) m = map (λ e, (e.(he_entityId), entity_line e)) m') as Hm.
    { rewrite Hp in Hl. clear -HF Hl. induction HF as [|e e' m m' He _ IH]; [done|]. inversion_clear Hl. cbn [map].
      rewrite (se_id _ _ He), (same_line e e') by done. f_equal. auto. }
    apply sort_keys_unique.
    + rewrite (Permutation_map _ Hp), Hm. by apply Permutation_map.
    + change (NoDup ((λ kv : string * string, kv.1) <$> ((λ e, (e.(he_entityId), entity_line e)) <$> live l))).
      by rewrite <- list_fmap_compose.
Qed.

(** Two machines that read their rows, and the members of an object, in another order. *)
Definition one_machine : list hashed_entity :=
  [mk_hashed "a" "idea" (Some "IDEA-1") [("title", jstr "x"); ("scope", jnull)] None; mk_hashed "b" "task" None [] None].
Definition other_machine : list hashed_entity :=
  [mk_hashed "b" "task" (Some "") [] None; mk_hashed "a" "idea" (Some "IDEA-1") [("scope", jnull); ("title", jstr "x")] None].

Lemma one_machine_ok : Forall hashed_ok one_machine ∧ Forall hashed_ok other_machine ∧ NoDup (he_entityId <$> one_machine).
Proof.
  split_and!; repeat constructor; try done; by repeat (intros [?|?]%elem_of_cons || intros ?%not_elem_of_nil || set_solver).
Qed.

Lemma projection_text_faithful_witness :
  projection_text one_machine = projection_text other_machine ∧ same_projection one_machine other_machine.
Proof.
  destruct one_machine_ok as (H1 & H2 & H3).
  assert (projection_text one_machine = projection_text other_machine) as H by (vm_compute; reflexivity).
  split; [exact H|]. apply (projection_text_faithful one_machine other_machine); assumption.
Defined.

(** ** Ids of the conflicts a client files: [conflictIds.ts] *)

Section ConflictIds.
Context (sha256 : string → string).

Definition clientConflictId (kind entityId : string) (involvedIds : list string) (winningHlc : string) : string :=
  let involved := join "," (fst <$> sort_keys ((λ i, (i, tt)) <$> involvedIds)) in
  sha256 (kind +:+ "|" +:+ entityId +:+ "|" +:+ involved +:+ "|" +:+ winningHlc).
End ConflictIds.

(** Two machines that compute the same repair file one record. *)
Lemma clientConflictId_perm sha256 kind entityId l l' hlc :
  l ≡ₚ l' → NoDup l → clientConflictId sha256 kind entityId l hlc = clientConflictId sha256 kind entityId l' hlc.
Proof.
  intros Hp Hnd. unfold clientConflictId. do 7 f_equal. rewrite (sort_keys_unique _ ((λ i, (i, tt)) <$> l')); [done|by rewrite Hp|].
  rewrite <- list_fmap_compose. by rewrite list_fmap_id.
Qed.
