(* ===== verification/Hlc.v ===== *)
(** * Hybrid logical clock

    [services/remoteSync/hlc.ts]: the stamps that order the edits of several
    machines, ["<ms13>:<ctr5>:<deviceId>"], and the clock that issues them.

    Milliseconds and counters are natural numbers: [Date.now()] is one, and the
    groups of the pattern are digits.  [\d] is an ASCII digit. *)

From stdpp Require Import pretty.
From Stdlib Require Import Ascii String.
From S2P Require Import Prelude JsString Regex Canonical.

Open Scope js_scope.

(** ** Stamps *)

Record Hlc := mk_hlc { ms : N; ctr : N; deviceId : string }.

Definition MAX_CTR : N := 99999.

(** [s.padStart(n, '0')] *)
Definition padStart0 (n : nat) (s : string) : string :=
  Nat.iter (n - String.length s) (String "0"%char) s.

(** Exactly [k] digits, [/\d{k}/], and the number they denote. *)
Fixpoint digits (k : nat) (acc : N) (s : string) : option (N * string) :=
  match k, s with
  | 0, _ => Some (acc, s)
  | S k, String c s' => if is_digit c then digits k (10 * acc + (N_of_ascii c - 48)) s' else None
  | S _, EmptyString => None
  end.

Definition colon (s : string) : option string :=
  match s with String ":"%char s' => Some s' | _ => None end.

(** [HLC_RE]: [/^(\d{13}):(\d{5}):(.+)$/] *)
Definition parseHlc (s : string) : option Hlc :=
  '(m, s) ← digits 13 0 s; s ← colon s; '(c, s) ← digits 5 0 s; s ← colon s;
  if negb (String.eqb s "") && str_forall is_dot s then Some (mk_hlc m c s) else None.

Definition formatHlc (h : Hlc) : string :=
  padStart0 13 (pretty h.(ms)) +:+ ":" +:+ padStart0 5 (pretty h.(ctr)) +:+ ":" +:+ h.(deviceId).

(** [a < b] on strings *)
Definition str_lt (a b : string) : bool := String.ltb a b.

Definition compareHlc (a b : string) : Z :=
  match parseHlc a, parseHlc b with
  | Some pa, Some pb =>
      if negb (pa.(ms) =? pb.(ms))%N then (if (pa.(ms) <? pb.(ms))%N then -1 else 1)
      else if negb (pa.(ctr) =? pb.(ctr))%N then (if (pa.(ctr) <? pb.(ctr))%N then -1 else 1)
      else if String.eqb pa.(deviceId) pb.(deviceId) then 0
      else if str_lt pa.(deviceId) pb.(deviceId) then -1 else 1
  | _, _ => if String.eqb a b then 0 else if str_lt a b then -1 else 1
  end.

(** ** The clock.  The device id is an argument of its operations. *)

Definition clock : Type := option (N * N).

(** [new HlcClock(deviceId, { last })] *)
Definition new_clock (last : option string) : clock :=
  h ← last ≫= parseHlc; Some (h.(ms), h.(ctr)).

Definition clock_last (device : string) (st : clock) : option string :=
  (λ p : N * N, formatHlc (mk_hlc p.1 p.2 device)) <$> st.

(** [next()] at the wall time [wall]: the stamp and the clock after it. *)
Definition clock_next (device : string) (wall : N) (st : clock) : string * clock :=
  let m := match st with Some (m0, _) => N.max wall m0 | None => wall end in
  let c := match st with Some (m0, c0) => if (m =? m0)%N then (c0 + 1)%N else 0%N | None => 0%N end in
  let '(m, c) := if (MAX_CTR <? c)%N then ((m + 1)%N, 0%N) else (m, c) in
  (formatHlc (mk_hlc m c device), Some (m, c)).

Definition clock_observe (remote : string) (st : clock) : clock :=
  match parseHlc remote with
  | None => st
  | Some r =>
      match st with
      | None => Some (r.(ms), r.(ctr))
      | Some (m, c) =>
          if (m <? r.(ms))%N || ((r.(ms) =? m) && (c <? r.(ctr)))%N then Some (r.(ms), r.(ctr)) else st
      end
  end.

(** [/^\d{4}-\d{2}-\d{2} \d{2}:\d{2}:\d{2}(\.\d+)?$/] *)
Definition sqlite_datetime : re :=
  seqs [RBol; times 4 digit; lit "-"; times 2 digit; lit "-"; times 2 digit; lit " "; times 2 digit; lit ":";
        times 2 digit; lit ":"; times 2 digit; opt (RSeq (lit ".") (plus digit)); REol].

(** [s.replace(' ', 'T')]: the first blank *)
Fixpoint replace_blank (s : string) : string :=
  match s with
  | EmptyString => EmptyString
  | String c s' => if Ascii.eqb c " "%char then String "T"%char s' else String c (replace_blank s')
  end.

Definition MAX_MS : Z := 9999999999999.

Section FromIso.
(** [Date.parse]; [None] is NaN. *)
Context (Date_parse : string → option Z).

Definition hlcFromIso (iso : string) (device : string) : option string :=
  let s := trim iso in
  let s := if test sqlite_datetime s then replace_blank s +:+ "Z" else s in
  m ← Date_parse s;
  if (m <? 0)%Z || (MAX_MS <? m)%Z then None else Some (formatHlc (mk_hlc (Z.to_N m) 0 device)).
End FromIso.

Example format_example : formatHlc (mk_hlc 1700000000000 7 "dev") = "1700000000000:00007:dev".
Proof. reflexivity. Qed.
Example parse_example : parseHlc "1700000000000:00007:a:b" = Some (mk_hlc 1700000000000 7 "a:b").
Proof. reflexivity. Qed.
Example next_carries : (clock_next "d" 5 (Some (5, MAX_CTR)%N)).2 = Some (6, 0)%N.
Proof. reflexivity. Qed.

(** ** The digits of a padded number *)

Definition fits (k : nat) (n : N) : Prop := (n < 10 ^ N.of_nat k)%N.

(** The [k] last digits of [n] in front of [s]. *)
Fixpoint fixed (k : nat) (n : N) (s : string) : string :=
  match k with 0 => s | S k => fixed k (n / 10) (String (pretty_N_char (n mod 10)) s) end.

Lemma fits_0 n : fits 0 n → n = 0%N.
Proof. unfold fits. change (10 ^ N.of_nat 0)%N with 1%N. lia. Qed.

Lemma fits_S k n : fits (S k) n ↔ (n < 10 * 10 ^ N.of_nat k)%N.
Proof. unfold fits. by rewrite Nat2N.inj_succ, N.pow_succ_r'. Qed.

Lemma fits_div k n : fits (S k) n → fits k (n / 10).
Proof. intros H%fits_S. unfold fits. apply N.Div0.div_lt_upper_bound. lia. Qed.

Lemma fixed_zero k s : fixed k 0 s = Nat.iter k (String "0"%char) s.
Proof.
  revert s. induction k as [|k IH]; intros s; [done|]. change (fixed k 0 (String "0"%char s) = Nat.iter (S k) (String "0"%char) s).
  rewrite IH. by rewrite <- Nat.iter_succ_r.
Qed.

Lemma pretty_go_app n s t : pretty_N_go n s +:+ t = pretty_N_go n (s +:+ t).
Proof.
  revert s. induction (N.lt_wf_0 n) as [n _ IH]; intros s.
  destruct (decide (n = 0)%N) as [->|Hn]; [by rewrite !pretty_N_go_0|].
  rewrite (pretty_N_go_step n s), (pretty_N_go_step n (s +:+ t)) by lia. rewrite IH; [done|]. apply N.div_lt; lia.
Qed.

(** Padding adds the digits [fixed] has more. *)
Lemma fixed_go k n s : fits k n →
  fixed k n s = Nat.iter (k + String.length s - String.length (pretty_N_go n s)) (String "0"%char) (pretty_N_go n s)
  ∧ (String.length (pretty_N_go n s) ≤ k + String.length s)%nat.
Proof.
  revert n s. induction k as [|k IH]; intros n s Hn.
  - apply fits_0 in Hn as ->. rewrite pretty_N_go_0. simpl.
    split; [|lia]. by rewrite Nat.sub_diag.
  - destruct (decide (n = 0)%N) as [->|Hz].
    + rewrite pretty_N_go_0, fixed_zero. split; [|lia]. f_equal. lia.
    + cbn [fixed]. rewrite pretty_N_go_step by lia. destruct (IH (n / 10)%N (String (pretty_N_char (n mod 10)) s)) as [-> Hl];
        [by apply fits_div|]. simpl in *. split; [f_equal; lia|lia].
Qed.

Lemma padded_fixed k n r : fits k n → (0 < k)%nat → padStart0 k (pretty n) +:+ r = fixed k n r.
Proof.
  intros Hn Hk. unfold padStart0. assert (∀ m a, Nat.iter m (String "0"%char) a +:+ r = Nat.iter m (String "0"%char) (a +:+ r)) as Hit.
  { intros m a. induction m as [|m IH]; [done|]. rewrite !Nat.iter_succ, str_app_cons. by rewrite IH. }
  rewrite Hit. unfold pretty, pretty_N. destruct (decide (n = 0)%N) as [->|Hz].
  - rewrite fixed_zero. destruct k as [|k]; [lia|]. simpl String.length.
    replace (S k - 1)%nat with k by lia. rewrite str_app_cons, str_app_nil_l. by rewrite <- Nat.iter_succ_r.
  - rewrite pretty_go_app, str_app_nil_l. destruct (fixed_go k n "" Hn) as [H Hl].
    assert (∀ m, fixed m n r = fixed m n "" +:+ r) as Hf.
    { clear. intros m. assert (∀ q a, fixed m q (a +:+ r) = fixed m q a +:+ r) as H.
      { induction m as [|m IH]; intros q a; [done|]. cbn [fixed]. by rewrite <- IH, str_app_cons. }
      by rewrite <- H, str_app_nil_l. }
    rewrite Hf, H, Hit, pretty_go_app, str_app_nil_l. do 2 f_equal. simpl. lia.
Qed.

Lemma digit_char n : (n < 10)%N → is_digit (pretty_N_char n) = true ∧ (N_of_ascii (pretty_N_char n) - 48 = n)%N.
Proof.
  intros H. assert (n = 0 ∨ n = 1 ∨ n = 2 ∨ n = 3 ∨ n = 4 ∨ n = 5 ∨ n = 6 ∨ n = 7 ∨ n = 8 ∨ n = 9)%N as Hn by lia.
  by destruct Hn as [->|[->|[->|[->|[->|[->|[->|[->|[->| ->]]]]]]]]].
Qed.

Lemma digits_fixed k m acc n s : fits k n →
  digits (k + m) acc (fixed k n s) = digits m (acc * 10 ^ N.of_nat k + n) s.
Proof.
  revert m n s. induction k as [|k IH]; intros m n s Hn.
  - apply fits_0 in Hn as ->. simpl. f_equal. lia.
  - cbn [fixed]. replace (S k + m)%nat with (k + S m)%nat by lia. rewrite IH by (by apply fits_div).
    destruct (digit_char (n mod 10)) as [Hd Hv]; [by apply N.mod_lt|]. cbn [digits]. rewrite Hd, Hv. f_equal.
    rewrite Nat2N.inj_succ, N.pow_succ_r'. pose proof (N.div_mod n 10 ltac:(done)). nia.
Qed.

Lemma digits_padded k n r : fits k n → (0 < k)%nat → digits k 0 (padStart0 k (pretty n) +:+ r) = Some (n, r).
Proof.
  intros Hn Hk. rewrite padded_fixed by done. pose proof (digits_fixed k 0 0 n r Hn) as H.
  rewrite Nat.add_0_r in H. by rewrite H.
Qed.

Lemma fixed_first k v d r : (v < 10)%N → fits k d →
  fixed (S k) (v * 10 ^ N.of_nat k + d) r = String (pretty_N_char v) (fixed k d r).
Proof.
  intros Hv. revert d r. induction k as [|k IH]; intros d r Hd.
  - apply fits_0 in Hd as ->. cbn [fixed]. change (10 ^ N.of_nat 0)%N with 1%N. rewrite N.mul_1_r, N.add_0_r.
    by rewrite N.mod_small.
  - rewrite Nat2N.inj_succ, N.pow_succ_r'. cbn [fixed].
    replace (v * (10 * 10 ^ N.of_nat k) + d)%N with (d + (v * 10 ^ N.of_nat k) * 10)%N by lia.
    rewrite N.div_add, N.Div0.mod_add by done. rewrite (N.add_comm (d / 10)). apply IH. by apply fits_div.
Qed.

Lemma digit_value c : is_digit c = true → (N_of_ascii c - 48 < 10)%N ∧ c = pretty_N_char (N_of_ascii c - 48).
Proof. by destruct c as [[] [] [] [] [] [] [] []]. Qed.

Lemma digits_inv k acc s n r : digits k acc s = Some (n, r) →
  ∃ d, fits k d ∧ n = (acc * 10 ^ N.of_nat k + d)%N ∧ s = fixed k d r.
Proof.
  revert acc s n r. induction k as [|k IH]; intros acc s n r H.
  - injection H as <- <-. exists 0%N. split_and!; [done|simpl; lia|done].
  - destruct s as [|c s]; [done|]. cbn [digits] in H. destruct (is_digit c) eqn:Hc; [|done].
    apply IH in H as (d & Hd & -> & ->). destruct (digit_value c Hc) as [Hv Hcv].
    revert Hv Hcv. generalize (N_of_ascii c - 48)%N. intros v Hv ->.
    exists (v * 10 ^ N.of_nat k + d)%N. rewrite fits_S, Nat2N.inj_succ, N.pow_succ_r'. unfold fits in Hd.
    split_and!; [nia|lia|]. by rewrite fixed_first.
Qed.

(** ** Stamps and their text *)

(** What the text of a stamp can hold. *)
Record hlc_ok (h : Hlc) : Prop := {
  ok_ms : fits 13 h.(ms);
  ok_ctr : fits 5 h.(ctr);
  ok_device : h.(deviceId) ≠ "" ∧ str_forall is_dot h.(deviceId) = true
}.

Lemma parse_format h : hlc_ok h → parseHlc (formatHlc h) = Some h.
Proof.
  intros [H1 H2 [H3 H4]]. unfold parseHlc, formatHlc. rewrite digits_padded by (done || lia).
  unfold base.mbind, option_bind. rewrite str_app_cons, str_app_nil_l. cbn iota beta delta [colon].
  rewrite digits_padded by (done || lia). rewrite str_app_cons, str_app_nil_l. cbn iota beta delta [colon]. rewrite H4.
  destruct h as [m c d]. simpl in *. by apply String.eqb_neq in H3 as ->.
Qed.

Lemma parse_inv s h : parseHlc s = Some h → hlc_ok h ∧ s = formatHlc h.
Proof.
  unfold parseHlc. intros H. apply bind_Some in H as ([m s1] & H1 & H). apply bind_Some in H as (s2 & H2 & H).
  apply bind_Some in H as ([c s3] & H3 & H). apply bind_Some in H as (s4 & H4 & H).
  destruct (negb (s4 =? "") && str_forall is_dot s4) eqn:H5; [|done]. injection H as <-.
  apply andb_true_iff in H5 as [H5%negb_true_iff%String.eqb_neq H6].
  apply digits_inv in H1 as (? & Hm & -> & ->), H3 as (? & Hc & -> & ->). rewrite N.mul_0_l, !N.add_0_l.
  assert (∀ a b, colon a = Some b → a = ":" +:+ b) as Hcolon.
  { clear. intros [|a s] b; [done|]. simpl. repeat case_match; try done. by intros [= ->]. }
  apply Hcolon in H2 as ->, H4 as ->. split; [by split|]. unfold formatHlc. cbn [ms ctr deviceId].
  by rewrite !padded_fixed by (done || lia).
Qed.

(** ** The order of stamps *)

Lemma str_lt_irrefl s : str_lt s s = false.
Proof.
  unfold str_lt, String.ltb. assert (String.compare s s = Eq) as ->; [|done].
  induction s as [|c s IH]; [done|]. simpl. unfold Ascii.compare. by rewrite N.compare_refl.
Qed.

(** The order of [compareHlc] on well-formed stamps: time, counter, device. *)
Definition hlc_lt (a b : Hlc) : Prop :=
  (a.(ms) < b.(ms))%N
  ∨ a.(ms) = b.(ms) ∧ ((a.(ctr) < b.(ctr))%N ∨ a.(ctr) = b.(ctr) ∧ str_lt a.(deviceId) b.(deviceId) = true).

Lemma compare_formatted a b : hlc_ok a → hlc_ok b → compareHlc (formatHlc a) (formatHlc b) = (-1)%Z ↔ hlc_lt a b.
Proof.
  intros Ha Hb. unfold compareHlc. rewrite !parse_format by done. unfold hlc_lt.
  destruct (N.eqb_spec a.(ms) b.(ms)) as [->|Hm]; simpl.
  - destruct (N.eqb_spec a.(ctr) b.(ctr)) as [->|Hc]; simpl.
    + destruct (String.eqb_spec a.(deviceId) b.(deviceId)) as [->|Hd].
      * split; [done|]. intros [?|[_ [?|[_ H]]]]; [lia..|].
        by rewrite str_lt_irrefl in H.
      * destruct (str_lt _ _); split; try done; [by right; split; [|right]|]. intros [?|[_ [?|[_ ?]]]]; [lia..|done].
    + destruct (N.ltb_spec a.(ctr) b.(ctr)); split; try done; [by right; split; [|left]|]. intros [?|[_ [?|[? _]]]]; lia.
  - destruct (N.ltb_spec a.(ms) b.(ms)); split; try done; [by left|]. intros [?|[? _]]; lia.
Qed.

(** ** What the clock guarantees *)

(** One thing that happens to the clock of a device: it issues a stamp, hears
    one, or is built anew from its persisted stamp. *)
Inductive clock_event := Issue (wall : N) | Hear (remote : string) | Restart.

(** The clock after some events and the stamps it issued or heard. *)
Fixpoint clock_run (device : string) (evs : list clock_event) (st : clock) : clock * list string :=
  match evs with
  | [] => (st, [])
  | Issue wall :: rest =>
      let '(s, st1) := clock_next device wall st in
      let '(st2, l) := clock_run device rest st1 in (st2, s :: l)
  | Hear remote :: rest =>
      let '(st2, l) := clock_run device rest (clock_observe remote st) in
      (st2, match parseHlc remote with Some _ => remote :: l | None => l end)
  | Restart :: rest => clock_run device rest (new_clock (clock_last device st))
  end.

(** No wall time and no heard stamp is later than [B]. *)
Definition timely (B : N) (ev : clock_event) : Prop :=
  match ev with
  | Issue wall => (wall ≤ B)%N
  | Hear remote => ∀ h, parseHlc remote = Some h → (h.(ms) ≤ B)%N
  | Restart => True
  end.

Definition device_ok (d : string) : Prop := d ≠ "" ∧ str_forall is_dot d = true.

(** At most [B] milliseconds. *)
Definition clock_ok (B : N) (st : clock) : Prop :=
  match st with Some (m, c) => (m ≤ B ∧ c ≤ MAX_CTR)%N | None => True end.

(** A stamp the clock has reached. *)
Definition reached (st : clock) (s : string) : Prop :=
  ∃ h m c, parseHlc s = Some h ∧ st = Some (m, c) ∧ (h.(ms) < m ∨ h.(ms) = m ∧ h.(ctr) ≤ c)%N.

Definition advances (st st' : clock) : Prop :=
  ∀ m c, st = Some (m, c) → ∃ m' c', st' = Some (m', c') ∧ (m < m' ∨ m = m' ∧ c ≤ c')%N.

#[local] Instance advances_preorder : PreOrder advances.
Proof.
  split; [intros st m c ->; eexists _, _; split; [done|lia]|].
  intros a b d H1 H2 m c Ha. destruct (H1 _ _ Ha) as (m1 & c1 & Hb & ?), (H2 _ _ Hb) as (m2 & c2 & ? & ?).
  eexists _, _. split; [done|lia].
Qed.

Lemma reached_advances st st' s : advances st st' → reached st s → reached st' s.
Proof.
  intros Ha (h & m & c & Hp & Hst & Hle). destruct (Ha _ _ Hst) as (m' & c' & -> & ?).
  exists h, m', c'. split_and!; [done|done|lia].
Qed.

Lemma ctr_fits c : (c ≤ MAX_CTR)%N → fits 5 c.
Proof. unfold MAX_CTR, fits. change (10 ^ N.of_nat 5)%N with 100000%N. lia. Qed.

Lemma fits_ctr c : fits 5 c → (c ≤ MAX_CTR)%N.
Proof. unfold MAX_CTR, fits. change (10 ^ N.of_nat 5)%N with 100000%N. lia. Qed.

(** [next] issues a stamp after everything the clock has reached. *)
Lemma next_spec device wall st B :
  device_ok device → clock_ok B st → (wall ≤ B)%N → (B + 1 < 10 ^ 13)%N →
  ∃ h, clock_next device wall st = (formatHlc h, Some (h.(ms), h.(ctr))) ∧ hlc_ok h ∧ h.(deviceId) = device ∧ clock_ok (B + 1) (Some (h.(ms), h.(ctr)))
    ∧ (∀ m c, st = Some (m, c) → (m < h.(ms) ∨ m = h.(ms) ∧ c < h.(ctr)))%N.
Proof.
  intros Hd Hok Hw HB. unfold clock_next.
  set (m := match st with Some (m0, _) => N.max wall m0 | None => wall end).
  set (c := match st with Some (m0, c0) => if (m =? m0)%N then (c0 + 1)%N else 0%N | None => 0%N end).
  assert (m ≤ B)%N as Hm by (unfold m; destruct st as [[m0 c0]|]; simpl in Hok; lia).
  assert (∀ m0 c0, st = Some (m0, c0) → m0 < m ∨ m0 = m ∧ c0 < c)%N as Hlt.
  { intros m0 c0 ->. unfold c, m. destruct (N.eqb_spec (N.max wall m0) m0); lia. }
  assert (c ≤ MAX_CTR + 1)%N as Hc.
  { unfold c. destruct st as [[m0 c0]|]; [|done]. simpl in Hok. destruct (N.eqb_spec m m0); lia. }
  destruct (N.ltb_spec MAX_CTR c) as [Hcarry|Hcarry].
  - exists (mk_hlc (m + 1) 0 device). simpl. split_and!; [done| |done|lia|lia|].
    + split; simpl; [unfold fits; change (10 ^ N.of_nat 13)%N with (10 ^ 13)%N; lia|done|done].
    + intros m0 c0 Hst. destruct (Hlt _ _ Hst); lia.
  - exists (mk_hlc m c device). simpl. split_and!; [done| |done|lia|lia|].
    + split; simpl; [unfold fits; change (10 ^ N.of_nat 13)%N with (10 ^ 13)%N; lia|by apply ctr_fits|done].
    + intros m0 c0 Hst. destruct (Hlt _ _ Hst); lia.
Qed.

Lemma observe_spec remote st B :
  clock_ok B st → (∀ h, parseHlc remote = Some h → (h.(ms) ≤ B)%N) →
  clock_ok B (clock_observe remote st) ∧ advances st (clock_observe remote st)
  ∧ (is_Some (parseHlc remote) → reached (clock_observe remote st) remote).
Proof.
  intros Hok Hr. unfold clock_observe, reached. destruct (parseHlc remote) as [h|] eqn:Hp; [|by split_and!; [done|reflexivity|intros []]].
  specialize (Hr h eq_refl). apply parse_inv in Hp as [[_ Hc _] _]. apply fits_ctr in Hc.
  destruct st as [[m c]|]; simpl in Hok.
  - destruct ((m <? ms h)%N || (ms h =? m)%N && (c <? ctr h)%N) eqn:E.
    + apply orb_true_iff in E. split_and!; [done| |].
      * intros ? ? [= <- <-]. eexists _, _. split; [done|]. destruct E as [?%N.ltb_lt|[?%N.eqb_eq ?%N.ltb_lt]%andb_true_iff]; lia.
      * intros _. eexists h, _, _. split_and!; [done|done|lia].
    + split_and!; [done|reflexivity|]. intros _. eexists h, _, _. split_and!; [done|done|].
      apply orb_false_iff in E as [E1%N.ltb_ge E2]. apply andb_false_iff in E2 as [E2%N.eqb_neq|E2%N.ltb_ge]; lia.
  - split_and!; [done|by intros ? ? [=]|]. intros _. eexists h, _, _. split_and!; [done|done|lia].
Qed.

Lemma restart_same device st B :
  device_ok device → clock_ok B st → (B < 10 ^ 13)%N → new_clock (clock_last device st) = st.
Proof.
  intros Hd Hok HB. destruct st as [[m c]|]; [|done]. unfold clock_last, new_clock. simpl in *.
  rewrite parse_format; [done|]. destruct Hok as [Hm Hc]. split; simpl; [|by apply ctr_fits|done].
  unfold fits. change (10 ^ N.of_nat 13)%N with (10 ^ 13)%N. lia.
Qed.

Lemma clock_run_inv device evs st B :
  device_ok device → clock_ok B st → Forall (timely B) evs → (B + N.of_nat (length evs) < 10 ^ 13)%N →
  let '(st', heard) := clock_run device evs st in
  clock_ok (B + N.of_nat (length evs)) st' ∧ advances st st' ∧ ∀ s, s ∈ heard → reached st' s.
Proof.
  intros Hd. revert st B. induction evs as [|ev evs IH]; intros st B Hok Hev HB.
  - simpl. rewrite N.add_0_r. split_and!; [done|reflexivity|by intros ? ?%not_elem_of_nil].
  - inversion_clear Hev as [|? ? H1 Hev']. simpl length in *.
    assert (∀ B', (B ≤ B')%N → Forall (timely B') evs) as Hup.
    { intros B' HB'. eapply Forall_impl; [exact Hev'|]. intros [w|r|]; simpl; [lia| |done]. intros H h Hh. specialize (H h Hh). lia. }
    destruct ev as [wall|remote|]; cbn [clock_run].
    + destruct (next_spec device wall st B) as (h & -> & Hh & _ & Hok1 & Hlt); [done..|lia|].
      specialize (IH (Some (ms h, ctr h)) (B + 1)%N Hok1 (Hup (B + 1)%N ltac:(lia)) ltac:(lia)).
      destruct (clock_run device evs _) as [st' l]. destruct IH as (H2 & H3 & H4). split_and!.
      * by replace (B + N.of_nat (S (length evs)))%N with (B + 1 + N.of_nat (length evs))%N by lia.
      * transitivity (Some (ms h, ctr h)); [|done]. intros m c Hst. eexists _, _. split; [done|]. destruct (Hlt _ _ Hst); lia.
      * intros s [->|Hs]%elem_of_cons; [|by apply H4]. eapply reached_advances; [exact H3|].
        eexists h, _, _. split_and!; [by apply parse_format|done|lia].
    + destruct (observe_spec remote st B Hok H1) as (Hok1 & Ha & Hr).
      specialize (IH _ B Hok1 Hev' ltac:(lia)). destruct (clock_run device evs _) as [st' l]. destruct IH as (H2 & H3 & H4). split_and!.
      * destruct st' as [[]|]; simpl in *; [lia|done].
      * by etransitivity.
      * intros s Hs. destruct (parseHlc remote) eqn:Hp; [|by apply H4].
        apply elem_of_cons in Hs as [->|Hs]; [|by apply H4]. eapply reached_advances; [exact H3|]. by apply Hr.
    + rewrite (restart_same device st B) by (done || lia). specialize (IH st B Hok Hev' ltac:(lia)).
      destruct (clock_run device evs _) as [st' l]. destruct IH as (H2 & H3 & H4). split_and!; [|done|done].
      destruct st' as [[]|]; simpl in *; [lia|done].
Qed.

(** C21: A stamp the clock issues parses, carries the device, and sorts strictly above every
    stamp it issued or heard before, however the wall clock jumps and however often the
    process restarts from the last stamp, while times stay under the bound of the thirteen-
    digit format. *)
Theorem clock_monotone device evs wall st B :
  device_ok device → clock_ok B st → Forall (timely B) (evs ++ [Issue wall]) →
  (B + N.of_nat (length evs) + 1 < 10 ^ 13)%N →
  let '(st', heard) := clock_run device evs st in
  let s := (clock_next device wall st').1 in
  (∃ h, parseHlc s = Some h ∧ h.(deviceId) = device)
  ∧ (∀ s0, s0 ∈ heard → compareHlc s0 s = (-1)%Z).
Proof.
  intros Hd Hok [Hev Hw]%Forall_app HB. inversion_clear Hw as [|? ? Hw1 _]. simpl in Hw1.
  pose proof (clock_run_inv device evs st B Hd Hok Hev ltac:(lia)) as H. destruct (clock_run device evs st) as [st' heard].
  destruct H as (Hok' & _ & Hr).
  destruct (next_spec device wall st' (B + N.of_nat (length evs))) as (h & Hn & Hh & Hdev & _ & Hlt); [done..|lia|lia|].
  rewrite Hn. split.
  - exists h. split; [by apply parse_format|done].
  - intros s0 Hs. destruct (Hr _ Hs) as (h0 & m & c & Hp & Hst & Hle). apply parse_inv in Hp as [H0 ->].
    apply compare_formatted; [done..|].
    assert (ms h0 < ms h ∨ ms h0 = ms h ∧ ctr h0 < ctr h)%N as [?|[? ?]] by (destruct (Hlt _ _ Hst); lia); [by left|].
    right. split; [done|by left].
Qed.

Lemma clock_monotone_witness :
  device_ok "mac"
  ∧ let evs := [Issue 1000; Hear "0000000005000:00003:other"; Restart; Issue 1200]%N in
    let '(st', heard) := clock_run "mac" evs None in
    heard = ["0000000001000:00000:mac"; "0000000005000:00003:other"; "0000000005000:00004:mac"]
    ∧ (clock_next "mac" 900 st').1 = "0000000005000:00005:mac"
    ∧ ∀ s0, s0 ∈ heard → compareHlc s0 (clock_next "mac" 900 st').1 = (-1)%Z.
Proof.
  assert (device_ok "mac") as Hd by done. split; [done|].
  set (evs := [Issue 1000; Hear "0000000005000:00003:other"; Restart; Issue 1200]%N). cbv zeta.
  assert (Forall (timely 5000) (evs ++ [Issue 900])) as Hev.
  { repeat constructor; simpl; try done. intros h Hh. vm_compute in Hh. injection Hh as <-. done. }
  pose proof (clock_monotone "mac" evs 900 None 5000 Hd I Hev eq_refl) as H. revert H.
  assert (clock_run "mac" evs None = (Some (5000, 4)%N,
    ["0000000001000:00000:mac"; "0000000005000:00003:other"; "0000000005000:00004:mac"])) as -> by (vm_compute; reflexivity).
  intros [_ H]. split; [reflexivity|]. split; [vm_compute; reflexivity|exact H].
Defined.

(** ** The end of the format

    A heard stamp at the last millisecond the format holds makes the clock
    issue stamps of fourteen digits.  They do not parse, and as strings they
    sort before every stamp of thirteen digits that does not start with a one
    and zeros. *)

Definition last_stamp : string := "9999999999999:99999:x".

Example clock_past_the_format :
  let s := (clock_next "mac" 1700000000000 (clock_observe last_stamp None)).1 in
  s = "10000000000000:00000:mac" ∧ parseHlc s = None ∧ compareHlc s last_stamp = (-1)%Z
  ∧ compareHlc s "1700000000000:00000:mac" = (-1)%Z.
Proof. vm_compute. done. Qed.

(** ** The time of a database row *)

Lemma hlcFromIso_ok Date_parse iso device s :
  device_ok device → hlcFromIso Date_parse iso device = Some s →
  ∃ h, parseHlc s = Some h ∧ h.(ctr) = 0%N ∧ h.(deviceId) = device.
Proof.
  intros Hd H. unfold hlcFromIso in H. apply bind_Some in H as (m & _ & H).
  destruct ((m <? 0)%Z || (MAX_MS <? m)%Z) eqn:E; [done|]. injection H as <-. apply orb_false_iff in E as [E1 E2].
  eexists. split; [apply parse_format|done]. split; [|done|done]. unfold fits.
  change (10 ^ N.of_nat 13)%N with (10 ^ 13)%N. simpl. unfold MAX_MS in E2. lia.
Qed.
