(* ===== verification/TaskTables.v ===== *)
(** * Backlog entities: tables and requests

    The data of [orchestrator/taskChangeRouter.ts]: the tables [ideas], [epics]
    and [tasks] with their shared changelog [entity_events], the boards, the
    ref counters, the dependency edges, and the columns of the run and lane
    tables the router reads; the requests it accepts, the errors it throws and
    what it broadcasts.

    The three entity tables are one map keyed by the entity type and the id.  A
    row keeps its nullable columns in a map from columns to cells, where an
    absent cell is SQL's NULL: an UPDATE is driven by the same deltas the
    changelog stores.  A schema with every migration applied is assumed, so each
    [columnExists] probe answers true; tables the router only hands to other
    routers (artifacts, review items, the idea component ledger) are entries of
    a log.  A manual rank is the decimal text of its number, which [!==] tells
    apart exactly as numbers. *)

From stdpp Require Import pretty.
From S2P Require Import Prelude RunStateMachine Database JsNumber.

Open Scope js_scope.

(** ** Entity types and columns *)

Inductive task_type := TIdea | TEpic | TTask.
#[export] Instance task_type_eq_dec : EqDecision task_type.
Proof. solve_decision. Defined.
#[export] Instance task_type_countable : Countable task_type.
Proof.
  refine (inj_countable' (λ t, match t with TIdea => 0 | TEpic => 1 | TTask => 2 end)
            (λ n : nat, match n with 0 => TIdea | 1 => TEpic | _ => TTask end) _).
  by intros [].
Defined.

Inductive column :=
  | c_ref | c_stage | c_entry_stage | c_parent_epic | c_originating_idea
  | c_title | c_summary | c_body | c_priority | c_category | c_sort_order | c_repo
  | c_scope | c_executor | c_attachments
  | c_archived_at | c_decomposed_at | c_approved_at | c_reopened_at
  | c_experiment_id | c_experiment_arm | c_caused_by_run.
#[export] Instance column_eq_dec : EqDecision column.
Proof. solve_decision. Defined.

Definition columns : list column :=
  [c_ref; c_stage; c_entry_stage; c_parent_epic; c_originating_idea; c_title; c_summary; c_body;
   c_priority; c_category; c_sort_order; c_repo; c_scope; c_executor; c_attachments; c_archived_at;
   c_decomposed_at; c_approved_at; c_reopened_at; c_experiment_id; c_experiment_arm; c_caused_by_run].

#[export] Instance column_countable : Countable column.
Proof.
  refine (inj_countable (λ c, default 0 (list_find (c =.) columns ≫= λ p, Some p.1)) (λ n, columns !! n) _).
  by intros [].
Defined.

(** The columns a table carries. *)
Record EntityTableDescriptor := mk_desc {
  idPrefix : string;
  hasParentEpic : bool;
  hasOriginatingIdea : bool;
  hasEntryStage : bool;
  hasScope : bool;
  hasExecutor : bool;
  hasAttachments : bool;
  hasDecomposed : bool;
  hasApproval : bool
}.

Definition describe (type : task_type) : EntityTableDescriptor :=
  match type with
  | TIdea => mk_desc "ide" false false false true false true true false
  | TEpic => mk_desc "epc" false true false false false false false true
  | TTask => mk_desc "tsk" true true true false true false false true
  end.

Inductive cell := Text (s : string) | Stamp (t : instant).
#[export] Instance cell_eq_dec : EqDecision cell.
Proof. solve_decision. Defined.

Definition text_of (v : option cell) : option string :=
  match v with Some (Text s) => Some s | _ => None end.
Definition stamp_of (v : option cell) : option instant :=
  match v with Some (Stamp t) => Some t | _ => None end.

Record entity := mk_entity {
  en_project : Z;
  en_board : string;
  en_cells : gmap column cell;
  en_version : Z;
  en_created_at : instant;
  en_updated_at : instant
}.

Definition col (c : column) (e : entity) : option cell := e.(en_cells) !! c.
Definition stage_of (e : entity) : string := default "" (text_of (col c_stage e)).

(** A nullable column is written. *)
Definition set_col (c : column) (v : option cell) (e : entity) : entity :=
  mk_entity e.(en_project) e.(en_board) (partial_alter (λ _, v) c e.(en_cells)) e.(en_version)
    e.(en_created_at) e.(en_updated_at).

Definition set_version (v : Z) (now : instant) (e : entity) : entity :=
  mk_entity e.(en_project) e.(en_board) e.(en_cells) v e.(en_created_at) now.

(** ** The changelog *)

Inductive delta_field := FCol (c : column) | FDependsOn | FDependencyKind.
#[export] Instance delta_field_eq_dec : EqDecision delta_field.
Proof. solve_decision. Defined.

Record FieldDelta := mk_delta { fd_field : delta_field; fd_from : option cell; fd_to : option cell }.

Inductive task_actor :=
  | a_user | a_orchestrator | a_agent (role : string) | a_provider (name : string) | a_remote.
#[export] Instance task_actor_eq_dec : EqDecision task_actor.
Proof. solve_decision. Defined.

Definition REMOTE_ACTOR : task_actor := a_remote.

Record event := mk_event {
  ev_id : nat;
  ev_type : task_type;
  ev_entity : string;
  ev_seq : nat;
  ev_kind : string;
  ev_actor : task_actor;
  ev_run : option string;
  ev_changes : list FieldDelta;
  ev_at : instant
}.

(** ** The other tables *)

Inductive write_policy := asserted | derived.
#[export] Instance write_policy_eq_dec : EqDecision write_policy.
Proof. solve_decision. Defined.

(** A row of [board_stages]; [UNIQUE (board_id, position)]. *)
Record stage := mk_board_stage {
  sg_id : string; sg_board : string; sg_position : Z; sg_policy : write_policy; sg_terminal : bool
}.

Inductive dependency_kind := blocking | related.
#[export] Instance dependency_kind_eq_dec : EqDecision dependency_kind.
Proof. solve_decision. Defined.

(** A row of [task_dependencies]; [UNIQUE (task_id, depends_on_task_id)]. *)
Record dep := mk_dep { dep_task : string; dep_on : string; dep_kind : dependency_kind }.

(** A row of [workflow_runs], with the name of its workflow. *)
Record task_run := mk_task_run {
  tr_id : string;
  tr_status : run_status;
  tr_task : option string;
  tr_batch : option string;
  tr_outcome : option string;
  tr_created_at : instant;
  tr_experiment_id : option string;
  tr_experiment_arm : option string;
  tr_plan_approved_at : option string;
  tr_steps_snapshot : option string;
  tr_workflow_name : option string;
  tr_seed_idea : option string;
  tr_seed_ideas : option string
}.

(** A row of [sprint_batch_tasks]. *)
Record task_lane := mk_task_lane { tl_batch : string; tl_task : string; tl_status : string }.

(** What the router tells the rest of the process. *)
Inductive task_change_action := act_created | act_updated | act_stageMoved | act_decomposed | act_deleted.

Inductive task_log :=
  | TaskChanged (project : Z) (type : task_type) (id : string) (action : task_change_action) (actor : task_actor)
  | ReapArtifacts (project : Z) (runId : string)
  | DismissReviewItems (project : Z) (type : task_type) (id : string) (nonBlockingOnly : bool)
  | MarkComponentsStale (project : Z) (ideaId : string) (components : list string)
  | PurgeComponents (project : Z) (ideaId : string).

Record tdb := mk_tdb {
  db_entities : gmap (task_type * string) entity;
  (* in the order of insertion *)
  db_events : list event;
  db_next_event : nat;
  db_counters : gmap (Z * task_type) nat;
  db_boards : gmap string Z;
  db_stages : list stage;
  db_deps : list dep;
  db_runs : list task_run;
  db_lanes : list task_lane;
  (* the device code of remote_sync_device, when sync is active *)
  db_device : option string;
  (* entities a pending blocking review item references *)
  db_held : gset (task_type * string);
  db_aliases : gmap (Z * string) (string * string * instant);
  db_log : list task_log
}.

(** ** Record updates *)

Definition with_entities (f : gmap (task_type * string) entity → gmap (task_type * string) entity) (d : tdb) : tdb :=
  mk_tdb (f d.(db_entities)) d.(db_events) d.(db_next_event) d.(db_counters) d.(db_boards) d.(db_stages) d.(db_deps)
    d.(db_runs) d.(db_lanes) d.(db_device) d.(db_held) d.(db_aliases) d.(db_log).
Definition with_events (f : list event → list event) (d : tdb) : tdb :=
  mk_tdb d.(db_entities) (f d.(db_events)) d.(db_next_event) d.(db_counters) d.(db_boards) d.(db_stages) d.(db_deps)
    d.(db_runs) d.(db_lanes) d.(db_device) d.(db_held) d.(db_aliases) d.(db_log).
Definition with_next_event (n : nat) (d : tdb) : tdb :=
  mk_tdb d.(db_entities) d.(db_events) n d.(db_counters) d.(db_boards) d.(db_stages) d.(db_deps)
    d.(db_runs) d.(db_lanes) d.(db_device) d.(db_held) d.(db_aliases) d.(db_log).
Definition with_counters (f : gmap (Z * task_type) nat → gmap (Z * task_type) nat) (d : tdb) : tdb :=
  mk_tdb d.(db_entities) d.(db_events) d.(db_next_event) (f d.(db_counters)) d.(db_boards) d.(db_stages) d.(db_deps)
    d.(db_runs) d.(db_lanes) d.(db_device) d.(db_held) d.(db_aliases) d.(db_log).
Definition with_deps (f : list dep → list dep) (d : tdb) : tdb :=
  mk_tdb d.(db_entities) d.(db_events) d.(db_next_event) d.(db_counters) d.(db_boards) d.(db_stages) (f d.(db_deps))
    d.(db_runs) d.(db_lanes) d.(db_device) d.(db_held) d.(db_aliases) d.(db_log).
Definition with_runs (runs : list task_run) (lanes : list task_lane) (d : tdb) : tdb :=
  mk_tdb d.(db_entities) d.(db_events) d.(db_next_event) d.(db_counters) d.(db_boards) d.(db_stages) d.(db_deps)
    runs lanes d.(db_device) d.(db_held) d.(db_aliases) d.(db_log).
Definition with_aliases (f : gmap (Z * string) (string * string * instant) → gmap (Z * string) (string * string * instant))
    (d : tdb) : tdb :=
  mk_tdb d.(db_entities) d.(db_events) d.(db_next_event) d.(db_counters) d.(db_boards) d.(db_stages) d.(db_deps)
    d.(db_runs) d.(db_lanes) d.(db_device) d.(db_held) (f d.(db_aliases)) d.(db_log).
Definition with_log (l : list task_log) (d : tdb) : tdb :=
  mk_tdb d.(db_entities) d.(db_events) d.(db_next_event) d.(db_counters) d.(db_boards) d.(db_stages) d.(db_deps)
    d.(db_runs) d.(db_lanes) d.(db_device) d.(db_held) d.(db_aliases) (d.(db_log) ++ l).

(** ** Errors *)

Inductive TaskChangeErrorCode :=
  | not_found | invalid_parent | invalid_lineage | forbidden_stage | active_runs | concurrency
  | invalid_dependency | dependency_cycle | invalid_executor | idea_needs_epic
  | experiment_sandboxed | experiment_sweep_failed | remote_only | ref_conflict.
#[export] Instance error_code_eq_dec : EqDecision TaskChangeErrorCode.
Proof. solve_decision. Defined.

(** A [TaskChangeError], or a constraint of the database. *)
Inductive task_error := Rejected (code : TaskChangeErrorCode) | SqlError.

(** ** Requests.  [None] is [undefined]; a nullable argument has its own option. *)

Record TaskFieldChanges := mk_fields {
  f_title : option string;
  f_summary : option (option string);
  f_body : option (option string);
  f_priority : option string;
  f_category : option string;
  f_repo : option (option string);
  f_scope : option (option string);
  f_executor : option string;
  f_attachments : option (option (list string));
  f_entryStageId : option (option string);
  f_sortOrder : option (option string)
}.
Definition no_fields : TaskFieldChanges :=
  mk_fields None None None None None None None None None None None.

Record RemoteApplyFields := mk_remote {
  rm_id : option string;
  rm_ref : option string;
  rm_createdAt : option instant;
  rm_approvedAt : option (option instant);
  rm_decomposedAt : option (option instant);
  rm_archivedAt : option (option instant)
}.
Definition no_remote : RemoteApplyFields := mk_remote None None None None None None.

(** The create-only texts of a request ([title] ... [attachments]) are the
    fields of [ch_new]; [type] is folded into [entityType], which wins. *)
Record TaskChange := mk_change {
  ch_actor : task_actor;
  ch_entityType : option task_type;
  ch_taskId : option string;
  ch_fields : option TaskFieldChanges;
  ch_stageId : option string;
  ch_parentEpicId : option (option string);
  ch_originatingIdeaId : option (option string);
  ch_archived : option bool;
  ch_decomposed : option bool;
  ch_approved : option bool;
  ch_expectedVersion : option Z;
  ch_runId : option string;
  ch_experimentId : option string;
  ch_experimentArm : option string;
  ch_clearExperiment : option bool;
  ch_causedByRunId : option (option string);
  ch_dependsOnTaskId : option string;
  ch_dependencyKind : option dependency_kind;
  ch_removeDependency : option bool;
  ch_new : TaskFieldChanges;
  ch_boardId : option string;
  ch_initialStageId : option string;
  ch_kind : option string;
  ch_remote : option RemoteApplyFields
}.

(** A request that only names its actor. *)
Definition change_by (actor : task_actor) : TaskChange :=
  mk_change actor None None None None None None None None None None None None None None None None None None
    no_fields None None None None.
