(* ===== verification/TaskRouter.v ===== *)
(** * The write chokepoint of backlog entities

    The operations of [TaskChangeRouter]
    ([orchestrator/taskChangeRouter.ts]) and the run associations of
    [orchestrator/entityRunLinks.ts].  A task of a project's queue is one atomic
    operation on the tables ([runCreate], [runUpdate], ...); what [applyChange]
    and [applyDelete] do after their task settles re-enters the queue.
    [JSON.parse] is an argument ([None] is a throw), as are the clock and the
    random id of a new entity.  SQL rows come in the order of the table; where
    the code reads "the latest" of rows that compare equal, the earliest row is
    taken. *)

From stdpp Require Import pretty.
From S2P Require Import Prelude RunStateMachine Database JsString JsNumber Sections TaskTables.

Open Scope js_scope.

Notation MT := (M task_error tdb).

Definition reject {A} (code : TaskChangeErrorCode) : MT A := throw (Rejected code).

(** [if (b) throw new TaskChangeError(code)] *)
Definition reject_if (b : bool) (code : TaskChangeErrorCode) : MT unit := when b do reject code.

(** ** Constants *)

Definition DONE_POSITION : Z := 9.
Definition READY_FOR_DEV_POSITION : Z := 6.
Definition IN_DEVELOPMENT_POSITION : Z := 7.
Definition WONT_DO_POSITION : Z := 10.
Definition CREATE_DEFAULT_POSITION (type : task_type) : Z :=
  match type with TIdea => 1 | TEpic => 6 | TTask => 6 end.
Definition APPROVE_PLAN_STEP_ID : string := "approve-plan".
Definition PLAN_GATED_WORKFLOW_NAMES : list string := ["planner"; "ship"; "launch"].

Definition IDEA_COMPONENTS_STALE_ON_BODY_CHANGE : list string :=
  ["prototype"; "architecture"; "epics"; "stories"].

Definition componentsStaleForBodyChange (previousBody nextBody : option string) : list string :=
  let specChanged := negb (bool_decide (extractIdeaSpecSection previousBody = extractIdeaSpecSection nextBody)) in
  let archChanged := negb (bool_decide (extractArchDesignSection previousBody = extractArchDesignSection nextBody)) in
  if negb specChanged && negb archChanged then IDEA_COMPONENTS_STALE_ON_BODY_CHANGE
  else
    let stale := (if specChanged then IDEA_COMPONENTS_STALE_ON_BODY_CHANGE else [])
                 ++ (if archChanged then ["epics"; "stories"] else []) in
    filter (λ component, component ∈ stale) IDEA_COMPONENTS_STALE_ON_BODY_CHANGE.

(** ** Reads *)

(** [a ?? b] for a nullable argument *)
Definition nullish {A} (a : option (option A)) : option A := mjoin a.
Definition orElse {A} (a b : option A) : option A := match a with Some x => Some x | None => b end.

(** [typeof v === 'string' && v.length > 0] *)
Definition non_empty (v : option string) : option string :=
  match v with Some "" | None => None | Some s => Some s end.

Definition readEntity (type : task_type) (projectId : Z) (id : string) (d : tdb) : option entity :=
  match d.(db_entities) !! (type, id) with
  | Some e => if (e.(en_project) =? projectId)%Z then Some e else None
  | None => None
  end.

Fixpoint first_type (f : task_type → option entity) (order : list task_type) : option (task_type * entity) :=
  match order with
  | [] => None
  | t :: rest => match f t with Some e => Some (t, e) | None => first_type f rest end
  end.

Definition locateEntity (projectId : Z) (id : string) (declared : option task_type) (d : tdb)
    : option (task_type * entity) :=
  first_type (λ t, readEntity t projectId id d)
    (match declared with Some t => [t] | None => [TIdea; TEpic; TTask] end).

Definition lookupStage (id : string) (d : tdb) : option stage :=
  List.find (λ s, String.eqb s.(sg_id) id) d.(db_stages).

Definition stageIdForPosition (boardId : string) (position : Z) (d : tdb) : option string :=
  sg_id <$> List.find (λ s, String.eqb s.(sg_board) boardId && (s.(sg_position) =? position)%Z) d.(db_stages).

Definition idExistsAnywhere (id : string) (d : tdb) : bool :=
  existsb (λ t, bool_decide (is_Some (d.(db_entities) !! (t, id)))) [TIdea; TEpic; TTask].

(** Ids of the rows of one table that satisfy a predicate. *)
Definition select_ids (type : task_type) (p : entity → bool) (d : tdb) : list string :=
  (λ kv, kv.1.2) <$> filter (λ kv, kv.1.1 = type ∧ p kv.2 = true) (map_to_list d.(db_entities)).

Definition refers (c : column) (id : string) (e : entity) : bool := bool_decide (col c e = Some (Text id)).
Definition in_project (projectId : Z) (e : entity) : bool := (e.(en_project) =? projectId)%Z.

Definition events_of (type : task_type) (id : string) (d : tdb) : list event :=
  filter (λ ev, ev.(ev_type) = type ∧ ev.(ev_entity) = id) d.(db_events).

(** [ORDER BY seq DESC LIMIT 1] *)
Fixpoint latest (l : list event) : option event :=
  match l with
  | [] => None
  | ev :: rest =>
      match latest rest with
      | Some ev' => if (ev.(ev_seq) <? ev'.(ev_seq))%nat then Some ev' else Some ev
      | None => Some ev
      end
  end.

Definition last_event (type : task_type) (id : string) (d : tdb) : nat * nat :=
  match latest (events_of type id d) with Some ev => (ev.(ev_id), ev.(ev_seq)) | None => (0, 0) end.

(** ** Runs *)

Definition live_run (r : task_run) : bool := negb (is_terminal r.(tr_status)).

Definition lane_names (taskId : string) (r : task_run) (d : tdb) : bool :=
  match r.(tr_batch) with
  | Some b => existsb (λ l, String.eqb l.(tl_batch) b && String.eqb l.(tl_task) taskId) d.(db_lanes)
  | None => false
  end.

(** The run is linked to the task, directly or through a lane. *)
Definition run_of_task (taskId : string) (d : tdb) (r : task_run) : bool :=
  bool_decide (r.(tr_task) = Some taskId) || lane_names taskId r d.

Definition hasNonTerminalRun (taskId : string) (d : tdb) : bool :=
  existsb (λ r, live_run r && run_of_task taskId d r) d.(db_runs).

Definition find_run (runId : string) (d : tdb) : option task_run :=
  List.find (λ r, String.eqb r.(tr_id) runId) d.(db_runs).

Definition isRunNonTerminal (runId : string) (d : tdb) : bool :=
  existsb (λ r, String.eqb r.(tr_id) runId && live_run r) d.(db_runs).

(** A run is looked up only for a truthy id. *)
Definition run_for (runId : option string) (d : tdb) : option task_run :=
  match non_empty runId with Some id => find_run id d | None => None end.

Definition as_arm (v : option string) : option string :=
  match v with Some "A" => Some "A" | Some "B" => Some "B" | _ => None end.

Definition runExperimentIdFor (runId : option string) (d : tdb) : option string :=
  r ← run_for runId d; non_empty r.(tr_experiment_id).
Definition runExperimentArmFor (runId : option string) (d : tdb) : option string :=
  r ← run_for runId d; as_arm r.(tr_experiment_arm).
Definition taskExperimentIdFor (taskId : string) (d : tdb) : option string :=
  e ← d.(db_entities) !! (TTask, taskId); non_empty (text_of (col c_experiment_id e)).
Definition taskExperimentArmFor (taskId : string) (d : tdb) : option string :=
  e ← d.(db_entities) !! (TTask, taskId); as_arm (text_of (col c_experiment_arm e)).

(** ** [entityRunLinks.ts] *)

(** A JavaScript [Set], in the order of insertion. *)
Fixpoint to_set (seen : list string) (l : list string) : list string :=
  match l with
  | [] => []
  | x :: rest => if bool_decide (x ∈ seen) then to_set seen rest else x :: to_set (x :: seen) rest
  end.

Definition runs_where (p : task_run → bool) (d : tdb) : list string :=
  tr_id <$> filter (λ r, p r = true) d.(db_runs).

Definition listTaskRunIds (taskId : string) (d : tdb) : list string :=
  to_set [] (filter (λ i, i ≠ "")
    (runs_where (λ r, bool_decide (r.(tr_task) = Some taskId)) d ++ runs_where (λ r, lane_names taskId r d) d)).

Definition json_string (v : json_value) : option string :=
  match v with JScalar (SStr s) => Some s | _ => None end.

Section Router.
Context (JSON_parse : string → option json_value).

(** [Array.isArray(parsed) && parsed.includes(id)] for the text of a column *)
Definition seed_ids_include (id : string) (v : option string) : bool :=
  match v with
  | Some s => match JSON_parse s with
              | Some (JArr l) => bool_decide (Some id ∈ json_string <$> l)
              | _ => false
              end
  | None => false
  end.

Definition event_runs (p : event → bool) (d : tdb) : list string :=
  omap ev_run (filter (λ ev, p ev = true) d.(db_events)).

Definition listIdeaRunIds (ideaId : string) (d : tdb) : list string :=
  to_set [] (
    filter (λ i, i ≠ "") (runs_where (λ r, bool_decide (r.(tr_seed_idea) = Some ideaId)) d)
    ++ runs_where (λ r, seed_ids_include ideaId r.(tr_seed_ideas)) d
    ++ filter (λ i, i ≠ "")
      (event_runs (λ ev, bool_decide (ev.(ev_type) = TIdea) && String.eqb ev.(ev_entity) ideaId) d
       ++ event_runs (λ ev, bool_decide (ev.(ev_type) = TEpic)
            && match d.(db_entities) !! (TEpic, ev.(ev_entity)) with
               | Some e => refers c_originating_idea ideaId e | None => false end) d
       ++ event_runs (λ ev, bool_decide (ev.(ev_type) = TTask)
            && match d.(db_entities) !! (TTask, ev.(ev_entity)) with
               | Some t =>
                   let viaEpic := p ← text_of (col c_parent_epic t);
                                  e ← d.(db_entities) !! (TEpic, p); text_of (col c_originating_idea e) in
                   bool_decide (orElse (text_of (col c_originating_idea t)) viaEpic = Some ideaId)
               | None => false end) d)).

Definition listEpicRunIds (epicId : string) (d : tdb) : list string :=
  to_set [] (flat_map (λ id, listTaskRunIds id d) (select_ids TTask (refers c_parent_epic epicId) d)).

Definition listRunIdsForEntity (type : task_type) (id : string) (d : tdb) : list string :=
  match type with
  | TTask => listTaskRunIds id d
  | TIdea => listIdeaRunIds id d
  | TEpic => listEpicRunIds id d
  end.

(** ** Guards *)

Definition assertStageAuthority (actor : task_actor) (s : stage) : MT unit :=
  reject_if (bool_decide (s.(sg_policy) = derived ∧ actor ≠ a_orchestrator)) forbidden_stage.

Definition validateParentEpic (projectId : Z) (childType : task_type) (childId parentId : string) : MT unit :=
  reject_if (negb (describe childType).(hasParentEpic)) invalid_parent ;;;
  reject_if (String.eqb parentId childId) invalid_parent ;;;
  parent <- gets (λ d, d.(db_entities) !! (TEpic, parentId)) ;;
  match parent with
  | None => reject invalid_parent
  | Some p =>
      reject_if (negb (in_project projectId p)) invalid_parent ;;;
      reject_if (refers c_originating_idea childId p) invalid_parent
  end.

Definition validateOriginatingIdea (projectId : Z) (childType : task_type) (ideaId : string) : MT unit :=
  reject_if (negb (describe childType).(hasOriginatingIdea)) invalid_lineage ;;;
  idea <- gets (λ d, d.(db_entities) !! (TIdea, ideaId)) ;;
  match idea with
  | None => reject invalid_lineage
  | Some i => reject_if (negb (in_project projectId i)) invalid_lineage
  end.

(** A live task attached to the idea without an epic. *)
Definition direct_task (ideaId : string) (e : entity) : bool :=
  refers c_originating_idea ideaId e
  && bool_decide (col c_parent_epic e = None) && bool_decide (col c_archived_at e = None).

Definition assertIdeaEpicInvariant (ideaId excludeTaskId : string) : MT unit :=
  siblings <- gets (select_ids TTask (direct_task ideaId)) ;;
  reject_if (bool_decide (1 <= length (filter (λ id, id ≠ excludeTaskId) siblings))) idea_needs_epic.

(** The depth-first walk of [validateDependencyEdge]: whether it meets [blockedId];
    the top of the stack comes first. *)
Definition prerequisites (deps : list dep) (taskId : string) : list string :=
  dep_on <$> filter (λ e, e.(dep_task) = taskId ∧ e.(dep_kind) = blocking) deps.

Fixpoint reaches (fuel : nat) (deps : list dep) (blockedId : string) (visited : gset string) (stack : list string)
    : bool :=
  match fuel, stack with
  | S fuel, current :: stack =>
      if String.eqb current blockedId then true
      else if bool_decide (current ∈ visited) then reaches fuel deps blockedId visited stack
      else reaches fuel deps blockedId ({[current]} ∪ visited) (rev (prerequisites deps current) ++ stack)
  | _, _ => false
  end.

Definition walk_fuel (deps : list dep) : nat := S (length deps).

Definition validateDependencyEdge (blockedId dependsOnId : string) : MT unit :=
  d <- get ;;
  reject_if (reaches (walk_fuel d.(db_deps)) d.(db_deps) blockedId ∅ [dependsOnId]) dependency_cycle.

(** ** Writes *)

(** [SELECT MAX(seq)], and the insertion with its foreign key. *)
Definition max_seq (l : list event) : nat := foldr (λ ev n, Nat.max ev.(ev_seq) n) 0 l.

Definition insertEvent (entityType : task_type) (entityId kind : string) (actor : task_actor) (runId : option string)
    (changes : list FieldDelta) (now : instant) : MT (nat * nat) :=
  d <- get ;;
  let seq := S (max_seq (events_of entityType entityId d)) in
  match runId with
  | Some r => when (bool_decide (find_run r d = None)) do throw SqlError
  | None => mret tt
  end ;;;
  modify (λ d, with_next_event (S d.(db_next_event))
    (with_events (λ l, l ++ [mk_event d.(db_next_event) entityType entityId seq kind actor runId changes now]) d)) ;;;
  mret (d.(db_next_event), seq).

(** [UNIQUE (project_id, ref)] *)
Definition ref_holder (type : task_type) (projectId : Z) (ref : string) (d : tdb) : option string :=
  head (select_ids type (λ e, in_project projectId e && refers c_ref ref e) d).

Definition insert_row (type : task_type) (id : string) (e : entity) : MT unit :=
  d <- get ;;
  when (bool_decide (is_Some (d.(db_entities) !! (type, id)))) do throw SqlError ;;;
  when (match text_of (col c_ref e) with
        | Some ref => bool_decide (is_Some (ref_holder type e.(en_project) ref d))
        | None => true
        end) do throw SqlError ;;;
  modify (with_entities (<[(type, id) := e]>)).

(** [String(n).padStart(3, '0')] *)
Definition pad3 (s : string) : string :=
  match String.length s with 0 => "000" | 1 => "00" +:+ s | 2 => "0" +:+ s | _ => s end%nat.

Definition is_capital (c : Ascii.ascii) : bool :=
  let n := Ascii.nat_of_ascii c in (65 <=? n)%nat && (n <=? 90)%nat.

(** [/^[A-Z]{3}$/] *)
Definition DEVICE_CODE_RE (s : string) : bool := (String.length s =? 3)%nat && str_forall is_capital s.

Definition deviceRefCode (d : tdb) : option string :=
  match d.(db_device) with Some c => if DEVICE_CODE_RE c then Some c else None | None => None end.

Definition type_upper (type : task_type) : string :=
  match type with TIdea => "IDEA" | TEpic => "EPIC" | TTask => "TASK" end.

Definition ref_text (type : task_type) (code : option string) (n : nat) : string :=
  match code with
  | Some c => type_upper type +:+ "-" +:+ c +:+ "-" +:+ pad3 (pretty n)
  | None => type_upper type +:+ "-" +:+ pad3 (pretty n)
  end.

Definition mintRef (projectId : Z) (type : task_type) : MT string :=
  d <- get ;;
  let next := S (default 0 (d.(db_counters) !! (projectId, type))) in
  modify (with_counters (<[(projectId, type) := next]>)) ;;;
  mret (ref_text type (deviceRefCode d) next).

Definition emitChange (projectId : Z) (type : task_type) (id : string) (action : task_change_action)
    (actor : task_actor) : MT unit :=
  modify (λ d, if bool_decide (is_Some (d.(db_entities) !! (type, id)))
               then with_log [TaskChanged projectId type id action actor] d else d).

(** ** Creating an entity *)

(** How many seed ideas the run records. *)
Definition seedIdeaIdCount (runId : option string) (d : tdb) : nat :=
  match (run_for runId d ≫= λ r, non_empty r.(tr_seed_ideas)) ≫= JSON_parse with
  | Some (JArr l) => length (omap (λ v, json_string v ≫= (λ s, non_empty (Some s))) l)
  | _ => 0
  end.

(** The idea a run created. *)
Definition created_idea (runId : string) (d : tdb) : option string :=
  ev ← latest (filter (λ ev, ev.(ev_type) = TIdea ∧ ev.(ev_kind) = "created" ∧ ev.(ev_run) = Some runId) d.(db_events));
  non_empty (Some ev.(ev_entity)).

(** The lineage of a task whose request names no idea. *)
Definition inferred_idea (runId : option string) (d : tdb) : option string :=
  if (1 <? seedIdeaIdCount runId d)%nat then None
  else orElse (run_for runId d ≫= λ r, non_empty r.(tr_seed_idea))
         (non_empty runId ≫= λ id, created_idea id d).

Definition create_idea (type : task_type) (c : TaskChange) (d : tdb) : option string :=
  match nullish c.(ch_originatingIdeaId) with
  | Some i => Some i
  | None => if bool_decide (type = TTask) && bool_decide (is_Some (non_empty c.(ch_runId)))
            then inferred_idea c.(ch_runId) d else None
  end.

Definition resolveCreateExperimentId (c : TaskChange) (d : tdb) : option string :=
  match non_empty c.(ch_experimentId) with Some e => Some e | None => runExperimentIdFor c.(ch_runId) d end.
Definition resolveCreateExperimentArm (c : TaskChange) (d : tdb) : option string :=
  match as_arm c.(ch_experimentArm) with Some a => Some a | None => runExperimentArmFor c.(ch_runId) d end.

(** [hasOwnProperty.call(snapshot, 'approve-plan')]; on null it throws, like a
    malformed text, and the name of the workflow decides. *)
Definition runIsPlanGated (stepsSnapshot workflowName : option string) : bool :=
  let by_name := match workflowName with Some n => bool_decide (n ∈ PLAN_GATED_WORKFLOW_NAMES) | None => false end in
  match non_empty stepsSnapshot ≫= JSON_parse with
  | Some (JScalar SNull) | None => by_name
  | Some v => bool_decide (is_Some (json_member APPROVE_PLAN_STEP_ID v))
  end.

Definition computeCreateApprovedAt (c : TaskChange) (now : instant) (d : tdb) : option instant :=
  match run_for c.(ch_runId) d with
  | None => Some now
  | Some r =>
      match non_empty r.(tr_plan_approved_at) with
      | Some _ => Some now
      | None => if runIsPlanGated r.(tr_steps_snapshot) r.(tr_workflow_name) then None else Some now
      end
  end.

(** The remote part of a request, for the remote actor only. *)
Definition remote_of (c : TaskChange) : option RemoteApplyFields :=
  if bool_decide (c.(ch_actor) = REMOTE_ACTOR) then c.(ch_remote) else None.

(** [remote?.f] *)
Definition remote_field {A} (f : RemoteApplyFields → option A) (c : TaskChange) : option A :=
  match remote_of c with Some r => f r | None => None end.

Definition create_type (c : TaskChange) : task_type := default TIdea c.(ch_entityType).

(** [null] or an empty set is NULL; else [JSON.stringify] of the array, an
    attachment being the text of its object. *)
Definition attachments_json (l : option (list string)) : option string :=
  match l with
  | Some (x :: rest) => Some ("[" +:+ join "," (x :: rest) +:+ "]")
  | _ => None
  end.

(** A cell of a column a table carries. *)
Definition cells_of (l : list (column * option cell)) : gmap column cell :=
  foldr (λ cv m, partial_alter (λ _, cv.2) cv.1 m) ∅ l.

Definition fields_of (c : TaskChange) : TaskFieldChanges := default no_fields c.(ch_fields).

(** The row [insertEntity] writes. *)
Definition insertEntity (type : task_type) (projectId : Z) (boardId stageId ref : string)
    (parentEpicId originatingIdeaId experimentId experimentArm executor attachments : option string)
    (approvedAt : option instant) (c : TaskChange) (now : instant) : entity :=
  let f := fields_of c in let n := c.(ch_new) in
  let remote := remote_of c in
  let carried (b : bool) (v : option cell) := if b then v else None in
  let desc := describe type in
  let title := default "Untitled" (orElse n.(f_title) f.(f_title)) in
  let priority := default "P2" (orElse n.(f_priority) f.(f_priority)) in
  let category := default "feature" (orElse n.(f_category) f.(f_category)) in
  mk_entity projectId boardId
    (cells_of [
       (c_ref, Some (Text ref)); (c_title, Some (Text title));
       (c_summary, Text <$> orElse (nullish n.(f_summary)) (nullish f.(f_summary)));
       (c_body, Text <$> orElse (nullish n.(f_body)) (nullish f.(f_body)));
       (c_priority, Some (Text priority)); (c_category, Some (Text category));
       (c_repo, Text <$> orElse (nullish n.(f_repo)) (nullish f.(f_repo)));
       (c_stage, Some (Text stageId));
       (c_scope, carried desc.(hasScope) (Text <$> orElse (nullish n.(f_scope)) (nullish f.(f_scope))));
       (c_executor, carried desc.(hasExecutor) (Text <$> executor));
       (c_attachments, carried desc.(hasAttachments) (Text <$> attachments));
       (c_approved_at, carried desc.(hasApproval) (Stamp <$> approvedAt));
       (c_experiment_id, Text <$> experimentId); (c_experiment_arm, Text <$> experimentArm);
       (c_parent_epic, carried desc.(hasParentEpic) (Text <$> parentEpicId));
       (c_originating_idea, carried desc.(hasOriginatingIdea) (Text <$> originatingIdeaId));
       (c_archived_at, Stamp <$> (remote ≫= λ r, nullish r.(rm_archivedAt)));
       (c_decomposed_at, carried desc.(hasDecomposed) (Stamp <$> (remote ≫= λ r, nullish r.(rm_decomposedAt))));
       (c_sort_order, if remote then Text <$> nullish f.(f_sortOrder) else None)])
    1 (default now (remote ≫= rm_createdAt)) now.

(** The deltas of the 'created' event. *)
Definition created_deltas (type : task_type) (e : entity) : list FieldDelta :=
  let new c := mk_delta (FCol c) None (col c e) in
  let unless_null c := match col c e with Some _ => [new c] | None => [] end in
  [new c_ref; new c_stage; new c_title] ++ unless_null c_parent_epic ++ unless_null c_originating_idea
  ++ unless_null c_scope
  ++ (if (describe type).(hasExecutor) && negb (bool_decide (col c_executor e = Some (Text "agent")))
      then [new c_executor] else [])
  ++ unless_null c_attachments.

Record outcome := mk_outcome {
  rs_taskId : string;
  rs_dependsOn : option string;
  rs_removed : option bool;
  rs_event : nat * nat;
  rs_previousParent : option string;
  rs_wontDoRuns : option (list string);
  rs_type : option task_type;
  rs_stale : option (list string)
}.
Definition outcome_of (id : string) (ev : nat * nat) : outcome :=
  mk_outcome id None None ev None None None None.

(** The ref of the new row: the one supplied by another machine, or a minted one. *)
Definition create_ref (projectId : Z) (type : task_type) (id : string) (remoteRef : option string) : MT string :=
  match remoteRef with
  | Some ref =>
      d <- get ;;
      reject_if (idExistsAnywhere id d) concurrency ;;;
      reject_if (bool_decide (is_Some (ref_holder type projectId ref d))) ref_conflict ;;;
      mret ref
  | None => mintRef projectId type
  end.

Definition runCreate (projectId : Z) (c : TaskChange) (random : string) (now : instant) : MT outcome :=
  let type := create_type c in
  let desc := describe type in
  let remote := remote_of c in
  let taskId := default (desc.(idPrefix) +:+ "_" +:+ random) (remote ≫= rm_id) in
  ev <- transaction (
    let boardId := default ("board-" +:+ pretty projectId +:+ "-default") c.(ch_boardId) in
    d <- get ;;
    reject_if (negb (bool_decide (d.(db_boards) !! boardId = Some projectId))) not_found ;;;
    let typeDefault := default ("stage-" +:+ boardId +:+ "-1")
                         (stageIdForPosition boardId (CREATE_DEFAULT_POSITION type) d) in
    let stageId := default typeDefault (orElse c.(ch_initialStageId) c.(ch_stageId)) in
    match lookupStage stageId d with
    | None => reject not_found
    | Some s =>
        reject_if (negb (String.eqb s.(sg_board) boardId)) not_found ;;;
        assertStageAuthority c.(ch_actor) s
    end ;;;
    let parentEpicId := nullish c.(ch_parentEpicId) in
    let originatingIdeaId := create_idea type c d in
    match parentEpicId with Some p => validateParentEpic projectId type taskId p | None => mret tt end ;;;
    match originatingIdeaId with Some i => validateOriginatingIdea projectId type i | None => mret tt end ;;;
    match originatingIdeaId with
    | Some i => when (bool_decide (type = TTask) && bool_decide (parentEpicId = None) && bool_decide (remote = None))
                do assertIdeaEpicInvariant i taskId
    | None => mret tt
    end ;;;
    ref <- create_ref projectId type taskId (remote ≫= rm_ref) ;;
    let f := fields_of c in
    let requestedExecutor := orElse c.(ch_new).(f_executor) f.(f_executor) in
    reject_if (bool_decide (is_Some requestedExecutor) && negb desc.(hasExecutor)) invalid_executor ;;;
    let executor := if desc.(hasExecutor) then default "agent" requestedExecutor else "agent" in
    let attachments := attachments_json (orElse (nullish c.(ch_new).(f_attachments)) (nullish f.(f_attachments))) in
    let approvedAt := match remote with
                      | Some r => nullish r.(rm_approvedAt)
                      | None => computeCreateApprovedAt c now d
                      end in
    let e := insertEntity type projectId boardId stageId ref parentEpicId originatingIdeaId
               (resolveCreateExperimentId c d) (resolveCreateExperimentArm c d) (Some executor) attachments
               approvedAt c now in
    insert_row type taskId e ;;;
    insertEvent type taskId (default "created" c.(ch_kind)) c.(ch_actor) c.(ch_runId) (created_deltas type e) now) ;;
  emitChange projectId type taskId act_created c.(ch_actor) ;;;
  mret (outcome_of taskId ev).

(** ** Updating an entity *)

(** What the transaction of [runUpdate] accumulates; [sets] and [params] are
    always pushed with the delta of the same column. *)
Record update := mk_update {
  u_deltas : list FieldDelta;
  u_action : task_change_action;
  u_archiveKind : option string;
  u_executorChanged : bool;
  u_previousParent : option string;
  u_wontDoRuns : option (list string);
  u_stale : option (list string)
}.

Definition push (c : column) (current : entity) (to : option cell) (u : update) : update :=
  mk_update (u.(u_deltas) ++ [mk_delta (FCol c) (col c current) to]) u.(u_action) u.(u_archiveKind)
    u.(u_executorChanged) u.(u_previousParent) u.(u_wontDoRuns) u.(u_stale).
Definition with_action (a : task_change_action) (u : update) : update :=
  mk_update u.(u_deltas) a u.(u_archiveKind) u.(u_executorChanged) u.(u_previousParent) u.(u_wontDoRuns) u.(u_stale).
Definition with_archiveKind (k : string) (u : update) : update :=
  mk_update u.(u_deltas) u.(u_action) (Some k) u.(u_executorChanged) u.(u_previousParent) u.(u_wontDoRuns) u.(u_stale).
Definition with_executorChanged (u : update) : update :=
  mk_update u.(u_deltas) u.(u_action) u.(u_archiveKind) true u.(u_previousParent) u.(u_wontDoRuns) u.(u_stale).
Definition with_previousParent (p : option string) (u : update) : update :=
  mk_update u.(u_deltas) u.(u_action) u.(u_archiveKind) u.(u_executorChanged) p u.(u_wontDoRuns) u.(u_stale).
Definition with_wontDoRuns (l : list string) (u : update) : update :=
  mk_update u.(u_deltas) u.(u_action) u.(u_archiveKind) u.(u_executorChanged) u.(u_previousParent) (Some l) u.(u_stale).
Definition with_stale (l : list string) (u : update) : update :=
  mk_update u.(u_deltas) u.(u_action) u.(u_archiveKind) u.(u_executorChanged) u.(u_previousParent) u.(u_wontDoRuns)
    (Some l).

(** [if (to !== current.c) { sets.push; deltas.push }] *)
Definition change_to (c : column) (current : entity) (to : option cell) (u : update) : update :=
  if bool_decide (to = col c current) then u else push c current to u.

Section Branches.
Context (projectId : Z) (taskId : string) (type : task_type) (current : entity) (c : TaskChange) (now : instant).

(** The sandbox of an experiment. *)
Definition sandbox_ok (runExperiment runArm entityExperiment entityArm : option string) : bool :=
  match runExperiment with
  | Some x => bool_decide (entityExperiment = Some x) && bool_decide (is_Some runArm) && bool_decide (entityArm = runArm)
  | None => bool_decide (entityExperiment = None)
  end.

Definition sandbox_guard : MT unit :=
  d <- get ;;
  when (negb (bool_decide (c.(ch_actor) = a_orchestrator))) do
    reject_if (negb (sandbox_ok (runExperimentIdFor c.(ch_runId) d) (runExperimentArmFor c.(ch_runId) d)
                       (text_of (col c_experiment_id current)) (text_of (col c_experiment_arm current))))
      experiment_sandboxed.

Definition stage_branch (u : update) : MT update :=
  match c.(ch_stageId) with
  | Some target =>
      if bool_decide (Some (Text target) = col c_stage current) then mret u
      else
        d <- get ;;
        match lookupStage target d with
        | None => reject not_found
        | Some s =>
            assertStageAuthority c.(ch_actor) s ;;;
            reject_if (negb (bool_decide (c.(ch_actor) = a_orchestrator)) && hasNonTerminalRun taskId d) active_runs ;;;
            let u := with_action act_stageMoved (push c_stage current (Some (Text target)) u) in
            let u := if (s.(sg_position) =? WONT_DO_POSITION)%Z && bool_decide (u.(u_wontDoRuns) = None)
                     then with_wontDoRuns (listRunIdsForEntity type taskId d) u else u in
            let from_terminal := match lookupStage (stage_of current) d with Some f => f.(sg_terminal) | None => false end in
            mret (if bool_decide (type = TTask) && from_terminal && negb s.(sg_terminal)
                  then push c_reopened_at current (Some (Stamp now)) u else u)
        end
  | None => mret u
  end.

(** A toggle of a nullable stamp: [toggle !== (current.c !== null)]. *)
Definition toggled (toggle : bool) (column : column) : bool :=
  negb (Bool.eqb toggle (bool_decide (is_Some (col column current)))).
Definition toggle_to (toggle : bool) : option cell := if toggle then Some (Stamp now) else None.

Definition decomposed_branch (u : update) : MT update :=
  match c.(ch_decomposed) with
  | Some v =>
      reject_if (negb (describe type).(hasDecomposed)) invalid_lineage ;;;
      mret (if toggled v c_decomposed_at
            then with_action act_decomposed (push c_decomposed_at current (toggle_to v) u) else u)
  | None => mret u
  end.

Definition approved_branch (u : update) : MT update :=
  match c.(ch_approved) with
  | Some v =>
      reject_if (negb (describe type).(hasApproval)) invalid_lineage ;;;
      reject_if (negb (bool_decide (c.(ch_actor) = a_orchestrator))) forbidden_stage ;;;
      mret (if toggled v c_approved_at then push c_approved_at current (toggle_to v) u else u)
  | None => mret u
  end.

Definition clear_branch (u : update) : MT update :=
  match c.(ch_clearExperiment) with
  | Some true =>
      reject_if (negb (bool_decide (c.(ch_actor) = a_orchestrator))) forbidden_stage ;;;
      mret (change_to c_experiment_arm current None (change_to c_experiment_id current None u))
  | _ => mret u
  end.

Definition caused_branch (u : update) : update :=
  match c.(ch_causedByRunId) with Some v => change_to c_caused_by_run current (Text <$> v) u | None => u end.

Definition archive_branch (u : update) : MT update :=
  match c.(ch_archived) with
  | Some v =>
      if toggled v c_archived_at then
        d <- get ;;
        reject_if (v && negb (bool_decide (c.(ch_actor) = a_orchestrator)) && hasNonTerminalRun taskId d) active_runs ;;;
        mret (with_archiveKind (if v then "archived" else "unarchived")
                (push c_archived_at current (toggle_to v) u))
      else mret u
  | None => mret u
  end.

(** Whether a remote delete or archive of the entity must wait. *)
Definition remoteRetireBlocker (type : task_type) (id : string) (d : tdb) : bool :=
  bool_decide ((type, id) ∈ d.(db_held))
  || bool_decide (type = TTask) && hasNonTerminalRun id d
  || existsb (λ r, isRunNonTerminal r d) (listRunIdsForEntity type id d)
  || existsb (λ r, isRunNonTerminal r d)
       (event_runs (λ ev, bool_decide (ev.(ev_type) = type) && String.eqb ev.(ev_entity) id) d).

Definition remote_approved_branch (u : update) : MT update :=
  match remote_field rm_approvedAt c with
  | Some v =>
      reject_if (negb (describe type).(hasApproval)) invalid_lineage ;;;
      mret (change_to c_approved_at current (Stamp <$> v) u)
  | None => mret u
  end.

Definition remote_decomposed_branch (u : update) : MT update :=
  match remote_field rm_decomposedAt c with
  | Some v =>
      reject_if (negb (describe type).(hasDecomposed)) invalid_lineage ;;;
      mret (let to := Stamp <$> v in
            if bool_decide (to = col c_decomposed_at current) then u
            else let u := push c_decomposed_at current to u in
                 if v then with_action act_decomposed u else u)
  | None => mret u
  end.

Definition remote_archived_branch (u : update) : MT update :=
  match remote_field rm_archivedAt c with
  | Some v =>
      let to := Stamp <$> v in
      if bool_decide (to = col c_archived_at current) then mret u
      else
        d <- get ;;
        reject_if (bool_decide (is_Some v) && bool_decide (col c_archived_at current = None)
                   && remoteRetireBlocker type taskId d) active_runs ;;;
        let u := push c_archived_at current to u in
        mret (if Bool.eqb (bool_decide (v = None)) (bool_decide (col c_archived_at current = None)) then u
              else with_archiveKind (if v then "archived" else "unarchived") u)
  | None => mret u
  end.

Definition parent_branch (u : update) : MT update :=
  match c.(ch_parentEpicId) with
  | Some v =>
      if bool_decide (Text <$> v = col c_parent_epic current) then mret u
      else
        reject_if (negb (describe type).(hasParentEpic)) invalid_parent ;;;
        match v with Some p => validateParentEpic projectId type taskId p | None => mret tt end ;;;
        mret (push c_parent_epic current (Text <$> v)
                (with_previousParent (text_of (col c_parent_epic current)) u))
  | None => mret u
  end.

Definition idea_branch (u : update) : MT update :=
  match c.(ch_originatingIdeaId) with
  | Some v =>
      if bool_decide (Text <$> v = col c_originating_idea current) then mret u
      else
        reject_if (negb (describe type).(hasOriginatingIdea)) invalid_lineage ;;;
        match v with Some i => validateOriginatingIdea projectId type i | None => mret tt end ;;;
        mret (push c_originating_idea current (Text <$> v) u)
  | None => mret u
  end.

(** The IDEA-NEEDS-EPIC check of an update. *)
Definition epic_check : MT unit :=
  let unarchive := (bool_decide (c.(ch_archived) = Some false)
                    || bool_decide (remote_field rm_archivedAt c = Some None))
                   && bool_decide (is_Some (col c_archived_at current)) in
  when (bool_decide (remote_of c = None) && bool_decide (type = TTask)
        && (bool_decide (is_Some c.(ch_parentEpicId)) || bool_decide (is_Some c.(ch_originatingIdeaId)) || unarchive)) do
    let archived := default (bool_decide (is_Some (col c_archived_at current))) c.(ch_archived) in
    let parent := default (text_of (col c_parent_epic current)) c.(ch_parentEpicId) in
    let idea := default (text_of (col c_originating_idea current)) c.(ch_originatingIdeaId) in
    match idea with
    | Some i => when (negb archived && bool_decide (parent = None)) do assertIdeaEpicInvariant i taskId
    | None => mret tt
    end.

(** One scalar field: [undefined] leaves it alone. *)
Definition scalar_field (column : column) (v : option (option string)) (u : update) : update :=
  match v with Some to => change_to column current (Text <$> to) u | None => u end.

Definition body_field (v : option (option string)) (u : update) : update :=
  match v with
  | Some to =>
      if bool_decide (Text <$> to = col c_body current) then u
      else let u := push c_body current (Text <$> to) u in
           if bool_decide (type = TIdea)
           then with_stale (componentsStaleForBodyChange (text_of (col c_body current)) to) u else u
  | None => u
  end.

Definition executor_field (v : option string) (u : update) : MT update :=
  match v with
  | Some to =>
      reject_if (negb (describe type).(hasExecutor)) invalid_executor ;;;
      mret (if bool_decide (Some (Text to) = col c_executor current) then u
            else with_executorChanged (push c_executor current (Some (Text to)) u))
  | None => mret u
  end.

Definition only_if {A} (b : bool) (v : option A) : option A := if b then v else None.

Definition fields_branch (u : update) : MT update :=
  match c.(ch_fields) with
  | Some f =>
      let u := scalar_field c_title (Some <$> f.(f_title)) u in
      let u := scalar_field c_summary f.(f_summary) u in
      let u := body_field f.(f_body) u in
      let u := scalar_field c_priority (Some <$> f.(f_priority)) u in
      let u := scalar_field c_category (Some <$> f.(f_category)) u in
      let u := scalar_field c_sort_order f.(f_sortOrder) u in
      let u := scalar_field c_repo f.(f_repo) u in
      let u := scalar_field c_scope (only_if (describe type).(hasScope) f.(f_scope)) u in
      u <- executor_field f.(f_executor) u ;;
      let u := scalar_field c_attachments
                 (only_if (describe type).(hasAttachments) (attachments_json <$> f.(f_attachments))) u in
      mret (scalar_field c_entry_stage (only_if (describe type).(hasEntryStage) f.(f_entryStageId)) u)
  | None => mret u
  end.

(** All branches, in the order of the code. *)
Definition update_branches (u : update) : MT update :=
  sandbox_guard ;;;
  u <- stage_branch u ;;
  u <- decomposed_branch u ;;
  u <- approved_branch u ;;
  u <- clear_branch u ;;
  u <- archive_branch (caused_branch u) ;;
  u <- remote_approved_branch u ;;
  u <- remote_decomposed_branch u ;;
  u <- remote_archived_branch u ;;
  u <- parent_branch u ;;
  u <- idea_branch u ;;
  epic_check ;;;
  fields_branch u.

Definition apply_delta (e : entity) (dl : FieldDelta) : entity :=
  match dl.(fd_field) with FCol column => set_col column dl.(fd_to) e | _ => e end.

(** The UPDATE and its event. *)
Definition action_string (a : task_change_action) : string :=
  match a with
  | act_created => "created" | act_updated => "updated" | act_stageMoved => "stageMoved"
  | act_decomposed => "decomposed" | act_deleted => "deleted"
  end.

Definition update_kind (u : update) : string :=
  default (action_string u.(u_action))
    (orElse c.(ch_kind) (orElse u.(u_archiveKind) (if u.(u_executorChanged) then Some "executor-changed" else None))).

Definition updated_row (deltas : list FieldDelta) : entity :=
  set_version (current.(en_version) + 1) now (fold_left apply_delta deltas current).

(** Whether a row was written, and the event to report. *)
Definition write_update (u : update) : MT (bool * (nat * nat)) :=
  match u.(u_deltas) with
  | [] => d <- get ;; mret (false, last_event type taskId d)
  | _ =>
      modify (with_entities (<[(type, taskId) := updated_row u.(u_deltas)]>)) ;;;
      ev <- insertEvent type taskId (update_kind u) c.(ch_actor) c.(ch_runId) u.(u_deltas) now ;;
      mret (true, ev)
  end.
End Branches.

(** The runs of an entity that moves to Won't do, read before the transaction. *)
Definition wont_do_runs (projectId : Z) (taskId : string) (c : TaskChange) (d : tdb) : option (list string) :=
  target ← c.(ch_stageId);
  s ← lookupStage target d;
  if (s.(sg_position) =? WONT_DO_POSITION)%Z then
    '(type, _) ← locateEntity projectId taskId c.(ch_entityType) d;
    Some (listRunIdsForEntity type taskId d)
  else None.

Definition runUpdate (projectId : Z) (taskId : string) (c : TaskChange) (now : instant) : MT outcome :=
  d <- get ;;
  let start := mk_update [] act_updated None false None (wont_do_runs projectId taskId c d) None in
  r <- transaction (
    match locateEntity projectId taskId c.(ch_entityType) d with
    | None => reject not_found
    | Some (type, current) =>
        reject_if (match c.(ch_expectedVersion) with
                   | Some v => negb (v =? current.(en_version))%Z | None => false end) concurrency ;;;
        u <- update_branches projectId taskId type current c now start ;;
        w <- write_update taskId type current c now u ;;
        mret (type, u, w)
    end) ;;
  let '(type, u, (wrote, ev)) := r in
  when wrote do emitChange projectId type taskId u.(u_action) c.(ch_actor) ;;;
  mret (mk_outcome taskId None None ev u.(u_previousParent) u.(u_wontDoRuns) (Some type) u.(u_stale)).

(** ** Dependency edges *)

Definition resolveTaskByRefOrId (projectId : Z) (identifier : string) (d : tdb) : option (string * Z) :=
  match d.(db_entities) !! (TTask, identifier) with
  | Some e => Some (identifier, e.(en_project))
  | None => match ref_holder TTask projectId identifier d with
            | Some id => Some (id, projectId)
            | None => None
            end
  end.

Definition resolve_endpoint (projectId : Z) (identifier : string) : MT string :=
  t <- gets (resolveTaskByRefOrId projectId identifier) ;;
  match t with
  | None => reject invalid_dependency
  | Some (id, p) => reject_if (negb (p =? projectId)%Z) invalid_dependency ;;; mret id
  end.

Definition dependency_sandbox (actor : task_actor) (runId : option string) (blockedId prereqId : string) (d : tdb) : bool :=
  bool_decide (actor = a_orchestrator)
  || (let side id := sandbox_ok (runExperimentIdFor runId d) (runExperimentArmFor runId d)
                       (taskExperimentIdFor id d) (taskExperimentArmFor id d) in
      side blockedId && side prereqId).

Definition find_dep (blockedId prereqId : string) (d : tdb) : option dep :=
  List.find (λ e, String.eqb e.(dep_task) blockedId && String.eqb e.(dep_on) prereqId) d.(db_deps).

(** [INSERT OR IGNORE], under [UNIQUE (task_id, depends_on_task_id)] *)
Definition insert_dep (blockedId prereqId : string) (kind : dependency_kind) (d : tdb) : tdb :=
  match find_dep blockedId prereqId d with
  | Some _ => d
  | None => with_deps (λ l, l ++ [mk_dep blockedId prereqId kind]) d
  end.
Definition delete_dep (blockedId prereqId : string) (d : tdb) : tdb :=
  with_deps (filter (λ e, ¬ (e.(dep_task) = blockedId ∧ e.(dep_on) = prereqId))) d.

Definition kind_text (k : dependency_kind) : cell := Text (match k with blocking => "blocking" | related => "related" end).
Definition edge_deltas (from to : option (string * dependency_kind)) : list FieldDelta :=
  [mk_delta FDependsOn (Text <$> (fst <$> from)) (Text <$> (fst <$> to));
   mk_delta FDependencyKind (kind_text <$> (snd <$> from)) (kind_text <$> (snd <$> to))].

Definition runAddDependency (projectId : Z) (rawTaskId rawDependsOn : string) (c : TaskChange) (now : instant)
    : MT outcome :=
  let kind := default blocking c.(ch_dependencyKind) in
  r <- transaction (
    blockedId <- resolve_endpoint projectId rawTaskId ;;
    prereqId <- resolve_endpoint projectId rawDependsOn ;;
    reject_if (String.eqb blockedId prereqId) invalid_dependency ;;;
    d <- get ;;
    reject_if (negb (dependency_sandbox c.(ch_actor) c.(ch_runId) blockedId prereqId d)) experiment_sandboxed ;;;
    match find_dep blockedId prereqId d with
    | Some _ => mret (blockedId, prereqId, None)
    | None =>
        when (bool_decide (kind = blocking)) do validateDependencyEdge blockedId prereqId ;;;
        modify (insert_dep blockedId prereqId kind) ;;;
        ev <- insertEvent TTask blockedId (default "dependency-added" c.(ch_kind)) c.(ch_actor) c.(ch_runId)
                (edge_deltas None (Some (prereqId, kind))) now ;;
        mret (blockedId, prereqId, Some ev)
    end) ;;
  let '(blockedId, prereqId, written) := r in
  d <- get ;;
  when (bool_decide (is_Some written)) do emitChange projectId TTask blockedId act_updated c.(ch_actor) ;;;
  mret (mk_outcome blockedId (Some prereqId) None (default (last_event TTask blockedId d) written) None None None None).

Definition runRemoveDependency (projectId : Z) (rawTaskId rawDependsOn : string) (c : TaskChange) (now : instant)
    : MT outcome :=
  r <- transaction (
    blockedId <- resolve_endpoint projectId rawTaskId ;;
    prereqId <- resolve_endpoint projectId rawDependsOn ;;
    d <- get ;;
    reject_if (negb (dependency_sandbox c.(ch_actor) c.(ch_runId) blockedId prereqId d)) experiment_sandboxed ;;;
    match find_dep blockedId prereqId d with
    | None => mret (blockedId, prereqId, None)
    | Some e =>
        modify (delete_dep blockedId prereqId) ;;;
        ev <- insertEvent TTask blockedId (default "dependency-removed" c.(ch_kind)) c.(ch_actor) c.(ch_runId)
                (edge_deltas (Some (prereqId, e.(dep_kind))) None) now ;;
        mret (blockedId, prereqId, Some ev)
    end) ;;
  let '(blockedId, prereqId, written) := r in
  d <- get ;;
  when (bool_decide (is_Some written)) do emitChange projectId TTask blockedId act_updated c.(ch_actor) ;;;
  mret (mk_outcome blockedId (Some prereqId) (Some (bool_decide (is_Some written)))
          (default (last_event TTask blockedId d) written) None None None None).

(** ** Deleting *)

(** [DELETE FROM t WHERE id = ?] with the foreign keys: a lineage column is set
    to NULL, an edge of a task goes with it. *)
Definition unlink (childType : task_type) (column : column) (id : string) (k : task_type * string) (e : entity) : entity :=
  if bool_decide (k.1 = childType) && refers column id e then set_col column None e else e.

Definition delete_row (type : task_type) (id : string) (d : tdb) : tdb :=
  let d := with_entities (delete (type, id)) d in
  match type with
  | TTask => with_deps (filter (λ e, e.(dep_task) ≠ id ∧ e.(dep_on) ≠ id)) d
  | TEpic => with_entities (map_imap (λ k e, Some (unlink TTask c_parent_epic id k e))) d
  | TIdea => with_entities (map_imap (λ k e, Some (unlink TTask c_originating_idea id k
                                                     (unlink TEpic c_originating_idea id k e)))) d
  end.

Definition delete_entity (type : task_type) (id : string) (d : tdb) : tdb :=
  delete_row type id (with_events (filter (λ ev, ¬ (ev.(ev_type) = type ∧ ev.(ev_entity) = id))) d).

(** The cascade, children first. *)
Definition collectDeleteCascade (projectId : Z) (rootType : task_type) (rootId : string) (d : tdb)
    : list (task_type * string) :=
  let '(taskIds, epicIds) :=
    match rootType with
    | TIdea =>
        let epics := select_ids TEpic (λ e, refers c_originating_idea rootId e && in_project projectId e) d in
        let direct := select_ids TTask (λ e, refers c_originating_idea rootId e && in_project projectId e) d in
        let viaEpic := select_ids TTask (λ e, existsb (λ p, refers c_parent_epic p e) epics) d in
        (to_set [] (direct ++ viaEpic), epics)
    | TEpic => (select_ids TTask (λ e, refers c_parent_epic rootId e && in_project projectId e) d, [])
    | TTask => ([], [])
    end in
  ((TTask,.) <$> taskIds) ++ ((TEpic,.) <$> epicIds) ++ [(rootType, rootId)].

Definition parent_of (taskId : string) (d : tdb) : option string :=
  e ← d.(db_entities) !! (TTask, taskId); text_of (col c_parent_epic e).

Record delete_outcome := mk_deleted {
  dl_taskId : string;
  dl_deleted : list (task_type * string);
  dl_survivingParents : list string;
  dl_artifactRuns : list string
}.

Definition runDelete (projectId : Z) (actor : task_actor) (taskId : string) (entityType : option task_type)
    : MT delete_outcome :=
  d <- get ;;
  match locateEntity projectId taskId entityType d with
  | None => reject not_found
  | Some (type, _) =>
      let cascade := collectDeleteCascade projectId type taskId d in
      reject_if (negb (bool_decide (actor = a_orchestrator))
                 && existsb (λ te, bool_decide (te.1 = TTask) && hasNonTerminalRun te.2 d) cascade) active_runs ;;;
      let snapshots := filter (λ te, is_Some (d.(db_entities) !! te)) cascade in
      let artifactRuns := to_set [] (flat_map (λ te, listRunIdsForEntity te.1 te.2 d) cascade) in
      let survivingParents := to_set [] (omap (λ te,
        if bool_decide (te.1 = TTask) then
          p ← parent_of te.2 d; p ← non_empty (Some p);
          if bool_decide (p ∈ cascade.*2) then None else Some p
        else None) cascade) in
      modify (λ d, fold_left (λ d te, delete_entity te.1 te.2 d) cascade d) ;;;
      modify (with_log ((λ te, DismissReviewItems projectId te.1 te.2 false) <$> cascade)) ;;;
      modify (with_log ((λ te, TaskChanged projectId te.1 te.2 act_deleted actor) <$> snapshots)) ;;;
      mret (mk_deleted taskId cascade survivingParents artifactRuns)
  end.

Definition reapArtifactsForRunIds (projectId : Z) (runIds : list string) : MT unit :=
  modify (λ d, with_log (ReapArtifacts projectId <$>
    filter (λ r, isRunNonTerminal r d = false) (to_set [] runIds)) d).

(** ** The rollup of an epic *)

(** A task that counts towards the stage of its epic, at its position. *)
Definition countable_position (epicId : string) (d : tdb) (k : task_type * string) (e : entity) : option Z :=
  if bool_decide (k.1 = TTask) && refers c_parent_epic epicId e && bool_decide (col c_archived_at e = None)
     && bool_decide (is_Some (col c_approved_at e))
  then s ← lookupStage (stage_of e) d;
       if (s.(sg_position) =? WONT_DO_POSITION)%Z then None else Some s.(sg_position)
  else None.

Definition countable_children (epicId : string) (d : tdb) : list Z :=
  omap (λ kv, countable_position epicId d kv.1 kv.2) (map_to_list d.(db_entities)).

Definition stage_move (type : task_type) (id stageId : string) : TaskChange :=
  mk_change a_orchestrator (Some type) (Some id) None (Some stageId) None None None None None None None None None None None
    None None None no_fields None None (Some "execution-stage") None.

(** The request [recomputeEpicStage] makes, if any. *)
Definition recomputeEpicStage_change (epicId : string) (d : tdb) : result task_error (option (Z * TaskChange)) :=
  match d.(db_entities) !! (TEpic, epicId) with
  | None => Throw (Rejected not_found)
  | Some epic =>
      Ok (s ← lookupStage (stage_of epic) d;
          if ((s.(sg_position) =? READY_FOR_DEV_POSITION) || (s.(sg_position) =? DONE_POSITION))%Z then
            match countable_children epicId d with
            | [] => None
            | children =>
                let allDone := forallb (λ p, p =? DONE_POSITION)%Z children in
                target ← stageIdForPosition epic.(en_board) (if allDone then DONE_POSITION else READY_FOR_DEV_POSITION) d;
                target ← non_empty (Some target);
                if String.eqb target (stage_of epic) then None
                else Some (epic.(en_project), stage_move TEpic epicId target)
            end
          else None)
  end.

(** ** [applyChange] *)

(** Reject a malformed remote request before it reaches the queue. *)
Definition assertRemoteRequest (c : TaskChange) : MT unit :=
  if bool_decide (c.(ch_actor) = REMOTE_ACTOR) then
    reject_if (bool_decide (is_Some c.(ch_runId))) remote_only ;;;
    reject_if (bool_decide (is_Some c.(ch_dependsOnTaskId))) remote_only ;;;
    reject_if (bool_decide (is_Some c.(ch_archived)) || bool_decide (is_Some c.(ch_approved))
               || bool_decide (is_Some c.(ch_decomposed))) remote_only ;;;
    reject_if (bool_decide (is_Some c.(ch_clearExperiment)) || bool_decide (is_Some c.(ch_experimentId))
               || bool_decide (is_Some c.(ch_experimentArm))) remote_only ;;;
    match c.(ch_taskId) with
    | None =>
        let complete := match c.(ch_remote) with
                        | Some r => bool_decide (is_Some (non_empty r.(rm_id))) && bool_decide (is_Some (non_empty r.(rm_ref)))
                                    && bool_decide (is_Some r.(rm_createdAt))
                        | None => false
                        end in
        reject_if (negb complete) remote_only
    | Some _ =>
        reject_if (bool_decide (c.(ch_expectedVersion) = None)) remote_only ;;;
        reject_if (match c.(ch_remote) with
                   | Some r => bool_decide (is_Some r.(rm_id)) || bool_decide (is_Some r.(rm_ref))
                               || bool_decide (is_Some r.(rm_createdAt))
                   | None => false
                   end) remote_only
    end
  else reject_if (bool_decide (is_Some c.(ch_remote))) remote_only.

(** The task [applyChange] adds to the queue of the project. *)
Definition change_task (projectId : Z) (c : TaskChange) (random : string) (now : instant) : MT outcome :=
  match c.(ch_taskId) with
  | None => runCreate projectId c random now
  | Some taskId =>
      match c.(ch_dependsOnTaskId) with
      | Some dependsOn =>
          if bool_decide (c.(ch_removeDependency) = Some true)
          then runRemoveDependency projectId taskId dependsOn c now
          else runAddDependency projectId taskId dependsOn c now
      | None => runUpdate projectId taskId c now
      end
  end.

Definition swallow (m : MT unit) : MT unit := catch m (λ _, mret tt).

(** An update that can change what an epic shows. *)
Definition rollup_relevant (c : TaskChange) : bool :=
  bool_decide (is_Some c.(ch_stageId)) || bool_decide (is_Some c.(ch_archived))
  || bool_decide (is_Some c.(ch_approved))
  || match c.(ch_remote) with
     | Some m => bool_decide (is_Some m.(rm_archivedAt)) || bool_decide (is_Some m.(rm_approvedAt))
     | None => false
     end
  || bool_decide (is_Some c.(ch_parentEpicId)).

(** The rollups that follow a settled change; [rollup] is [recomputeEpicStage]. *)
Definition follow_on (rollup : string → MT unit) (c : TaskChange) (r : outcome) : MT unit :=
  match c.(ch_taskId) with
  | None =>
      when (bool_decide (create_type c = TTask)) do
        match nullish c.(ch_parentEpicId) ≫= (λ p, non_empty (Some p)) with
        | Some p => swallow (rollup p)
        | None => mret tt
        end
  | Some taskId =>
      when (rollup_relevant c) do
        (d <- get ;;
         let new := parent_of taskId d in
         match non_empty new with Some p => swallow (rollup p) | None => mret tt end ;;;
         match non_empty r.(rs_previousParent) with
         | Some p => when (negb (bool_decide (Some p = new))) do swallow (rollup p)
         | None => mret tt
         end)
  end.

(** [depth] bounds the re-entrance of [applyChange] through its own rollups; the
    follow-ons read the same clock. *)
Fixpoint applyChange (depth : nat) (projectId : Z) (c : TaskChange) (random : string) (now : instant) : MT outcome :=
  assertRemoteRequest c ;;;
  r <- change_task projectId c random now ;;
  match r.(rs_wontDoRuns) with Some l => reapArtifactsForRunIds projectId l | None => mret tt end ;;;
  match depth with
  | 0 => mret tt
  | S depth =>
      follow_on (λ epicId,
        d <- get ;;
        match recomputeEpicStage_change epicId d with
        | Throw e => throw e
        | Ok None => mret tt
        | Ok (Some (p, c')) => applyChange depth p c' "" now ;;; mret tt
        end) c r
  end ;;;
  match r.(rs_type), r.(rs_stale) with
  | Some TIdea, Some (x :: l) => modify (with_log [MarkComponentsStale projectId r.(rs_taskId) (x :: l)])
  | _, _ => mret tt
  end ;;;
  mret r.

(** One level of re-entrance: the write of a rollup is an update of an epic. *)
Definition apply_depth : nat := 1.

Definition recomputeEpicStage (epicId : string) (now : instant) : MT unit :=
  d <- get ;;
  match recomputeEpicStage_change epicId d with
  | Throw e => throw e
  | Ok None => mret tt
  | Ok (Some (p, c)) => applyChange apply_depth p c "" now ;;; mret tt
  end.

(** ** The execution stage of a task *)

Inductive run_source := src_direct | src_batch.

(** A run of a task: its id, status and outcome, and where it comes from. *)
Record gathered := mk_gathered {
  ga_id : string; ga_status : run_status; ga_outcome : option string; ga_source : run_source; ga_lane : option string
}.

(** [? IS NULL OR datetime(created_at) >= datetime(?)] *)
Definition in_window (reopenedAt : option instant) (r : task_run) : bool :=
  match reopenedAt with
  | None => true
  | Some t => (unixepoch t <=? unixepoch r.(tr_created_at))%Z
  end.

Definition direct_runs (taskId : string) (reopenedAt : option instant) (d : tdb) : list gathered :=
  (λ r, mk_gathered r.(tr_id) r.(tr_status) r.(tr_outcome) src_direct None)
  <$> filter (λ r, r.(tr_task) = Some taskId ∧ in_window reopenedAt r = true) d.(db_runs).

Definition batch_runs (taskId : string) (reopenedAt : option instant) (d : tdb) : list gathered :=
  flat_map (λ r,
    match r.(tr_batch) with
    | Some b =>
        (λ l, mk_gathered r.(tr_id) r.(tr_status) r.(tr_outcome) src_batch (Some l.(tl_status)))
        <$> filter (λ l, l.(tl_batch) = b ∧ l.(tl_task) = taskId ∧ in_window reopenedAt r = true) d.(db_lanes)
    | None => []
    end) d.(db_runs).

Definition gatherTaskRuns (taskId : string) (reopenedAt : option instant) (d : tdb) : list gathered :=
  (fold_left (λ m g, map_set g.(ga_id) g m) (direct_runs taskId reopenedAt d ++ batch_runs taskId reopenedAt d) []).*2.

Definition merged_arm (g : gathered) : bool :=
  bool_decide (g.(ga_outcome) = Some "merged")
  && match g.(ga_source) with src_direct => true | src_batch => bool_decide (g.(ga_lane) = Some "integrated") end.

Definition gathered_live (g : gathered) : bool := negb (is_terminal g.(ga_status)).

(** [entry_stage_id ?? stageIdForPosition(...)] *)
Definition revert_stage (e : entity) (d : tdb) : option string :=
  orElse (text_of (col c_entry_stage e)) (stageIdForPosition e.(en_board) READY_FOR_DEV_POSITION d).

(** The stage a task should be at, [None] when it is left alone. *)
Definition execution_target (taskId : string) (e : entity) (d : tdb) : option string :=
  let current := lookupStage (stage_of e) d in
  match gatherTaskRuns taskId (stamp_of (col c_reopened_at e)) d with
  | [] =>
      match current with
      | Some s => if bool_decide (s.(sg_policy) = derived) then revert_stage e d else None
      | None => None
      end
  | runs =>
      if existsb merged_arm runs then stageIdForPosition e.(en_board) DONE_POSITION d
      else if match current with Some s => s.(sg_terminal) | None => false end then None
      else if existsb gathered_live runs then stageIdForPosition e.(en_board) IN_DEVELOPMENT_POSITION d
      else revert_stage e d
  end.

Definition move_to (type : task_type) (id : string) (e : entity) (target : option string) : option (Z * TaskChange) :=
  target ← target;
  target ← non_empty (Some target);
  if String.eqb target (stage_of e) then None else Some (e.(en_project), stage_move type id target).

(** An epic or an idea linked to a run: merged is Done, anything else holds. *)
Definition recomputeNonTaskEntityStage_change (id : string) (d : tdb) : result task_error (option (Z * TaskChange)) :=
  match first_type (λ t, d.(db_entities) !! (t, id)) [TEpic; TIdea] with
  | None => Throw (Rejected not_found)
  | Some (type, e) =>
      Ok (if existsb (λ r, bool_decide (r.(tr_task) = Some id) && bool_decide (r.(tr_outcome) = Some "merged")) d.(db_runs)
          then move_to type id e (stageIdForPosition e.(en_board) DONE_POSITION d) else None)
  end.

Definition recomputeTaskExecutionStage_change (taskId : string) (d : tdb) : result task_error (option (Z * TaskChange)) :=
  match d.(db_entities) !! (TTask, taskId) with
  | None => recomputeNonTaskEntityStage_change taskId d
  | Some e => Ok (move_to TTask taskId e (execution_target taskId e d))
  end.

(** Make the request a recompute decides on. *)
Definition make_request (r : tdb → result task_error (option (Z * TaskChange))) (now : instant) : MT unit :=
  d <- get ;;
  match r d with
  | Throw e => throw e
  | Ok None => mret tt
  | Ok (Some (p, c)) => applyChange apply_depth p c "" now ;;; mret tt
  end.

Definition recomputeTaskExecutionStage (taskId : string) (now : instant) : MT unit :=
  make_request (recomputeTaskExecutionStage_change taskId) now.

Definition with_entry_stage (taskId : string) (runId : option string) (stageId : string) : TaskChange :=
  mk_change a_orchestrator None (Some taskId)
    (Some (mk_fields None None None None None None None None None (Some (Some stageId)) None))
    None None None None None None None runId None None None None None None None no_fields None None
    (Some "entry-stage-capture") None.

Definition captureEntryStageIfUnset_change (taskId : string) (runId : option string) (d : tdb)
    : option (Z * TaskChange) :=
  e ← d.(db_entities) !! (TTask, taskId);
  s ← lookupStage (stage_of e) d;
  if bool_decide (col c_entry_stage e = None) && bool_decide (s.(sg_policy) = asserted) && negb s.(sg_terminal)
  then Some (e.(en_project), with_entry_stage taskId runId (stage_of e)) else None.

Definition captureEntryStageIfUnset (taskId : string) (runId : option string) (now : instant) : MT unit :=
  make_request (λ d, Ok (captureEntryStageIfUnset_change taskId runId d)) now.

(** Both steps for one task; a failure is logged and the loop goes on. *)
Definition recompute_one (runId : option string) (now : instant) (taskId : string) : MT unit :=
  swallow (captureEntryStageIfUnset taskId runId now ;;; recomputeTaskExecutionStage taskId now).

(** [ORDER BY created_at ASC LIMIT 1] *)
Fixpoint oldest (l : list task_run) : option task_run :=
  match l with
  | [] => None
  | r :: rest =>
      match oldest rest with
      | Some r' => if (r'.(tr_created_at) <? r.(tr_created_at))%Z then Some r' else Some r
      | None => Some r
      end
  end.

Definition recomputeTasksForBatch (batchId : string) (now : instant) : MT unit :=
  d <- get ;;
  let owner := tr_id <$> oldest (filter (λ r, r.(tr_batch) = Some batchId) d.(db_runs)) in
  mapM_ (recompute_one owner now) (tl_task <$> filter (λ l, l.(tl_batch) = batchId) d.(db_lanes)).

Definition stale_projection (d : tdb) (k : task_type * string) (e : entity) : bool :=
  bool_decide (k.1 = TTask)
  && match lookupStage (stage_of e) d with
     | Some s => bool_decide (s.(sg_policy) = derived) || negb s.(sg_terminal) && hasNonTerminalRun k.2 d
     | None => false
     end.

Definition sweepStaleDerivedStageTasks (now : instant) : MT unit :=
  d <- get ;;
  mapM_ (recompute_one None now)
    ((λ kv, kv.1.2) <$> filter (λ kv, stale_projection d kv.1 kv.2 = true) (map_to_list d.(db_entities))).

Definition retire_change (ideaId : string) : TaskChange :=
  mk_change a_orchestrator (Some TIdea) (Some ideaId) None None None None None (Some true) None None None None None None None
    None None None no_fields None None (Some "decomposed") None.

Definition retireIdeaToDecomposed (projectId : Z) (ideaId : string) (now : instant) : MT unit :=
  make_request (λ d, Ok (
    idea ← readEntity TIdea projectId ideaId d;
    if bool_decide (col c_decomposed_at idea = None) then Some (projectId, retire_change ideaId) else None)) now.

(** ** [applyDelete] and the sweeps over it *)

Definition applyDelete (projectId : Z) (actor : task_actor) (taskId : string) (entityType : option task_type)
    (now : instant) : MT (list string) :=
  reject_if (bool_decide (actor = REMOTE_ACTOR)) remote_only ;;;
  r <- runDelete projectId actor taskId entityType ;;
  reapArtifactsForRunIds projectId r.(dl_artifactRuns) ;;;
  modify (with_log ((λ te, PurgeComponents projectId te.2) <$> filter (λ te, te.1 = TIdea) r.(dl_deleted))) ;;;
  mapM_ (λ p, swallow (recomputeEpicStage p now)) r.(dl_survivingParents) ;;;
  mret r.(dl_deleted).*2.

Definition entityIdsCreatedByRun (runId : string) (type : task_type) (d : tdb) : list string :=
  to_set [] (ev_entity <$> filter (λ ev, ev.(ev_type) = type ∧ ev.(ev_kind) = "created" ∧ ev.(ev_run) = Some runId)
                             d.(db_events)).

(** [for (const x of l)] over a body that collects failures. *)
Fixpoint collectM {A} (f : A → MT (list string)) (l : list A) : MT (list string) :=
  match l with
  | [] => mret []
  | x :: rest => a <- f x ;; b <- collectM f rest ;; mret (a ++ b)
  end.

(** Delete what a run created: its epics, sparing one with a child that must
    stay, then its tasks; [mine] is the gate of an entity, and [delete_one] gives
    the ids it failed to delete. *)
Section Sweep.
Context (mine : task_type → string → tdb → bool) (delete_one : task_type → string → MT (list string)).

Definition sweep_if (type : task_type) (id : string) : MT (list string) :=
  d <- get ;; if mine type id d then delete_one type id else mret [].

Definition sweep_epic (own : list string) (epicId : string) : MT (list string) :=
  d <- get ;;
  if mine TEpic epicId d then
    let children := select_ids TTask (refers c_parent_epic epicId) d in
    if forallb (λ id, mine TTask id d && bool_decide (id ∈ own)) children then delete_one TEpic epicId
    else collectM (λ id, if bool_decide (id ∈ own) then sweep_if TTask id else mret []) children
  else mret [].

Definition sweep_created (runId : string) : MT (list string) :=
  d <- get ;;
  a <- collectM (sweep_epic (entityIdsCreatedByRun runId TTask d)) (entityIdsCreatedByRun runId TEpic d) ;;
  d <- get ;;
  b <- collectM (sweep_if TTask) (entityIdsCreatedByRun runId TTask d) ;;
  mret (a ++ b).
End Sweep.

Definition pending_entity (type : task_type) (id : string) (d : tdb) : bool :=
  match d.(db_entities) !! (type, id) with Some e => bool_decide (col c_approved_at e = None) | None => false end.

Definition deleteRunCreatedEntities (projectId : Z) (runId : string) (now : instant) : MT unit :=
  d <- get ;;
  match find_run runId d with
  | None => mret tt
  | Some r =>
      when (bool_decide (r.(tr_plan_approved_at) = None) && runIsPlanGated r.(tr_steps_snapshot) r.(tr_workflow_name)) do
        (sweep_created pending_entity
           (λ type id, swallow (applyDelete projectId a_orchestrator id (Some type) now ;;; mret tt) ;;; mret []) runId ;;;
         mret tt)
  end.

Definition of_experiment (experimentId : string) (type : task_type) (id : string) (d : tdb) : bool :=
  match d.(db_entities) !! (type, id) with
  | Some e => bool_decide (col c_experiment_id e = Some (Text experimentId))
  | None => false
  end.

(** A delete that fails for another reason than a missing row is a failure. *)
Definition attemptDelete (projectId : Z) (now : instant) (type : task_type) (id : string) : MT (list string) :=
  catch (applyDelete projectId a_orchestrator id (Some type) now ;;; mret [])
    (λ e, mret (match e with Rejected not_found => [] | _ => [id] end)).

Definition deleteExperimentArmEntities (projectId : Z) (experimentId runId : string) (seedCloneId : option string)
    (seedTaskCloneIds : list string) (now : instant) : MT unit :=
  let mine := of_experiment experimentId in
  let attempt := attemptDelete projectId now in
  a <- sweep_created mine attempt runId ;;
  d <- get ;;
  b <- collectM (sweep_if mine attempt TIdea) (entityIdsCreatedByRun runId TIdea d) ;;
  c <- match non_empty seedCloneId with Some id => sweep_if mine attempt TIdea id | None => mret [] end ;;
  e <- collectM (sweep_if mine attempt TTask) seedTaskCloneIds ;;
  reject_if (negb (bool_decide (a ++ b ++ c ++ e = []))) experiment_sweep_failed.

(** ** Remote writes without a request *)

Inductive RemoteDeleteResult := rd_deleted | rd_not_found | rd_deferred.

Definition children_of (projectId : Z) (type : task_type) (id : string) (d : tdb) : list (task_type * string) :=
  let under t c := (t,.) <$> select_ids t (λ e, refers c id e && in_project projectId e) d in
  match type with
  | TIdea => under TEpic c_originating_idea ++ under TTask c_originating_idea
  | TEpic => under TTask c_parent_epic
  | TTask => []
  end.

(** Its task of the queue: the outcome, the parent epic and the runs to reap. *)
Definition runRemoteDelete (projectId : Z) (type : task_type) (id : string)
    : MT (RemoteDeleteResult * option string * list string) :=
  d <- get ;;
  match readEntity type projectId id d with
  | None => mret (rd_not_found, None, [])
  | Some e =>
      if remoteRetireBlocker type id d then mret (rd_deferred, None, [])
      else
        modify (delete_entity type id) ;;;
        modify (with_log [DismissReviewItems projectId type id true; TaskChanged projectId type id act_deleted REMOTE_ACTOR]) ;;;
        mapM_ (λ te, emitChange projectId te.1 te.2 act_updated REMOTE_ACTOR) (children_of projectId type id d) ;;;
        mret (rd_deleted, if bool_decide (type = TTask) then text_of (col c_parent_epic e) else None,
              listRunIdsForEntity type id d)
  end.

Definition applyRemoteDelete (projectId : Z) (type : task_type) (id : string) (now : instant) : MT RemoteDeleteResult :=
  r <- runRemoteDelete projectId type id ;;
  let '(result, parentEpicId, artifactRuns) := r in
  match result with
  | rd_deleted =>
      reapArtifactsForRunIds projectId artifactRuns ;;;
      when (bool_decide (type = TIdea)) do modify (with_log [PurgeComponents projectId id]) ;;;
      match non_empty parentEpicId with
      | Some p => swallow (recomputeEpicStage p now)
      | None => mret tt
      end ;;;
      mret rd_deleted
  | r => mret r
  end.

Record RemoteEdgesResult := mk_edges_result {
  re_changed : list string;
  re_cycles : list (string * string);
  re_missing : list (string * string)
}.

Definition usable_task (projectId : Z) (taskId : string) (d : tdb) : bool :=
  bool_decide (is_Some (readEntity TTask projectId taskId d)) && bool_decide (taskExperimentIdFor taskId d = None).

Definition log_edge (taskId kind : string) (deltas : list FieldDelta) (now : instant) (out : RemoteEdgesResult)
    : MT RemoteEdgesResult :=
  insertEvent TTask taskId kind REMOTE_ACTOR None deltas now ;;;
  mret (mk_edges_result (if bool_decide (taskId ∈ out.(re_changed)) then out.(re_changed) else out.(re_changed) ++ [taskId])
          out.(re_cycles) out.(re_missing)).

(** [for (const x of l) out = f(x, out)] *)
Fixpoint foldM {A B} (f : A → B → MT B) (l : list A) (b : B) : MT B :=
  match l with [] => mret b | x :: rest => b <- f x b ;; foldM f rest b end.

(** The kind wanted for an edge: the last entry of the map wins. *)
Definition wanted_kind (wanted : list (string * dependency_kind)) (id : string) : option dependency_kind :=
  map_get id (rev wanted).

(** Removals for one task, and the additions to try afterwards. *)
Definition remote_set (projectId : Z) (now : instant) (s : string * list (string * dependency_kind))
    (acc : list dep * RemoteEdgesResult) : MT (list dep * RemoteEdgesResult) :=
  let '(taskId, dependsOn) := s in let '(additions, out) := acc in
  let miss out id := mk_edges_result out.(re_changed) out.(re_cycles) (out.(re_missing) ++ [(taskId, id)]) in
  d <- get ;;
  if negb (usable_task projectId taskId d) then mret (additions, fold_left miss dependsOn.*1 out)
  else
    let current := filter (λ e, e.(dep_task) = taskId) d.(db_deps) in
    let keeps e := bool_decide (wanted_kind dependsOn e.(dep_on) = Some e.(dep_kind)) in
    out <- foldM (λ e out,
             if keeps e then mret out
             else modify (delete_dep taskId e.(dep_on)) ;;;
                  log_edge taskId "dependency-removed" (edge_deltas (Some (e.(dep_on), e.(dep_kind))) None) now out)
             current out ;;
    let kept := dep_on <$> filter (λ e, keeps e = true) current in
    foldM (λ w acc,
      let '(additions, out) := acc in
      d <- get ;;
      if bool_decide (w.1 ∈ kept) then mret acc
      else if String.eqb w.1 taskId || negb (usable_task projectId w.1 d) then mret (additions, miss out w.1)
      else mret (additions ++ [mk_dep taskId w.1 w.2], out)) dependsOn (additions, out).

Definition remote_addition (now : instant) (e : dep) (out : RemoteEdgesResult) : MT RemoteEdgesResult :=
  d <- get ;;
  if bool_decide (e.(dep_kind) = blocking) && reaches (walk_fuel d.(db_deps)) d.(db_deps) e.(dep_task) ∅ [e.(dep_on)]
  then mret (mk_edges_result out.(re_changed) (out.(re_cycles) ++ [(e.(dep_task), e.(dep_on))]) out.(re_missing))
  else
    modify (insert_dep e.(dep_task) e.(dep_on) e.(dep_kind)) ;;;
    log_edge e.(dep_task) "dependency-added" (edge_deltas None (Some (e.(dep_on), e.(dep_kind)))) now out.

Definition applyRemoteEdges (projectId : Z) (sets : list (string * list (string * dependency_kind))) (now : instant)
    : MT RemoteEdgesResult :=
  out <- transaction (
    acc <- foldM (remote_set projectId now) sets ([], mk_edges_result [] [] []) ;;
    foldM (remote_addition now) acc.1 acc.2) ;;
  mapM_ (λ taskId, emitChange projectId TTask taskId act_updated REMOTE_ACTOR) out.(re_changed) ;;;
  mret out.

(** [UPDATE t SET ref = ? WHERE id = ?], under [UNIQUE (project_id, ref)] *)
Definition set_ref (type : task_type) (id ref : string) (f : entity → entity) : MT unit :=
  d <- get ;;
  match d.(db_entities) !! (type, id) with
  | None => mret tt
  | Some e =>
      match ref_holder type e.(en_project) ref d with
      | Some other => when (negb (String.eqb other id)) do throw SqlError
      | None => mret tt
      end ;;;
      modify (with_entities (<[(type, id) := f (set_col c_ref (Some (Text ref)) e)]>))
  end.

Definition rename_plan : Type := task_type * string * string * option string.

Definition applyRemoteRefRenames (projectId : Z) (renames : list (task_type * string * string)) (recordAliases : bool)
    (now : instant) : MT unit :=
  done <- transaction (
    plans <- foldM (λ (r : task_type * string * string) (plans : list rename_plan),
               let '(type, id, newRef) := r in
               d <- get ;;
               match readEntity type projectId id d with
               | None => reject not_found
               | Some e => mret (plans ++ [(type, id, newRef, text_of (col c_ref e))])
               end) renames [] ;;
    d <- get ;;
    foldM (λ (p : rename_plan) (seen : list (task_type * string)),
      let '(type, id, newRef, _) := p in
      reject_if (bool_decide ((type, newRef) ∈ seen)) ref_conflict ;;;
      reject_if (match ref_holder type projectId newRef d with
                 | Some holder => negb (bool_decide (holder ∈ (λ p : rename_plan, p.1.1.2) <$> plans))
                 | None => false
                 end) ref_conflict ;;;
      mret ((type, newRef) :: seen)) plans [] ;;;
    mapM_ (λ p : rename_plan, set_ref p.1.1.1 p.1.1.2 ("__tmp_" +:+ p.1.1.2) id) plans ;;;
    foldM (λ (p : rename_plan) (done : list (task_type * string)),
      let '(type, id, newRef, oldRef) := p in
      set_ref type id newRef (λ e, set_version (e.(en_version) + 1) now e) ;;;
      if bool_decide (oldRef = Some newRef) then mret done
      else
        insertEvent type id "ref-renamed" REMOTE_ACTOR None [mk_delta (FCol c_ref) (Text <$> oldRef) (Some (Text newRef))] now ;;;
        match oldRef with
        | Some old => when recordAliases do modify (with_aliases (<[(projectId, old) := (id, newRef, now)]>))
        | None => mret tt
        end ;;;
        mret (done ++ [(type, id)])) plans []) ;;
  mapM_ (λ te, emitChange projectId te.1 te.2 act_updated REMOTE_ACTOR) done.
End Router.
