(* ===== verification/TaskUpdate.v ===== *)
(** * What an update of an entity may change

    Theorems on [runUpdate]: its transaction only reads until the final write,
    each branch may push deltas of its own columns only and under its own
    conditions ([delta_ok]), and the write applies exactly the deltas that the
    event records. *)

From S2P Require Import Prelude Wp RunStateMachine Database JsString TaskTables TaskRouter.

Open Scope js_scope.

(** ** Computations that only read *)

(** [m], run on [d], leaves [d] as it is; a value it returns satisfies [Q]. *)
Definition reads {A} (m : MT A) (Q : A → Prop) (d : tdb) : Prop :=
  wp m (λ a d', d' = d ∧ Q a) (λ _ d', d' = d) d.

Lemma reads_ret {A} (a : A) (Q : A → Prop) d : Q a → reads (mret a) Q d.
Proof. by split. Qed.

Lemma reads_reject {A} code (Q : A → Prop) d : reads (reject code) Q d.
Proof. done. Qed.

Lemma reads_reject_if b code (Q : unit → Prop) d : (b = false → Q tt) → reads (reject_if b code) Q d.
Proof. destruct b; [done|]. intros H. by split; [|apply H]. Qed.

Lemma reads_bind {A B} (m : MT A) (k : A → MT B) (P : A → Prop) (Q : B → Prop) d :
  reads m P d → (∀ a, P a → reads (k a) Q d) → reads (mbind m k) Q d.
Proof.
  intros Hm Hk. apply wp_bind. eapply wp_mono; [exact Hm| |].
  - intros a d' [-> Ha]. by apply Hk.
  - done.
Qed.

Lemma reads_get {A} (k : tdb → MT A) (Q : A → Prop) d : reads (k d) Q d → reads (d <- get ;; k d) Q d.
Proof. intros H. by apply wp_bind, wp_get. Qed.

Lemma reads_gets {A B} (f : tdb → A) (k : A → MT B) (Q : B → Prop) d :
  reads (k (f d)) Q d → reads (a <- gets f ;; k a) Q d.
Proof. intros H. by apply wp_bind, wp_gets. Qed.

Lemma reads_mono {A} (m : MT A) (P Q : A → Prop) d : reads m P d → (∀ a, P a → Q a) → reads m Q d.
Proof. intros Hm H. eapply wp_mono; [exact Hm| |done]. naive_solver. Qed.

Lemma reads_when b (m : MT unit) (Q : unit → Prop) d :
  (b = true → reads m Q d) → (b = false → Q tt) → reads (when b do m) Q d.
Proof. destruct b; intros H1 H2; [by apply H1|apply reads_ret, H2; done]. Qed.

Lemma reads_and {A} (m : MT A) (P Q : A → Prop) d : reads m P d → reads m Q d → reads m (λ a, P a ∧ Q a) d.
Proof. intros H1 H2. eapply wp_mono; [exact (wp_and _ _ _ _ _ _ H1 H2)|naive_solver|naive_solver]. Qed.

Lemma reads_true {A} (m : MT A) (Q : A → Prop) d : reads m Q d → reads m (λ _, True) d.
Proof. intros H. by eapply reads_mono. Qed.

(** Along a bind whose first value is not used. *)
Lemma reads_seq {A} (m : MT unit) (k : MT A) (P : Prop) (Q : A → Prop) d :
  reads m (λ _, P) d → (P → reads k Q d) → reads (m ;;; k) Q d.
Proof. intros Hm Hk. eapply reads_bind; [exact Hm|]. intros a HP. by apply Hk. Qed.

(** ** The guards *)

Lemma reads_authority actor s d :
  reads (assertStageAuthority actor s) (λ _, s.(sg_policy) = derived → actor = a_orchestrator) d.
Proof.
  apply reads_reject_if. intros H%bool_decide_eq_false Hd. apply dec_stable. intros Ha. by apply H.
Qed.

Lemma reads_parent projectId type id parentId d :
  reads (validateParentEpic projectId type id parentId)
    (λ _, type = TTask ∧ ∃ p, d.(db_entities) !! (TEpic, parentId) = Some p ∧ p.(en_project) = projectId) d.
Proof.
  unfold validateParentEpic. eapply reads_seq; [apply reads_reject_if; intros H; exact H|]. intros Ht.
  eapply reads_seq; [apply reads_reject_if; intros H; exact H|]. intros _. apply reads_gets.
  destruct (db_entities d !! (TEpic, parentId)) as [p|]; [|apply reads_reject].
  eapply reads_seq; [apply reads_reject_if; intros H; exact H|]. intros Hp.
  apply reads_reject_if. intros _. split; [by destruct type|].
  exists p. split; [done|]. unfold in_project in Hp. apply negb_false_iff in Hp. by apply Z.eqb_eq.
Qed.

Lemma reads_idea projectId type ideaId d :
  reads (validateOriginatingIdea projectId type ideaId)
    (λ _, type ≠ TIdea ∧ ∃ i, d.(db_entities) !! (TIdea, ideaId) = Some i ∧ i.(en_project) = projectId) d.
Proof.
  unfold validateOriginatingIdea. eapply reads_seq; [apply reads_reject_if; intros H; exact H|]. intros Ht.
  apply reads_gets. destruct (db_entities d !! (TIdea, ideaId)) as [i|]; [|apply reads_reject].
  apply reads_reject_if. intros Hp. split; [by destruct type|].
  exists i. split; [done|]. unfold in_project in Hp. apply negb_false_iff in Hp. by apply Z.eqb_eq.
Qed.

(** The ids a SELECT returns. *)
Lemma elem_of_select_ids type p d id :
  id ∈ select_ids type p d ↔ ∃ e, d.(db_entities) !! (type, id) = Some e ∧ p e = true.
Proof.
  unfold select_ids. rewrite list_elem_of_fmap. split.
  - intros ([[t i] e] & -> & H). rewrite list_elem_of_filter, elem_of_map_to_list in H. simpl in *.
    destruct H as [[-> Hp] Hk]. by exists e.
  - intros (e & Hk & Hp). exists ((type, id), e). split; [done|].
    rewrite list_elem_of_filter, elem_of_map_to_list. done.
Qed.

(** The idea has no other live direct task. *)
Definition sole_direct (ideaId taskId : string) (d : tdb) : Prop :=
  ∀ id e, d.(db_entities) !! (TTask, id) = Some e → direct_task ideaId e = true → id = taskId.

Lemma reads_idea_needs_epic ideaId taskId d :
  reads (assertIdeaEpicInvariant ideaId taskId) (λ _, sole_direct ideaId taskId d) d.
Proof.
  unfold assertIdeaEpicInvariant. apply reads_gets, reads_reject_if.
  intros H%bool_decide_eq_false id e Hk Hd. apply dec_stable. intros Hne. apply H.
  assert (id ∈ filter (λ id, id ≠ taskId) (select_ids TTask (direct_task ideaId) d)) as Hin.
  { apply list_elem_of_filter. split; [done|]. apply elem_of_select_ids. by exists e. }
  destruct (filter _ _); [by apply not_elem_of_nil in Hin|]. simpl. lia.
Qed.

(** ** The deltas *)

Section Update.
Context (JSON_parse : string → option JsNumber.json_value).
Context (projectId : Z) (taskId : string) (type : task_type) (current : entity) (c : TaskChange) (now : instant) (d : tdb).

Definition local_agent (a : task_actor) : Prop := a ≠ a_orchestrator ∧ a ≠ REMOTE_ACTOR.

(** What a delta of a column promises. *)
Definition delta_ok (dl : FieldDelta) : Prop :=
  match dl.(fd_field) with
  | FCol column =>
      dl.(fd_from) = col column current ∧
      match column with
      | c_ref => False
      | c_stage => ∃ target s, dl.(fd_to) = Some (Text target) ∧ c.(ch_stageId) = Some target
          ∧ lookupStage target d = Some s ∧ (s.(sg_policy) = derived → c.(ch_actor) = a_orchestrator)
          ∧ (c.(ch_actor) ≠ a_orchestrator → hasNonTerminalRun taskId d = false)
      | c_reopened_at => type = TTask ∧ dl.(fd_to) = Some (Stamp now)
      | c_approved_at => c.(ch_actor) = a_orchestrator ∨ c.(ch_actor) = REMOTE_ACTOR
      | c_experiment_id | c_experiment_arm => c.(ch_actor) = a_orchestrator ∧ dl.(fd_to) = None
      | c_archived_at => (local_agent c.(ch_actor) → dl.(fd_to) ≠ None → hasNonTerminalRun taskId d = false)
          ∧ (is_Some (remote_of c) ∨ ∃ v, c.(ch_archived) = Some v ∧ dl.(fd_to) = toggle_to now v)
      | c_parent_epic => type = TTask ∧ (∃ v, c.(ch_parentEpicId) = Some v ∧ dl.(fd_to) = Text <$> v)
          ∧ (dl.(fd_to) = None ∨ ∃ p e, dl.(fd_to) = Some (Text p)
          ∧ d.(db_entities) !! (TEpic, p) = Some e ∧ e.(en_project) = projectId)
      | c_originating_idea => type ≠ TIdea ∧ (∃ v, c.(ch_originatingIdeaId) = Some v ∧ dl.(fd_to) = Text <$> v)
          ∧ (dl.(fd_to) = None ∨ ∃ i e, dl.(fd_to) = Some (Text i)
          ∧ d.(db_entities) !! (TIdea, i) = Some e ∧ e.(en_project) = projectId)
      | c_decomposed_at => type = TIdea
      | c_executor => type = TTask
      | _ => True
      end
  | _ => False
  end.

(** [u'] extends [u] by deltas of the listed columns, in that order. *)
Definition grows (cols : list column) (u u' : update) : Prop :=
  ∃ ds, u'.(u_deltas) = u.(u_deltas) ++ ds ∧ Forall delta_ok ds ∧ (fd_field <$> ds) `sublist_of` (FCol <$> cols).

Lemma grows_none cols u u' : u'.(u_deltas) = u.(u_deltas) → grows cols u u'.
Proof.
  intros H. exists []. rewrite H, app_nil_r. split_and!; [done|by constructor|]. apply sublist_nil_l.
Qed.

Lemma grows_trans cols1 cols2 u1 u2 u3 : grows cols1 u1 u2 → grows cols2 u2 u3 → grows (cols1 ++ cols2) u1 u3.
Proof.
  intros (ds1 & H1 & F1 & S1) (ds2 & H2 & F2 & S2). exists (ds1 ++ ds2). split_and!.
  - by rewrite H2, H1, (assoc_L (++)).
  - by apply Forall_app.
  - rewrite !fmap_app. by apply sublist_app.
Qed.

Lemma grows_sub cols cols' u u' : cols `sublist_of` cols' → grows cols u u' → grows cols' u u'.
Proof.
  intros Hs (ds & H & F & S). exists ds. split_and!; [done|done|]. etransitivity; [done|].
  clear -Hs. induction Hs; simpl; by constructor.
Qed.

Lemma grows_push column to u u' :
  u'.(u_deltas) = (push column current to u).(u_deltas) → delta_ok (mk_delta (FCol column) (col column current) to) →
  grows [column] u u'.
Proof.
  intros H Hok. exists [mk_delta (FCol column) (col column current) to]. split_and!; [done| |done].
  by constructor.
Qed.

Lemma grows_change_to column to u :
  delta_ok (mk_delta (FCol column) (col column current) to) → grows [column] u (change_to column current to u).
Proof.
  intros Hok. unfold change_to. case_bool_decide; [by apply grows_none|by eapply grows_push].
Qed.

Lemma grows_scalar column v u :
  (∀ to, delta_ok (mk_delta (FCol column) (col column current) to)) → grows [column] u (scalar_field current column v u).
Proof.
  intros Hok. destruct v as [to|]; simpl; [by apply grows_change_to|by apply grows_none].
Qed.

(** A column that a request names has its value, or a delta gives it. *)
Definition column_done (column : column) (v : option cell) (u : update) : Prop :=
  v = col column current ∨ mk_delta (FCol column) (col column current) v ∈ u.(u_deltas).
Definition parent_done (u : update) : Prop :=
  ∀ v, c.(ch_parentEpicId) = Some v → column_done c_parent_epic (Text <$> v) u.
Definition idea_done (u : update) : Prop :=
  ∀ v, c.(ch_originatingIdeaId) = Some v → column_done c_originating_idea (Text <$> v) u.
Definition archive_done (u : update) : Prop :=
  ∀ v, c.(ch_archived) = Some v → v = bool_decide (is_Some (col c_archived_at current))
    ∨ mk_delta (FCol c_archived_at) (col c_archived_at current) (toggle_to now v) ∈ u.(u_deltas).

(** ** The branches *)

Ltac no_change := apply reads_ret, grows_none; reflexivity.

Lemma stage_branch_ok u :
  reads (stage_branch JSON_parse taskId type current c now u) (grows [c_stage; c_reopened_at] u) d.
Proof.
  unfold stage_branch. destruct (ch_stageId c) as [target|] eqn:Hc; [|no_change].
  case_bool_decide as Hcur; [no_change|]. apply reads_get.
  destruct (lookupStage target d) as [s|] eqn:Hs; [|apply reads_reject].
  eapply reads_seq; [apply reads_authority|]. intros Hauth.
  eapply reads_seq; [apply reads_reject_if; intros H; exact H|]. intros Hrun. apply reads_ret.
  set (u1 := with_action _ _).
  match goal with |- context [if ?b then with_wontDoRuns ?l u1 else u1] =>
    set (u2 := if b then with_wontDoRuns l u1 else u1) end.
  assert (u_deltas u2 = u_deltas u1) as Hu by (unfold u2; by case_match).
  apply (grows_trans [c_stage] [c_reopened_at] _ u2).
  - eapply grows_push; [exact Hu|]. split; [done|]. exists target, s. split_and!; try done.
    intros Ha. apply andb_false_iff in Hrun as [Hrun|Hrun]; [|done].
    apply negb_false_iff, bool_decide_eq_true in Hrun. done.
  - case_match eqn:Hr; [|by apply grows_none]. eapply grows_push; [done|]. split; [done|].
    rewrite !andb_true_iff in Hr. destruct Hr as [[Ht _] _]. by apply bool_decide_eq_true in Ht.
Qed.

Lemma decomposed_branch_ok u :
  (c.(ch_actor) = REMOTE_ACTOR → c.(ch_decomposed) = None) →
  reads (decomposed_branch type current c now u)
    (grows (if bool_decide (c.(ch_actor) = REMOTE_ACTOR) then [] else [c_decomposed_at]) u) d.
Proof.
  intros Hclean. unfold decomposed_branch. destruct (ch_decomposed c) as [v|]; [|no_change].
  rewrite (bool_decide_false (ch_actor c = REMOTE_ACTOR)) by (intros Hr; by apply Hclean in Hr).
  eapply reads_seq; [apply reads_reject_if; intros H; exact H|]. intros Ht. apply reads_ret.
  case_match; [|by apply grows_none]. eapply grows_push; [done|]. split; [done|]. by destruct type.
Qed.

Lemma approved_branch_ok u :
  reads (approved_branch type current c now u)
    (grows (if bool_decide (c.(ch_actor) = REMOTE_ACTOR) then [] else [c_approved_at]) u) d.
Proof.
  unfold approved_branch. destruct (ch_approved c) as [v|]; [|no_change].
  eapply reads_seq; [apply reads_reject_if; intros H; exact H|]. intros _.
  eapply reads_seq; [apply reads_reject_if; intros H; exact H|]. intros Ha%negb_false_iff%bool_decide_eq_true.
  rewrite bool_decide_false by (rewrite Ha; done). apply reads_ret. case_match; [|by apply grows_none].
  eapply grows_push; [done|]. split; [done|by left].
Qed.

Lemma clear_branch_ok u :
  reads (clear_branch current c u) (grows [c_experiment_id; c_experiment_arm] u) d.
Proof.
  unfold clear_branch. destruct (ch_clearExperiment c) as [[]|]; try no_change.
  eapply reads_seq; [apply reads_reject_if; intros H; exact H|]. intros Ha%negb_false_iff%bool_decide_eq_true.
  apply reads_ret. apply (grows_trans [_] [_] _ (change_to c_experiment_id current None u)); by apply grows_change_to.
Qed.

Lemma caused_branch_ok u : grows [c_caused_by_run] u (caused_branch current c u).
Proof. unfold caused_branch. case_match; [by apply grows_change_to|by apply grows_none]. Qed.

Lemma archive_branch_ok u :
  (c.(ch_actor) = REMOTE_ACTOR → c.(ch_archived) = None) →
  reads (archive_branch taskId current c now u)
    (λ u', grows (if bool_decide (c.(ch_actor) = REMOTE_ACTOR) then [] else [c_archived_at]) u u' ∧ archive_done u') d.
Proof.
  intros Hclean. unfold archive_branch, archive_done. destruct (ch_archived c) as [v|] eqn:Hc; [|by apply reads_ret; split; [apply grows_none|]].
  rewrite (bool_decide_false (ch_actor c = REMOTE_ACTOR)) by (intros Hr; by apply Hclean in Hr).
  destruct (toggled _ _ _) eqn:Ht.
  - apply reads_get. eapply reads_seq; [apply reads_reject_if; intros H'; exact H'|]. intros Hrun. apply reads_ret. split.
    + eapply (grows_push c_archived_at (toggle_to now v)); [done|]. split; [done|]. simpl. split; [|right; eauto].
      intros [Ha _] Hv. destruct v; [|by destruct Hv]. simpl in Hrun. by rewrite bool_decide_false in Hrun.
    + intros ? [= <-]. right. simpl. apply elem_of_app. right. by left.
  - apply reads_ret. split; [by apply grows_none|]. intros ? [= <-]. left. unfold toggled in Ht.
    by apply negb_false_iff, eqb_prop in Ht.
Qed.

Lemma remote_of_actor r : remote_of c = Some r → c.(ch_actor) = REMOTE_ACTOR.
Proof. unfold remote_of. case_bool_decide; done. Qed.

Lemma remote_field_actor {A} (f : RemoteApplyFields → option A) v :
  remote_field f c = Some v → c.(ch_actor) = REMOTE_ACTOR.
Proof. unfold remote_field. destruct (remote_of c) as [r|] eqn:Hr; [|done]. intros _. by eapply remote_of_actor. Qed.

Lemma remote_field_some {A} (f : RemoteApplyFields → option A) v : remote_field f c = Some v → is_Some (remote_of c).
Proof. unfold remote_field. destruct (remote_of c); [eauto|done]. Qed.

Definition if_remote (cols : list column) : list column :=
  if bool_decide (c.(ch_actor) = REMOTE_ACTOR) then cols else [].

Lemma remote_approved_ok u : reads (remote_approved_branch type current c u) (grows (if_remote [c_approved_at]) u) d.
Proof.
  unfold remote_approved_branch. destruct (remote_field rm_approvedAt c) as [v|] eqn:Hf; [|no_change].
  apply remote_field_actor in Hf as Ha. unfold if_remote. rewrite (bool_decide_true (ch_actor c = REMOTE_ACTOR)) by done.
  eapply reads_seq; [apply reads_reject_if; intros H; exact H|]. intros _. apply reads_ret, grows_change_to.
  split; [done|by right].
Qed.

Lemma remote_decomposed_ok u :
  reads (remote_decomposed_branch type current c u) (grows (if_remote [c_decomposed_at]) u) d.
Proof.
  unfold remote_decomposed_branch. destruct (remote_field rm_decomposedAt c) as [v|] eqn:Hf; [|no_change].
  apply remote_field_actor in Hf as Ha. unfold if_remote. rewrite (bool_decide_true (ch_actor c = REMOTE_ACTOR)) by done.
  eapply reads_seq; [apply reads_reject_if; intros H; exact H|]. intros Ht. apply reads_ret.
  case_bool_decide; [by apply grows_none|]. eapply (grows_push c_decomposed_at (Stamp <$> v)); [by destruct v|]. split; [done|]. by destruct type.
Qed.

Lemma remote_archived_ok u :
  reads (remote_archived_branch JSON_parse taskId type current c u) (grows (if_remote [c_archived_at]) u) d.
Proof.
  unfold remote_archived_branch. destruct (remote_field rm_archivedAt c) as [v|] eqn:Hf; [|no_change].
  apply remote_field_actor in Hf as Ha. unfold if_remote. rewrite (bool_decide_true (ch_actor c = REMOTE_ACTOR)) by done.
  case_bool_decide; [no_change|]. apply reads_get.
  eapply reads_seq; [apply reads_reject_if; intros H'; exact H'|]. intros _. apply reads_ret.
  eapply (grows_push c_archived_at (Stamp <$> v)); [by case_match|]. split; [done|]. split; [by intros [_ Hn]|left; by eapply remote_field_some].
Qed.

Lemma parent_branch_ok u :
  reads (parent_branch projectId taskId type current c u) (λ u', grows [c_parent_epic] u u' ∧ parent_done u') d.
Proof.
  unfold parent_branch, parent_done. destruct (ch_parentEpicId c) as [v|] eqn:Hc; [|by apply reads_ret; split; [apply grows_none|]].
  case_bool_decide as Hv; [apply reads_ret; split; [by apply grows_none|]; intros ? [= <-]; by left|].
  eapply reads_seq; [apply reads_reject_if; intros H'; exact H'|]. intros Ht.
  assert (type = TTask) as -> by (by destruct type).
  eapply (reads_seq _ _ (match v with Some p => ∃ e, d.(db_entities) !! (TEpic, p) = Some e ∧ e.(en_project) = projectId
                                 | None => True end)).
  - destruct v as [p|]; [|by apply reads_ret]. eapply reads_mono; [apply reads_parent|]. naive_solver.
  - intros Hp. apply reads_ret. split; [eapply grows_push; [done|]; split; [done|]; split_and!; [done|by exists v|]|].
    + destruct v as [p|]; [right|by left]. destruct Hp as (e & ? & ?). by exists p, e.
    + intros ? [= <-]. right. simpl. apply elem_of_app. right. by left.
Qed.

Lemma idea_branch_ok u :
  reads (idea_branch projectId type current c u) (λ u', grows [c_originating_idea] u u' ∧ idea_done u') d.
Proof.
  unfold idea_branch, idea_done. destruct (ch_originatingIdeaId c) as [v|] eqn:Hc; [|by apply reads_ret; split; [apply grows_none|]].
  case_bool_decide as Hv; [apply reads_ret; split; [by apply grows_none|]; intros ? [= <-]; by left|].
  eapply reads_seq; [apply reads_reject_if; intros H'; exact H'|]. intros Ht.
  assert (type ≠ TIdea) as Hti by (by destruct type).
  eapply (reads_seq _ _ (match v with Some p => ∃ e, d.(db_entities) !! (TIdea, p) = Some e ∧ e.(en_project) = projectId
                                 | None => True end)).
  - destruct v as [p|]; [|by apply reads_ret]. eapply reads_mono; [apply reads_idea|]. naive_solver.
  - intros Hp. apply reads_ret. split; [eapply grows_push; [done|]; split; [done|]; split_and!; [done|by exists v|]|].
    + destruct v as [p|]; [right|by left]. destruct Hp as (e & ? & ?). by exists p, e.
    + intros ? [= <-]. right. simpl. apply elem_of_app. right. by left.
Qed.

Lemma executor_field_ok v u : reads (executor_field type current v u) (grows [c_executor] u) d.
Proof.
  unfold executor_field. destruct v as [to|]; [|no_change].
  eapply reads_seq; [apply reads_reject_if; intros H; exact H|]. intros Ht. apply reads_ret.
  case_bool_decide; [by apply grows_none|]. eapply grows_push; [done|]. split; [done|]. by destruct type.
Qed.

Lemma body_field_ok v u : grows [c_body] u (body_field type current v u).
Proof.
  unfold body_field. destruct v as [to|]; [|by apply grows_none]. case_bool_decide; [by apply grows_none|].
  eapply (grows_push c_body (Text <$> to)); [by case_match|done].
Qed.

Definition field_columns : list column :=
  [c_title; c_summary; c_body; c_priority; c_category; c_sort_order; c_repo; c_scope; c_executor; c_attachments;
   c_entry_stage].

Lemma fields_branch_ok u : reads (fields_branch type current c u) (grows field_columns u) d.
Proof.
  unfold fields_branch. destruct (ch_fields c) as [f|]; [|no_change].
  set (u8 := scalar_field _ c_scope _ _).
  assert (grows [c_title; c_summary; c_body; c_priority; c_category; c_sort_order; c_repo; c_scope] u u8) as H8.
  { unfold u8. repeat (eapply (grows_trans [_]); [first [apply body_field_ok|by apply grows_scalar]|]).
    by apply grows_none. }
  eapply reads_bind; [apply executor_field_ok|]. intros u9 H9. apply reads_ret.
  eapply (grows_trans [c_title; c_summary; c_body; c_priority; c_category; c_sort_order; c_repo; c_scope]
            [c_executor; c_attachments; c_entry_stage]); [exact H8|].
  eapply (grows_trans [_] [_; _]); [exact H9|]. eapply (grows_trans [_] [_]); by apply grows_scalar.
Qed.

(** What the IDEA-NEEDS-EPIC check establishes: a row that comes to stand
    directly under an idea stands there alone. *)
Definition epic_checked : Prop :=
  remote_of c = None → type = TTask →
  is_Some c.(ch_parentEpicId) ∨ is_Some c.(ch_originatingIdeaId)
    ∨ c.(ch_archived) = Some false ∧ is_Some (col c_archived_at current) →
  default (bool_decide (is_Some (col c_archived_at current))) c.(ch_archived) = false →
  default (text_of (col c_parent_epic current)) c.(ch_parentEpicId) = None →
  ∀ i, default (text_of (col c_originating_idea current)) c.(ch_originatingIdeaId) = Some i → sole_direct i taskId d.

Lemma epic_check_ok : reads (epic_check taskId type current c) (λ _, epic_checked) d.
Proof.
  unfold epic_check. apply reads_when.
  - intros _. destruct (default _ (ch_originatingIdeaId c)) as [i|] eqn:Hi;
      [|apply reads_ret; intros _ _ _ _ _ j Hj; by rewrite Hi in Hj].
    apply reads_when; [intros _|intros Hc].
    + eapply reads_mono; [apply reads_idea_needs_epic|]. intros ? Hs _ _ _ _ _ j Hj. rewrite Hi in Hj. by injection Hj as <-.
    + intros _ _ _ Ha Hp. rewrite Ha in Hc. rewrite bool_decide_true in Hc; done.
  - intros Hc Hr Ht Htrig. exfalso. rewrite (bool_decide_true (remote_of c = None)), (bool_decide_true (type = TTask)) in Hc by done.
    simpl in Hc. rewrite !orb_false_iff in Hc. destruct Hc as [[H1 H2] H3].
    apply bool_decide_eq_false in H1, H2. destruct Htrig as [?|[?|[Ha Hs]]]; [done|done|].
    rewrite (bool_decide_true (ch_archived c = Some false)), (bool_decide_true (is_Some _)) in H3 by done. done.
Qed.

Lemma sandbox_guard_ok :
  reads (sandbox_guard current c)
    (λ _, c.(ch_actor) ≠ a_orchestrator →
      sandbox_ok (runExperimentIdFor c.(ch_runId) d) (runExperimentArmFor c.(ch_runId) d)
        (text_of (col c_experiment_id current)) (text_of (col c_experiment_arm current)) = true) d.
Proof.
  unfold sandbox_guard. apply reads_get, reads_when.
  - intros _. apply reads_reject_if. intros H _. by apply negb_false_iff in H.
  - intros H%negb_false_iff%bool_decide_eq_true Ha. done.
Qed.

(** ** All branches *)

Definition unless_remote (cols : list column) : list column :=
  if bool_decide (c.(ch_actor) = REMOTE_ACTOR) then [] else cols.

Definition update_columns : list column :=
  [c_stage; c_reopened_at] ++ unless_remote [c_decomposed_at] ++ unless_remote [c_approved_at]
  ++ [c_experiment_id; c_experiment_arm] ++ [c_caused_by_run] ++ unless_remote [c_archived_at]
  ++ if_remote [c_approved_at] ++ if_remote [c_decomposed_at] ++ if_remote [c_archived_at]
  ++ [c_parent_epic] ++ [c_originating_idea] ++ field_columns.

Lemma update_columns_NoDup : NoDup update_columns.
Proof.
  unfold update_columns, unless_remote, if_remote. case_bool_decide;
    (apply bool_decide_unpack with (dec := NoDup_dec _)); vm_compute; exact I.
Qed.

(** A request the entry check lets through. *)
Definition remote_clean : Prop :=
  c.(ch_actor) = REMOTE_ACTOR → c.(ch_archived) = None ∧ c.(ch_decomposed) = None ∧ c.(ch_approved) = None.

(** What the branches establish of the deltas they collect. *)
Record update_ok (ds : list FieldDelta) : Prop := {
  uo_deltas : Forall delta_ok ds;
  uo_columns : (fd_field <$> ds) `sublist_of` (FCol <$> update_columns);
  uo_sandbox : c.(ch_actor) ≠ a_orchestrator →
    sandbox_ok (runExperimentIdFor c.(ch_runId) d) (runExperimentArmFor c.(ch_runId) d)
      (text_of (col c_experiment_id current)) (text_of (col c_experiment_arm current)) = true;
  uo_epic : epic_checked;
  uo_parent : ∀ v, c.(ch_parentEpicId) = Some v → Text <$> v = col c_parent_epic current
    ∨ mk_delta (FCol c_parent_epic) (col c_parent_epic current) (Text <$> v) ∈ ds;
  uo_idea : ∀ v, c.(ch_originatingIdeaId) = Some v → Text <$> v = col c_originating_idea current
    ∨ mk_delta (FCol c_originating_idea) (col c_originating_idea current) (Text <$> v) ∈ ds;
  uo_archive : ∀ v, c.(ch_archived) = Some v → v = bool_decide (is_Some (col c_archived_at current))
    ∨ mk_delta (FCol c_archived_at) (col c_archived_at current) (toggle_to now v) ∈ ds
}.

Lemma done_grows column v cols u u' : grows cols u u' → column_done column v u → column_done column v u'.
Proof.
  intros (ds & Hu & _ & _) [?|Hin]; [by left|right]. rewrite Hu. apply elem_of_app. by left.
Qed.

Lemma update_branches_ok u :
  remote_clean → u.(u_deltas) = [] →
  reads (update_branches JSON_parse projectId taskId type current c now u) (λ u', update_ok u'.(u_deltas)) d.
Proof.
  intros Hclean Hu. unfold update_branches.
  eapply reads_seq; [apply sandbox_guard_ok|]. intros Hsandbox.
  eapply reads_bind; [apply stage_branch_ok|]. intros u1 G1.
  eapply reads_bind; [apply decomposed_branch_ok; intros H; by apply Hclean|]. intros u2 G2.
  eapply reads_bind; [apply approved_branch_ok|]. intros u3 G3.
  eapply reads_bind; [apply clear_branch_ok|]. intros u4 G4. pose proof (caused_branch_ok u4) as G5.
  eapply reads_bind; [apply archive_branch_ok; intros H; by apply Hclean|]. intros u6 [G6 D6].
  eapply reads_bind; [apply remote_approved_ok|]. intros u7 G7.
  eapply reads_bind; [apply remote_decomposed_ok|]. intros u8 G8.
  eapply reads_bind; [apply remote_archived_ok|]. intros u9 G9.
  eapply reads_bind; [apply parent_branch_ok|]. intros u10 [G10 D10].
  eapply reads_bind; [apply idea_branch_ok|]. intros u11 [G11 D11].
  eapply reads_seq; [apply epic_check_ok|]. intros Hepic.
  eapply reads_mono; [apply fields_branch_ok|]. intros u12 G12.
  pose proof (grows_trans _ _ _ _ _ G11 G12) as T11. pose proof (grows_trans _ _ _ _ _ G10 T11) as T10.
  pose proof (grows_trans _ _ _ _ _ G9 T10) as T9. pose proof (grows_trans _ _ _ _ _ G8 T9) as T8.
  pose proof (grows_trans _ _ _ _ _ G7 T8) as T7. pose proof (grows_trans _ _ _ _ _ G6 T7) as T6.
  pose proof (grows_trans _ _ _ _ _ G5 T6) as T5. pose proof (grows_trans _ _ _ _ _ G4 T5) as T4.
  pose proof (grows_trans _ _ _ _ _ G3 T4) as T3. pose proof (grows_trans _ _ _ _ _ G2 T3) as T2.
  pose proof (grows_trans _ _ _ _ _ G1 T2) as (ds & E & F & S). rewrite Hu in E. simpl in E.
  split; [by rewrite E|by rewrite E|done|done| | |].
  - intros v Hv. eapply done_grows; [exact T11|by apply D10].
  - intros v Hv. eapply done_grows; [exact G12|by apply D11].
  - intros v Hv. destruct T7 as (ds' & E' & _). destruct (D6 v Hv) as [?|Hin]; [by left|right].
    rewrite E'. apply elem_of_app. by left.
Qed.
End Update.

(** ** The row after its deltas *)

Lemma col_set_eq column v e : col column (set_col column v e) = v.
Proof. unfold col, set_col. simpl. by rewrite lookup_partial_alter_eq. Qed.
Lemma col_set_ne column column' v e : column ≠ column' → col column' (set_col column v e) = col column' e.
Proof. intros H. unfold col, set_col. simpl. by rewrite lookup_partial_alter_ne. Qed.

(** The value a list of deltas gives to a column, if it names it. *)
Fixpoint delta_to (column : column) (ds : list FieldDelta) : option (option cell) :=
  match ds with
  | [] => None
  | dl :: rest => match delta_to column rest with
                  | Some v => Some v
                  | None => if decide (dl.(fd_field) = FCol column) then Some dl.(fd_to) else None
                  end
  end.

Lemma col_apply_deltas column ds e :
  col column (fold_left apply_delta ds e) = default (col column e) (delta_to column ds).
Proof.
  revert e. induction ds as [|[f from to] ds IH]; intros e; simpl; [done|]. rewrite IH.
  destruct (delta_to column ds); [done|]. unfold apply_delta. simpl.
  destruct f as [column'| |]; simpl; try done.
  destruct (decide (FCol column' = FCol column)) as [[= ->]|Hne]; simpl; [by rewrite col_set_eq|].
  rewrite col_set_ne; [done|congruence].
Qed.

Lemma delta_to_None column ds : delta_to column ds = None ↔ FCol column ∉ (fd_field <$> ds).
Proof.
  induction ds as [|[f from to] ds IH]; simpl; [split; [by intros _ ?%not_elem_of_nil|done]|].
  rewrite not_elem_of_cons. destruct (delta_to column ds).
  - split; [done|]. intros [_ H]. by apply IH in H.
  - destruct (decide (f = FCol column)); simpl; [naive_solver|]. naive_solver.
Qed.

Lemma delta_to_elem column ds v : delta_to column ds = Some v → ∃ from, mk_delta (FCol column) from v ∈ ds.
Proof.
  induction ds as [|[f from to] ds IH]; simpl; [done|]. destruct (delta_to column ds).
  - intros [= ->]. destruct (IH eq_refl) as (from' & Hin). exists from'. by right.
  - destruct (decide (f = FCol column)) as [->|]; [|done]. intros [= ->]. exists from. left.
Qed.

Lemma delta_to_NoDup column ds from v :
  NoDup (fd_field <$> ds) → mk_delta (FCol column) from v ∈ ds → delta_to column ds = Some v.
Proof.
  induction ds as [|[f from' to] ds IH]; simpl; [by intros _ ?%not_elem_of_nil|].
  intros [Hf Hnd]%NoDup_cons [[= <- <- <-]|Hin]%elem_of_cons.
  - assert (delta_to column ds = None) as -> by (by apply delta_to_None). by rewrite decide_True.
  - by rewrite (IH Hnd Hin).
Qed.

Lemma apply_deltas_rest ds e :
  let e' := fold_left apply_delta ds e in
  e'.(en_project) = e.(en_project) ∧ e'.(en_board) = e.(en_board) ∧ e'.(en_version) = e.(en_version)
  ∧ e'.(en_created_at) = e.(en_created_at).
Proof.
  revert e. induction ds as [|[[] from to] ds IH]; intros e; simpl; [done| |apply IH|apply IH].
  destruct (IH (set_col c to e)) as (? & ? & ? & ?). by split_and!.
Qed.

(** ** [runUpdate] *)

(** ** The deltas of a request *)

Section Exact.
Context (JSON_parse : string → option JsNumber.json_value).
Context (projectId : Z) (taskId : string) (type : task_type) (current : entity) (c : TaskChange) (now : instant) (d : tdb).

(** What the request asks of a column, [None] when it does not name it. *)
Definition asks (column : column) (v : option (option cell)) : list FieldDelta :=
  match v with
  | Some to => if bool_decide (to = col column current) then [] else [mk_delta (FCol column) (col column current) to]
  | None => []
  end.

(** A toggle keeps the stamp of a column that is set already. *)
Definition toggle_wish (v : option bool) (column : column) : option (option cell) :=
  (λ b, if toggled current b column then toggle_to now b else col column current) <$> v.

(** A terminal task moves to a stage that is not. *)
Definition reopens : bool :=
  match c.(ch_stageId) with
  | Some target =>
      negb (bool_decide (Some (Text target) = col c_stage current))
      && bool_decide (type = TTask)
      && match lookupStage (stage_of current) d with Some f => f.(sg_terminal) | None => false end
      && match lookupStage target d with Some s => negb s.(sg_terminal) | None => false end
  | None => false
  end.

Definition stage_deltas : list FieldDelta :=
  asks c_stage ((λ s, Some (Text s)) <$> c.(ch_stageId))
  ++ if reopens then [mk_delta (FCol c_reopened_at) (col c_reopened_at current) (Some (Stamp now))] else [].

Definition text_wish (v : option (option string)) : option (option cell) := (λ t : option string, Text <$> t) <$> v.
Definition clear_wish : option (option cell) := if bool_decide (c.(ch_clearExperiment) = Some true) then Some None else None.

Definition field_deltas : list FieldDelta :=
  match c.(ch_fields) with
  | Some f =>
      asks c_title (text_wish (Some <$> f.(f_title))) ++ asks c_summary (text_wish f.(f_summary))
      ++ asks c_body (text_wish f.(f_body)) ++ asks c_priority (text_wish (Some <$> f.(f_priority)))
      ++ asks c_category (text_wish (Some <$> f.(f_category))) ++ asks c_sort_order (text_wish f.(f_sortOrder))
      ++ asks c_repo (text_wish f.(f_repo)) ++ asks c_scope (text_wish (only_if (describe type).(hasScope) f.(f_scope)))
      ++ asks c_executor (text_wish (Some <$> f.(f_executor)))
      ++ asks c_attachments (text_wish (only_if (describe type).(hasAttachments) (attachments_json <$> f.(f_attachments))))
      ++ asks c_entry_stage (text_wish (only_if (describe type).(hasEntryStage) f.(f_entryStageId)))
  | None => []
  end.

Definition update_deltas : list FieldDelta :=
  stage_deltas
  ++ asks c_decomposed_at (toggle_wish c.(ch_decomposed) c_decomposed_at)
  ++ asks c_approved_at (toggle_wish c.(ch_approved) c_approved_at)
  ++ asks c_experiment_id clear_wish ++ asks c_experiment_arm clear_wish
  ++ asks c_caused_by_run (text_wish c.(ch_causedByRunId))
  ++ asks c_archived_at (toggle_wish c.(ch_archived) c_archived_at)
  ++ asks c_approved_at ((λ t : option instant, Stamp <$> t) <$> remote_field rm_approvedAt c)
  ++ asks c_decomposed_at ((λ t : option instant, Stamp <$> t) <$> remote_field rm_decomposedAt c)
  ++ asks c_archived_at ((λ t : option instant, Stamp <$> t) <$> remote_field rm_archivedAt c)
  ++ asks c_parent_epic (text_wish c.(ch_parentEpicId))
  ++ asks c_originating_idea (text_wish c.(ch_originatingIdeaId))
  ++ field_deltas.

(** [u'] has these deltas more. *)
Definition adds (ds : list FieldDelta) (u u' : update) : Prop := u'.(u_deltas) = u.(u_deltas) ++ ds.

Lemma adds_nil u : adds [] u u.
Proof. unfold adds. by rewrite app_nil_r. Qed.

Lemma adds_change_to column to u : adds (asks column (Some to)) u (change_to column current to u).
Proof. unfold asks, change_to. case_bool_decide; [apply adds_nil|done]. Qed.

Lemma adds_scalar column v u : adds (asks column (text_wish v)) u (scalar_field current column v u).
Proof. destruct v as [to|]; [apply adds_change_to|apply adds_nil]. Qed.

Lemma adds_trans ds ds' u u1 u2 : adds ds u u1 → adds ds' u1 u2 → adds (ds ++ ds') u u2.
Proof. unfold adds. intros -> ->. by rewrite (assoc_L (++)). Qed.

Lemma reads_adds_ret ds u u' : adds ds u u' → reads (mret u') (adds ds u) d.
Proof. apply reads_ret. Qed.

(** A toggle pushes exactly when it changes the column. *)
Lemma toggle_asks v column u u' :
  (if toggled current v column then adds [mk_delta (FCol column) (col column current) (toggle_to now v)] u u'
   else adds [] u u') →
  adds (asks column (toggle_wish (Some v) column)) u u'.
Proof.
  unfold asks, toggle_wish. simpl. destruct (toggled current v column) eqn:Ht.
  - rewrite bool_decide_false; [done|]. unfold toggled in Ht. apply negb_true_iff, eqb_false_iff in Ht.
    intros E. apply Ht. rewrite <- E. by destruct v.
  - by rewrite bool_decide_true.
Qed.

Lemma stage_branch_exact u : reads (stage_branch JSON_parse taskId type current c now u) (adds stage_deltas u) d.
Proof.
  unfold stage_branch, stage_deltas, reopens, asks. destruct (ch_stageId c) as [target|]; simpl; [|apply reads_ret, adds_nil].
  case_bool_decide as Hcur; [apply reads_ret, adds_nil|]. apply reads_get.
  destruct (lookupStage target d) as [s|]; [|apply reads_reject].
  eapply reads_seq; [eapply reads_true, reads_authority|]. intros _.
  eapply reads_seq; [by apply (reads_reject_if _ _ (λ _, True))|]. intros _. apply reads_ret. simpl.
  unfold adds. repeat case_match; simplify_eq/=; by rewrite <- ?(assoc_L (++)).
Qed.
(** Every branch, by the shape it has. *)
Ltac exact_branch :=
  repeat first
    [ apply reads_ret; apply adds_nil | apply reads_ret; apply adds_change_to | apply reads_ret; apply toggle_asks
    | eapply reads_seq; [by apply (reads_reject_if _ _ (λ _, True))|intros _]
    | apply reads_get ].

Lemma decomposed_branch_exact u :
  reads (decomposed_branch type current c now u) (adds (asks c_decomposed_at (toggle_wish c.(ch_decomposed) c_decomposed_at)) u) d.
Proof.
  unfold decomposed_branch. destruct (ch_decomposed c) as [v|]; exact_branch. by case_match; [|apply adds_nil].
Qed.

Lemma approved_branch_exact u :
  reads (approved_branch type current c now u) (adds (asks c_approved_at (toggle_wish c.(ch_approved) c_approved_at)) u) d.
Proof. unfold approved_branch. destruct (ch_approved c) as [v|]; exact_branch. by case_match; [|apply adds_nil]. Qed.

Lemma clear_branch_exact u :
  reads (clear_branch current c u) (adds (asks c_experiment_id clear_wish ++ asks c_experiment_arm clear_wish) u) d.
Proof.
  unfold clear_branch, clear_wish. destruct (ch_clearExperiment c) as [[]|]; exact_branch.
  apply reads_ret. by eapply adds_trans; apply adds_change_to.
Qed.

Lemma caused_branch_exact u : adds (asks c_caused_by_run (text_wish c.(ch_causedByRunId))) u (caused_branch current c u).
Proof. unfold caused_branch. destruct (ch_causedByRunId c); [apply adds_change_to|apply adds_nil]. Qed.

Lemma archive_branch_exact u :
  reads (archive_branch taskId current c now u) (adds (asks c_archived_at (toggle_wish c.(ch_archived) c_archived_at)) u) d.
Proof.
  unfold archive_branch. destruct (ch_archived c) as [v|]; [|exact_branch].
  destruct (toggled current v c_archived_at) eqn:Ht; exact_branch; rewrite Ht; [done|apply adds_nil].
Qed.

Lemma remote_approved_exact u :
  reads (remote_approved_branch type current c u)
    (adds (asks c_approved_at ((λ t : option instant, Stamp <$> t) <$> remote_field rm_approvedAt c)) u) d.
Proof. unfold remote_approved_branch. destruct (remote_field rm_approvedAt c); exact_branch. Qed.

Lemma remote_decomposed_exact u :
  reads (remote_decomposed_branch type current c u)
    (adds (asks c_decomposed_at ((λ t : option instant, Stamp <$> t) <$> remote_field rm_decomposedAt c)) u) d.
Proof.
  unfold remote_decomposed_branch. destruct (remote_field rm_decomposedAt c) as [v|]; exact_branch.
  apply reads_ret. unfold asks. simpl. case_bool_decide; [apply adds_nil|]. by destruct v.
Qed.

Lemma remote_archived_exact u :
  reads (remote_archived_branch JSON_parse taskId type current c u)
    (adds (asks c_archived_at ((λ t : option instant, Stamp <$> t) <$> remote_field rm_archivedAt c)) u) d.
Proof.
  unfold remote_archived_branch. destruct (remote_field rm_archivedAt c) as [v|]; [|exact_branch].
  unfold asks. simpl. case_bool_decide; exact_branch. apply reads_ret. by case_match.
Qed.

Lemma parent_branch_exact u :
  reads (parent_branch projectId taskId type current c u) (adds (asks c_parent_epic (text_wish c.(ch_parentEpicId))) u) d.
Proof.
  unfold parent_branch, asks, text_wish. destruct (ch_parentEpicId c) as [v|]; simpl; [|exact_branch].
  case_bool_decide; exact_branch. eapply reads_seq.
  { destruct v; [eapply reads_true, reads_parent|by apply reads_ret]. }
  intros _. by apply reads_ret.
Qed.

Lemma idea_branch_exact u :
  reads (idea_branch projectId type current c u)
    (adds (asks c_originating_idea (text_wish c.(ch_originatingIdeaId))) u) d.
Proof.
  unfold idea_branch, asks, text_wish. destruct (ch_originatingIdeaId c) as [v|]; simpl; [|exact_branch].
  case_bool_decide; exact_branch. eapply reads_seq.
  { destruct v; [eapply reads_true, reads_idea|by apply reads_ret]. }
  intros _. by apply reads_ret.
Qed.

Lemma body_field_exact v u : adds (asks c_body (text_wish v)) u (body_field type current v u).
Proof.
  unfold body_field, asks, text_wish. destruct v as [to|]; simpl; [|apply adds_nil].
  case_bool_decide; [apply adds_nil|by case_bool_decide].
Qed.

Lemma executor_field_exact v u :
  reads (executor_field type current v u) (adds (asks c_executor (text_wish (Some <$> v))) u) d.
Proof.
  unfold executor_field, asks, text_wish. destruct v as [to|]; simpl; exact_branch. apply reads_ret. by case_bool_decide; [apply adds_nil|].
Qed.

Lemma fields_branch_exact u : reads (fields_branch type current c u) (adds field_deltas u) d.
Proof.
  unfold fields_branch, field_deltas. destruct (ch_fields c) as [f|]; [|exact_branch].
  eapply reads_bind; [apply executor_field_exact|]. intros u' Hu'. apply reads_ret.
  do 8 (eapply adds_trans; [first [apply body_field_exact|apply adds_scalar]|]).
  eapply adds_trans; [exact Hu'|]. eapply adds_trans; apply adds_scalar.
Qed.

Lemma update_branches_exact u :
  reads (update_branches JSON_parse projectId taskId type current c now u) (adds update_deltas u) d.
Proof.
  unfold update_branches. eapply reads_seq; [eapply reads_true, sandbox_guard_ok|]. intros _.
  eapply reads_bind; [apply stage_branch_exact|]. intros u1 G1.
  eapply reads_bind; [apply decomposed_branch_exact|]. intros u2 G2.
  eapply reads_bind; [apply approved_branch_exact|]. intros u3 G3.
  eapply reads_bind; [apply clear_branch_exact|]. intros u4 G4.
  eapply reads_bind; [apply archive_branch_exact|]. intros u6 G6.
  eapply reads_bind; [apply remote_approved_exact|]. intros u7 G7.
  eapply reads_bind; [apply remote_decomposed_exact|]. intros u8 G8.
  eapply reads_bind; [apply remote_archived_exact|]. intros u9 G9.
  eapply reads_bind; [apply parent_branch_exact|]. intros u10 G10.
  eapply reads_bind; [apply idea_branch_exact|]. intros u11 G11.
  eapply reads_seq; [eapply reads_true, epic_check_ok|]. intros _.
  eapply reads_mono; [apply fields_branch_exact|]. intros u12 G12.
  pose proof (adds_trans _ _ _ _ _ (caused_branch_exact u4) G6) as G5. unfold update_deltas.
  eapply adds_trans; [exact G1|]. eapply adds_trans; [exact G2|]. eapply adds_trans; [exact G3|].
  rewrite (assoc_L (++) (asks c_experiment_id _)). eapply adds_trans; [exact G4|].
  rewrite (assoc_L (++) (asks c_caused_by_run _)). eapply adds_trans; [exact G5|].
  repeat (eapply adds_trans; [eassumption|]). exact G12.
Qed.
End Exact.

(** The tables after an update with these deltas. *)
Definition logged_update (type : task_type) (taskId : string) (current : entity) (ds : list FieldDelta) (kind : string)
    (c : TaskChange) (now : instant) (d : tdb) : tdb :=
  with_next_event (S d.(db_next_event))
    (with_events (λ l, l ++ [mk_event d.(db_next_event) type taskId (S (max_seq (events_of type taskId d))) kind
                               c.(ch_actor) c.(ch_runId) ds now])
       (with_entities (<[(type, taskId) := updated_row current now ds]>) d)).

Definition run_known (runId : option string) (d : tdb) : Prop :=
  ∀ r, runId = Some r → is_Some (find_run r d).

Lemma locate_some projectId id declared d type e :
  locateEntity projectId id declared d = Some (type, e) →
  d.(db_entities) !! (type, id) = Some e ∧ e.(en_project) = projectId ∧ (∀ t, declared = Some t → t = type).
Proof.
  unfold locateEntity. intros H.
  assert (readEntity type projectId id d = Some e ∧ (∀ t, declared = Some t → t = type)) as [Hr Ht].
  { destruct declared as [t|]; simpl in H.
    - destruct (readEntity t projectId id d) eqn:Hr; [|done]. injection H as -> ->. split; [done|]. by intros ? [= ->].
    - repeat match type of H with context [readEntity ?t ?p ?i ?d] => destruct (readEntity t p i d) eqn:? end;
        simplify_eq; done. }
  unfold readEntity in Hr. destruct (db_entities d !! (type, id)) as [e'|]; [|done].
  destruct (Z.eqb_spec (en_project e') projectId); simplify_eq. done.
Qed.

Section RunUpdate.
Context (JSON_parse : string → option JsNumber.json_value).

(** Both outcomes of [runUpdate]: it writes nothing, or the row and its event. *)
Lemma runUpdate_cases projectId taskId c now d :
  remote_clean c →
  wp (runUpdate JSON_parse projectId taskId c now)
    (λ r d', ∃ type current ds,
       locateEntity projectId taskId c.(ch_entityType) d = Some (type, current)
       ∧ (∀ v, c.(ch_expectedVersion) = Some v → v = current.(en_version))
       ∧ ds = update_deltas type current c now d
       ∧ update_ok projectId taskId type current c now d ds
       ∧ (ds = [] ∧ d' = d
          ∨ ds ≠ [] ∧ run_known c.(ch_runId) d
            ∧ ∃ kind action, d' = with_log [TaskChanged projectId type taskId action c.(ch_actor)]
                                    (logged_update type taskId current ds kind c now d)))
    (λ _ d', d' = d) d.
Proof.
  intros Hclean. unfold runUpdate. apply wp_bind, wp_get. set (start := mk_update _ _ _ _ _ _ _).
  destruct (locateEntity projectId taskId (ch_entityType c) d) as [[type current]|] eqn:Hloc; [|done].
  apply wp_bind, wp_transaction, wp_bind. unfold reject_if.
  destruct (match ch_expectedVersion c with Some v => negb (v =? en_version current)%Z | None => false end) eqn:Hv;
    [done|]. apply wp_ret.
  assert (∀ v, ch_expectedVersion c = Some v → v = en_version current) as Hversion.
  { intros v Hev. rewrite Hev in Hv. apply negb_false_iff in Hv. by apply Z.eqb_eq. }
  apply wp_bind. eapply wp_mono; [apply (reads_and (update_branches _ _ _ _ _ _ _ start));
    [apply update_branches_exact|by apply update_branches_ok]| |by intros ? ? ->].
  intros u ? (-> & Hex & Hok). unfold adds in Hex. simpl in Hex. apply wp_bind. unfold write_update. set (ds := u_deltas u) in *.
  destruct ds as [|dl ds'] eqn:Hds.
  - repeat (wp_step; cbn beta iota). exists type, current, []. split_and!; try done; by left.
  - assert (ds ≠ []) as Hne by (by rewrite Hds). rewrite <- Hds in *.
    apply wp_bind, wp_modify, wp_bind. unfold insertEvent. apply wp_bind, wp_get, wp_bind.
    assert (wp (match ch_runId c with
                | Some r => when (bool_decide (find_run r d = None)) do throw SqlError
                | None => mret tt end : MT unit)
              (λ _ s, s = with_entities <[(type, taskId):=updated_row current now ds]> d ∧ run_known (ch_runId c) d)
              (λ _ _, True) (with_entities <[(type, taskId):=updated_row current now ds]> d)) as Hfk.
    { destruct (ch_runId c) as [r|]; [|by split]. apply wp_when; [done|].
      intros Hk%bool_decide_eq_false. split; [done|]. intros ? [= <-]. by apply not_eq_None_Some. }
    eapply wp_mono; [exact Hfk| |done]. intros _ ? [-> Hrun].
    repeat (wp_step; cbn beta iota). unfold emitChange. repeat (wp_step; cbn beta iota).
    rewrite bool_decide_true by (simpl; rewrite lookup_insert_eq; eauto). exists type, current, ds. split_and!; try done. right. split_and!; [done|done|]. by eexists _, _.
Qed.
End RunUpdate.
