(* ===== verification/TaskEdges.v ===== *)
(** * The dependency graph

    The depth-first walk of [validateDependencyEdge] decides reachability along
    blocking edges within its fuel, and the edges it lets through keep the
    graph acyclic. *)

From S2P Require Import Prelude TaskTables TaskRouter.

Definition edge (deps : list dep) (a b : string) : Prop := mk_dep a b blocking ∈ deps.

Definition acyclic (deps : list dep) : Prop := ∀ a, ¬ tc (edge deps) a a.

Lemma elem_of_prerequisites deps a b : b ∈ prerequisites deps a ↔ edge deps a b.
Proof.
  unfold prerequisites, edge. rewrite list_elem_of_fmap. split.
  - intros ([a' b' k] & -> & [[Ha Hk] Hin]%list_elem_of_filter). simpl in *. by subst.
  - intros Hin. exists (mk_dep a b blocking). split; [done|]. by apply list_elem_of_filter.
Qed.

Lemma elem_of_rev (x : string) l : x ∈ rev l ↔ x ∈ l.
Proof. by rewrite !list_elem_of_In, <- in_rev. Qed.

(** ** The walk *)

Section Walk.
Context (deps : list dep) (blockedId : string).

Lemma reaches_sound fuel visited stack :
  reaches fuel deps blockedId visited stack = true → ∃ a, a ∈ stack ∧ rtc (edge deps) a blockedId.
Proof.
  revert visited stack. induction fuel as [|fuel IH]; intros visited stack; simpl; [done|].
  destruct stack as [|a stack]; [done|]. destruct (String.eqb_spec a blockedId) as [->|Hne].
  - intros _. exists blockedId. split; [left|done].
  - case_bool_decide as Hv.
    + intros (x & Hx & Hr)%IH. exists x. split; [by right|done].
    + intros (x & [Hx|Hx]%elem_of_app & Hr)%IH.
      * rewrite elem_of_rev, elem_of_prerequisites in Hx. exists a. split; [left|by eapply rtc_l].
      * exists x. split; [by right|done].
Qed.

(** Edges whose source the walk has not visited. *)
Definition unvisited (visited : gset string) (l : list dep) : nat :=
  length (filter (λ e, e.(dep_task) ∉ visited ∧ e.(dep_kind) = blocking) l).

Lemma unvisited_visit visited a :
  a ∉ visited →
  unvisited visited deps = (length (prerequisites deps a) + unvisited ({[a]} ∪ visited) deps)%nat.
Proof.
  intros Ha. unfold unvisited, prerequisites. rewrite length_fmap. induction deps as [|e l IH]; [done|].
  rewrite !filter_cons. repeat case_decide; simpl; try (rewrite IH; lia); set_solver.
Qed.

(** What the walk has seen is closed, up to what is still on the stack. *)
Definition frontier (visited : gset string) (stack : list string) : Prop :=
  blockedId ∉ visited ∧ ∀ a b, a ∈ visited → edge deps a b → b ∈ visited ∨ b ∈ stack.

Lemma reaches_complete fuel visited stack :
  (length stack + unvisited visited deps ≤ fuel)%nat → frontier visited stack →
  reaches fuel deps blockedId visited stack = false →
  ∀ a, a ∈ stack ∨ a ∈ visited → ¬ rtc (edge deps) a blockedId.
Proof.
  revert visited stack. induction fuel as [|fuel IH]; intros visited stack Hf [Hb Hc].
  - assert (stack = []) as -> by (destruct stack; [done|simpl in Hf; lia]).
    intros _ a [?%not_elem_of_nil|Ha] Hr; [done|].
    apply Hb. clear -Hc Ha Hr. induction Hr as [|x y z Hxy Hr IH]; [done|].
    apply IH. destruct (Hc _ _ Ha Hxy) as [?|?%not_elem_of_nil]; done.
  - simpl. destruct stack as [|a stack].
    { intros _ x [?%not_elem_of_nil|Hx] Hr; [done|].
      apply Hb. clear -Hc Hx Hr. induction Hr as [|x y z Hxy Hr IH]; [done|].
      apply IH. destruct (Hc _ _ Hx Hxy) as [?|?%not_elem_of_nil]; done. }
    destruct (String.eqb_spec a blockedId) as [->|Hne]; [done|]. case_bool_decide as Hv; intros Hfalse.
    + intros x Hx. eapply (IH visited stack); [simpl in Hf; lia| |done|].
      * split; [done|]. intros y z Hy Hyz. destruct (Hc _ _ Hy Hyz) as [?|[->|?]%elem_of_cons]; auto.
      * destruct Hx as [[->|?]%elem_of_cons|?]; auto.
    + assert (frontier ({[a]} ∪ visited) (rev (prerequisites deps a) ++ stack)) as Hfr.
      { split; [set_solver|]. intros y z [->%elem_of_singleton|Hy]%elem_of_union Hyz.
        - right. apply elem_of_app. left. rewrite elem_of_rev. by apply elem_of_prerequisites.
        - destruct (Hc _ _ Hy Hyz) as [?|[->|?]%elem_of_cons]; [left|left|right]; set_solver. }
      intros x Hx. eapply IH; [|exact Hfr|done|].
      * rewrite length_app, length_rev. rewrite (unvisited_visit _ _ Hv) in Hf. simpl in Hf. lia.
      * destruct Hx as [[->|?]%elem_of_cons|?]; [right|left|right]; set_solver.
Qed.
End Walk.

(** The walk of the router decides reachability: its fuel is enough. *)
Lemma reaches_spec deps blockedId start :
  reaches (walk_fuel deps) deps blockedId ∅ [start] = true ↔ rtc (edge deps) start blockedId.
Proof.
  split.
  - intros (a & Ha & Hr)%reaches_sound. apply list_elem_of_singleton in Ha. by subst.
  - intros Hr. destruct (reaches _ _ _ _ _) eqn:Hf; [done|]. exfalso.
    refine (reaches_complete deps blockedId _ ∅ [start] _ _ Hf start _ Hr).
    + unfold walk_fuel, unvisited. simpl. apply le_n_S, length_filter.
    + split; [set_solver|]. intros a b Ha. set_solver.
    + left. left.
Qed.

(** ** Acyclicity *)

Lemma acyclic_nil : acyclic [].
Proof. intros a H. inversion H as [? ? He|? ? ? He]; by apply not_elem_of_nil in He. Qed.

Lemma tc_mono {A} (R R' : relation A) x y : (∀ x y, R x y → R' x y) → tc R x y → tc R' x y.
Proof. intros HR H. induction H; [by apply tc_once, HR|]. eapply tc_l; [by apply HR|done]. Qed.

Lemma acyclic_sub deps deps' : (∀ e, e ∈ deps' → e ∈ deps) → acyclic deps → acyclic deps'.
Proof.
  intros Hsub Ha a H. apply (Ha a). eapply (tc_mono (edge deps')); [|exact H].
  intros x y Hxy. by apply Hsub.
Qed.

(** A path in the graph with one more edge uses it or not. *)
Lemma tc_snoc_edge deps a b x y :
  tc (edge (deps ++ [mk_dep a b blocking])) x y →
  tc (edge deps) x y ∨ (rtc (edge deps) x a ∧ rtc (edge deps) b y).
Proof.
  intros H. induction H as [x y He|x z y He H IH].
  - apply elem_of_app in He as [He|[= -> ->]%list_elem_of_singleton]; [by left; apply tc_once|by right].
  - apply elem_of_app in He as [He|[= -> ->]%list_elem_of_singleton].
    + destruct IH as [IH|[H1 H2]]; [left; by eapply tc_l|right]. split; [by eapply rtc_l|done].
    + right. split; [done|]. destruct IH as [IH|[_ H2]]; [by apply tc_rtc|done].
Qed.

Lemma acyclic_add deps a b kind :
  acyclic deps → a ≠ b → (kind = blocking → ¬ rtc (edge deps) b a) → acyclic (deps ++ [mk_dep a b kind]).
Proof.
  intros Ha Hne Hk. destruct kind.
  - intros x [H|[H1 H2]]%tc_snoc_edge; [by apply Ha in H|].
    apply Hk; [done|]. etransitivity; [exact H2|exact H1].
  - intros x H. apply (Ha x). eapply (tc_mono (edge (deps ++ _))); [|exact H].
    intros y z [?|?%list_elem_of_singleton]%elem_of_app; done.
Qed.
