(* ===== verification/TaskEffects.v ===== *)
(** * The changelog as an abstract machine

    What one task of the router's queue may do to the backlog, as a short list
    of effects on the entity rows, their events and the dependency edges; the
    invariants every effect preserves: the lineage is well formed, the changelog
    of an entity numbers its events without a gap and tells the value of each
    column it names, the blocking edges form no cycle, and on a machine without
    synchronisation an idea has at most one live task without an epic. *)

From S2P Require Import Prelude RunStateMachine Database TaskTables TaskRouter TaskUpdate TaskEdges.

(** ** Effects *)

(** The row of a new entity. *)
Record created_ok (local : bool) (type : task_type) (id : string) (e : entity) (d : tdb) : Prop := {
  co_parent : col c_parent_epic e = None ∨ type = TTask ∧ ∃ p ep, col c_parent_epic e = Some (Text p)
    ∧ d.(db_entities) !! (TEpic, p) = Some ep ∧ ep.(en_project) = e.(en_project);
  co_idea : col c_originating_idea e = None ∨ type ≠ TIdea ∧ ∃ p ep, col c_originating_idea e = Some (Text p)
    ∧ d.(db_entities) !! (TIdea, p) = Some ep ∧ ep.(en_project) = e.(en_project);
  co_direct : local = true → type = TTask → ∀ i, direct_task i e = true → sole_direct i id d
}.

(** No row refers to the entity. *)
Definition unreferenced (type : task_type) (id : string) (d : tdb) : Prop :=
  ∀ t i e, d.(db_entities) !! (t, i) = Some e →
    match type with
    | TEpic => t = TTask → col c_parent_epic e ≠ Some (Text id)
    | TIdea => t ≠ TIdea → col c_originating_idea e ≠ Some (Text id)
    | TTask => True
    end.

(** [d'] has one more event about the entity, with these deltas. *)
Definition logs (type : task_type) (id : string) (ds : list FieldDelta) (d d' : tdb) : Prop :=
  ∃ ev, d'.(db_events) = d.(db_events) ++ [ev] ∧ ev.(ev_type) = type ∧ ev.(ev_entity) = id
    ∧ ev.(ev_seq) = S (max_seq (events_of type id d)) ∧ ev.(ev_changes) = ds.

Inductive effect (local : bool) (d d' : tdb) : Prop :=
  (* the rest of the process moves *)
  | ef_world :
      d'.(db_entities) = d.(db_entities) → d'.(db_events) = d.(db_events) → d'.(db_deps) = d.(db_deps) →
      effect local d d'
  | ef_create type id e :
      d.(db_entities) !! (type, id) = None → created_ok local type id e d →
      d'.(db_entities) = <[(type, id) := e]> d.(db_entities) → logs type id (created_deltas type e) d d' →
      d'.(db_deps) = d.(db_deps) → effect local d d'
  | ef_update projectId type id current c now ds :
      d.(db_entities) !! (type, id) = Some current → current.(en_project) = projectId →
      remote_clean c → (local = true → remote_of c = None) →
      update_ok projectId id type current c now d ds → ds ≠ [] →
      d'.(db_entities) = <[(type, id) := updated_row current now ds]> d.(db_entities) → logs type id ds d d' →
      d'.(db_deps) = d.(db_deps) → effect local d d'
  | ef_add_edge a b kind :
      is_Some (d.(db_entities) !! (TTask, a)) → a ≠ b →
      (kind = blocking → ¬ rtc (edge d.(db_deps)) b a) →
      d'.(db_entities) = d.(db_entities) → logs TTask a (edge_deltas None (Some (b, kind))) d d' →
      d'.(db_deps) = (insert_dep a b kind d).(db_deps) → effect local d d'
  | ef_drop_edge a b kind :
      is_Some (d.(db_entities) !! (TTask, a)) →
      d'.(db_entities) = d.(db_entities) → logs TTask a (edge_deltas (Some (b, kind)) None) d d' →
      d'.(db_deps) = (delete_dep a b d).(db_deps) → effect local d d'
  | ef_delete type id :
      (local = true → unreferenced type id d) →
      d'.(db_entities) = (delete_entity type id d).(db_entities) →
      d'.(db_events) = (delete_entity type id d).(db_events) →
      d'.(db_deps) = (delete_entity type id d).(db_deps) → effect local d d'
  (* a renaming from elsewhere goes through placeholders: the row, then its event *)
  | ef_ref type id current e :
      local = false → d.(db_entities) !! (type, id) = Some current →
      e.(en_project) = current.(en_project) → (∀ column, column ≠ c_ref → col column e = col column current) →
      d'.(db_entities) = <[(type, id) := e]> d.(db_entities) →
      d'.(db_events) = d.(db_events) → d'.(db_deps) = d.(db_deps) → effect local d d'
  | ef_ref_event type id from to :
      local = false → is_Some (d.(db_entities) !! (type, id)) →
      d'.(db_entities) = d.(db_entities) → logs type id [mk_delta (FCol c_ref) from to] d d' →
      d'.(db_deps) = d.(db_deps) → effect local d d'.

(** ** Rows after a deletion *)

Definition lineage : list column := [c_parent_epic; c_originating_idea].

Lemma unlink_col childType column id k e column' :
  col column' (unlink childType column id k e) = col column' e
  ∨ column' = column ∧ k.1 = childType ∧ col column e = Some (Text id) ∧ col column' (unlink childType column id k e) = None.
Proof.
  unfold unlink, refers. case_match eqn:Hu; [|by left].
  apply andb_true_iff in Hu as [Hk Hc]. apply bool_decide_eq_true in Hk, Hc.
  destruct (decide (column = column')) as [->|Hne]; [right; by rewrite col_set_eq|left]. by rewrite col_set_ne.
Qed.

Lemma unlink_project childType column id k e : (unlink childType column id k e).(en_project) = e.(en_project).
Proof. unfold unlink. by case_match. Qed.

(** A row that a deletion leaves: a lineage column that named the entity is NULL. *)
Lemma delete_entity_lookup type id d t i :
  (delete_entity type id d).(db_entities) !! (t, i) =
    if decide ((type, id) = (t, i)) then None
    else (λ e, match type with
               | TTask => e
               | TEpic => unlink TTask c_parent_epic id (t, i) e
               | TIdea => unlink TTask c_originating_idea id (t, i) (unlink TEpic c_originating_idea id (t, i) e)
               end) <$> d.(db_entities) !! (t, i).
Proof.
  unfold delete_entity, delete_row. destruct type; simpl;
    rewrite ?map_lookup_imap; case_decide as Hd.
  all: try (rewrite Hd, lookup_delete_eq; done).
  all: rewrite lookup_delete_ne by congruence.
  all: by destruct (db_entities d !! (t, i)).
Qed.

Lemma delete_entity_events type id d :
  (delete_entity type id d).(db_events) = filter (λ ev, ¬ (ev.(ev_type) = type ∧ ev.(ev_entity) = id)) d.(db_events).
Proof. unfold delete_entity, delete_row. by destruct type. Qed.

Lemma delete_entity_deps type id d e : e ∈ (delete_entity type id d).(db_deps) → e ∈ d.(db_deps).
Proof.
  unfold delete_entity, delete_row. destruct type; simpl; [done|done|]. by intros [_ ?]%list_elem_of_filter.
Qed.

(** What a surviving row keeps. *)
Lemma delete_entity_row type id d t i e' :
  (delete_entity type id d).(db_entities) !! (t, i) = Some e' →
  (t, i) ≠ (type, id) ∧ ∃ e, d.(db_entities) !! (t, i) = Some e ∧ e'.(en_project) = e.(en_project)
    ∧ ∀ column, col column e' = col column e
        ∨ col column e' = None ∧ col column e = Some (Text id)
          ∧ (column = c_parent_epic ∧ type = TEpic ∧ t = TTask ∨ column = c_originating_idea ∧ type = TIdea ∧ t ≠ TIdea).
Proof.
  rewrite delete_entity_lookup. case_decide as Hd; [done|]. intros H.
  split; [congruence|]. destruct (db_entities d !! (t, i)) as [e|]; [|done]. injection H as <-. exists e.
  split; [done|]. split; [destruct type; by rewrite ?unlink_project|]. intros column. destruct type; [| |by left].
  - destruct (unlink_col TEpic c_originating_idea id (t, i) e column) as [E1|(Heq1 & Ht & Hc & E1)];
      destruct (unlink_col TTask c_originating_idea id (t, i) (unlink TEpic c_originating_idea id (t, i) e) column)
        as [E2|(Heq & Ht2 & Hc2 & E2)]; simpl in *; subst; rewrite ?E2, ?E1.
    + by left.
    + right. rewrite E1 in Hc2. split_and!; [done|done|]. right. by split_and!.
    + right. split_and!; [done|done|]. right. by split_and!.
    + right. split_and!; [done|done|]. right. by split_and!.
  - destruct (unlink_col TTask c_parent_epic id (t, i) e column) as [E1|(-> & Ht & Hc & E1)]; simpl in *; [by left|].
    right. split_and!; [done|done|]. by left.
Qed.

(** ** The lineage invariant *)

Definition points_to (target : task_type) (e : entity) (v : option cell) (d : tdb) : Prop :=
  ∃ p ep, v = Some (Text p) ∧ d.(db_entities) !! (target, p) = Some ep ∧ ep.(en_project) = e.(en_project).

Definition lineage_ok (d : tdb) : Prop :=
  ∀ t i e, d.(db_entities) !! (t, i) = Some e →
    (col c_parent_epic e = None ∨ t = TTask ∧ points_to TEpic e (col c_parent_epic e) d)
    ∧ (col c_originating_idea e = None ∨ t ≠ TIdea ∧ points_to TIdea e (col c_originating_idea e) d).

Definition keeps_projects (d d' : tdb) : Prop :=
  ∀ k e, d.(db_entities) !! k = Some e → ∃ e', d'.(db_entities) !! k = Some e' ∧ e'.(en_project) = e.(en_project).

Lemma points_to_mono target e e' v d d' :
  keeps_projects d d' → e'.(en_project) = e.(en_project) → points_to target e v d → points_to target e' v d'.
Proof.
  intros Hk Hp (p & ep & -> & Hep & Hpr). destruct (Hk _ _ Hep) as (ep' & ? & ?).
  exists p, ep'. split_and!; [done|done|congruence].
Qed.

Lemma keeps_insert d d' k e' :
  d'.(db_entities) = <[k := e']> d.(db_entities) →
  (∀ e, d.(db_entities) !! k = Some e → e'.(en_project) = e.(en_project)) → keeps_projects d d'.
Proof.
  intros Hd Hp k' e Hk. rewrite Hd. destruct (decide (k = k')) as [->|Hne].
  - rewrite lookup_insert_eq. exists e'. split; [done|by apply Hp].
  - rewrite lookup_insert_ne by done. by exists e.
Qed.

(** Lineage of a row written over others that keep theirs. *)
Lemma lineage_insert d d' t i e' :
  d'.(db_entities) = <[(t, i) := e']> d.(db_entities) → keeps_projects d d' → lineage_ok d →
  (col c_parent_epic e' = None ∨ t = TTask ∧ points_to TEpic e' (col c_parent_epic e') d) →
  (col c_originating_idea e' = None ∨ t ≠ TIdea ∧ points_to TIdea e' (col c_originating_idea e') d) →
  lineage_ok d'.
Proof.
  intros Hd Hk Hl H1 H2 t' i' e. rewrite Hd. intros [[[= <- <-] <-]|[Hne He]]%lookup_insert_Some.
  - split; [destruct H1 as [?|[? ?]]|destruct H2 as [?|[? ?]]]; [by left|right|by left|right];
      (split; [done|by eapply points_to_mono]).
  - destruct (Hl _ _ _ He) as [L1 L2].
    split; [destruct L1 as [?|[? ?]]|destruct L2 as [?|[? ?]]]; [by left|right|by left|right];
      (split; [done|by eapply points_to_mono]).
Qed.

Lemma col_updated_row column current now ds :
  col column (updated_row current now ds) = default (col column current) (delta_to column ds).
Proof. unfold updated_row. rewrite <- col_apply_deltas. done. Qed.

Lemma updated_row_project current now ds : (updated_row current now ds).(en_project) = current.(en_project).
Proof. unfold updated_row. simpl. apply apply_deltas_rest. Qed.

Lemma lineage_update projectId type id current c now ds d d' :
  d.(db_entities) !! (type, id) = Some current → current.(en_project) = projectId →
  Forall (delta_ok projectId id type current c now d) ds →
  d'.(db_entities) = <[(type, id) := updated_row current now ds]> d.(db_entities) →
  lineage_ok d → lineage_ok d'.
Proof.
  intros Hk Hp Hds Hd Hl. destruct (Hl _ _ _ Hk) as [L1 L2]. rewrite Forall_forall in Hds.
  pose proof (updated_row_project current now ds) as Hpr.
  eapply lineage_insert; [exact Hd| |done| |].
  - eapply keeps_insert; [exact Hd|]. intros e He. rewrite Hk in He. injection He as <-. apply updated_row_project.
  - rewrite col_updated_row. destruct (delta_to c_parent_epic ds) as [v|] eqn:Hv; simpl.
    + apply delta_to_elem in Hv as (from & (_ & Ht & _ & Hv)%Hds). simpl in Hv.
      destruct Hv as [->|(p & ep & -> & ? & ?)]; [by left|right]. split; [done|].
      exists p, ep. split_and!; [done|done|congruence].
    + destruct L1 as [?|[? H]]; [by left|right]. split; [done|]. eapply points_to_mono; [|exact Hpr|exact H]. intros k e He. by exists e.
  - rewrite col_updated_row. destruct (delta_to c_originating_idea ds) as [v|] eqn:Hv; simpl.
    + apply delta_to_elem in Hv as (from & (_ & Ht & _ & Hv)%Hds). simpl in Hv.
      destruct Hv as [->|(p & ep & -> & ? & ?)]; [by left|right]. split; [done|].
      exists p, ep. split_and!; [done|done|congruence].
    + destruct L2 as [?|[? H]]; [by left|right]. split; [done|]. eapply points_to_mono; [|exact Hpr|exact H]. intros k e He. by exists e.
Qed.

Lemma unlink_null childType column id k e :
  k.1 = childType → col column e = Some (Text id) → col column (unlink childType column id k e) = None.
Proof.
  intros Hk Hc. unfold unlink, refers. rewrite !bool_decide_true by done. simpl. apply col_set_eq.
Qed.

(** The foreign keys set to NULL what named the entity. *)
Lemma delete_entity_nulls type id d t i e e' :
  d.(db_entities) !! (t, i) = Some e → (delete_entity type id d).(db_entities) !! (t, i) = Some e' →
  (type = TEpic → t = TTask → col c_parent_epic e = Some (Text id) → col c_parent_epic e' = None)
  ∧ (type = TIdea → t ≠ TIdea → col c_originating_idea e = Some (Text id) → col c_originating_idea e' = None).
Proof.
  intros He. rewrite delete_entity_lookup, He. case_decide; [done|]. intros [= <-]. split.
  - intros -> -> Hc. by apply unlink_null.
  - intros -> Ht Hc. destruct t; [done| |].
    + destruct (unlink_col TTask c_originating_idea id (TEpic, i) (unlink TEpic c_originating_idea id (TEpic, i) e)
        c_originating_idea) as [->|(_ & _ & _ & ->)]; [|done]. by apply unlink_null.
    + destruct (unlink_col TEpic c_originating_idea id (TTask, i) e c_originating_idea) as [E|(_ & ? & _)]; [|done].
      apply unlink_null; [done|]. by rewrite E.
Qed.

Lemma lineage_delete type id d d' :
  d'.(db_entities) = (delete_entity type id d).(db_entities) → lineage_ok d → lineage_ok d'.
Proof.
  intros Hd Hl t i e'. rewrite Hd. intros H. pose proof (delete_entity_row _ _ _ _ _ _ H) as (_ & e & He & Hp & Hc).
  destruct (delete_entity_nulls _ _ _ _ _ _ _ He H) as [N1 N2]. destruct (Hl _ _ _ He) as [L1 L2].
  assert (∀ column target (P : Prop), (col column e = None ∨ P ∧ points_to target e (col column e) d) →
    (type = target → P → col column e = Some (Text id) → col column e' = None) →
    col column e' = None ∨ P ∧ points_to target e' (col column e') d') as Hgen.
  { intros column target P [Hn|[HP (p & ep & Hv & Hep & Hpr)]] Hnull.
    - destruct (Hc column) as [->|[-> _]]; by left.
    - destruct (Hc column) as [Heq|[-> _]]; [|by left].
      destruct (decide ((target, p) = (type, id))) as [[= -> ->]|Hnp]; [left; by apply Hnull|right].
      split; [done|]. eexists p, _. split_and!; [by rewrite Heq| |].
      + rewrite Hd, delete_entity_lookup, decide_False by congruence. by rewrite Hep.
      + simpl. destruct type; rewrite ?unlink_project; congruence. }
  split; [by apply (Hgen c_parent_epic TEpic)|by apply (Hgen c_originating_idea TIdea)].
Qed.

Lemma lineage_effect local d d' : effect local d d' → lineage_ok d → lineage_ok d'.
Proof.
  intros He Hl. destruct He as [Hd _ _|type id e Hnone [Hp Hi _] Hd _ _
    |projectId type id current c now ds Hk Hpr _ _ [Hds _ _ _ _ _ _] _ Hd _ _|a b kind _ _ _ Hd _ _|a b kind _ Hd _ _
    |type id _ Hd _ _|type id current e _ Hk Hpr Hcol Hd _ _|type id from to _ _ Hd _ _].
  - unfold lineage_ok, points_to. by rewrite Hd.
  - eapply lineage_insert; [exact Hd| |done| |].
    + eapply keeps_insert; [exact Hd|]. intros ? ?. congruence.
    + destruct Hp as [?|(? & p & ep & ? & ? & ?)]; [by left|right]. split; [done|]. by exists p, ep.
    + destruct Hi as [?|(? & p & ep & ? & ? & ?)]; [by left|right]. split; [done|]. by exists p, ep.
  - by eapply lineage_update.
  - unfold lineage_ok, points_to. by rewrite Hd.
  - unfold lineage_ok, points_to. by rewrite Hd.
  - by eapply lineage_delete.
  - eapply lineage_insert; [exact Hd| |done| |].
    + eapply keeps_insert; [exact Hd|]. intros e0 He. rewrite Hk in He. by injection He as <-.
    + rewrite Hcol by done. destruct (Hl _ _ _ Hk) as [[H|[? (p & ep & ?)]] _]; [by left|right]. split; [done|].
      exists p, ep. by rewrite Hpr.
    + rewrite Hcol by done. destruct (Hl _ _ _ Hk) as [_ [H|[? (p & ep & ?)]]]; [by left|right]. split; [done|].
      exists p, ep. by rewrite Hpr.
  - unfold lineage_ok, points_to. by rewrite Hd.
Qed.

(** ** Acyclicity of the blocking edges *)

Lemma acyclic_effect local d d' : effect local d d' → acyclic d.(db_deps) → acyclic d'.(db_deps).
Proof.
  intros He Ha. destruct He as [_ _ Hd|type id e _ _ _ _ Hd|projectId type id current c now ds _ _ _ _ _ _ _ _ Hd
    |a b kind _ Hne Hk _ _ Hd|a b kind _ _ _ Hd|type id _ _ _ Hd|type id current e _ _ _ _ _ _ Hd|type id from to _ _ _ _ Hd]; rewrite Hd; try done.
  - unfold insert_dep. destruct (find_dep a b d); [done|]. simpl. by apply acyclic_add.
  - eapply acyclic_sub; [|exact Ha]. unfold delete_dep. simpl. by intros e [_ ?]%list_elem_of_filter.
  - eapply acyclic_sub; [|exact Ha]. intros e. apply delete_entity_deps.
Qed.

(** ** The changelog tells the columns *)

(** Follow a column through deltas: [None] when one does not start at the value
    the previous one gave. *)
Fixpoint follow (column : column) (prev : option (option cell)) (ds : list FieldDelta)
    : option (option (option cell)) :=
  match ds with
  | [] => Some prev
  | dl :: rest =>
      if decide (dl.(fd_field) = FCol column) then
        if decide (prev = None ∨ prev = Some dl.(fd_from)) then follow column (Some dl.(fd_to)) rest else None
      else follow column prev rest
  end.

Definition deltas_of (t : task_type) (i : string) (d : tdb) : list FieldDelta :=
  flat_map ev_changes (events_of t i d).

(** The columns every write of which is an event.  On a synchronised machine a
    deletion from elsewhere sets a lineage column to NULL without one, and a
    renaming gives two rows their placeholders before either event. *)
Definition told (local : bool) (column : column) : Prop := local = true ∨ column ∉ c_ref :: lineage.

Record changelog_of (local : bool) (t : task_type) (i : string) (d : tdb) : Prop := {
  cl_absent : d.(db_entities) !! (t, i) = None → events_of t i d = [];
  cl_dense : ev_seq <$> events_of t i d = seq 1 (length (events_of t i d));
  cl_told : ∀ column e, told local column → d.(db_entities) !! (t, i) = Some e →
    ∃ last, follow column None (deltas_of t i d) = Some last ∧ (∀ v, last = Some v → v = col column e)
}.
Definition changelog_ok (local : bool) (d : tdb) : Prop := ∀ t i, changelog_of local t i d.

Lemma follow_app column prev l1 l2 :
  follow column prev (l1 ++ l2) = match follow column prev l1 with Some p => follow column p l2 | None => None end.
Proof.
  revert prev. induction l1 as [|dl l1 IH]; intros prev; simpl; [done|]. repeat case_decide; by rewrite ?IH.
Qed.

Lemma follow_skip column prev ds : FCol column ∉ (fd_field <$> ds) → follow column prev ds = Some prev.
Proof.
  revert prev. induction ds as [|dl ds IH]; intros prev; simpl; [done|]. intros [Hne Hin]%not_elem_of_cons.
  rewrite decide_False by done. by apply IH.
Qed.

(** Deltas with a column each. *)
Lemma follow_once column prev ds :
  NoDup (fd_field <$> ds) →
  (∀ from v, mk_delta (FCol column) from v ∈ ds → prev = None ∨ prev = Some from) →
  follow column prev ds = Some (match delta_to column ds with Some v => Some v | None => prev end).
Proof.
  revert prev. induction ds as [|[f from to] ds IH]; intros prev; [done|]. intros [Hf Hnd]%NoDup_cons Hp. simpl.
  case_decide as Hc; simpl in Hc.
  - subst f. rewrite decide_True by (apply (Hp from to); left).
    rewrite (follow_skip column (Some to) ds Hf). apply delta_to_None in Hf. by rewrite Hf.
  - rewrite IH; [|done|intros ? ? Hin; apply (Hp from0 v); by right]. by destruct (delta_to column ds).
Qed.

Lemma max_seq_dense l : ev_seq <$> l = seq 1 (length l) → max_seq l = length l.
Proof.
  intros H. assert (∀ k, ev_seq <$> l = seq k (length l) → max_seq l = match l with [] => 0 | _ => k + length l - 1 end)%nat
    as Hgen.
  { clear H. induction l as [|ev l IH]; intros k Hk; [done|]. simpl in *. injection Hk as Hev Hk.
    rewrite (IH _ Hk), Hev. destruct l; simpl; lia. }
  rewrite (Hgen 1%nat H). destruct l; simpl; lia.
Qed.

(** Events of an entity after one more event. *)
Lemma logs_events type id ds d d' t i :
  logs type id ds d d' →
  ∃ ev, events_of t i d' = (if decide ((type, id) = (t, i)) then events_of t i d ++ [ev] else events_of t i d)
    ∧ ev.(ev_seq) = S (max_seq (events_of type id d)) ∧ ev.(ev_changes) = ds.
Proof.
  intros (ev & He & Ht & Hi & Hs & Hc). exists ev. split; [|done]. unfold events_of. rewrite He, filter_app. f_equal.
  rewrite filter_cons, filter_nil. destruct (decide ((type, id) = (t, i))) as [[= -> ->]|Hne].
  - by rewrite decide_True.
  - rewrite decide_False; [by rewrite app_nil_r|]. intros [? ?]. apply Hne. congruence.
Qed.

(** One more event on an entity: the chain goes on from the row before it. *)
Lemma changelog_logs local type id ds d d' :
  logs type id ds d d' → is_Some (d'.(db_entities) !! (type, id)) →
  (∀ t i, (t, i) ≠ (type, id) → d'.(db_entities) !! (t, i) = d.(db_entities) !! (t, i)) →
  NoDup (fd_field <$> ds) →
  (∀ column last e', told local column → d'.(db_entities) !! (type, id) = Some e' →
     follow column None (deltas_of type id d) = Some last →
     (∀ e v, d.(db_entities) !! (type, id) = Some e → last = Some v → v = col column e) →
     (d.(db_entities) !! (type, id) = None → last = None) →
     (∀ from v, mk_delta (FCol column) from v ∈ ds → last = None ∨ last = Some from)
     ∧ (∀ v, delta_to column ds = Some v → v = col column e')
     ∧ (∀ v, delta_to column ds = None → last = Some v → v = col column e')) →
  changelog_ok local d → changelog_ok local d'.
Proof.
  intros Hlogs Hsome Hrest Hnd Hds Hcl t i. destruct (logs_events _ _ _ _ _ t i Hlogs) as (ev & Hev & Hseq & Hch).
  destruct (Hcl t i) as [Ha Hd Ht]. case_decide as Hk.
  - injection Hk as -> ->. split.
    + intros Hn. destruct Hsome as [? Hs]. congruence.
    + rewrite Hev, fmap_app, length_app, seq_app, Hd. simpl. by rewrite Hseq, max_seq_dense.
    + intros column e' Htold He'. unfold deltas_of in *. rewrite Hev, flat_map_app. simpl. rewrite app_nil_r, Hch, follow_app.
      assert (∃ last, follow column None (flat_map ev_changes (events_of t i d)) = Some last
        ∧ (∀ e v, d.(db_entities) !! (t, i) = Some e → last = Some v → v = col column e)
        ∧ (d.(db_entities) !! (t, i) = None → last = None)) as (last & Hf & H1 & H2).
      { destruct (d.(db_entities) !! (t, i)) as [e|] eqn:He.
        - destruct (Ht column e Htold eq_refl) as (last & Hf & Hv). exists last. split_and!; [done| |done].
          intros ? v [= <-]. apply Hv.
        - exists None. rewrite (Ha eq_refl). by split_and!. }
      rewrite Hf. destruct (Hds column last e' Htold He' Hf H1 H2) as (P1 & P2 & P3).
      rewrite follow_once by done. eexists. split; [done|]. intros v.
      destruct (delta_to column ds) as [v'|] eqn:Hd'; [intros [= <-]; by apply P2|by apply P3].
  - assert (t ≠ type ∨ i ≠ id) as Hne by (destruct (decide (t = type)) as [->|]; [right; congruence|by left]).
    assert (d'.(db_entities) !! (t, i) = d.(db_entities) !! (t, i)) as Heq by (apply Hrest; congruence).
    split; unfold deltas_of in *; rewrite ?Hev, ?Heq; done.
Qed.

(** The deltas of a creation. *)
Definition created_columns : list column :=
  [c_ref; c_stage; c_title; c_parent_epic; c_originating_idea; c_scope; c_executor; c_attachments].

Lemma created_deltas_fields type e : (fd_field <$> created_deltas type e) `sublist_of` (FCol <$> created_columns).
Proof.
  unfold created_deltas, created_columns. simpl. do 3 apply sublist_skip. rewrite !fmap_app.
  repeat (match goal with
          | |- (fmap fd_field (match ?x with Some _ => _ | None => _ end)) ++ _ `sublist_of` _ => destruct x; simpl
          | |- (fmap fd_field (if ?b then _ else _)) ++ _ `sublist_of` _ => destruct b; simpl
          | |- (fmap fd_field (match ?x with Some _ => _ | None => _ end)) `sublist_of` _ => destruct x; simpl
          end; first [apply sublist_skip|apply sublist_cons|idtac]).
  all: first [apply sublist_nil|done].
Qed.

Lemma created_deltas_values type e f from to :
  mk_delta f from to ∈ created_deltas type e → from = None ∧ ∃ column, f = FCol column ∧ to = col column e.
Proof.
  unfold created_deltas. cbv zeta beta. rewrite !elem_of_app, !elem_of_cons. intros H.
  repeat match type of H with
         | _ ∨ _ => destruct H as [H|H]
         | context [match ?x with Some _ => _ | None => _ end] => destruct x eqn:?
         | context [if ?b then _ else _] => destruct b
         | _ ∈ [] => by apply not_elem_of_nil in H
         | _ ∈ [_] => apply list_elem_of_singleton in H
         end; injection H as -> -> ->; (split; [done|]; eexists; split; [done|congruence]).
Qed.

Lemma FCol_NoDup l : NoDup l → NoDup (FCol <$> l).
Proof. intros H. apply NoDup_fmap_2; [|done]. by intros ? ? [= ->]. Qed.

Lemma created_deltas_NoDup type e : NoDup (fd_field <$> created_deltas type e).
Proof.
  eapply sublist_NoDup; [|apply created_deltas_fields]. apply FCol_NoDup.
  apply (bool_decide_unpack _). vm_compute. exact I.
Qed.

Lemma changelog_frame local d d' :
  d'.(db_entities) = d.(db_entities) → d'.(db_events) = d.(db_events) → changelog_ok local d → changelog_ok local d'.
Proof.
  intros H1 H2 Hcl t i. destruct (Hcl t i) as [Ha Hd Ht].
  split; unfold deltas_of, events_of in *; rewrite ?H1, ?H2; done.
Qed.

Lemma changelog_delete local type id d d' :
  (local = true → unreferenced type id d) →
  d'.(db_entities) = (delete_entity type id d).(db_entities) →
  d'.(db_events) = (delete_entity type id d).(db_events) →
  changelog_ok local d → changelog_ok local d'.
Proof.
  intros Href H1 H2 Hcl t i. destruct (Hcl t i) as [Ha Hd Ht].
  assert (events_of t i d' = if decide ((type, id) = (t, i)) then [] else events_of t i d) as Hev.
  { unfold events_of. rewrite H2, delete_entity_events, list_filter_filter.
    case_decide as Hk.
    - injection Hk as -> ->. apply elem_of_nil_inv. intros ev. rewrite list_elem_of_filter. tauto.
    - apply list_filter_iff. intros ev. split; [tauto|]. intros [? ?]. split_and!; [done|done|].
      intros [? ?]. apply Hk. congruence. }
  case_decide as Hk.
  - injection Hk as -> ->. split; unfold deltas_of; rewrite ?Hev; [done|done|].
    intros column e _. rewrite H1. intros (? & _)%delete_entity_row. done.
  - split; unfold deltas_of in *; rewrite ?Hev; [|done|].
    + rewrite H1, delete_entity_lookup, decide_False by done. intros Hn. apply Ha.
      by destruct (db_entities d !! (t, i)).
    + intros column e' Htold. rewrite H1. intros (_ & e & He & _ & Hc)%delete_entity_row.
      destruct (Ht column e Htold He) as (last & Hf & Hv). exists last. split; [done|].
      intros v Hlast. rewrite (Hv v Hlast). destruct (Hc column) as [->|(_ & Hcol & Hwhy)]; [done|exfalso].
      destruct Htold as [Hl|Hl].
      * pose proof (Href Hl t i e He) as Hu. destruct Hwhy as [(-> & -> & Htt)|(-> & -> & Htt)]; by apply Hu in Htt.
      * destruct Hwhy as [(-> & _)|(-> & _)]; apply Hl; unfold lineage; set_solver.
Qed.

Lemma lookup_insert_other d d' (k : task_type * string) e :
  d'.(db_entities) = <[k := e]> d.(db_entities) →
  ∀ t i, (t, i) ≠ k → d'.(db_entities) !! (t, i) = d.(db_entities) !! (t, i).
Proof. intros H t i Hne. rewrite H. by rewrite lookup_insert_ne by congruence. Qed.

Lemma update_ok_NoDup projectId id type current c now d ds :
  update_ok projectId id type current c now d ds → NoDup (fd_field <$> ds).
Proof.
  intros Hok. eapply sublist_NoDup; [|apply (uo_columns _ _ _ _ _ _ _ _ Hok)].
  apply FCol_NoDup, update_columns_NoDup.
Qed.

Lemma edge_deltas_columns from to column : FCol column ∉ (fd_field <$> edge_deltas from to).
Proof. unfold edge_deltas. simpl. rewrite !not_elem_of_cons. split_and!; [done|done|apply not_elem_of_nil]. Qed.

(** Events that name no column. *)
Lemma changelog_edges local a from to d d' :
  logs TTask a (edge_deltas from to) d d' → d'.(db_entities) = d.(db_entities) →
  is_Some (d.(db_entities) !! (TTask, a)) → changelog_ok local d → changelog_ok local d'.
Proof.
  intros Hlogs Hd Hs. eapply changelog_logs; [exact Hlogs|by rewrite Hd|by rewrite Hd| |].
  - unfold edge_deltas. simpl. apply (bool_decide_unpack _). vm_compute. exact I.
  - intros column last e' _ He' _ Hv _. rewrite Hd in He'. split_and!.
    + intros f v Hin. exfalso. apply (edge_deltas_columns from to column).
      apply list_elem_of_fmap. by exists (mk_delta (FCol column) f v).
    + intros v Hv'. exfalso. apply delta_to_elem in Hv' as (f & Hin). apply (edge_deltas_columns from to column).
      apply list_elem_of_fmap. by exists (mk_delta (FCol column) f v).
    + intros v _ Hl. by eapply Hv.
Qed.

Lemma changelog_effect local d d' : effect local d d' → changelog_ok local d → changelog_ok local d'.
Proof.
  intros He Hcl. destruct He as [Hd Hev _|type id e Hnone _ Hd Hlog _
    |projectId type id current c now ds Hk Hpr _ _ Hok _ Hd Hlog _|a b kind Hs _ _ Hd Hlog _|a b kind Hs Hd Hlog _
    |type id Href Hd Hev _|type id current e Hl Hk Hpr Hcol Hd Hev _|type id from to Hl Hs Hd Hlog _].
  - by eapply changelog_frame.
  - eapply changelog_logs; [exact Hlog|rewrite Hd, lookup_insert_eq; eauto|by eapply lookup_insert_other|
      apply created_deltas_NoDup| |done].
    intros column last e'. rewrite Hd, lookup_insert_eq. intros _ [= <-] _ _ Hlast. rewrite (Hlast Hnone). split_and!.
    + intros from v Hin. by left.
    + intros v Hv. apply delta_to_elem in Hv as (from & (_ & column' & Hc & Hto)%created_deltas_values). congruence.
    + done.
  - eapply changelog_logs; [exact Hlog|rewrite Hd, lookup_insert_eq; eauto|by eapply lookup_insert_other|
      by eapply update_ok_NoDup| |done].
    intros column last e'. rewrite Hd, lookup_insert_eq. intros _ [= <-] _ Hlast _. rewrite col_updated_row. split_and!.
    + intros from v Hin. destruct last as [v'|]; [right|by left]. rewrite (Hlast _ _ Hk eq_refl).
      pose proof (uo_deltas _ _ _ _ _ _ _ _ Hok) as Hds. rewrite Forall_forall in Hds.
      destruct (Hds _ Hin) as [Hfrom _]. simpl in Hfrom. congruence.
    + intros v Hv. by rewrite Hv.
    + intros v Hn Hl. rewrite Hn. simpl. by eapply Hlast.
  - by eapply changelog_edges.
  - by eapply changelog_edges.
  - by eapply changelog_delete.
  - intros t i. destruct (Hcl t i) as [Ha Hdense Ht]. unfold deltas_of, events_of in *. rewrite <- Hev in *.
    destruct (decide ((t, i) = (type, id))) as [[= -> ->]|Hne].
    + split; [by rewrite Hd, lookup_insert_eq|done|]. intros column e'. rewrite Hd, lookup_insert_eq. intros Htold [= <-].
      rewrite Hcol; [by apply Ht|]. destruct Htold as [?|Hc]; [congruence|]. intros ->. apply Hc. left.
    + pose proof (lookup_insert_other _ _ _ _ Hd _ _ Hne) as Hrest. split; rewrite ?Hrest; done.
  - eapply changelog_logs; [exact Hlog|by rewrite Hd|by rewrite Hd|apply NoDup_singleton| |done].
    intros column last e' Htold. rewrite Hd. intros He' _ Hlast _.
    assert (column ≠ c_ref) as Hne by (destruct Htold as [?|Hc]; [congruence|intros ->; apply Hc; left]).
    simpl. split_and!.
    + intros f v [= -> _ _]%list_elem_of_singleton. done.
    + intros v. rewrite decide_False by congruence. done.
    + intros v _ Hl'. by eapply Hlast.
Qed.

(** ** One live task without an epic per idea *)

Definition epic_rule (d : tdb) : Prop :=
  ∀ idea i j ei ej,
    d.(db_entities) !! (TTask, i) = Some ei → d.(db_entities) !! (TTask, j) = Some ej →
    direct_task idea ei = true → direct_task idea ej = true → i = j.

Lemma direct_task_spec idea e :
  direct_task idea e = true ↔
    col c_originating_idea e = Some (Text idea) ∧ col c_parent_epic e = None ∧ col c_archived_at e = None.
Proof.
  unfold direct_task, refers. rewrite !andb_true_iff, !bool_decide_eq_true. tauto.
Qed.

(** A row written next to others: alone, or as direct as before. *)
Lemma epic_rule_insert d d' t i e' :
  d'.(db_entities) = <[(t, i) := e']> d.(db_entities) → epic_rule d →
  (t = TTask → ∀ idea, direct_task idea e' = true →
     sole_direct idea i d ∨ ∃ e, d.(db_entities) !! (t, i) = Some e ∧ direct_task idea e = true) →
  epic_rule d'.
Proof.
  intros Hd Hr Hnew idea j k ej ek. rewrite Hd. intros Hj Hk Dj Dk.
  assert (∀ x ex, <[(t, i) := e']> d.(db_entities) !! (TTask, x) = Some ex → direct_task idea ex = true →
    (t = TTask ∧ x = i ∧ direct_task idea e' = true)
    ∨ ((t, i) ≠ (TTask, x) ∧ d.(db_entities) !! (TTask, x) = Some ex)) as Hcase.
  { intros x ex [[[= -> ->] ->]|[Hne Hx]]%lookup_insert_Some Dx; [by left|by right]. }
  destruct (Hcase j ej Hj Dj) as [(-> & -> & Dn)|[Hnj Hj']], (Hcase k ek Hk Dk) as [(Ht & -> & Dn')|[Hnk Hk']].
  - done.
  - destruct (Hnew eq_refl idea Dn) as [Hs|(e & He & De)]; [symmetry; by eapply Hs|by eapply Hr].
  - destruct (Hnew Ht idea Dn') as [Hs|(e & He & De)]; [by eapply Hs|]. subst t. by eapply Hr.
  - by eapply Hr.
Qed.

Section UpdateDirect.
Context (projectId : Z) (taskId : string) (current : entity) (c : TaskChange) (now : instant) (d : tdb) (ds : list FieldDelta).
Hypothesis Hremote : remote_of c = None.
Hypothesis Hok : update_ok projectId taskId TTask current c now d ds.

(** A delta of the final list, by its column. *)
Lemma update_delta column v :
  delta_to column ds = Some v → delta_ok projectId taskId TTask current c now d (mk_delta (FCol column) (col column current) v).
Proof.
  intros Hv. pose proof (uo_deltas _ _ _ _ _ _ _ _ Hok) as Hds. rewrite Forall_forall in Hds.
  apply delta_to_elem in Hv as (from & Hin). pose proof (Hds _ Hin) as H. destruct (Hds _ Hin) as [Hf _].
  simpl in Hf. by subst from.
Qed.

Lemma update_delta_in column v :
  mk_delta (FCol column) (col column current) v ∈ ds → delta_to column ds = Some v.
Proof. apply delta_to_NoDup. by eapply update_ok_NoDup. Qed.

Lemma update_archived :
  col c_archived_at (updated_row current now ds) = None →
  default (bool_decide (is_Some (col c_archived_at current))) c.(ch_archived) = false.
Proof.
  rewrite col_updated_row. intros Hnew. destruct (ch_archived c) as [v|] eqn:Hc; simpl.
  - destruct (delta_to c_archived_at ds) as [to|] eqn:Hto; simpl in Hnew.
    + destruct (update_delta _ _ Hto) as (_ & _ & [[? ?]|(v' & Hv & Ht)]); [congruence|].
      simpl in Ht. rewrite Hc in Hv. injection Hv as <-. destruct v; [|done]. simpl in Ht. congruence.
    + destruct (uo_archive _ _ _ _ _ _ _ _ Hok v Hc) as [->|Hin]; [by rewrite Hnew|].
      apply update_delta_in in Hin. congruence.
  - destruct (delta_to c_archived_at ds) as [to|] eqn:Hto; simpl in Hnew.
    + destruct (update_delta _ _ Hto) as (_ & _ & [[? ?]|(v' & Hv & _)]); congruence.
    + by rewrite Hnew.
Qed.

Lemma update_parent :
  col c_parent_epic (updated_row current now ds) = None →
  default (text_of (col c_parent_epic current)) c.(ch_parentEpicId) = None.
Proof.
  rewrite col_updated_row. intros Hnew. destruct (ch_parentEpicId c) as [v|] eqn:Hc; simpl.
  - destruct (delta_to c_parent_epic ds) as [to|] eqn:Hto; simpl in Hnew.
    + destruct (update_delta _ _ Hto) as (_ & _ & (v' & Hv & Ht) & _). simpl in Ht.
      rewrite Hc in Hv. injection Hv as <-. destruct v; [|done]. simpl in Ht. congruence.
    + destruct (uo_parent _ _ _ _ _ _ _ _ Hok v Hc) as [Heq|Hin]; [|apply update_delta_in in Hin; congruence].
      destruct v; [|done]. rewrite Hnew in Heq. done.
  - destruct (delta_to c_parent_epic ds) as [to|] eqn:Hto; simpl in Hnew; [|by rewrite Hnew].
    destruct (update_delta _ _ Hto) as (_ & _ & (v' & Hv & _) & _). congruence.
Qed.

Lemma update_idea idea :
  col c_originating_idea (updated_row current now ds) = Some (Text idea) →
  default (text_of (col c_originating_idea current)) c.(ch_originatingIdeaId) = Some idea.
Proof.
  rewrite col_updated_row. intros Hnew. destruct (ch_originatingIdeaId c) as [v|] eqn:Hc; simpl.
  - destruct (delta_to c_originating_idea ds) as [to|] eqn:Hto; simpl in Hnew.
    + destruct (update_delta _ _ Hto) as (_ & _ & (v' & Hv & Ht) & _). simpl in Ht.
      rewrite Hc in Hv. injection Hv as <-. destruct v; simpl in Ht; congruence.
    + destruct (uo_idea _ _ _ _ _ _ _ _ Hok v Hc) as [Heq|Hin]; [|apply update_delta_in in Hin; congruence].
      rewrite Hnew in Heq. destruct v; simpl in Heq; congruence.
  - destruct (delta_to c_originating_idea ds) as [to|] eqn:Hto; simpl in Hnew; [|by rewrite Hnew].
    destruct (update_delta _ _ Hto) as (_ & _ & (v' & Hv & _) & _). congruence.
Qed.

(** An update that makes a task a direct one found no other. *)
Lemma update_direct idea :
  direct_task idea (updated_row current now ds) = true → direct_task idea current = true ∨ sole_direct idea taskId d.
Proof.
  intros (Hi & Hp & Ha)%direct_task_spec.
  destruct (direct_task idea current) eqn:Hd; [by left|right].
  apply (uo_epic _ _ _ _ _ _ _ _ Hok); [done|done| |by apply update_archived|by apply update_parent|by apply update_idea].
  destruct (ch_parentEpicId c) as [?|] eqn:Hcp; [left; eauto|]. destruct (ch_originatingIdeaId c) as [?|] eqn:Hci; [right; left; eauto|].
  right. right. apply not_true_iff_false in Hd. rewrite direct_task_spec in Hd. rewrite col_updated_row in Hi, Hp, Ha.
  destruct (delta_to c_parent_epic ds) as [?|] eqn:Dp.
  { destruct (update_delta _ _ Dp) as (_ & _ & (? & ? & _) & _). congruence. }
  destruct (delta_to c_originating_idea ds) as [?|] eqn:Di.
  { destruct (update_delta _ _ Di) as (_ & _ & (? & ? & _) & _). congruence. }
  destruct (delta_to c_archived_at ds) as [to|] eqn:Da; simpl in *; [|exfalso; by apply Hd].
  destruct (update_delta _ _ Da) as (_ & _ & [[? ?]|(v & Hv & Ht)]); [congruence|]. simpl in Ht. split.
  - destruct v; [simpl in Ht; congruence|done].
  - apply not_eq_None_Some. intros Hn. by apply Hd.
Qed.
End UpdateDirect.

Lemma epic_rule_effect d d' : effect true d d' → epic_rule d → epic_rule d'.
Proof.
  intros He Hr. destruct He as [Hd _ _|type id e Hnone [_ _ Hdir] Hd _ _
    |projectId type id current c now ds Hk Hpr _ Hrm Hok _ Hd _ _|a b kind _ _ _ Hd _ _|a b kind _ Hd _ _
    |type id Href Hd _ _|type id current e Hl _ _ _ _ _ _|type id from to Hl _ _ _ _].
  - unfold epic_rule. by rewrite Hd.
  - eapply epic_rule_insert; [exact Hd|done|]. intros Ht idea D. left. by apply Hdir.
  - eapply epic_rule_insert; [exact Hd|done|]. intros -> idea D.
    destruct (update_direct _ _ _ _ _ _ _ (Hrm eq_refl) Hok idea D); [right; eauto|by left].
  - unfold epic_rule. by rewrite Hd.
  - unfold epic_rule. by rewrite Hd.
  - assert (∀ idea i e', d'.(db_entities) !! (TTask, i) = Some e' → direct_task idea e' = true →
      ∃ e, d.(db_entities) !! (TTask, i) = Some e ∧ direct_task idea e = true) as Hback.
    { intros idea i e'. rewrite Hd. intros (_ & e & He & _ & Hc)%delete_entity_row D. exists e. split; [done|].
      apply direct_task_spec. apply direct_task_spec in D as (D1 & D2 & D3).
      assert (∀ column, col column e' = col column e) as Hcol.
      { intros column. destruct (Hc column) as [->|(_ & Hcol & Hwhy)]; [done|]. exfalso.
        pose proof (Href eq_refl _ _ _ He) as Hu. destruct Hwhy as [(-> & -> & Htt)|(-> & -> & Htt)]; by apply Hu in Htt. }
      by rewrite <- !Hcol. }
    intros idea i j ei ej Hi Hj Di Dj. destruct (Hback _ _ _ Hi Di) as (? & ? & ?), (Hback _ _ _ Hj Dj) as (? & ? & ?).
    by eapply Hr.
  - done.
  - done.
Qed.
