(* ===== verification/TaskRefine.v ===== *)
(** * The router implements the changelog machine

    Every task of the router's queue, whatever its request, is a sequence of
    the effects of [TaskEffects]; the invariants of the machine therefore hold
    on every history of tasks. *)

From S2P Require Import Prelude Wp RunStateMachine Database TaskTables TaskRouter TaskUpdate TaskEdges TaskEffects.

Open Scope js_scope.

(** ** Specifications of the writes *)

Lemma wp_reads_bind {A B} (m : MT A) (k : A → MT B) (P : A → Prop) Q (X : task_error → tdb → Prop) d :
  reads m P d → (∀ a, P a → wp (k a) Q X d) → (∀ e, X e d) → wp (mbind m k) Q X d.
Proof.
  intros Hm Hk Hx. apply wp_bind. eapply wp_mono; [exact Hm| |by intros ? ? ->]. intros a ? [-> Ha]. by apply Hk.
Qed.

(** Rows, events and edges are as before. *)
Definition same_backlog (d d' : tdb) : Prop :=
  d'.(db_entities) = d.(db_entities) ∧ d'.(db_events) = d.(db_events) ∧ d'.(db_deps) = d.(db_deps).

#[export] Instance same_backlog_preorder : PreOrder same_backlog.
Proof. split; [by intros d|]. intros d1 d2 d3 (? & ? & ?) (? & ? & ?). split_and!; congruence. Qed.

Lemma same_effect local d d' : same_backlog d d' → effect local d d'.
Proof. intros (? & ? & ?). by apply ef_world. Qed.

Lemma same_log l d : same_backlog d (with_log l d).
Proof. done. Qed.

Lemma emitChange_same p t i a actor d : same_backlog d (emitChange p t i a actor d).2.
Proof. unfold emitChange, modify. simpl. by case_match. Qed.

Lemma wp_insertEvent type id kind actor runId ds now (Q : nat * nat → tdb → Prop) (X : task_error → tdb → Prop) d :
  (∀ ev d', logs type id ds d d' → d'.(db_entities) = d.(db_entities) → d'.(db_deps) = d.(db_deps) →
     d'.(db_runs) = d.(db_runs) → Q ev d') →
  (∀ e, X e d) → wp (insertEvent type id kind actor runId ds now) Q X d.
Proof.
  intros HQ HX. unfold insertEvent. apply wp_bind, wp_get, wp_bind.
  eapply (wp_mono _ (λ _ d', d' = d) _ (λ _ d', d' = d)); [|intros _ ? ->|by intros ? ? ->].
  - destruct runId; [apply wp_when; done|done].
  - repeat (wp_step; cbn beta iota). apply HQ; [|done|done|done]. by eexists.
Qed.

Lemma wp_insert_row type id e (Q : unit → tdb → Prop) (X : task_error → tdb → Prop) d :
  (d.(db_entities) !! (type, id) = None → Q tt (with_entities <[(type, id) := e]> d)) →
  (∀ e, X e d) → wp (insert_row type id e) Q X d.
Proof.
  intros HQ HX. unfold insert_row. apply wp_bind, wp_get, wp_bind, wp_when; [by intros _; apply wp_throw|].
  intros Hn%bool_decide_eq_false. apply wp_bind, wp_when; [by intros _; apply wp_throw|]. intros _.
  apply wp_modify, HQ. by apply eq_None_not_Some.
Qed.

Lemma wp_create_ref projectId type id remoteRef (Q : string → tdb → Prop) (X : task_error → tdb → Prop) d :
  (∀ ref d', same_backlog d d' → d'.(db_runs) = d.(db_runs) → Q ref d') → (∀ e, X e d) →
  wp (create_ref projectId type id remoteRef) Q X d.
Proof.
  intros HQ HX. unfold create_ref. destruct remoteRef as [ref|].
  - apply wp_bind, wp_get, wp_bind, wp_when; [by intros _; apply wp_throw|]. intros _.
    apply wp_bind, wp_when; [by intros _; apply wp_throw|]. intros _. by apply wp_ret, HQ.
  - unfold mintRef. apply wp_bind, wp_get, wp_bind, wp_modify, wp_ret. by apply HQ.
Qed.

(** ** Creating *)

(** The cell a list gives to a column: its first entry. *)
Fixpoint cell_in (column : column) (l : list (TaskTables.column * option cell)) : option cell :=
  match l with
  | [] => None
  | (c, v) :: rest => if decide (c = column) then v else cell_in column rest
  end.

Lemma lookup_cells_of column l : cells_of l !! column = cell_in column l.
Proof.
  induction l as [|[c v] l IH]; [apply lookup_empty|]. unfold cells_of in *. cbn [foldr fst snd cell_in].
  destruct (decide (c = column)) as [->|Hne]; [apply lookup_partial_alter_eq|].
  by rewrite lookup_partial_alter_ne.
Qed.

(** What a created row promises of the lineage columns. *)
Lemma insertEntity_lineage type projectId boardId stageId ref p i x a ex at' ap c now :
  let e := insertEntity type projectId boardId stageId ref p i x a ex at' ap c now in
  e.(en_project) = projectId
  ∧ col c_parent_epic e = (if (describe type).(hasParentEpic) then Text <$> p else None)
  ∧ col c_originating_idea e = (if (describe type).(hasOriginatingIdea) then Text <$> i else None).
Proof.
  cbv zeta. unfold col, insertEntity. cbn [en_project en_cells]. by rewrite !lookup_cells_of.
Qed.

Section Refine.
Context (JSON_parse : string → option JsNumber.json_value).

(** Both outcomes of [runCreate]. *)
Lemma runCreate_cases local projectId c random now d :
  (local = true → remote_of c = None) →
  wp (runCreate JSON_parse projectId c random now) (λ _ d', effect local d d') (λ _ d', d' = d) d.
Proof.
  intros Hlocal. unfold runCreate. cbv zeta. set (type := create_type c).
  set (taskId := default (idPrefix (describe type) +:+ "_" +:+ random) (remote_of c ≫= rm_id)).
  apply wp_bind, wp_transaction, wp_bind, wp_get.
  eapply wp_reads_bind; [by apply (reads_reject_if _ _ (λ _, True))| |done]. intros _ _.
  set (stageId := default (default _ (stageIdForPosition _ _ _)) _).
  eapply (wp_reads_bind _ _ (λ _, True)); [| |done].
  { destruct (lookupStage stageId d) as [s|]; [|apply reads_reject].
    eapply reads_seq; [by apply (reads_reject_if _ _ (λ _, True))|]. intros _. eapply reads_true, reads_authority. }
  intros _ _. set (p := nullish (ch_parentEpicId c)). set (i := create_idea _ type c d).
  clearbody p i.
  eapply (wp_reads_bind _ _ (λ _, p = None ∨ type = TTask ∧ ∃ q ep, p = Some q ∧ d.(db_entities) !! (TEpic, q) = Some ep ∧ en_project ep = projectId)); [| |done].
  { destruct p as [q|]; [|apply reads_ret; by left]. eapply reads_mono; [apply reads_parent|].
    intros _ (Ht & ep & ? & ?). right. split; [done|]. by exists q, ep. }
  intros _ Hparent.
  eapply (wp_reads_bind _ _ (λ _, i = None ∨ type ≠ TIdea ∧ ∃ q ei, i = Some q ∧ d.(db_entities) !! (TIdea, q) = Some ei ∧ en_project ei = projectId)); [| |done].
  { destruct i as [q|]; [|apply reads_ret; by left]. eapply reads_mono; [apply reads_idea|].
    intros _ (Ht & ei & ? & ?). right. split; [done|]. by exists q, ei. }
  intros _ Hidea.
  eapply (wp_reads_bind _ _ (λ _, local = true → type = TTask → p = None → ∀ q, i = Some q → sole_direct q taskId d)); [| |done].
  { destruct i as [q|]; [|by apply reads_ret]. apply reads_when; intros Hc.
    - eapply reads_mono; [apply reads_idea_needs_epic|]. intros ? Hs _ _ _ q' Hq. injection Hq as <-. exact Hs.
    - intros Hl Ht Hp. rewrite Ht, Hp, (Hlocal Hl) in Hc. by rewrite !bool_decide_true in Hc. }
  intros _ Hsole.
  apply wp_bind, wp_create_ref; [|done]. intros ref d1 (E1 & V1 & D1) R1.
  apply wp_bind, wp_when; [by intros _; apply wp_throw|]. intros _.
  set (e := insertEntity _ _ _ _ _ _ _ _ _ _ _ _ _ _).
  apply wp_bind, wp_insert_row; [|done]. rewrite E1. intros Hnone.
  apply wp_insertEvent; [|done]. intros ev d2 Hlog E2 D2 _.
  apply wp_bind. pose proof (emitChange_same projectId type taskId act_created (ch_actor c) d2) as Hfin.
  unfold emitChange in *. apply wp_modify, wp_ret. unfold modify in Hfin. cbn [snd] in Hfin.
  pose proof (insertEntity_lineage type projectId (default ("board-" +:+ pretty.pretty projectId +:+ "-default") (ch_boardId c))
    stageId ref p i (resolveCreateExperimentId c d) (resolveCreateExperimentArm c d)
    (Some (if hasExecutor (describe type) then default "agent" (orElse (f_executor (ch_new c)) (f_executor (fields_of c))) else "agent"))
    (attachments_json (orElse (nullish (f_attachments (ch_new c))) (nullish (f_attachments (fields_of c)))))
    (match remote_of c with Some r => nullish (rm_approvedAt r) | None => computeCreateApprovedAt JSON_parse c now d end)
    c now) as (Lp & Lparent & Lidea). fold e in Lp, Lparent, Lidea.
  eapply (ef_create local d _ type taskId e); [done| | | |].
  - split.
    + rewrite Lparent. destruct Hparent as [Hp|(Ht & q & ep & Hp & ? & ?)]; rewrite Hp;
        [left; by destruct (hasParentEpic _)|]. rewrite Ht.
      right. split; [done|]. exists q, ep. by rewrite Lp.
    + rewrite Lidea. destruct Hidea as [Hp|(Ht & q & ei & Hp & ? & ?)]; rewrite Hp;
        [left; by destruct (hasOriginatingIdea _)|].
      right. split; [done|]. exists q, ei. rewrite Lp. split_and!; [by destruct type|done|done].
    + intros Hl Ht q (Hi & Hp & _)%direct_task_spec. rewrite Lidea, Ht in Hi. rewrite Lparent, Ht in Hp. simpl in Hi, Hp.
      apply Hsole; [done|done|by destruct p|by destruct i; simplify_eq/=].
  - destruct Hfin as (-> & _ & _). rewrite E2. unfold with_entities. cbn [db_entities]. by rewrite E1.
  - destruct Hfin as (_ & Hev & _), Hlog as (ev' & Hev' & H1 & H2 & H3 & H4). exists ev'.
    rewrite Hev, Hev'. unfold events_of, with_entities in *. cbn [db_events] in *. rewrite V1 in *. by split_and!.
  - destruct Hfin as (_ & _ & ->). rewrite D2. unfold with_entities. cbn [db_deps]. done.
Qed.

Definition local_change (local : bool) (c : TaskChange) : Prop := local = true → remote_of c = None.

Lemma runUpdate_effect local projectId taskId c now d :
  remote_clean c → local_change local c →
  wp (runUpdate JSON_parse projectId taskId c now) (λ _ d', effect local d d') (λ _ d', d' = d) d.
Proof.
  intros Hclean Hlocal. eapply wp_mono; [by apply runUpdate_cases| |done].
  intros _ d' (type & current & ds & Hloc & _ & _ & Hok & [[-> ->]|(Hne & _ & kind & action & ->)]).
  - by apply same_effect.
  - apply locate_some in Hloc as (Hk & Hp & _).
    eapply (ef_update local d _ projectId type taskId current c now ds); try done. by eexists.
Qed.

(** ** Dependency edges *)

Lemma reads_endpoint projectId raw d :
  reads (resolve_endpoint projectId raw) (λ id, is_Some (d.(db_entities) !! (TTask, id))) d.
Proof.
  unfold resolve_endpoint. apply reads_gets. unfold resolveTaskByRefOrId.
  destruct (d.(db_entities) !! (TTask, raw)) as [e|] eqn:He.
  - eapply reads_seq; [by apply (reads_reject_if _ _ (λ _, True))|]. intros _. apply reads_ret. eauto.
  - destruct (ref_holder TTask projectId raw d) as [id|] eqn:Hr; [|apply reads_reject].
    eapply reads_seq; [by apply (reads_reject_if _ _ (λ _, True))|]. intros _. apply reads_ret.
    unfold ref_holder in Hr. apply head_Some_elem_of, elem_of_select_ids in Hr as (e & -> & _). eauto.
Qed.

Lemma reads_no_cycle a b d :
  reads (validateDependencyEdge a b) (λ _, ¬ rtc (edge d.(db_deps)) b a) d.
Proof.
  unfold validateDependencyEdge. apply reads_get, reads_reject_if. intros H Hr%reaches_spec. congruence.
Qed.

Lemma runAddDependency_effect local projectId a b c now d :
  wp (runAddDependency projectId a b c now) (λ _ d', effect local d d') (λ _ d', d' = d) d.
Proof.
  unfold runAddDependency. set (kind := default blocking _). apply wp_bind, wp_transaction.
  eapply wp_reads_bind; [apply reads_endpoint| |done]. intros x Hx.
  eapply wp_reads_bind; [apply reads_endpoint| |done]. intros y Hy.
  eapply wp_reads_bind; [apply (reads_reject_if _ _ (λ _, x ≠ y)); intros H; by apply String.eqb_neq| |done]. intros ? Hne.
  apply wp_bind, wp_get. eapply wp_reads_bind; [by apply (reads_reject_if _ _ (λ _, True))| |done]. intros _ _.
  destruct (find_dep x y d) as [e|] eqn:Hf.
  - repeat (wp_step; cbn beta iota). by apply same_effect.
  - eapply (wp_reads_bind _ _ (λ _, kind = blocking → ¬ rtc (edge d.(db_deps)) y x)); [| |done].
    { apply reads_when; intros Hk; [eapply reads_mono; [apply reads_no_cycle|done]|].
      intros ->. by rewrite bool_decide_true in Hk. }
    intros ? Hk. apply wp_bind, wp_modify, wp_bind, wp_insertEvent; [|done]. intros ev d' Hlog E D _.
    do 1 apply wp_ret. cbn beta iota. apply wp_bind, wp_get. rewrite bool_decide_true by eauto.
    unfold emitChange. apply wp_bind, wp_modify, wp_ret.
    eapply (ef_add_edge local d _ x y kind); [done|done|done| | |].
    + case_match; simpl; rewrite E; unfold insert_dep; by rewrite Hf.
    + destruct Hlog as (ev' & Hev & H). exists ev'. unfold insert_dep in *. rewrite Hf in *. by case_match.
    + case_match; simpl; by rewrite D.
Qed.

Lemma runRemoveDependency_effect local projectId a b c now d :
  wp (runRemoveDependency projectId a b c now) (λ _ d', effect local d d') (λ _ d', d' = d) d.
Proof.
  unfold runRemoveDependency. apply wp_bind, wp_transaction.
  eapply wp_reads_bind; [apply reads_endpoint| |done]. intros x Hx.
  eapply wp_reads_bind; [apply reads_endpoint| |done]. intros y Hy.
  apply wp_bind, wp_get. eapply wp_reads_bind; [by apply (reads_reject_if _ _ (λ _, True))| |done]. intros _ _.
  destruct (find_dep x y d) as [e|] eqn:Hf.
  - apply wp_bind, wp_modify, wp_bind, wp_insertEvent; [|done]. intros ev d' Hlog E D _.
    apply wp_ret. cbn beta iota. apply wp_bind, wp_get. rewrite bool_decide_true by eauto.
    unfold emitChange. apply wp_bind, wp_modify, wp_ret.
    eapply (ef_drop_edge local d _ x y e.(dep_kind)); [done| | |]; by case_match.
  - repeat (wp_step; cbn beta iota). by apply same_effect.
Qed.

(** ** Deleting *)

Definition delete_all (l : list (task_type * string)) (d : tdb) : tdb :=
  fold_left (λ d te, delete_entity te.1 te.2 d) l d.

(** A row of the tables after deletions: one that was there, with some lineage
    columns NULL. *)
Definition survives (l : list (task_type * string)) (d : tdb) (k : task_type * string) (e' : entity) : Prop :=
  k ∉ l ∧ ∃ e, d.(db_entities) !! k = Some e ∧ e'.(en_project) = e.(en_project)
    ∧ ∀ column, col column e' = col column e ∨ col column e' = None.

Lemma delete_all_row l d t i e' : (delete_all l d).(db_entities) !! (t, i) = Some e' → survives l d (t, i) e'.
Proof.
  revert d. induction l as [|[t0 i0] l IH]; intros d; simpl.
  - intros He. split; [apply not_elem_of_nil|]. exists e'. split_and!; [done|done|by left].
  - intros (Hl & e1 & He1 & Hp1 & Hc1)%IH. apply delete_entity_row in He1 as (Hne & e & He & Hp & Hc).
    split; [by apply not_elem_of_cons|]. exists e. split_and!; [done|congruence|]. intros column.
    destruct (Hc1 column) as [->| ->]; [|by right]. destruct (Hc column) as [->|(-> & _)]; [by left|by right].
Qed.

Lemma unreferenced_delete t i t' i' d : unreferenced t i d → unreferenced t i (delete_entity t' i' d).
Proof.
  intros Hu t0 i0 e' (_ & e & He & _ & Hc)%delete_entity_row. specialize (Hu _ _ _ He).
  destruct t; [| |done]; intros Ht; specialize (Hu Ht).
  - destruct (Hc c_originating_idea) as [->|(-> & _)]; done.
  - destruct (Hc c_parent_epic) as [->|(-> & _)]; done.
Qed.

Lemma delete_all_effects local type ids d :
  (local = true → ∀ id, id ∈ ids → unreferenced type id d) →
  rtc (effect local) d (delete_all ((type,.) <$> ids) d).
Proof.
  revert d. induction ids as [|id ids IH]; intros d Hu; simpl; [done|].
  eapply rtc_l; [eapply (ef_delete local d _ type id); [|done..]|].
  - intros Hl. apply Hu; [done|left].
  - apply IH. intros Hl i Hi. apply unreferenced_delete, Hu; [done|by right].
Qed.

Lemma to_set_elem seen l x : x ∈ to_set seen l ↔ x ∈ l ∧ x ∉ seen.
Proof.
  revert seen. induction l as [|y l IH]; intros seen; simpl; [split; [by intros ?%not_elem_of_nil|by intros [?%not_elem_of_nil _]]|].
  case_bool_decide as Hy; rewrite ?elem_of_cons, IH.
  - split; [intros [? ?]; split; [by right|done]|]. intros [[->|?] ?]; done.
  - rewrite not_elem_of_cons. destruct (decide (x = y)) as [->|]; naive_solver.
Qed.

(** The cascade is a sequence of effects: when it gets to an entity, nothing
    refers to it any more. *)
Lemma cascade_effects local projectId type id e d :
  (local = true → lineage_ok d) → readEntity type projectId id d = Some e →
  rtc (effect local) d (delete_all (collectDeleteCascade projectId type id d) d).
Proof.
  intros Hl Hr.
  assert (d.(db_entities) !! (type, id) = Some e ∧ e.(en_project) = projectId) as [He Hp].
  { unfold readEntity in Hr. destruct (db_entities d !! (type, id)) as [e0|]; [|done].
    destruct (Z.eqb_spec (en_project e0) projectId); simplify_eq. done. }
  assert (∀ t i e0 column target, local = true → d.(db_entities) !! (t, i) = Some e0 →
    col column e0 = Some (Text id) → (column = c_parent_epic ∧ target = TEpic ∨ column = c_originating_idea ∧ target = TIdea) →
    type = target → refers column id e0 = true ∧ in_project projectId e0 = true) as Hrefers.
  { intros t i e0 column target Hloc H0 Hc Hcol <-. split; [by apply bool_decide_eq_true|]. apply Z.eqb_eq.
    destruct (Hl Hloc _ _ _ H0) as [L1 L2]. destruct Hcol as [[-> ->]|[-> ->]].
    - destruct L1 as [?|(_ & p & ep & Hq & Hep & ?)]; [congruence|]. rewrite Hc in Hq. injection Hq as <-. congruence.
    - destruct L2 as [?|(_ & p & ep & Hq & Hep & ?)]; [congruence|]. rewrite Hc in Hq. injection Hq as <-. congruence. }
  unfold collectDeleteCascade. set (tasks := match type with TIdea => _ | TEpic => _ | TTask => _ end).
  destruct tasks as [taskIds epicIds] eqn:Ht. unfold delete_all. rewrite !fold_left_app. simpl.
  change (fold_left _ ((TTask,.) <$> taskIds) d) with (delete_all ((TTask,.) <$> taskIds) d).
  set (d1 := delete_all ((TTask,.) <$> taskIds) d).
  change (fold_left _ ((TEpic,.) <$> epicIds) d1) with (delete_all ((TEpic,.) <$> epicIds) d1).
  set (d2 := delete_all ((TEpic,.) <$> epicIds) d1).
  etransitivity; [apply (delete_all_effects local TTask taskIds); by intros _ ? _ ? ? ? ?|]. fold d1.
  etransitivity; [apply (delete_all_effects local TEpic epicIds)|fold d2; eapply rtc_l; [|reflexivity];
    eapply (ef_delete local d2 _ type id); [|done..]].
  - intros Hloc p Hpin t i e1 (Hn & e0 & He0 & _ & Hc)%delete_all_row -> Hpar.
    assert (col c_parent_epic e0 = Some (Text p)) as Hpar0 by (destruct (Hc c_parent_epic) as [E|E]; congruence).
    apply Hn, list_elem_of_fmap. exists i. split; [done|]. subst tasks.
    destruct type; simplify_eq/=; try by apply not_elem_of_nil in Hpin.
    apply to_set_elem. split; [|apply not_elem_of_nil]. apply elem_of_app. right.
    apply elem_of_select_ids. exists e0. split; [done|]. apply existsb_exists. exists p.
    split; [by apply list_elem_of_In|by apply bool_decide_eq_true].
  - intros Hloc t i e2 (Hn2 & e1 & He1 & _ & Hc2)%delete_all_row.
    apply delete_all_row in He1 as (Hn1 & e0 & He0 & _ & Hc1).
    assert (∀ column v, col column e2 = Some v → col column e0 = Some v) as Hback.
    { intros column v Hv. destruct (Hc2 column) as [E|E], (Hc1 column) as [E'|E']; congruence. }
    subst tasks. destruct type; simplify_eq/=; [| |done]; intros Htt Hcol; apply Hback in Hcol.
    + destruct (Hrefers _ _ _ c_originating_idea TIdea eq_refl He0 Hcol (or_intror (conj eq_refl eq_refl)) eq_refl) as [R1 R2].
      destruct t; [done| |].
      * apply Hn2, list_elem_of_fmap. exists i. split; [done|]. apply elem_of_select_ids. exists e0. by rewrite R1, R2.
      * apply Hn1, list_elem_of_fmap. exists i. split; [done|]. apply to_set_elem. split; [|apply not_elem_of_nil].
        apply elem_of_app. left. apply elem_of_select_ids. exists e0. by rewrite R1, R2.
    + subst t. destruct (Hrefers _ _ _ c_parent_epic TEpic eq_refl He0 Hcol (or_introl (conj eq_refl eq_refl)) eq_refl) as [R1 R2].
      apply Hn1, list_elem_of_fmap. exists i. split; [done|]. apply elem_of_select_ids. exists e0. by rewrite R1, R2.
Qed.

Lemma runDelete_effects local projectId actor taskId entityType d :
  (local = true → lineage_ok d) →
  wp (runDelete JSON_parse projectId actor taskId entityType) (λ _ d', rtc (effect local) d d') (λ _ d', d' = d) d.
Proof.
  intros Hl. unfold runDelete. apply wp_bind, wp_get.
  destruct (locateEntity projectId taskId entityType d) as [[type e]|] eqn:Hloc; [|done].
  apply locate_some in Hloc as (He & Hp & _).
  apply wp_bind, wp_when; [by intros _; apply wp_throw|]. intros _. repeat (wp_step; cbn beta iota).
  assert (readEntity type projectId taskId d = Some e) as Hr.
  { unfold readEntity. rewrite He, Hp. by rewrite Z.eqb_refl. }
  eapply rtc_r; [by eapply cascade_effects|]. by apply same_effect.
Qed.

Lemma emit_all_same {A} p (t : A → task_type) (i : A → string) a actor l d :
  wp (mapM_ (λ x, emitChange p (t x) (i x) a actor) l) (λ _ d', same_backlog d d') (λ _ _, False) d.
Proof.
  revert d. induction l as [|x l IH]; intros d; simpl; [by apply wp_ret|].
  apply wp_bind. pose proof (emitChange_same p (t x) (i x) a actor d) as Hs.
  unfold emitChange in *. apply wp_modify. eapply wp_mono; [apply IH| |done].
  intros ? d' H. by etransitivity.
Qed.

Lemma runRemoteDelete_effects projectId type id d :
  wp (runRemoteDelete JSON_parse projectId type id) (λ _ d', rtc (effect false) d d') (λ _ d', d' = d) d.
Proof.
  unfold runRemoteDelete. apply wp_bind, wp_get. destruct (readEntity type projectId id d) as [e|]; [|by apply wp_ret].
  destruct (remoteRetireBlocker JSON_parse type id d); [by apply wp_ret|].
  apply wp_bind, wp_modify, wp_bind, wp_modify, wp_bind.
  eapply wp_mono; [apply (emit_all_same _ fst snd)| |done]. intros ? d' Hs. repeat (wp_step; cbn beta iota).
  eapply rtc_l; [apply (ef_delete false d (delete_entity type id d) type id); done|].
  apply rtc_once, same_effect. etransitivity; [apply same_log|exact Hs].
Qed.

(** ** Remote edges and renames *)

Lemma find_dep_None a b d kind : find_dep a b d = None → mk_dep a b kind ∉ d.(db_deps).
Proof.
  unfold find_dep. intros H Hin. apply list_elem_of_In in Hin. pose proof (List.find_none _ _ H _ Hin) as Hf.
  simpl in Hf. by rewrite !String.eqb_refl in Hf.
Qed.

(** One logged edge write. *)
Lemma log_edge_effect (P : RemoteEdgesResult → tdb → Prop) taskId kind ds now out d d1 :
  (∀ out' d', logs TTask taskId ds d d' → d'.(db_entities) = d1.(db_entities) → d'.(db_deps) = d1.(db_deps) → P out' d') →
  same_backlog d (with_deps (λ _, d.(db_deps)) d1) →
  wp (log_edge taskId kind ds now out) P (λ _ _, True) d1.
Proof.
  intros HP (E & V & _). unfold log_edge. apply wp_bind, wp_insertEvent; [|done].
  intros ev d' (ev' & Hev & H1 & H2 & H3 & H4) E' D' _. apply wp_ret. apply HP; [|done|done].
  exists ev'. unfold events_of in *. simpl in V. rewrite V in *. done.
Qed.

Lemma usable_task_some projectId id d : usable_task projectId id d = true → is_Some (d.(db_entities) !! (TTask, id)).
Proof.
  unfold usable_task, readEntity. intros [[e He]%bool_decide_eq_true _]%andb_true_iff.
  destruct (d.(db_entities) !! (TTask, id)); [by eexists|done].
Qed.

Lemma wp_conj {A} (m : MT A) (Q Q' : A → tdb → Prop) d :
  wp m Q (λ _ _, True) d → wp m Q' (λ _ _, True) d → wp m (λ a d', Q a d' ∧ Q' a d') (λ _ _, True) d.
Proof. unfold wp. by destruct (m d) as [[a|e] d']. Qed.

(** Steps that leave the rows alone. *)
Definition edge_effect (d d' : tdb) : Prop := effect false d d' ∧ d'.(db_entities) = d.(db_entities).

Lemma edge_effects_entities d d' : rtc edge_effect d d' → d'.(db_entities) = d.(db_entities).
Proof. induction 1 as [|d1 d2 d3 [_ H] _ IH]; [done|congruence]. Qed.

Lemma edge_effects d d' : rtc edge_effect d d' → rtc (effect false) d d'.
Proof. intros H. eapply (rtc_subrel edge_effect); [|done]. by intros ? ? [? _]. Qed.

Lemma remote_removals taskId dependsOn now current out d :
  is_Some (d.(db_entities) !! (TTask, taskId)) →
  wp (foldM (λ (e : dep) out,
        if bool_decide (wanted_kind dependsOn (dep_on e) = Some (dep_kind e)) then mret out
        else modify (delete_dep taskId (dep_on e)) ;;;
             log_edge taskId "dependency-removed" (edge_deltas (Some (dep_on e, dep_kind e)) None) now out) current out)
     (λ _ d', rtc edge_effect d d') (λ _ _, True) d.
Proof.
  revert out d. induction current as [|e current IH]; intros out d Hs; simpl; [by apply wp_ret|].
  apply wp_bind. case_match; [by apply wp_ret, IH|]. apply wp_bind, wp_modify.
  apply (log_edge_effect _ _ _ _ _ _ d); [|done]. intros out' d' Hlog E D.
  assert (edge_effect d d') as Hd by (split; [by eapply (ef_drop_edge false d _ taskId (dep_on e) (dep_kind e))|done]).
  eapply wp_mono; [apply IH| |done].
  - by rewrite E.
  - intros ? d2 H2. by eapply rtc_l.
Qed.

(** An edge a remote set may still add. *)
Definition addable (d : tdb) (e : dep) : Prop :=
  is_Some (d.(db_entities) !! (TTask, e.(dep_task))) ∧ e.(dep_task) ≠ e.(dep_on).

Lemma reads_additions projectId taskId (kept : list string) (miss : RemoteEdgesResult → string → RemoteEdgesResult) dependsOn
    acc d :
  is_Some (d.(db_entities) !! (TTask, taskId)) → Forall (addable d) acc.1 →
  reads (foldM (λ (w : string * dependency_kind) (acc : list dep * RemoteEdgesResult),
           let '(additions, out) := acc in
           d <- get ;;
           if bool_decide (w.1 ∈ kept) then mret acc
           else if String.eqb w.1 taskId || negb (usable_task projectId w.1 d) then mret (additions, miss out w.1)
           else mret (additions ++ [mk_dep taskId w.1 w.2], out)) dependsOn acc)
    (λ acc', Forall (addable d) acc'.1) d.
Proof.
  intros Hs. revert acc. induction dependsOn as [|w l IH]; intros [additions out] Hacc; simpl; [by apply reads_ret|].
  eapply (reads_bind _ _ (λ acc', Forall (addable d) acc'.1)); [|by intros acc' H; apply IH].
  apply reads_get. case_match; [by apply reads_ret|]. case_match eqn:Hc; [by apply reads_ret|].
  apply reads_ret. simpl. apply Forall_app. split; [done|]. apply orb_false_iff in Hc as [Hne _].
  constructor; [|by constructor]. split; [done|]. simpl. by apply String.eqb_neq in Hne.
Qed.

Lemma remote_set_effects projectId now s acc d :
  Forall (addable d) acc.1 →
  wp (remote_set projectId now s acc) (λ acc' d', rtc edge_effect d d' ∧ Forall (addable d') acc'.1) (λ _ _, True) d.
Proof.
  destruct s as [taskId dependsOn], acc as [additions out]. intros Hacc. unfold remote_set. apply wp_bind, wp_get.
  destruct (negb (usable_task projectId taskId d)) eqn:Hu; [by apply wp_ret|].
  apply negb_false_iff, usable_task_some in Hu. apply wp_bind.
  eapply wp_mono; [apply remote_removals; done| |done]. intros out' d' Hd.
  pose proof (edge_effects_entities _ _ Hd) as He.
  assert (Forall (addable d') additions) as Hacc'.
  { eapply Forall_impl; [exact Hacc|]. intros e [H1 H2]. split; [by rewrite He|done]. }
  eapply wp_mono; [apply (reads_additions projectId taskId _
    (λ out id, mk_edges_result out.(re_changed) out.(re_cycles) (out.(re_missing) ++ [(taskId, id)])));
    [by rewrite He|exact Hacc']| |done].
  intros acc' ? [-> H]. done.
Qed.

Lemma remote_sets_effects projectId now sets acc d :
  Forall (addable d) acc.1 →
  wp (foldM (remote_set projectId now) sets acc) (λ acc' d', rtc edge_effect d d' ∧ Forall (addable d') acc'.1)
    (λ _ _, True) d.
Proof.
  revert acc d. induction sets as [|s sets IH]; intros acc d Hacc; simpl; [by apply wp_ret|].
  apply wp_bind. eapply wp_mono; [by apply remote_set_effects| |done]. intros acc1 d1 [H1 F1].
  eapply wp_mono; [by apply IH| |done]. intros acc2 d2 [H2 F2]. split; [by etransitivity; [exact H1|exact H2]|done].
Qed.

Lemma remote_addition_effect now e out d :
  addable d e → wp (remote_addition now e out) (λ _ d', rtc edge_effect d d') (λ _ _, True) d.
Proof.
  intros [Hs Hne]. unfold remote_addition. apply wp_bind, wp_get. case_match eqn:Hc; [by apply wp_ret|].
  apply wp_bind, wp_modify. apply (log_edge_effect _ _ _ _ _ _ d).
  - intros out' d' Hlog E D.
    assert ((insert_dep (dep_task e) (dep_on e) (dep_kind e) d).(db_entities) = d.(db_entities)) as Hi
      by (unfold insert_dep; by case_match).
    apply rtc_once. split; [|congruence].
    eapply (ef_add_edge false d d' (dep_task e) (dep_on e) (dep_kind e)); [done|done| |congruence|done|done].
    intros Hk Hr%reaches_spec. rewrite bool_decide_true, Hr in Hc by done. done.
  - unfold insert_dep. by case_match.
Qed.

Lemma remote_additions_effects now l out d :
  Forall (addable d) l → wp (foldM (remote_addition now) l out) (λ _ d', rtc edge_effect d d') (λ _ _, True) d.
Proof.
  revert out d. induction l as [|e l IH]; intros out d; simpl; [intros _; by apply wp_ret|]. intros [He Hl]%Forall_cons.
  apply wp_bind. eapply wp_mono; [by apply remote_addition_effect| |done]. intros out1 d1 H1.
  eapply wp_mono; [apply IH| |done].
  - eapply Forall_impl; [exact Hl|]. intros x [Hx ?]. split; [by rewrite (edge_effects_entities _ _ H1)|done].
  - intros ? d2 H2. by etransitivity; [exact H1|exact H2].
Qed.

Lemma applyRemoteEdges_effects projectId sets now d :
  wp (applyRemoteEdges projectId sets now) (λ _ d', rtc (effect false) d d') (λ _ d', d' = d) d.
Proof.
  unfold applyRemoteEdges. apply wp_bind, wp_transaction, wp_bind.
  eapply wp_mono; [apply remote_sets_effects; by constructor| |done]. intros acc d1 [H1 F1].
  eapply wp_mono; [by apply remote_additions_effects| |done]. intros out d2 H2.
  apply wp_bind. eapply wp_mono; [apply (emit_all_same _ (λ _, TTask) (λ i, i))| |done]. intros ? d3 H3. apply wp_ret.
  eapply rtc_r; [apply edge_effects; etransitivity; [exact H1|exact H2]|]. by apply same_effect.
Qed.

(** ** Renaming *)

(** A loop whose body is a preorder on the tables. *)
Lemma wp_foldM {A B} (R : relation tdb) `{!PreOrder R} (f : A → B → MT B) l b d :
  (∀ x b d', x ∈ l → R d d' → wp (f x b) (λ _ d'', R d' d'') (λ _ _, True) d') →
  wp (foldM f l b) (λ _ d', R d d') (λ _ _, True) d.
Proof.
  revert b d. induction l as [|x l IH]; intros b d Hf; simpl; [by apply wp_ret|].
  apply wp_bind. eapply wp_mono; [apply Hf; [apply list_elem_of_here|reflexivity]| |done]. intros b' d1 H1.
  eapply wp_mono; [apply IH| |done].
  - intros y b1 d2 Hy H2. apply Hf; [by right|by transitivity d1].
  - intros ? d2 H2. by transitivity d1.
Qed.

Lemma wp_mapM_ {A} (R : relation tdb) `{!PreOrder R} (f : A → MT unit) l d :
  (∀ x d', x ∈ l → R d d' → wp (f x) (λ _ d'', R d' d'') (λ _ _, True) d') →
  wp (mapM_ f l) (λ _ d', R d d') (λ _ _, True) d.
Proof.
  revert d. induction l as [|x l IH]; intros d Hf; simpl; [by apply wp_ret|].
  apply wp_bind. eapply wp_mono; [apply Hf; [apply list_elem_of_here|reflexivity]| |done]. intros ? d1 H1.
  eapply wp_mono; [apply IH| |done].
  - intros y d2 Hy H2. apply Hf; [by right|by transitivity d1].
  - intros ? d2 H2. by transitivity d1.
Qed.

(** Effects that delete no row. *)
Definition kept_effects (d d' : tdb) : Prop :=
  rtc (effect false) d d' ∧ ∀ k, is_Some (d.(db_entities) !! k) → is_Some (d'.(db_entities) !! k).

#[local] Instance kept_effects_preorder : PreOrder kept_effects.
Proof.
  split; [by intros d; split|]. intros d1 d2 d3 [H1 K1] [H2 K2]. split; [by etransitivity|]. auto.
Qed.

Lemma set_ref_effects type id ref f d :
  (∀ e, (f e).(en_project) = e.(en_project) ∧ ∀ column, col column (f e) = col column e) →
  wp (set_ref type id ref f) (λ _ d', kept_effects d d') (λ _ _, True) d.
Proof.
  intros Hf. unfold set_ref. apply wp_bind, wp_get. destruct (d.(db_entities) !! (type, id)) as [e|] eqn:He; [|by apply wp_ret].
  apply wp_bind. eapply (wp_mono _ (λ _ d', d' = d) _ (λ _ _, True)); [| |done].
  { case_match; [apply wp_when; [by intros _; apply wp_throw|done]|by apply wp_ret]. }
  intros _ ? ->. apply wp_modify. destruct (Hf (set_col c_ref (Some (Text ref)) e)) as [Hp Hc]. split.
  - apply rtc_once. eapply (ef_ref false d _ type id e); try done. intros column Hne. rewrite Hc.
    unfold col, set_col. simpl. by rewrite lookup_partial_alter_ne.
  - intros k Hk. unfold with_entities. cbn [db_entities]. apply lookup_insert_is_Some. destruct (decide ((type, id) = k)); auto.
Qed.

Lemma ref_event_effects type id from to now d :
  is_Some (d.(db_entities) !! (type, id)) →
  wp (insertEvent type id "ref-renamed" REMOTE_ACTOR None [mk_delta (FCol c_ref) from to] now)
    (λ _ d', kept_effects d d') (λ _ _, True) d.
Proof.
  intros Hs. apply wp_insertEvent; [|done]. intros ev d' Hlog E D _. split; [|by rewrite E].
  apply rtc_once. by eapply (ef_ref_event false d d' type id).
Qed.

(** A plan of the renaming names a row. *)
Definition planned (d : tdb) (p : rename_plan) : Prop := is_Some (d.(db_entities) !! (p.1.1.1, p.1.1.2)).

Lemma reads_plans projectId renames plans d :
  Forall (planned d) plans →
  reads (foldM (λ (r : task_type * string * string) (plans : list rename_plan),
               let '(type, id, newRef) := r in
               d <- get ;;
               match readEntity type projectId id d with
               | None => reject not_found
               | Some e => mret (plans ++ [(type, id, newRef, text_of (col c_ref e))])
               end) renames plans) (Forall (planned d)) d.
Proof.
  revert plans. induction renames as [|[[type id] newRef] renames IH]; intros plans Hp; simpl; [by apply reads_ret|].
  eapply (reads_bind _ _ (Forall (planned d))); [|intros plans' Hp'; by apply IH].
  apply reads_get. unfold readEntity. destruct (d.(db_entities) !! (type, id)) as [e|] eqn:He; [|apply reads_reject].
  case_match; [|apply reads_reject]. apply reads_ret, Forall_app. split; [done|]. apply Forall_singleton. by exists e.
Qed.

Lemma reads_foldM {A B} (f : A → B → MT B) l b d :
  (∀ x b, reads (f x b) (λ _, True) d) → reads (foldM f l b) (λ _, True) d.
Proof.
  intros Hf. revert b. induction l as [|x l IH]; intros b; simpl; [by apply reads_ret|].
  eapply reads_bind; [apply Hf|]. intros ? _. apply IH.
Qed.

Lemma applyRemoteRefRenames_effects projectId renames aliases now d :
  wp (applyRemoteRefRenames projectId renames aliases now) (λ _ d', rtc (effect false) d d') (λ _ d', d' = d) d.
Proof.
  unfold applyRemoteRefRenames. apply wp_bind, wp_transaction.
  eapply wp_reads_bind; [by apply reads_plans| |done]. intros plans Hplans. apply wp_bind, wp_get.
  eapply wp_reads_bind; [apply reads_foldM| |done].
  { intros [[[? ?] ?] ?] seen. do 2 (eapply reads_seq; [by apply (reads_reject_if _ _ (λ _, True))|intros _]). by apply reads_ret. }
  intros _ _. apply wp_bind.
  eapply wp_mono; [apply (wp_mapM_ kept_effects); intros p d' _ _; by apply set_ref_effects| |done].
  intros ? d1 H1. eapply wp_mono; [apply (wp_foldM kept_effects)| |done].
  - intros [[[type id] newRef] oldRef] out d2 Hin H2. apply wp_bind.
    eapply wp_mono; [by apply set_ref_effects| |done]. intros ? d3 H3.
    case_bool_decide; [by apply wp_ret|]. apply wp_bind.
    eapply wp_mono; [apply ref_event_effects| |done].
    { rewrite Forall_forall in Hplans. apply H3, H2, H1. exact (Hplans _ Hin). }
    intros ? d4 H4. apply wp_bind. eapply (wp_mono _ (λ _ d5, kept_effects d4 d5) _ (λ _ _, True)); [| |done].
    + destruct oldRef; [apply wp_when|by apply wp_ret]; intros _; [apply wp_modify|reflexivity].
      split; [|done]. apply rtc_once. by apply ef_world.
    + intros ? d5 H5. apply wp_ret. transitivity d3; [exact H3|]. transitivity d4; [exact H4|exact H5].
  - intros out d2 H2. eapply wp_mono; [apply (emit_all_same _ fst snd)| |done].
    intros ? d3 H3. eapply rtc_r; [etransitivity; [apply H1|apply H2]|by apply same_effect].
Qed.
End Refine.
