(* ===== verification/TaskHistory.v ===== *)
(** * Histories of the backlog

    The tasks the router's queue runs, the public operations as sequences of
    such tasks, and what holds in every state a history of operations reaches:
    each operation is a sequence of the effects of the changelog machine, and
    the machine's invariants are invariants of the router. *)

From S2P Require Import Prelude Wp RunStateMachine Database TaskTables TaskRouter TaskUpdate TaskEdges TaskEffects TaskRefine.

Open Scope js_scope.

(** What runs without interruption: one entry of the queue of a project. *)
Inductive queue_task :=
  | QChange (c : TaskChange) (random : string)
  | QDelete (actor : task_actor) (taskId : string) (entityType : option task_type)
  | QRemoteDelete (type : task_type) (id : string)
  | QRemoteEdges (sets : list (string * list (string * dependency_kind)))
  | QRemoteRenames (renames : list (task_type * string * string)) (recordAliases : bool).

(** A task of a machine that is not synchronised. *)
Definition local_task (t : queue_task) : Prop :=
  match t with
  | QChange c _ => c.(ch_actor) ≠ REMOTE_ACTOR
  | QDelete _ _ _ => True
  | _ => False
  end.

(** The public operations of the router. *)
Inductive operation :=
  | OpChange (c : TaskChange) (random : string)
  | OpDelete (actor : task_actor) (taskId : string) (entityType : option task_type)
  | OpRecompute (taskId : string)
  | OpRecomputeEpic (epicId : string)
  | OpCaptureEntryStage (taskId : string) (runId : option string)
  | OpRecomputeBatch (batchId : string)
  | OpSweep
  | OpRetire (ideaId : string)
  | OpDeleteRunCreated (runId : string)
  | OpDeleteArm (experimentId runId : string) (seedCloneId : option string) (seedTaskCloneIds : list string)
  | OpRemoteDelete (type : task_type) (id : string)
  | OpRemoteEdges (sets : list (string * list (string * dependency_kind)))
  | OpRemoteRenames (renames : list (task_type * string * string)) (recordAliases : bool).

Definition local_operation (op : operation) : Prop :=
  match op with
  | OpChange c _ => c.(ch_actor) ≠ REMOTE_ACTOR
  | OpRemoteDelete _ _ | OpRemoteEdges _ | OpRemoteRenames _ _ => False
  | _ => True
  end.

Section History.
Context (JSON_parse : string → option JsNumber.json_value).

Definition run_task (projectId : Z) (t : queue_task) (now : instant) : MT unit :=
  match t with
  | QChange c random => assertRemoteRequest c ;;; change_task JSON_parse projectId c random now ;;; mret tt
  | QDelete actor taskId entityType => runDelete JSON_parse projectId actor taskId entityType ;;; mret tt
  | QRemoteDelete type id => runRemoteDelete JSON_parse projectId type id ;;; mret tt
  | QRemoteEdges sets => applyRemoteEdges projectId sets now ;;; mret tt
  | QRemoteRenames renames recordAliases => applyRemoteRefRenames projectId renames recordAliases now
  end.

Definition run_operation (projectId : Z) (op : operation) (now : instant) : MT unit :=
  match op with
  | OpChange c random => applyChange JSON_parse apply_depth projectId c random now ;;; mret tt
  | OpDelete actor taskId entityType => applyDelete JSON_parse projectId actor taskId entityType now ;;; mret tt
  | OpRecompute taskId => recomputeTaskExecutionStage JSON_parse taskId now
  | OpRecomputeEpic epicId => recomputeEpicStage JSON_parse epicId now
  | OpCaptureEntryStage taskId runId => captureEntryStageIfUnset JSON_parse taskId runId now
  | OpRecomputeBatch batchId => recomputeTasksForBatch JSON_parse batchId now
  | OpSweep => sweepStaleDerivedStageTasks JSON_parse now
  | OpRetire ideaId => retireIdeaToDecomposed JSON_parse projectId ideaId now
  | OpDeleteRunCreated runId => deleteRunCreatedEntities JSON_parse projectId runId now
  | OpDeleteArm experimentId runId seedCloneId seedTaskCloneIds =>
      deleteExperimentArmEntities JSON_parse projectId experimentId runId seedCloneId seedTaskCloneIds now
  | OpRemoteDelete type id => applyRemoteDelete JSON_parse projectId type id now ;;; mret tt
  | OpRemoteEdges sets => applyRemoteEdges projectId sets now ;;; mret tt
  | OpRemoteRenames renames recordAliases => applyRemoteRefRenames projectId renames recordAliases now
  end.

(** A step of the process: a task of the queue, or anything that leaves the
    entities, their events and the edges alone. *)
Inductive queue_step (local : bool) (d d' : tdb) : Prop :=
  | step_task projectId t now r :
      (local = true → local_task t) → run_task projectId t now d = (r, d') → queue_step local d d'
  | step_world : same_backlog d d' → queue_step local d d'.

Definition empty_backlog (d : tdb) : Prop := d.(db_entities) = ∅ ∧ d.(db_events) = [] ∧ d.(db_deps) = [].

(** Reachable from an empty backlog, by the tasks of any operations interleaved
    in any way. *)
Definition reachable (local : bool) (d : tdb) : Prop := ∃ d0, empty_backlog d0 ∧ rtc (queue_step local) d0 d.

(** ** One task *)

Lemma reads_remote_request c d : reads (assertRemoteRequest c) (λ _, remote_clean c) d.
Proof.
  unfold assertRemoteRequest, remote_clean. case_bool_decide as Ha; [|eapply reads_mono; [by apply (reads_reject_if _ _ (λ _, True))|done]].
  do 2 (eapply reads_seq; [by apply (reads_reject_if _ _ (λ _, True))|intros _]).
  apply (reads_bind _ _ (λ _, remote_clean c)).
  { apply reads_reject_if. intros (H1 & H2%bool_decide_eq_false)%orb_false_iff _. apply orb_false_iff in H1 as [H1 H3].
    apply bool_decide_eq_false in H1, H3. split_and!; by apply eq_None_not_Some. }
  intros _ Hclean. eapply reads_seq; [by apply (reads_reject_if _ _ (λ _, True))|intros _].
  destruct (ch_taskId c).
  - eapply reads_seq; [by apply (reads_reject_if _ _ (λ _, True))|intros _].
    eapply reads_mono; [by apply (reads_reject_if _ _ (λ _, True))|done].
  - eapply reads_mono; [by apply (reads_reject_if _ _ (λ _, True))|done].
Qed.

Lemma change_task_effects local projectId c random now d :
  remote_clean c → local_change local c →
  wp (change_task JSON_parse projectId c random now) (λ _ d', effect local d d') (λ _ d', d' = d) d.
Proof.
  intros Hc Hl. unfold change_task. destruct (ch_taskId c); [|by apply runCreate_cases].
  destruct (ch_dependsOnTaskId c); [|by apply runUpdate_effect].
  case_bool_decide; [apply runRemoveDependency_effect|apply runAddDependency_effect].
Qed.

Lemma local_actor local c : (local = true → c.(ch_actor) ≠ REMOTE_ACTOR) → local_change local c.
Proof. intros H Hl. unfold remote_of. by rewrite bool_decide_false by auto. Qed.

(** Every task is a sequence of effects, and one that is refused is none. *)
Lemma run_task_effects local projectId t now d :
  (local = true → local_task t ∧ lineage_ok d) →
  wp (run_task projectId t now) (λ _ d', rtc (effect local) d d') (λ _ d', d' = d) d.
Proof.
  intros Hl. destruct t as [c random|actor taskId entityType|type id|sets|renames al]; simpl.
  - eapply wp_reads_bind; [apply reads_remote_request| |done]. intros ? Hc. apply wp_bind.
    eapply wp_mono; [apply (change_task_effects local); [done|]| |done].
    + apply local_actor. intros H. by apply Hl.
    + intros ? d' He. by apply wp_ret, rtc_once.
  - apply wp_bind. eapply wp_mono; [apply (runDelete_effects _ local)| |done].
    + intros H. by apply Hl.
    + intros ? d' H. by apply wp_ret.
  - destruct local; [by destruct Hl|]. apply wp_bind. eapply wp_mono; [apply runRemoteDelete_effects| |done].
    intros ? d' H. by apply wp_ret.
  - destruct local; [by destruct Hl|]. apply wp_bind. eapply wp_mono; [apply applyRemoteEdges_effects| |done].
    intros ? d' H. by apply wp_ret.
  - destruct local; [by destruct Hl|]. apply applyRemoteRefRenames_effects.
Qed.

(** ** What histories keep *)

Lemma effects_keep (I : tdb → Prop) local d d' :
  (∀ d d', effect local d d' → I d → I d') → rtc (effect local) d d' → I d → I d'.
Proof. intros Hkeep H. induction H; [done|]. intros Hi. by eapply IHrtc, Hkeep. Qed.

Lemma step_effects local d d' : (local = true → lineage_ok d) → queue_step local d d' → rtc (effect local) d d'.
Proof.
  intros Hl [projectId t now r Ht Hr|Hs]; [|by apply rtc_once, same_effect].
  pose proof (run_task_effects local projectId t now d) as H. unfold wp in H. rewrite Hr in H.
  destruct r; [apply H|rewrite H; [reflexivity|]]; auto.
Qed.

Lemma steps_effects local d d' : lineage_ok d → rtc (queue_step local) d d' → rtc (effect local) d d'.
Proof.
  intros Hl H. induction H as [|d d1 d2 H1 H2 IH]; [done|].
  assert (rtc (effect local) d d1) as He by (by apply step_effects).
  transitivity d1; [done|]. apply IH. by eapply (effects_keep lineage_ok local _ _ (lineage_effect local)).
Qed.

Lemma empty_lineage d : empty_backlog d → lineage_ok d.
Proof. intros (He & _) t i e. rewrite He. by rewrite lookup_empty. Qed.

(** An invariant of the machine that an empty backlog has holds on every history. *)
Lemma reachable_keeps (I : tdb → Prop) local d :
  (∀ d d', effect local d d' → I d → I d') → (∀ d, empty_backlog d → I d) → reachable local d → I d.
Proof.
  intros Hkeep Hinit (d0 & H0 & Hd). eapply effects_keep; [exact Hkeep| |by apply Hinit].
  apply steps_effects; [by apply empty_lineage|done].
Qed.

(** ** Operations as sequences of tasks *)

Definition queued {A} (local : bool) (m : MT A) : Prop :=
  ∀ d, wp m (λ _ d', rtc (queue_step local) d d') (λ _ d', rtc (queue_step local) d d') d.

Lemma queued_ret {A} local (a : A) : queued local (mret a).
Proof. intros d. by apply wp_ret. Qed.

Lemma queued_throw {A} local e : queued local (throw e : MT A).
Proof. intros d. by apply wp_throw. Qed.

Lemma queued_get local : queued local get.
Proof. intros d. by apply wp_get. Qed.

Lemma queued_bind {A B} local (m : MT A) (k : A → MT B) :
  queued local m → (∀ a, queued local (k a)) → queued local (mbind m k).
Proof.
  intros Hm Hk d. apply wp_bind. eapply wp_mono; [apply Hm| |done]. intros a d1 H1.
  eapply wp_mono; [apply Hk|intros ? d2 H2|intros ? d2 H2]; by transitivity d1.
Qed.

Lemma queued_catch {A} local (m : MT A) (h : task_error → MT A) :
  queued local m → (∀ e, queued local (h e)) → queued local (catch m h).
Proof.
  intros Hm Hh d. apply wp_catch. eapply wp_mono; [apply Hm|done|]. intros e d1 H1.
  eapply wp_mono; [apply Hh|intros ? d2 H2|intros ? d2 H2]; by transitivity d1.
Qed.

Lemma queued_swallow local m : queued local m → queued local (swallow m).
Proof. intros H. apply queued_catch; [done|]. intros. apply queued_ret. Qed.

Lemma queued_if {A} local (b : bool) (m m' : MT A) : queued local m → queued local m' → queued local (if b then m else m').
Proof. by destruct b. Qed.

Lemma queued_reject_if local b code : queued local (reject_if b code).
Proof. apply queued_if; [apply queued_throw|apply queued_ret]. Qed.

Lemma queued_modify local f : (∀ d, same_backlog d (f d)) → queued local (modify f).
Proof. intros H d. apply wp_modify, rtc_once, step_world, H. Qed.

Lemma queued_mapM_ {A} local (f : A → MT unit) l : (∀ x, queued local (f x)) → queued local (mapM_ f l).
Proof. intros Hf. induction l; simpl; [apply queued_ret|by apply queued_bind]. Qed.

Lemma queued_collectM {A} local (f : A → MT (list string)) l :
  (∀ x, queued local (f x)) → queued local (collectM f l).
Proof.
  intros Hf. induction l; simpl; [apply queued_ret|]. apply queued_bind; [done|]. intros a'.
  apply queued_bind; [done|]. intros b. apply queued_ret.
Qed.

(** A task of the queue, its result kept. *)
Lemma queued_task {A} local projectId t now (m : MT A) :
  (local = true → local_task t) → (∀ d, run_task projectId t now d = (m ;;; mret tt) d) → queued local m.
Proof.
  intros Ht Hm d. unfold wp. destruct (m d) as [[a|e] d'] eqn:Hd; apply rtc_once;
    eapply (step_task local _ _ projectId t now _ Ht); rewrite Hm; unfold mbind; by rewrite Hd.
Qed.

Lemma queued_assoc {A B C} local (m : MT A) (k : A → MT B) (k' : B → MT C) :
  queued local (mbind (mbind m k) k') → queued local (a <- m ;; b <- k a ;; k' b).
Proof.
  intros H d. specialize (H d). unfold wp, mbind in *. destruct (m d) as [[a|e] d1]; [|done].
  by destruct (k a d1) as [[b|e] d2].
Qed.

Lemma queued_reap local projectId runIds : queued local (reapArtifactsForRunIds projectId runIds).
Proof. by apply queued_modify. Qed.

(** *** Requests the router makes of itself *)

(** The rollup an [applyChange] of this depth makes. *)
Definition rollup_at (depth : nat) (now : instant) (epicId : string) : MT unit :=
  d <- get ;;
  match recomputeEpicStage_change epicId d with
  | Throw e => throw e
  | Ok None => mret tt
  | Ok (Some (p, c')) => applyChange JSON_parse depth p c' "" now ;;; mret tt
  end.

Lemma applyChange_eq depth projectId c random now :
  applyChange JSON_parse depth projectId c random now =
  (assertRemoteRequest c ;;;
   r <- change_task JSON_parse projectId c random now ;;
   (match r.(rs_wontDoRuns) with Some l => reapArtifactsForRunIds projectId l | None => mret tt end ;;;
    match depth with 0 => mret tt | S n => follow_on (rollup_at n now) c r end ;;;
    match r.(rs_type), r.(rs_stale) with
    | Some TIdea, Some (x :: l) => modify (with_log [MarkComponentsStale projectId r.(rs_taskId) (x :: l)])
    | _, _ => mret tt
    end ;;;
    mret r)).
Proof. by destruct depth. Qed.

Definition self_request (r : result task_error (option (Z * TaskChange))) : Prop :=
  ∀ p c, r = Ok (Some (p, c)) → c.(ch_actor) = a_orchestrator.

Lemma self_epic epicId d : self_request (recomputeEpicStage_change epicId d).
Proof.
  intros p c. unfold recomputeEpicStage_change. destruct (db_entities d !! _) as [e|]; [|done]. intros [= H].
  apply bind_Some in H as (s & _ & H). case_match; [|done]. case_match; [done|].
  apply bind_Some in H as (t & _ & H). apply bind_Some in H as (t' & _ & H). case_match; [done|]. by injection H as <- <-.
Qed.

Lemma self_move type id e target : self_request (Ok (move_to type id e target)).
Proof.
  intros p c [= H]. unfold move_to in H. apply bind_Some in H as (t & _ & H). apply bind_Some in H as (t' & _ & H).
  case_match; [done|]. by injection H as <- <-.
Qed.

Lemma self_execution taskId d : self_request (recomputeTaskExecutionStage_change taskId d).
Proof.
  unfold recomputeTaskExecutionStage_change. destruct (db_entities d !! _) as [e|]; [apply self_move|].
  unfold recomputeNonTaskEntityStage_change. destruct (first_type _ _) as [[type e]|]; [|done].
  case_match; [apply self_move|done].
Qed.

Lemma self_capture taskId runId d : self_request (Ok (captureEntryStageIfUnset_change taskId runId d)).
Proof.
  intros p c [= H]. unfold captureEntryStageIfUnset_change in H. apply bind_Some in H as (e & _ & H).
  apply bind_Some in H as (s & _ & H). case_match; [|done]. by injection H as <- <-.
Qed.

(** The rest of an operation is code around tasks: the rules follow it. *)
Ltac queued_step :=
  first [ apply queued_ret | apply queued_throw | apply queued_get | apply queued_reap | apply queued_reject_if
        | apply queued_bind | apply queued_swallow | apply queued_mapM_ | apply queued_collectM
        | apply queued_modify; done | apply queued_if | assumption | progress intros | case_match ].

Lemma queued_rollup local (run : Z → TaskChange → MT outcome) r :
  (∀ p c, r = Ok (Some (p, c)) → queued local (run p c)) →
  queued local (match r with Throw e => throw e | Ok None => mret tt | Ok (Some (p, c')) => run p c' ;;; mret tt end).
Proof. intros H. destruct r as [[[p c]|]|e]; repeat queued_step. by apply H. Qed.

Lemma queued_follow_on local rollup c r : (∀ epicId, queued local (rollup epicId)) → queued local (follow_on rollup c r).
Proof. intros H. unfold follow_on. repeat first [apply H | queued_step]. Qed.

Lemma queued_settled local projectId c r :
  queued local (match r.(rs_type), r.(rs_stale) with
                | Some TIdea, Some (x :: l) => modify (with_log [MarkComponentsStale projectId r.(rs_taskId) (x :: l)])
                | _, _ => mret tt
                end ;;; mret (c : outcome)).
Proof. repeat queued_step. Qed.

Lemma queued_applyChange local depth projectId c random now :
  (local = true → c.(ch_actor) ≠ REMOTE_ACTOR) → queued local (applyChange JSON_parse depth projectId c random now).
Proof.
  revert projectId c random. induction depth as [|depth IH]; intros projectId c random Hc; cbn [applyChange];
    apply queued_assoc, queued_bind;
    try (apply (queued_task _ projectId (QChange c random) now); [done|]; intros d; simpl; unfold mbind;
         by destruct (assertRemoteRequest c d) as [[]]);
    intros r; (apply queued_bind; [repeat queued_step|intros _]); (apply queued_bind; [|intros _; apply queued_settled]).
  - apply queued_ret.
  - apply queued_follow_on. intros epicId. apply queued_bind; [apply queued_get|]. intros d.
    apply queued_rollup. intros p c' Hr. apply IH. intros _. by rewrite (self_epic _ _ _ _ Hr).
Qed.

Lemma queued_make_request local f now : (∀ d, self_request (f d)) → queued local (make_request JSON_parse f now).
Proof.
  intros Hf. unfold make_request. apply queued_bind; [apply queued_get|]. intros d. apply queued_rollup.
  intros p c Hr. apply queued_applyChange. intros _. by rewrite (Hf _ _ _ Hr).
Qed.

Lemma queued_recomputeEpic local epicId now : queued local (recomputeEpicStage JSON_parse epicId now).
Proof. apply queued_make_request, self_epic. Qed.

Lemma queued_recompute_one local runId now taskId : queued local (recompute_one JSON_parse runId now taskId).
Proof.
  apply queued_swallow, queued_bind; [apply queued_make_request, self_capture|]. intros _.
  apply queued_make_request, self_execution.
Qed.

Lemma queued_applyDelete local projectId actor taskId entityType now :
  queued local (applyDelete JSON_parse projectId actor taskId entityType now).
Proof.
  unfold applyDelete. apply queued_bind; [apply queued_reject_if|]. intros _. apply queued_bind.
  - by apply (queued_task _ projectId (QDelete actor taskId entityType) now).
  - repeat first [apply queued_recomputeEpic | queued_step].
Qed.

Lemma queued_sweep local mine delete_one runId :
  (∀ type id, queued local (delete_one type id)) → queued local (sweep_created mine delete_one runId).
Proof. intros H. unfold sweep_created, sweep_epic, sweep_if. repeat first [apply H | queued_step]. Qed.

(** Every public operation is a sequence of tasks, whether it returns or throws. *)
Lemma operation_queued local projectId op now :
  (local = true → local_operation op) → queued local (run_operation projectId op now).
Proof.
  intros Hl. destruct op; cbn [run_operation local_operation] in *.
  - apply queued_bind; [by apply queued_applyChange|]. intros. apply queued_ret.
  - apply queued_bind; [apply queued_applyDelete|]. intros. apply queued_ret.
  - apply queued_make_request, self_execution.
  - apply queued_recomputeEpic.
  - apply queued_make_request. intros d. apply self_capture.
  - unfold recomputeTasksForBatch. repeat first [apply queued_recompute_one | queued_step].
  - unfold sweepStaleDerivedStageTasks. repeat first [apply queued_recompute_one | queued_step].
  - apply queued_make_request. intros d p c [= H]. apply bind_Some in H as (e & _ & H). case_match; [|done]. by injection H as <- <-.
  - unfold deleteRunCreatedEntities.
    repeat first [apply queued_sweep | apply queued_applyDelete | queued_step].
  - unfold deleteExperimentArmEntities, attemptDelete, sweep_if.
    repeat first [apply queued_sweep | apply queued_catch | apply queued_applyDelete | queued_step].
  - destruct local; [by destruct Hl|]. apply queued_bind; [|intros; apply queued_ret]. unfold applyRemoteDelete.
    apply queued_bind; [by apply (queued_task _ projectId (QRemoteDelete type id) now)|].
    repeat first [apply queued_recomputeEpic | queued_step].
  - destruct local; [by destruct Hl|]. apply queued_bind; [|intros; apply queued_ret].
    by apply (queued_task _ projectId (QRemoteEdges sets) now).
  - destruct local; [by destruct Hl|]. apply (queued_task _ projectId (QRemoteRenames renames recordAliases) now); [done|].
    intros d. simpl. unfold mbind. by destruct (applyRemoteRefRenames _ _ _ _ d) as [[[]|]].
Qed.
End History.
