(* ===== verification/TaskSamples.v ===== *)
(** * A small backlog

    A board and a history on it, at which the theorems about the task router are
    applied. *)

From S2P Require Import Prelude RunStateMachine Database TaskTables TaskRouter TaskEffects TaskHistory.

Open Scope js_scope.

(** ** A small board *)

Definition sample_stages : list stage :=
  [ mk_board_stage "ready" "board-1-default" 6 asserted false; mk_board_stage "dev" "board-1-default" 7 derived false;
    mk_board_stage "done" "board-1-default" 9 derived true; mk_board_stage "wont" "board-1-default" 10 asserted true;
    mk_board_stage "ideas" "board-1-default" 1 asserted false; mk_board_stage "new" "board-1-default" 5 asserted false ].

Definition sample_tdb : tdb :=
  mk_tdb ∅ [] 0 ∅ {[ "board-1-default" := 1%Z ]} sample_stages [] [] [] None ∅ ∅ [].

Definition no_json : string → option JsNumber.json_value := λ _, None.

Definition sample_create (type : task_type) (parent idea : option string) : TaskChange :=
  mk_change a_user (Some type) None None None (Some parent) (Some idea) None None None None None None None None None None None None
    no_fields None (Some "ready") None None.

Definition sample_update (actor : task_actor) (id : string) (stageId : option string) (parent : option (option string)) : TaskChange :=
  mk_change actor None (Some id) None stageId parent None None None None None None None None None None None None None
    no_fields None None None None.

Definition sample_edge (a b : string) : TaskChange :=
  mk_change a_user None (Some a) None None None None None None None None None None None None None (Some b) None None
    no_fields None None None None.

(** An idea, an epic under it, two tasks of the epic, an edge between them, and
    the first task moved to another stage. *)
Definition sample_tasks : list queue_task :=
  [ QChange (sample_create TIdea None None) "i"; QChange (sample_create TEpic None (Some "ide_i")) "e";
    QChange (sample_create TTask (Some "epc_e") (Some "ide_i")) "a"; QChange (sample_create TTask None (Some "ide_i")) "b";
    QChange (sample_edge "tsk_a" "tsk_b") ""; QChange (sample_update a_user "tsk_a" (Some "wont") None) "" ].

Definition run_tasks (l : list queue_task) (d : tdb) : tdb :=
  fold_left (λ d t, (run_task no_json 1 t 1000%Z d).2) l d.

Definition sample_backlog : tdb := run_tasks sample_tasks sample_tdb.


Lemma run_tasks_steps l d :
  Forall local_task l → rtc (queue_step no_json true) d (run_tasks l d).
Proof.
  unfold run_tasks. revert d. induction l as [|t l IH]; intros d; simpl; [done|]. intros [Ht Hl]%Forall_cons.
  eapply rtc_l; [|by apply IH]. apply (step_task _ _ _ _ 1%Z t 1000%Z (run_task no_json 1 t 1000%Z d).1); [done|].
  apply surjective_pairing.
Qed.

Lemma sample_reachable : reachable no_json true sample_backlog.
Proof.
  exists sample_tdb. split; [done|]. apply run_tasks_steps. repeat constructor; discriminate.
Qed.

Definition sample_run_of (taskId : string) (status : run_status) : task_run :=
  mk_task_run "run" status (Some taskId) None None 500%Z None None None None None None None.

(** The same backlog while a run works on the second task. *)
Definition sample_running : tdb := with_runs [sample_run_of "tsk_b" running] [] sample_backlog.

(** A column of a row, for evaluation. *)
Definition row_col (type : task_type) (id : string) (c : column) (d : tdb) : option (option cell) :=
  col c <$> d.(db_entities) !! (type, id).

Lemma row_col_some type id c d v :
  row_col type id c d = Some v → ∃ e, d.(db_entities) !! (type, id) = Some e ∧ col c e = v.
Proof. intros (e & He & ->)%fmap_Some. eauto. Qed.

(** A run by its result. *)
Lemma run_result {A} (m : MT A) d r : (m d).1 = r → m d = (r, (m d).2).
Proof. intros <-. apply surjective_pairing. Qed.

Definition is_ok {E A} (r : result E A) : bool := match r with Ok _ => true | Throw _ => false end.

Lemma run_ok {A} (m : MT A) d : is_ok (m d).1 = true → ∃ a, m d = (Ok a, (m d).2).
Proof. destruct (m d) as [[a|] d']; [eauto|done]. Qed.
