(* ===== verification/TaskStages.v ===== *)
(** * Derived stages

    The stages the router writes by itself: the rollup of an epic from its
    tasks, and the execution stage of a task from its runs.  A change that
    returns leaves the epics it touches in agreement with their tasks, and a
    recomputed task keeps its stage when it is recomputed again. *)

From S2P Require Import Prelude Wp RunStateMachine Database TaskTables TaskRouter TaskUpdate TaskEffects TaskRefine TaskHistory TaskSamples.

Open Scope js_scope.

(** ** Writing one row *)

(** [d'] is [d] but for the row of an entity and what rows do not depend on. *)
Record rewrites (k : task_type * string) (e' : entity) (d d' : tdb) : Prop := {
  rw_entities : d'.(db_entities) = <[k := e']> d.(db_entities);
  rw_stages : d'.(db_stages) = d.(db_stages);
  rw_runs : d'.(db_runs) = d.(db_runs);
  rw_lanes : d'.(db_lanes) = d.(db_lanes)
}.

(** What the stages are computed from. *)
Record same_tables (d d' : tdb) : Prop := {
  st_entities : d'.(db_entities) = d.(db_entities);
  st_stages : d'.(db_stages) = d.(db_stages);
  st_runs : d'.(db_runs) = d.(db_runs);
  st_lanes : d'.(db_lanes) = d.(db_lanes)
}.

Lemma same_tables_log l d : same_tables d (with_log l d).
Proof. done. Qed.

(** A stage move of a row. *)
Record moved (type : task_type) (t : string) (now : instant) (d : tdb) (e e' : entity) : Prop := {
  mv_stage : col c_stage e' = Some (Text t);
  mv_reopened : col c_reopened_at e' =
    (if reopens type e (stage_move type "" t) d then Some (Stamp now) else col c_reopened_at e);
  mv_rest : ∀ column, column ≠ c_stage → column ≠ c_reopened_at → col column e' = col column e;
  mv_project : e'.(en_project) = e.(en_project);
  mv_board : e'.(en_board) = e.(en_board)
}.

Lemma stage_of_moved type t now d e e' : moved type t now d e e' → stage_of e' = t.
Proof. intros H. unfold stage_of. by rewrite (mv_stage _ _ _ _ _ _ H). Qed.

Section Stages.
Context (JSON_parse : string → option JsNumber.json_value).

(** Of the branches of an update, a stage move takes one. *)
Lemma stage_move_branches projectId id type type' e t now u d :
  update_branches JSON_parse projectId id type e (stage_move type' id t) now u d
  = stage_branch JSON_parse id type e (stage_move type' id t) now u d.
Proof.
  unfold update_branches, mbind. simpl. destruct (stage_branch _ _ _ _ _ _ _ d) as [[u'|?] d']; [|done].
  by destruct type.
Qed.

Lemma insertEvent_returns type id kind actor deltas now : ∀ d,
  wp (insertEvent type id kind actor None deltas now) (λ _ _, True) (λ _ _, False) d.
Proof. done. Qed.

(** The router's own stage moves are accepted whenever their stage exists. *)
Lemma stage_move_returns type id t e s now d :
  d.(db_entities) !! (type, id) = Some e → lookupStage t d = Some s →
  wp (runUpdate JSON_parse e.(en_project) id (stage_move type id t) now)
    (λ o _, o.(rs_previousParent) = None ∧ o.(rs_stale) = None) (λ _ _, False) d.
Proof.
  intros He Hs. unfold runUpdate. apply wp_bind, wp_get.
  assert (locateEntity e.(en_project) id (ch_entityType (stage_move type id t)) d = Some (type, e)) as ->.
  { unfold locateEntity, readEntity. simpl. rewrite He. simpl. by rewrite Z.eqb_refl. }
  apply wp_bind, wp_transaction. simpl. apply wp_bind, wp_ret, wp_bind. set (start := mk_update _ _ _ _ _ _ _).
  assert (wp (update_branches JSON_parse e.(en_project) id type e (stage_move type id t) now start)
    (λ u _, u.(u_previousParent) = None ∧ u.(u_stale) = None) (λ _ _, False) d) as Hu.
  { unfold wp. rewrite stage_move_branches. fold (wp (stage_branch JSON_parse id type e (stage_move type id t) now start)
      (λ u _, u.(u_previousParent) = None ∧ u.(u_stale) = None) (λ _ _, False) d).
    unfold stage_branch. simpl. case_bool_decide; [by apply wp_ret|]. apply wp_bind, wp_get. rewrite Hs.
    unfold assertStageAuthority, reject_if. rewrite bool_decide_false by naive_solver. simpl.
    apply wp_bind, wp_ret, wp_bind, wp_ret, wp_ret. by repeat case_match. }
  eapply wp_mono; [exact Hu| |done]. intros u d1 [Hp Hst]. apply wp_bind. unfold write_update.
  destruct (u_deltas u); repeat (wp_step; cbn beta iota).
  - by split.
  - by split.
Qed.

Lemma stage_move_deltas type id t e now d :
  t ≠ stage_of e →
  update_deltas type e (stage_move type id t) now d =
    mk_delta (FCol c_stage) (col c_stage e) (Some (Text t))
    :: (if reopens type e (stage_move type "" t) d then [mk_delta (FCol c_reopened_at) (col c_reopened_at e) (Some (Stamp now))]
        else []).
Proof.
  intros Ht. unfold update_deltas, stage_deltas, asks. simpl.
  rewrite (bool_decide_false (Some (Text t) = col c_stage e)) by (intros E; apply Ht; unfold stage_of; by rewrite <- E).
  simpl. by rewrite app_nil_r.
Qed.

Lemma moved_row type id t e now d :
  t ≠ stage_of e → moved type t now d e (updated_row e now (update_deltas type e (stage_move type id t) now d)).
Proof.
  intros Ht. rewrite (stage_move_deltas type id t e now d Ht).
  pose proof (apply_deltas_rest (update_deltas type e (stage_move type id t) now d) e) as (Hp & Hb & _).
  rewrite (stage_move_deltas type id t e now d Ht) in Hp, Hb.
  split; rewrite ?col_updated_row; simpl; try done.
  - by case_match.
  - by case_match.
  - intros column H1 H2. rewrite col_updated_row. case_match; simpl; repeat (rewrite decide_False by congruence); done.
Qed.

Lemma stage_move_moves type id t e s now d :
  d.(db_entities) !! (type, id) = Some e → lookupStage t d = Some s → t ≠ stage_of e →
  wp (runUpdate JSON_parse e.(en_project) id (stage_move type id t) now)
    (λ o d', o.(rs_previousParent) = None ∧ o.(rs_stale) = None
       ∧ ∃ e', rewrites (type, id) e' d d' ∧ moved type t now d e e') (λ _ _, False) d.
Proof.
  intros He Hs Ht. eapply wp_mono;
    [exact (wp_and _ _ _ _ _ _ (stage_move_returns type id t e s now d He Hs)
              (runUpdate_cases JSON_parse e.(en_project) id (stage_move type id t) now d (λ H, ltac:(done))))| |by intros ? ? []].
  intros o d' [[Hp Hst] (type' & e0 & ds & Hloc & _ & -> & _ & Hcase)]. split_and!; [done|done|].
  apply locate_some in Hloc as (Hl & _ & Hdecl). specialize (Hdecl _ eq_refl) as ->. rewrite He in Hl. injection Hl as <-.
  destruct Hcase as [[Hnil _]|(_ & _ & kind & action & ->)]; [by rewrite stage_move_deltas in Hnil|].
  eexists. split; [by split|by apply moved_row].
Qed.

(** ** The rollup of an epic *)

(** The epic agrees with its tasks: recomputing it asks for no change. *)
Definition settled (epicId : string) (d : tdb) : Prop :=
  ∀ x, recomputeEpicStage_change epicId d ≠ Ok (Some x).

Lemma countable_rewrite epicId k e' d d' :
  rewrites k e' d d' → is_Some (d.(db_entities) !! k) → k.1 ≠ TTask →
  countable_children epicId d' ≡ₚ countable_children epicId d.
Proof.
  intros Hrw [e He] Hk. unfold countable_children. rewrite (rw_entities _ _ _ _ Hrw).
  assert (∀ kv : task_type * string * entity, countable_position epicId d' kv.1 kv.2 = countable_position epicId d kv.1 kv.2) as Heq.
  { intros kv. unfold countable_position, lookupStage. by rewrite (rw_stages _ _ _ _ Hrw). }
  assert (∀ x, countable_position epicId d k x = None) as Hnone.
  { intros x. unfold countable_position. by rewrite bool_decide_false. }
  set (f := λ kv : task_type * string * entity, countable_position epicId d kv.1 kv.2).
  transitivity (omap f (map_to_list (<[k := e']> d.(db_entities)))).
  { induction (map_to_list _) as [|kv l IH]; [done|]. simpl. rewrite Heq. fold (f kv). by destruct (f kv); rewrite IH. }
  rewrite <- insert_delete_eq, map_to_list_insert by apply lookup_delete_eq.
  rewrite <- (map_to_list_delete d.(db_entities) k e He). simpl.
  assert (∀ x, f (k, x) = None) as Hf by done. by rewrite !Hf.
Qed.

(** The stage an epic with these tasks belongs at. *)
Definition epic_position (children : list Z) : Z :=
  if forallb (λ p, p =? DONE_POSITION)%Z children then DONE_POSITION else READY_FOR_DEV_POSITION.

Lemma epic_position_perm l l' : l ≡ₚ l' → epic_position l = epic_position l'.
Proof.
  intros Hl. unfold epic_position. assert (forallb (λ p, p =? DONE_POSITION)%Z l = forallb (λ p, p =? DONE_POSITION)%Z l') as ->; [|done].
  apply eq_iff_eq_true. rewrite !forallb_forall. split; intros H0 z Hz; apply H0; (eapply Permutation_in; [|exact Hz]); [by symmetry|exact Hl].
Qed.

Lemma recompute_epic_eq epicId d epic :
  d.(db_entities) !! (TEpic, epicId) = Some epic →
  recomputeEpicStage_change epicId d =
  Ok (s ← lookupStage (stage_of epic) d;
      if ((s.(sg_position) =? READY_FOR_DEV_POSITION) || (s.(sg_position) =? DONE_POSITION))%Z
      then (if bool_decide (countable_children epicId d = []) then None
            else move_to TEpic epicId epic (stageIdForPosition epic.(en_board) (epic_position (countable_children epicId d)) d))
      else None).
Proof.
  intros He. unfold recomputeEpicStage_change. rewrite He. f_equal.
  destruct (lookupStage (stage_of epic) d); [|done]. simpl.
  case_match; [|done]. by destruct (countable_children epicId d).
Qed.

(** What a rollup reads: the epic's row, the stages and the tasks that count. *)
Lemma recompute_epic_ext epicId d d' epic epic' :
  d.(db_entities) !! (TEpic, epicId) = Some epic → d'.(db_entities) !! (TEpic, epicId) = Some epic' →
  d'.(db_stages) = d.(db_stages) → countable_children epicId d' ≡ₚ countable_children epicId d →
  stage_of epic' = stage_of epic → epic'.(en_board) = epic.(en_board) → epic'.(en_project) = epic.(en_project) →
  recomputeEpicStage_change epicId d' = recomputeEpicStage_change epicId d.
Proof.
  intros He He' Hs Hc Hst Hb Hp. rewrite (recompute_epic_eq _ _ _ He), (recompute_epic_eq _ _ _ He'), (epic_position_perm _ _ Hc).
  unfold move_to, lookupStage, stageIdForPosition. rewrite Hs, Hst, Hb, Hp.
  assert (bool_decide (countable_children epicId d' = []) = bool_decide (countable_children epicId d = [])) as ->; [|done].
  apply bool_decide_ext. split; intros Hn; rewrite Hn in Hc; [by apply Permutation_nil_l in Hc|by apply Permutation_nil_r in Hc].
Qed.

Lemma settled_rewrite epicId id e' d d' :
  rewrites (TEpic, id) e' d d' → is_Some (d.(db_entities) !! (TEpic, id)) → id ≠ epicId → settled epicId d → settled epicId d'.
Proof.
  intros Hrw Hsome Hne Hs x. pose proof (rw_entities _ _ _ _ Hrw) as Hent.
  destruct (d.(db_entities) !! (TEpic, epicId)) as [epic|] eqn:He.
  - assert (d'.(db_entities) !! (TEpic, epicId) = Some epic) as He' by (rewrite Hent; by rewrite lookup_insert_ne by congruence).
    rewrite (recompute_epic_ext epicId d d' epic epic); [apply Hs|done|done|by eapply rw_stages| |done..].
    by eapply countable_rewrite.
  - unfold recomputeEpicStage_change. rewrite Hent, lookup_insert_ne, He by congruence. done.
Qed.

(** [applyChange] by its change and its rollups: the rest only writes the log. *)
Lemma wp_applyChange depth projectId c random now (Q : outcome → tdb → Prop) (X : task_error → tdb → Prop) d :
  assertRemoteRequest c d = (Ok tt, d) ∨ (∀ e, X e d) →
  wp (change_task JSON_parse projectId c random now)
    (λ r d1, ∀ d1', same_tables d1 d1' →
       wp (match depth with 0 => mret tt | S n => follow_on (rollup_at JSON_parse n now) c r end)
         (λ _ d2, ∀ d3, same_tables d2 d3 → Q r d3) X d1') X d →
  wp (applyChange JSON_parse depth projectId c random now) Q X d.
Proof.
  intros HX Hm. rewrite applyChange_eq. apply wp_bind.
  assert (wp (assertRemoteRequest c) (λ _ d', d' = d) X d) as Hassert.
  { destruct HX as [Ha|HX]; [unfold wp; by rewrite Ha|].
    eapply wp_mono; [apply reads_remote_request|by intros ? ? [-> _]|]. intros ? ? ->. apply HX. }
  eapply wp_mono; [exact Hassert| |done]. intros ? ? ->. apply wp_bind. eapply wp_mono; [exact Hm| |done]. intros r d1 H1. apply wp_bind.
  assert (wp (match r.(rs_wontDoRuns) with Some l => reapArtifactsForRunIds projectId l | None => mret tt end)
    (λ _ d1', same_tables d1 d1') (λ _ _, False) d1) as Hreap by (destruct (rs_wontDoRuns r); [apply wp_modify|apply wp_ret]; by split).
  eapply wp_mono; [exact Hreap| |done]. intros ? d1' Hs. apply wp_bind.
  eapply wp_mono; [by apply H1| |done]. intros ? d2 H2. apply wp_bind.
  assert (wp (match r.(rs_type), r.(rs_stale) with
              | Some TIdea, Some (x :: l) => modify (with_log [MarkComponentsStale projectId r.(rs_taskId) (x :: l)])
              | _, _ => mret tt
              end : MT unit) (λ _ d3, same_tables d2 d3) (λ _ _, False) d2) as Hlog
    by (destruct (rs_type r) as [[]|], (rs_stale r) as [[]|]; by split).
  eapply wp_mono; [exact Hlog| |done]. intros ? d3 H3. apply wp_ret. by apply H2.
Qed.

(** At most the row of the epic has changed. *)
Definition only_epic (p : string) (d d' : tdb) : Prop :=
  same_tables d d' ∨ ∃ e', rewrites (TEpic, p) e' d d' ∧ is_Some (d.(db_entities) !! (TEpic, p)).

Lemma only_epic_other p d d' k : only_epic p d d' → k ≠ (TEpic, p) → d'.(db_entities) !! k = d.(db_entities) !! k.
Proof. intros [[H _ _ _]|(e' & [H _ _ _] & _)] Hk; rewrite H; [done|]. by rewrite lookup_insert_ne. Qed.

Lemma rewrites_log k e' d d1 d' : rewrites k e' d d1 → same_tables d1 d' → rewrites k e' d d'.
Proof. intros [] []. split; congruence. Qed.

Lemma settled_same epicId d d' : same_tables d d' → settled epicId d → settled epicId d'.
Proof.
  intros [H1 H2 _ _] Hs x. specialize (Hs x).
  unfold recomputeEpicStage_change, countable_children, countable_position, lookupStage, stageIdForPosition in *.
  by rewrite H1, H2.
Qed.

Lemma settled_only_epic epicId p d d' : only_epic p d d' → p ≠ epicId → settled epicId d → settled epicId d'.
Proof. intros [H|(e' & H & Hs)] Hne; [by apply settled_same|by eapply settled_rewrite]. Qed.

(** The router's move of an epic; its follow-ons end there. *)
Lemma stage_move_applied id t epic s now d :
  d.(db_entities) !! (TEpic, id) = Some epic → lookupStage t d = Some s → t ≠ stage_of epic →
  wp (applyChange JSON_parse 0 epic.(en_project) (stage_move TEpic id t) "" now)
    (λ _ d', ∃ e', rewrites (TEpic, id) e' d d' ∧ moved TEpic t now d epic e') (λ _ _, False) d.
Proof.
  intros He Hs Hne. apply wp_applyChange; [by left|]. eapply wp_mono; [by eapply stage_move_moves| |done].
  intros o d1 (_ & _ & e' & Hrw & Hmv) d1' H1. apply wp_ret. intros d3 H3. exists e'. split; [|done].
  by eapply rewrites_log, H3; eapply rewrites_log.
Qed.

(** The request of a rollup names a stage of the board. *)
Lemma epic_request epicId d epic p c :
  d.(db_entities) !! (TEpic, epicId) = Some epic → recomputeEpicStage_change epicId d = Ok (Some (p, c)) →
  ∃ t s, p = epic.(en_project) ∧ c = stage_move TEpic epicId t ∧ lookupStage t d = Some s ∧ t ≠ stage_of epic
    ∧ stageIdForPosition epic.(en_board) (epic_position (countable_children epicId d)) d = Some t.
Proof.
  intros He. rewrite (recompute_epic_eq _ _ _ He). intros [= H].
  apply bind_Some in H as (s & _ & H). case_match; [|done]. case_bool_decide; [done|]. unfold move_to in H.
  apply bind_Some in H as (t & Ht & H). apply bind_Some in H as (t' & Ht' & H). case_match eqn:Heq; [done|].
  injection H as <- <-. assert (t' = t) as -> by (destruct t; simpl in Ht'; congruence).
  pose proof Ht as Ht0. unfold stageIdForPosition in Ht. apply fmap_Some in Ht as (s' & Hf & ->). apply find_some in Hf as [Hin _].
  assert (∃ s0, lookupStage (sg_id s') d = Some s0) as [s0 Hs0].
  { unfold lookupStage. destruct (find _ _) eqn:Hf; [eauto|]. eapply find_none in Hf; [|exact Hin]. by rewrite String.eqb_refl in Hf. }
  exists (sg_id s'), s0. split_and!; [done|done|done| |done]. by apply String.eqb_neq.
Qed.

Lemma moved_settled now p d d' epic e' t :
  d.(db_entities) !! (TEpic, p) = Some epic → rewrites (TEpic, p) e' d d' → moved TEpic t now d epic e' →
  stageIdForPosition epic.(en_board) (epic_position (countable_children p d)) d = Some t → settled p d'.
Proof.
  intros He Hrw Hmv Ht x. rewrite (recompute_epic_eq p d' e') by (rewrite (rw_entities _ _ _ _ Hrw); by rewrite lookup_insert_eq).
  assert (countable_children p d' ≡ₚ countable_children p d) as Hc by (eapply countable_rewrite; [exact Hrw|by eexists|done]).
  rewrite (mv_board _ _ _ _ _ _ Hmv), (epic_position_perm _ _ Hc).
  assert (stageIdForPosition (en_board epic) (epic_position (countable_children p d)) d' = Some t) as ->.
  { unfold stageIdForPosition in *. by rewrite (rw_stages _ _ _ _ Hrw). }
  intros [= H]. apply bind_Some in H as (s & _ & H). case_match; [|done]. case_bool_decide; [done|].
  unfold move_to in H. simpl in H. apply bind_Some in H as (t' & Ht' & H).
  assert (t' = t) as -> by (destruct t; simpl in Ht'; congruence).
  by rewrite (stage_of_moved _ _ _ _ _ _ Hmv), String.eqb_refl in H.
Qed.

(** After its rollup the epic agrees with its tasks. *)
Lemma rollup_rolls now p d :
  wp (swallow (rollup_at JSON_parse 0 now p)) (λ _ d', only_epic p d d' ∧ settled p d') (λ _ _, False) d.
Proof.
  apply wp_catch. unfold rollup_at. apply wp_bind, wp_get. assert (only_epic p d d) as Hid by (by left).
  destruct (recomputeEpicStage_change p d) as [[[pr c]|]|e] eqn:Hc.
  - destruct (d.(db_entities) !! (TEpic, p)) as [epic|] eqn:He;
      [|unfold recomputeEpicStage_change in Hc; by rewrite He in Hc].
    destruct (epic_request _ _ _ _ _ He Hc) as (t & s & -> & -> & Hs & Hne & Ht). apply wp_bind.
    apply (wp_mono _ (λ _ d', only_epic p d d' ∧ settled p d') _ (λ _ d', only_epic p d d' ∧ settled p d'));
      [|by intros; apply wp_ret|by intros; apply wp_ret].
    eapply wp_mono; [by eapply stage_move_applied| |done]. intros ? d' (e' & Hrw & Hmv).
    split; [right; exists e'; split; [done|by eexists]|]. by eapply moved_settled.
  - apply wp_ret. split; [done|]. intros x. by rewrite Hc.
  - apply wp_ret. split; [done|]. intros x. by rewrite Hc.
Qed.

(** The tasks are as before, and what the stages are computed from otherwise. *)
Record tasks_kept (d d' : tdb) : Prop := {
  tk_tasks : ∀ k, k.1 ≠ TEpic → d'.(db_entities) !! k = d.(db_entities) !! k;
  tk_stages : d'.(db_stages) = d.(db_stages);
  tk_runs : d'.(db_runs) = d.(db_runs);
  tk_lanes : d'.(db_lanes) = d.(db_lanes)
}.

#[local] Instance tasks_kept_preorder : PreOrder tasks_kept.
Proof.
  split; [by intros d; split|]. intros d1 d2 d3 [] []. split; [intros k Hk|congruence..].
  by rewrite tk_tasks1, tk_tasks0.
Qed.

Lemma only_epic_kept p d d' : only_epic p d d' → tasks_kept d d'.
Proof.
  intros H. split; [intros k Hk; eapply only_epic_other; [done|by intros ->]|..];
    by destruct H as [[]|(? & [] & _)].
Qed.

Lemma same_kept d d' : same_tables d d' → tasks_kept d d'.
Proof. intros []. split; congruence. Qed.

Lemma parent_of_kept id d d' : tasks_kept d d' → parent_of id d' = parent_of id d.
Proof. intros H. unfold parent_of. by rewrite (tk_tasks _ _ H). Qed.

(** The epics an update touches. *)
Definition touched (id : string) (r : outcome) (d : tdb) (p : string) : Prop :=
  p ≠ "" ∧ (parent_of id d = Some p ∨ r.(rs_previousParent) = Some p).

Lemma non_empty_some p : p ≠ "" → non_empty (Some p) = Some p.
Proof. by destruct p. Qed.

(** One epic of the pair that follows an update. *)
Lemma rollup_one now (v : option string) d (P : string → Prop) :
  (∀ q, P q → settled q d) →
  wp (match non_empty v with Some p => swallow (rollup_at JSON_parse 0 now p) | None => mret tt end)
    (λ _ d', tasks_kept d d' ∧ ∀ q, (P q ∨ v = Some q ∧ q ≠ "") → settled q d') (λ _ _, False) d.
Proof.
  intros HP. destruct v as [[|c p]|]; simpl; try (apply wp_ret; split; [reflexivity|]; intros q [?|[[= <-] ?]]; auto; done).
  eapply wp_mono; [apply rollup_rolls| |done]. intros ? d' [Ho Hs]. split; [by eapply only_epic_kept|].
  intros q Hq. destruct (decide (q = String c p)) as [->|Hne]; [done|].
  destruct Hq as [Hq|[[= <-] _]]; [|done]. by eapply settled_only_epic; [exact Ho|done|apply HP].
Qed.

Lemma follow_on_syncs now c id r d :
  c.(ch_taskId) = Some id → rollup_relevant c = true →
  wp (follow_on (rollup_at JSON_parse 0 now) c r)
    (λ _ d', tasks_kept d d' ∧ ∀ p, touched id r d p → settled p d') (λ _ _, False) d.
Proof.
  intros Hid Hrel. unfold follow_on. rewrite Hid, Hrel. apply wp_bind, wp_get, wp_bind.
  eapply wp_mono; [apply (rollup_one now (parent_of id d) d (λ _, False)); done| |done]. intros ? d1 [K1 S1].
  assert (∀ q, q ≠ "" → parent_of id d = Some q → settled q d1) as Hnew by (intros q ? ?; apply S1; by right).
  destruct (non_empty (rs_previousParent r)) as [p|] eqn:Hp.
  - assert (rs_previousParent r = Some p ∧ p ≠ "") as [Hprev Hne].
    { destruct (rs_previousParent r) as [[]|]; simpl in Hp; simplify_eq. done. }
    destruct (bool_decide (Some p = parent_of id d)) eqn:Hb; simpl.
    + apply wp_ret. apply bool_decide_eq_true in Hb. split; [done|]. intros q [Hq [H|H]]; apply Hnew; congruence.
    + pose proof (rollup_one now (Some p) d1 (λ q, q ≠ "" ∧ parent_of id d = Some q)) as H.
      rewrite (non_empty_some p Hne) in H. eapply wp_mono; [apply H; naive_solver| |done].
      intros ? d2 [K2 S2]. split; [by transitivity d1|]. intros q [Hq [H0|H0]]; apply S2; [by left|right].
      split; [congruence|done].
  - apply wp_ret. split; [done|]. intros q [Hq [H|H]]; [by apply Hnew|]. rewrite H in Hp. by destruct q.
Qed.

(** C12: After an accepted update that can change what an epic shows, the epic the task
    belongs to and the one it left agree with their tasks: recomputing either asks for no
    further move, although the second rollup runs after the first. *)
Theorem epic_rollup_in_sync projectId c id random now d r d' p :
  c.(ch_taskId) = Some id → rollup_relevant c = true →
  applyChange JSON_parse apply_depth projectId c random now d = (Ok r, d') →
  touched id r d' p → ∀ x, recomputeEpicStage_change p d' ≠ Ok (Some x).
Proof.
  intros Hid Hrel Hr Hp. change (settled p d'). revert p Hp.
  assert (wp (applyChange JSON_parse apply_depth projectId c random now)
    (λ r d', ∀ p, touched id r d' p → settled p d') (λ _ _, True) d) as H; [|unfold wp in H; by rewrite Hr in H].
  apply wp_applyChange; [by right|]. eapply (wp_mono _ (λ _ _, True) _ (λ _ _, True)); [|intros r0 d1 _ d1' _|done].
  - unfold wp. by destruct (change_task _ _ _ _ _ _) as [[]].
  - eapply wp_mono; [by apply follow_on_syncs| |done]. intros ? d2 [K2 S2] d3 H3 p [Hne Hp].
    eapply settled_same; [exact H3|]. apply S2. split; [done|].
    rewrite (parent_of_kept id d2 d3), (parent_of_kept id d1' d2) in Hp; [done|done|by apply same_kept].
Qed.

(** ** The execution stage of a task *)

(** What a settled stage move did. *)
Lemma stage_move_outcome type id t e now d :
  d.(db_entities) !! (type, id) = Some e → t ≠ stage_of e →
  wp (runUpdate JSON_parse e.(en_project) id (stage_move type id t) now)
    (λ _ d', is_Some (lookupStage t d) ∧ ∃ e', rewrites (type, id) e' d d' ∧ moved type t now d e e') (λ _ _, True) d.
Proof.
  intros He Ht. eapply wp_mono;
    [exact (runUpdate_cases JSON_parse e.(en_project) id (stage_move type id t) now d (λ H, ltac:(done)))| |done].
  intros o d' (type' & e0 & ds & Hloc & _ & -> & Hok & Hcase).
  apply locate_some in Hloc as (Hl & _ & Hdecl). specialize (Hdecl _ eq_refl) as ->. rewrite He in Hl. injection Hl as <-.
  pose proof (uo_deltas _ _ _ _ _ _ _ _ Hok) as Hds.
  destruct Hcase as [[Hnil _]|(_ & _ & kind & action & ->)]; [by rewrite stage_move_deltas in Hnil|].
  split; [|eexists; split; [by split|by apply moved_row]].
  rewrite stage_move_deltas in Hds by done. apply Forall_cons in Hds as [(_ & target & s & [= <-] & _ & Hs & _) _]. by exists s.
Qed.

Lemma task_move_applied id t e now d :
  d.(db_entities) !! (TTask, id) = Some e → t ≠ stage_of e →
  wp (applyChange JSON_parse apply_depth e.(en_project) (stage_move TTask id t) "" now)
    (λ _ d', ∃ e', d'.(db_entities) !! (TTask, id) = Some e' ∧ moved TTask t now d e e'
       ∧ d'.(db_stages) = d.(db_stages) ∧ d'.(db_runs) = d.(db_runs) ∧ d'.(db_lanes) = d.(db_lanes)) (λ _ _, True) d.
Proof.
  intros He Ht. apply wp_applyChange; [by right|]. eapply wp_mono; [by apply stage_move_outcome| |done].
  intros o d1 (_ & e' & [E1 S1 R1 L1] & Hmv) d1' H1. eapply wp_mono; [by apply (follow_on_syncs now _ id)| |done].
  intros ? d2 [K2 _] d3 H3. exists e'.
  assert (tasks_kept d1 d3) as [KT KS KR KL] by (transitivity d1'; [by apply same_kept|]; transitivity d2; [done|by apply same_kept]).
  split_and!; [|done|congruence..]. rewrite KT by done. rewrite E1. by rewrite lookup_insert_eq.
Qed.

Lemma gather_ext id w d d' : d'.(db_runs) = d.(db_runs) → d'.(db_lanes) = d.(db_lanes) → gatherTaskRuns id w d' = gatherTaskRuns id w d.
Proof. intros HR HL. unfold gatherTaskRuns, direct_runs, batch_runs. by rewrite HR, HL. Qed.

Lemma map_set_not_nil {V} k (v : V) m : map_set k v m ≠ [].
Proof. destruct m as [|[k' v'] m]; simpl; [done|]. by case_match. Qed.

Lemma gathered_nil (l : list gathered) m :
  fold_left (λ m g, map_set g.(ga_id) g m) l m = [] → l = [] ∧ m = [].
Proof.
  revert m. induction l as [|g l IH]; intros m; simpl; [done|]. intros [_ H]%IH. by apply map_set_not_nil in H.
Qed.

(** A later window holds no run an earlier one did not. *)
Lemma gather_nil_later id w now d :
  gatherTaskRuns id w d = [] → (∀ t, w = Some t → (t <= now)%Z) → gatherTaskRuns id (Some now) d = [].
Proof.
  intros H Hw. unfold gatherTaskRuns in *. apply fmap_nil_inv, gathered_nil in H as [[Hd Hb]%app_nil _].
  assert (∀ r, in_window (Some now) r = true → in_window w r = true) as Hin.
  { intros r. destruct w as [t|]; simpl; [|done]. specialize (Hw t eq_refl). unfold unixepoch. rewrite !Z.leb_le.
    pose proof (Z.div_le_mono t now 1000 ltac:(lia) Hw). lia. }
  assert (∀ g, g ∈ direct_runs id (Some now) d ++ batch_runs id (Some now) d → g ∈ direct_runs id w d ++ batch_runs id w d) as Hsub.
  { intros g. rewrite !elem_of_app. intros [Hg|Hg]; [left|right].
    - unfold direct_runs in *. apply list_elem_of_fmap in Hg as (r & -> & [[Ht Hr] Hl]%list_elem_of_filter).
      apply list_elem_of_fmap. exists r. split; [done|]. apply list_elem_of_filter. auto.
    - unfold batch_runs in *. apply list_elem_of_In, in_flat_map in Hg as (r & Hr & Hg). apply list_elem_of_In, in_flat_map.
      exists r. split; [done|]. destruct (tr_batch r) as [b|]; [|done]. apply list_elem_of_In. apply list_elem_of_In in Hg.
      apply list_elem_of_fmap in Hg as (l & -> & [(H1 & H2 & H3) Hl]%list_elem_of_filter).
      apply list_elem_of_fmap. exists l. split; [done|]. apply list_elem_of_filter. auto. }
  destruct (direct_runs id (Some now) d ++ batch_runs id (Some now) d) as [|g l] eqn:Hl; [done|].
  exfalso. specialize (Hsub g (list_elem_of_here _ _)). rewrite Hd, Hb in Hsub. by apply not_elem_of_nil in Hsub.
Qed.

(** A recomputed task is at its target. *)
Lemma target_stable id t e e' now d d' :
  moved TTask t now d e e' → d'.(db_stages) = d.(db_stages) → d'.(db_runs) = d.(db_runs) → d'.(db_lanes) = d.(db_lanes) →
  (∀ t s, stageIdForPosition e.(en_board) DONE_POSITION d = Some t → lookupStage t d = Some s → s.(sg_terminal) = true) →
  (∀ r, col c_reopened_at e = Some (Stamp r) → (r <= now)%Z) → t ≠ stage_of e →
  execution_target id e d = Some t → move_to TTask id e' (execution_target id e' d') = None.
Proof.
  intros Hmv HS HR HL Hdone Hclock Hne Ht.
  assert (∀ v, v = Some t ∨ v = None → move_to TTask id e' v = None) as Hat.
  { intros v [->| ->]; [|done]. unfold move_to. rewrite (stage_of_moved _ _ _ _ _ _ Hmv).
    destruct t as [|ch t]; [done|]. simpl. by rewrite Ascii.eqb_refl, String.eqb_refl. }
  apply Hat. unfold execution_target in *.
  assert (revert_stage e' d' = revert_stage e d) as ->.
  { unfold revert_stage, stageIdForPosition. by rewrite HS, (mv_board _ _ _ _ _ _ Hmv), (mv_rest _ _ _ _ _ _ Hmv) by done. }
  assert (∀ p, stageIdForPosition (en_board e') p d' = stageIdForPosition (en_board e) p d) as Hpos.
  { intros p. unfold stageIdForPosition. by rewrite HS, (mv_board _ _ _ _ _ _ Hmv). }
  rewrite !Hpos, (gather_ext id _ d d' HR HL), (stage_of_moved _ _ _ _ _ _ Hmv).
  pose proof (mv_reopened _ _ _ _ _ _ Hmv) as Hre.
  assert (stamp_of (col c_reopened_at e) = None ∨ ∃ r, col c_reopened_at e = Some (Stamp r)) as Hst
    by (destruct (col c_reopened_at e) as [[]|]; simpl; eauto).
  destruct (gatherTaskRuns id (stamp_of (col c_reopened_at e)) d) as [|g l] eqn:Hg.
  - assert (gatherTaskRuns id (stamp_of (col c_reopened_at e')) d = []) as ->.
    { rewrite Hre. case_match; [|done]. simpl. eapply gather_nil_later; [exact Hg|].
      intros r Hr. apply Hclock. destruct (col c_reopened_at e) as [[]|]; simpl in Hr; simplify_eq. done. }
    destruct (lookupStage (stage_of e) d) as [s|]; [|done]. case_bool_decide; [|done].
    destruct (lookupStage t d'); [case_bool_decide|]; auto.
  - assert (reopens TTask e (stage_move TTask "" t) d = false) as Hno.
    { unfold reopens. simpl. destruct (lookupStage t d) as [st|] eqn:Hs; [|by rewrite !andb_false_r].
      destruct (existsb merged_arm (g :: l)); [by rewrite (Hdone t st Ht Hs), !andb_false_r|].
      destruct (lookupStage (stage_of e) d) as [s|]; [|by rewrite !andb_false_r, ?andb_false_l].
      destruct (sg_terminal s); [done|by rewrite !andb_false_r]. }
    rewrite Hno in Hre. rewrite Hre, Hg.
    destruct (existsb merged_arm (g :: l)); [by left|].
    destruct (match lookupStage (stage_of e) d with Some s => sg_terminal s | None => false end); [done|].
    destruct (match lookupStage t d' with Some s => sg_terminal s | None => false end); [by right|].
    by destruct (existsb gathered_live (g :: l)); left.
Qed.

(** C13: Recomputing the execution stage of a task brings it to the stage its runs stand
    for, and a second recompute at any later time writes nothing, when the board's Done
    stage is terminal and the clock has not gone back behind the last reopening. *)
Theorem recompute_idempotent id e now now' d d' :
  d.(db_entities) !! (TTask, id) = Some e →
  (∀ t s, stageIdForPosition e.(en_board) DONE_POSITION d = Some t → lookupStage t d = Some s → s.(sg_terminal) = true) →
  (∀ r, col c_reopened_at e = Some (Stamp r) → (r <= now)%Z) →
  recomputeTaskExecutionStage JSON_parse id now d = (Ok tt, d') →
  (∃ e', d'.(db_entities) !! (TTask, id) = Some e'
     ∧ (execution_target id e d = None ∨ execution_target id e d = Some "" ∨ execution_target id e d = Some (stage_of e')))
  ∧ recomputeTaskExecutionStage JSON_parse id now' d' = (Ok tt, d').
Proof.
  intros He Hdone Hclock Hr.
  assert (∀ dx ex, dx.(db_entities) !! (TTask, id) = Some ex → move_to TTask id ex (execution_target id ex dx) = None →
    ∀ n, recomputeTaskExecutionStage JSON_parse id n dx = (Ok tt, dx)) as Hstay.
  { intros dx ex Hex Hm n. unfold recomputeTaskExecutionStage, make_request, mbind, get, recomputeTaskExecutionStage_change.
    by rewrite Hex, Hm. }
  destruct (move_to TTask id e (execution_target id e d)) as [[p c]|] eqn:Hm.
  - unfold recomputeTaskExecutionStage, make_request, mbind, get, recomputeTaskExecutionStage_change in Hr.
    rewrite He, Hm in Hr. unfold move_to in Hm. apply bind_Some in Hm as (t & Ht & Hm).
    apply bind_Some in Hm as (t' & Ht' & Hm). case_match eqn:Heq; [done|]. injection Hm as <- <-.
    assert (t' = t) as -> by (destruct t; simpl in Ht'; congruence). apply String.eqb_neq in Heq.
    pose proof (task_move_applied id t e now d He Heq) as H. unfold wp in H.
    destruct (applyChange _ _ _ _ _ _ d) as [[o|] d1]; [|done]. injection Hr as <-.
    destruct H as (e' & He' & Hmv & HS & HR & HL). split.
    + exists e'. split; [done|]. right. right. by rewrite Ht, (stage_of_moved _ _ _ _ _ _ Hmv).
    + eapply Hstay; [exact He'|]. by eapply target_stable.
  - rewrite (Hstay d e He Hm now) in Hr. injection Hr as <-. split; [|by eapply Hstay].
    exists e. split; [done|]. destruct (execution_target id e d) as [[|ch t]|]; [auto| |auto].
    right. right. f_equal.
    change ((if String.eqb (String ch t) (stage_of e) then None else Some (en_project e, stage_move TTask id (String ch t))) = None) in Hm.
    by destruct (String.eqb_spec (String ch t) (stage_of e)).
Qed.
End Stages.

(** ** Concrete stages *)

Lemma epic_rollup_in_sync_witness :
  let m := applyChange no_json apply_depth 1 (sample_update a_user "tsk_b" None (Some (Some "epc_e"))) "" 2000%Z in
  ∃ r d', m sample_backlog = (Ok r, d') ∧ touched "tsk_b" r d' "epc_e"
    ∧ ∀ x, recomputeEpicStage_change "epc_e" d' ≠ Ok (Some x).
Proof.
  intros m. destruct (run_ok m sample_backlog) as [r Hr]; [vm_compute; reflexivity|]. exists r, (m sample_backlog).2. split; [exact Hr|].
  assert (touched "tsk_b" r (m sample_backlog).2 "epc_e") as Ht by (split; [discriminate|left; vm_compute; reflexivity]).
  split; [exact Ht|].
  eapply (epic_rollup_in_sync no_json 1%Z (sample_update a_user "tsk_b" None (Some (Some "epc_e"))) "tsk_b" "" 2000%Z sample_backlog);
    [reflexivity|reflexivity|exact Hr|exact Ht].
Defined.

Lemma recompute_idempotent_witness :
  let m := recomputeTaskExecutionStage no_json "tsk_b" 2000%Z in
  ∃ d', m sample_running = (Ok tt, d') ∧ row_col TTask "tsk_b" c_stage d' = Some (Some (Text "dev"))
    ∧ recomputeTaskExecutionStage no_json "tsk_b" 3000%Z d' = (Ok tt, d').
Proof.
  intros m. assert ((m sample_running).1 = Ok tt) as Hr%run_result by (vm_compute; reflexivity).
  exists (m sample_running).2. split; [exact Hr|]. split; [vm_compute; reflexivity|].
  assert (row_col TTask "tsk_b" c_reopened_at sample_running = Some None) as (e & He & Hre)%row_col_some by (vm_compute; reflexivity).
  assert (en_board <$> sample_running.(db_entities) !! (TTask, "tsk_b") = Some "board-1-default") as Hb by (vm_compute; reflexivity).
  rewrite He in Hb. injection Hb as Hb.
  refine (proj2 (recompute_idempotent no_json "tsk_b" e 2000%Z 3000%Z sample_running _ He _ _ Hr)).
  - intros t s. rewrite Hb. intros Ht Hs. vm_compute in Ht. injection Ht as <-. vm_compute in Hs. by injection Hs as <-.
  - intros r. rewrite Hre. discriminate.
Defined.
