(* ===== verification/TaskSpec.v ===== *)
(** * What the task router promises

    The theorems of the router on its histories: operations refine the
    changelog machine, the changelog tells every column, lineage stays well
    formed, the blocking edges never close a cycle, an idea has at most one live
    task without an epic, refused requests write nothing, and an update is
    exactly its deltas, each one within the authority of its actor. *)

From S2P Require Import Prelude Wp RunStateMachine Database TaskTables TaskRouter TaskUpdate TaskEdges TaskEffects TaskRefine TaskHistory TaskSamples.

Open Scope js_scope.

(** ** Operations *)

(** C6: Every public operation of the task router (change, delete, the stage recomputes and
    sweeps, the run sweeps, and the writes of the synchronisation), errors included, is a
    sequence of tasks of the project queue, and every such task is a sequence of effects of
    the changelog machine: create a row with its event, apply an update's deltas to one row
    with one event, add or drop one edge with its event, delete one row with its events. *)
Theorem operations_refine_changelog JSON_parse local projectId op now d r d' :
  lineage_ok d → (local = true → local_operation op) →
  run_operation JSON_parse projectId op now d = (r, d') →
  rtc (queue_step JSON_parse local) d d' ∧ rtc (effect local) d d'.
Proof.
  intros Hl Hop Hr. assert (rtc (queue_step JSON_parse local) d d') as Hq.
  { pose proof (operation_queued JSON_parse local projectId op now Hop d) as H. unfold wp in H. rewrite Hr in H. by destruct r. }
  split; [done|]. by eapply steps_effects.
Qed.

(** Code that always returns. *)
Definition returns {A} (m : MT A) : Prop := ∀ d, wp m (λ _ _, True) (λ _ _, False) d.

Lemma returns_ret {A} (a : A) : returns (mret a).
Proof. done. Qed.
Lemma returns_modify f : returns (modify f).
Proof. done. Qed.
Lemma returns_bind {A B} (m : MT A) (k : A → MT B) : returns m → (∀ a, returns (k a)) → returns (mbind m k).
Proof. intros Hm Hk d. apply wp_bind. eapply wp_mono; [apply Hm|intros a d1 _; apply Hk|done]. Qed.
Lemma returns_get : returns (get : MT tdb).
Proof. done. Qed.
Lemma returns_swallow m : returns (swallow m).
Proof. intros d. apply wp_catch. unfold wp. by destruct (m d) as [[]]. Qed.

Ltac returns :=
  repeat lazymatch goal with
  | |- returns (mret _) => apply returns_ret
  | |- returns (modify _) => apply returns_modify
  | |- returns (swallow _) => apply returns_swallow
  | |- returns get => apply returns_get
  | |- returns (mbind _ _) => apply returns_bind; [|intros ?]
  | |- returns (match _ with _ => _ end) => case_match
  end.

Lemma returns_reap projectId l : returns (reapArtifactsForRunIds projectId l).
Proof. done. Qed.

Lemma returns_follow_on rollup c r : returns (follow_on rollup c r).
Proof. unfold follow_on. returns. Qed.

Lemma returns_settled depth (rollup : nat → string → MT unit) projectId c r :
  returns ((match r.(rs_wontDoRuns) with Some l => reapArtifactsForRunIds projectId l | None => mret tt end) ;;;
           (match depth with 0 => mret tt | S n => follow_on (rollup n) c r end) ;;;
           (match r.(rs_type), r.(rs_stale) with
            | Some TIdea, Some (x :: l) => modify (with_log [MarkComponentsStale projectId r.(rs_taskId) (x :: l)])
            | _, _ => mret tt
            end) ;;;
           mret r).
Proof.
  apply returns_bind; [case_match; [apply returns_reap|apply returns_ret]|intros _].
  apply returns_bind; [case_match; [apply returns_ret|apply returns_follow_on]|intros _]. returns.
Qed.

(** C14: A change that is refused, whatever the request and wherever in its handler it
    fails, leaves the whole database as it was, and the rollups after an accepted change
    never make it fail. *)
Theorem refused_change_writes_nothing JSON_parse depth projectId c random now d e d' :
  applyChange JSON_parse depth projectId c random now d = (Throw e, d') → d' = d.
Proof.
  intros Hr. assert (wp (applyChange JSON_parse depth projectId c random now) (λ _ _, True) (λ _ d', d' = d) d) as H.
  { rewrite applyChange_eq. eapply wp_reads_bind; [apply reads_remote_request| |done]. intros ? Hc. apply wp_bind.
    eapply wp_mono; [apply (change_task_effects JSON_parse false); [done|by intros ?]| |done].
    intros r0 d1 _. eapply wp_mono; [apply returns_settled|done|done]. }
  unfold wp in H. by rewrite Hr in H.
Qed.

(** ** Invariants of every history *)

(** C7: On every history of interleaved operations from an empty backlog the changelog is
    faithful: an entity that exists has events numbered from one without a gap, and for
    every column the deltas that name it chain (each starts at the value the one before
    gave) and end at the value in the row; an entity that does not exist has no events. On a
    synchronised machine the refs and lineage columns are excepted. *)
Theorem changelog_faithful JSON_parse local d t i :
  reachable JSON_parse local d →
  match d.(db_entities) !! (t, i) with
  | None => events_of t i d = []
  | Some e =>
      ev_seq <$> events_of t i d = seq 1 (length (events_of t i d))
      ∧ ∀ column, told local column →
          ∃ last, follow column None (deltas_of t i d) = Some last ∧ ∀ v, last = Some v → v = col column e
  end.
Proof.
  intros Hd. assert (changelog_ok local d) as Hcl.
  { eapply reachable_keeps; [apply changelog_effect| |exact Hd]. intros d0 (He & Hev & _) t0 i0.
    split; unfold deltas_of, events_of; rewrite Hev; [done|done|]. intros column e _. rewrite He. by rewrite lookup_empty. }
  destruct (Hcl t i) as [H1 H2 H3]. destruct (d.(db_entities) !! (t, i)) as [e|]; [|by apply H1].
  split; [done|]. intros column Ht. by apply H3.
Qed.

(** C15: On every history, synchronised or not, only tasks have a parent epic and only epics
    and tasks an originating idea, and each points to an existing entity of the right type
    in the same project. *)
Theorem lineage_wellformed JSON_parse local d t i e :
  reachable JSON_parse local d → d.(db_entities) !! (t, i) = Some e →
  (col c_parent_epic e = None ∨ t = TTask ∧ points_to TEpic e (col c_parent_epic e) d)
  ∧ (col c_originating_idea e = None ∨ t ≠ TIdea ∧ points_to TIdea e (col c_originating_idea e) d).
Proof.
  intros Hd. revert t i e. change (lineage_ok d).
  eapply reachable_keeps; [apply lineage_effect|apply empty_lineage|exact Hd].
Qed.

(** C8: On every history, the synchronisation's edge writes and re-adds after deletions
    included, the blocking dependency edges never close a cycle. *)
Theorem blocking_edges_acyclic JSON_parse local d a :
  reachable JSON_parse local d → ¬ tc (edge d.(db_deps)) a a.
Proof.
  intros Hd. revert a. change (acyclic d.(db_deps)).
  eapply (reachable_keeps JSON_parse (λ d, acyclic d.(db_deps))); [apply acyclic_effect| |exact Hd].
  intros d0 (_ & _ & ->). apply acyclic_nil.
Qed.

(** C9: On every history of a machine that is not synchronised, an idea has at most one live
    task attached to it without an epic: creation, re-parenting, detaching, unarchiving,
    lineage changes and deletions all keep it. *)
Theorem idea_needs_epic_kept JSON_parse d idea i j ei ej :
  reachable JSON_parse true d →
  d.(db_entities) !! (TTask, i) = Some ei → d.(db_entities) !! (TTask, j) = Some ej →
  direct_task idea ei = true → direct_task idea ej = true → i = j.
Proof.
  intros Hd. revert idea i j ei ej. change (epic_rule d).
  eapply reachable_keeps; [apply epic_rule_effect| |exact Hd].
  intros d0 (He & _) idea i j ei ej. rewrite He. by rewrite lookup_empty.
Qed.

(** ** The dependency check *)

(** C16: The walk of validateDependencyEdge ends on every graph, cyclic ones and diamonds
    included, one step more than there are edges being enough for it, writes nothing, and
    refuses the edge exactly when the blocked task is reachable from the prerequisite along
    blocking edges. *)
Theorem dependency_check_exact blockedId dependsOnId d :
  ∃ refused : bool,
    validateDependencyEdge blockedId dependsOnId d = (if refused then Throw (Rejected dependency_cycle) else Ok tt, d)
    ∧ (refused = true ↔ rtc (edge d.(db_deps)) dependsOnId blockedId).
Proof.
  exists (reaches (walk_fuel d.(db_deps)) d.(db_deps) blockedId ∅ [dependsOnId]). split; [|apply reaches_spec].
  unfold validateDependencyEdge, mbind, get, reject_if, reject, throw, mret.
  by destruct (reaches (walk_fuel _) _ _ _ _).
Qed.

(** ** Updates *)

(** The outcome of an update: nothing when it is refused, else the deltas the
    request asks for, in the row and in one event. *)
Definition update_outcome (projectId : Z) (id : string) (c : TaskChange) (now : instant) (d : tdb) (r : result task_error outcome)
    (d' : tdb) : Prop :=
  match r with
  | Throw _ => d' = d
  | Ok _ => ∃ type e,
      locateEntity projectId id c.(ch_entityType) d = Some (type, e)
      ∧ (∀ v, c.(ch_expectedVersion) = Some v → v = e.(en_version))
      ∧ let ds := update_deltas type e c now d in
        ds = [] ∧ d' = d
        ∨ ds ≠ [] ∧ d'.(db_deps) = d.(db_deps)
          ∧ (∃ e', d'.(db_entities) = <[(type, id) := e']> d.(db_entities)
              ∧ e'.(en_project) = projectId ∧ e'.(en_version) = (e.(en_version) + 1)%Z ∧ e'.(en_updated_at) = now
              ∧ ∀ column, col column e' = default (col column e) (delta_to column ds))
          ∧ (∃ ev, d'.(db_events) = d.(db_events) ++ [ev] ∧ ev.(ev_type) = type ∧ ev.(ev_entity) = id
              ∧ ev.(ev_seq) = S (max_seq (events_of type id d)) ∧ ev.(ev_actor) = c.(ch_actor)
              ∧ ev.(ev_run) = c.(ch_runId) ∧ ev.(ev_changes) = ds)
  end.

(** C10: An update writes exactly what its request asks for: refused, it changes nothing;
    otherwise the fourteen branches produce the listed deltas, one per column whose
    requested value differs (and the reopening stamp of a task that leaves a terminal
    stage); with none nothing is written, else the row has those values, its version is one
    higher, and one event carries the deltas, the actor, the run and the next number. *)
Theorem update_exact JSON_parse projectId id c now d r d' :
  remote_clean c → runUpdate JSON_parse projectId id c now d = (r, d') → update_outcome projectId id c now d r d'.
Proof.
  intros Hc Hr. pose proof (runUpdate_cases JSON_parse projectId id c now d Hc) as H. unfold wp in H. rewrite Hr in H.
  destruct r as [o|e0]; [|done]. destruct H as (type & e & ds & Hloc & Hv & -> & _ & Hcase). exists type, e.
  split_and!; [done|done|]. apply locate_some in Hloc as (_ & Hp & _).
  destruct Hcase as [?|(Hne & _ & kind & action & ->)]; [by left|right]. split_and!; [done|done| |by eexists].
  exists (updated_row e now (update_deltas type e c now d)). split; [done|].
  rewrite updated_row_project. split_and!; [done| |done|by intros; rewrite col_updated_row].
  unfold updated_row, set_version. done.
Qed.

(** C11: An update by anyone but the orchestrator and the synchronisation touches no other
    row, never changes the ref, the approval or the experiment of the entity, moves it only
    to an asserted stage and, like archiving, only while no run works on it, and only within
    the sandbox of the run that asks. *)
Theorem update_authority JSON_parse projectId id c now d o d' type e e' :
  local_agent c.(ch_actor) → runUpdate JSON_parse projectId id c now d = (Ok o, d') →
  locateEntity projectId id c.(ch_entityType) d = Some (type, e) → d'.(db_entities) !! (type, id) = Some e' →
  (∀ k, k ≠ (type, id) → d'.(db_entities) !! k = d.(db_entities) !! k)
  ∧ (∀ column, column ∈ [c_ref; c_approved_at; c_experiment_id; c_experiment_arm] → col column e' = col column e)
  ∧ (col c_stage e' = col c_stage e
     ∨ ∃ target s, col c_stage e' = Some (Text target) ∧ c.(ch_stageId) = Some target ∧ lookupStage target d = Some s
         ∧ s.(sg_policy) = asserted ∧ hasNonTerminalRun id d = false)
  ∧ (col c_archived_at e' = col c_archived_at e ∨ col c_archived_at e' = None ∨ hasNonTerminalRun id d = false)
  ∧ sandbox_ok (runExperimentIdFor c.(ch_runId) d) (runExperimentArmFor c.(ch_runId) d)
      (text_of (col c_experiment_id e)) (text_of (col c_experiment_arm e)) = true.
Proof.
  intros [Ho Hrem] Hr Hloc He'. assert (remote_clean c) as Hc by (by intros ?).
  pose proof (runUpdate_cases JSON_parse projectId id c now d Hc) as H. unfold wp in H. rewrite Hr in H.
  destruct H as (type0 & e0 & ds & Hloc0 & _ & _ & Hok & Hcase). rewrite Hloc in Hloc0. injection Hloc0 as <- <-.
  assert ((∀ k, k ≠ (type, id) → d'.(db_entities) !! k = d.(db_entities) !! k)
    ∧ ∀ column, col column e' = col column e
        ∨ ∃ v, col column e' = v ∧ delta_ok projectId id type e c now d (mk_delta (FCol column) (col column e) v)) as [Hk Hcol].
  { destruct Hcase as [[-> ->]|(_ & _ & kind & action & ->)].
    - split; [done|]. apply locate_some in Hloc as (Hl & _). intros column. left. congruence.
    - cbn [with_log logged_update with_next_event with_events with_entities db_entities] in *.
      rewrite lookup_insert_eq in He'. injection He' as <-. split; [intros k Hk; by rewrite lookup_insert_ne|].
      intros column. rewrite col_updated_row. destruct (delta_to column ds) as [v|] eqn:Hd; [right|by left].
      exists v. split; [done|]. apply delta_to_elem in Hd as (from & Hin).
      pose proof (uo_deltas _ _ _ _ _ _ _ _ Hok) as Hds. rewrite Forall_forall in Hds.
      pose proof (Hds _ Hin) as [Hf Hrest]. simpl in Hf. subst from. by split. }
  split_and!; [done| | | |by apply Hok].
  - intros column Hin. destruct (Hcol column) as [?|(v & Hv & _ & Hok')]; [done|exfalso]. simpl in Hok'.
    repeat (apply elem_of_cons in Hin as [->|Hin]); [done|by destruct Hok'|naive_solver..|by apply not_elem_of_nil in Hin].
  - destruct (Hcol c_stage) as [?|(v & Hv & _ & target & s & Hto & Hst & Hs & Hpol & Hlive)]; [by left|right].
    simpl in *. exists target, s. split_and!; [congruence|done|done| |by apply Hlive].
    destruct (sg_policy s); [done|]. by specialize (Hpol eq_refl).
  - destruct (Hcol c_archived_at) as [?|(v & Hv & _ & Hlive & _)]; [by left|right]. simpl in *.
    destruct (decide (v = None)) as [->|Hne]; [by left|right]. by apply Hlive.
Qed.

(** ** Concrete histories *)

Lemma operations_refine_changelog_witness :
  let m := run_operation no_json 1 (OpChange (sample_create TIdea None None) "i") 1000%Z in
  ∃ d', m sample_tdb = (Ok tt, d') ∧ row_col TIdea "ide_i" c_ref d' = Some (Some (Text "IDEA-001"))
    ∧ rtc (queue_step no_json true) sample_tdb d' ∧ rtc (effect true) sample_tdb d'.
Proof.
  intros m. assert ((m sample_tdb).1 = Ok tt) as Hr%run_result by (vm_compute; reflexivity).
  exists (m sample_tdb).2. split; [exact Hr|]. split; [vm_compute; reflexivity|].
  apply (operations_refine_changelog no_json true 1%Z (OpChange (sample_create TIdea None None) "i") 1000%Z sample_tdb (Ok tt));
    [by apply empty_lineage|done|exact Hr].
Defined.

Lemma refused_change_writes_nothing_witness :
  let m := applyChange no_json apply_depth 1 (sample_update a_user "tsk_b" (Some "dev") None) "" 2000%Z in
  ∃ d', m sample_backlog = (Throw (Rejected forbidden_stage), d') ∧ d' = sample_backlog.
Proof.
  intros m. assert ((m sample_backlog).1 = Throw (Rejected forbidden_stage)) as Hr%run_result by (vm_compute; reflexivity).
  exists (m sample_backlog).2. split; [exact Hr|].
  exact (refused_change_writes_nothing no_json apply_depth 1%Z (sample_update a_user "tsk_b" (Some "dev") None) "" 2000%Z
           sample_backlog _ _ Hr).
Defined.

Lemma changelog_faithful_witness :
  length (events_of TTask "tsk_a" sample_backlog) = 3%nat ∧
  match sample_backlog.(db_entities) !! (TTask, "tsk_a") with
  | None => events_of TTask "tsk_a" sample_backlog = []
  | Some e =>
      ev_seq <$> events_of TTask "tsk_a" sample_backlog = seq 1 (length (events_of TTask "tsk_a" sample_backlog))
      ∧ ∀ column, told true column →
          ∃ last, follow column None (deltas_of TTask "tsk_a" sample_backlog) = Some last ∧ ∀ v, last = Some v → v = col column e
  end.
Proof. split; [vm_compute; reflexivity|]. apply (changelog_faithful no_json), sample_reachable. Defined.

Lemma lineage_wellformed_witness :
  ∃ e, sample_backlog.(db_entities) !! (TTask, "tsk_a") = Some e ∧ col c_parent_epic e = Some (Text "epc_e")
    ∧ (col c_parent_epic e = None ∨ TTask = TTask ∧ points_to TEpic e (col c_parent_epic e) sample_backlog).
Proof.
  assert (row_col TTask "tsk_a" c_parent_epic sample_backlog = Some (Some (Text "epc_e"))) as (e & He & Hp)%row_col_some
    by (vm_compute; reflexivity).
  exists e. split; [exact He|]. split; [exact Hp|].
  exact (proj1 (lineage_wellformed no_json true sample_backlog TTask "tsk_a" e sample_reachable He)).
Defined.

Lemma blocking_edges_acyclic_witness :
  sample_backlog.(db_deps) = [mk_dep "tsk_a" "tsk_b" blocking] ∧ ¬ tc (edge sample_backlog.(db_deps)) "tsk_a" "tsk_a".
Proof. split; [vm_compute; reflexivity|]. apply (blocking_edges_acyclic no_json true), sample_reachable. Defined.

Lemma idea_needs_epic_kept_witness :
  ∃ e, sample_backlog.(db_entities) !! (TTask, "tsk_b") = Some e ∧ direct_task "ide_i" e = true
    ∧ ∀ j ej, sample_backlog.(db_entities) !! (TTask, j) = Some ej → direct_task "ide_i" ej = true → "tsk_b" = j.
Proof.
  assert (direct_task "ide_i" <$> sample_backlog.(db_entities) !! (TTask, "tsk_b") = Some true) as (e & He & Hd)%fmap_Some
    by (vm_compute; reflexivity).
  exists e. split; [exact He|]. split; [by symmetry|]. intros j ej Hj Dj.
  exact (idea_needs_epic_kept no_json sample_backlog "ide_i" "tsk_b" j e ej sample_reachable He Hj (eq_sym Hd) Dj).
Defined.

Lemma update_exact_witness :
  let c := sample_update a_user "tsk_b" (Some "new") (Some (Some "epc_e")) in
  let m := runUpdate no_json 1 "tsk_b" c 2000%Z in
  ∃ o d', m sample_backlog = (Ok o, d') ∧ row_col TTask "tsk_b" c_parent_epic d' = Some (Some (Text "epc_e"))
    ∧ update_outcome 1 "tsk_b" c 2000%Z sample_backlog (Ok o) d'.
Proof.
  intros c m. destruct (run_ok m sample_backlog) as [o Hr]; [vm_compute; reflexivity|]. exists o, (m sample_backlog).2. split; [exact Hr|]. split; [vm_compute; reflexivity|].
  apply (update_exact no_json); [intros H; discriminate H|exact Hr].
Defined.

Lemma update_authority_witness :
  let c := sample_update a_user "tsk_b" (Some "new") None in
  let m := runUpdate no_json 1 "tsk_b" c 2000%Z in
  ∃ o d' e e', m sample_backlog = (Ok o, d') ∧ locateEntity 1 "tsk_b" None sample_backlog = Some (TTask, e)
    ∧ d'.(db_entities) !! (TTask, "tsk_b") = Some e' ∧ col c_stage e' = Some (Text "new")
    ∧ ∀ column, column ∈ [c_ref; c_approved_at; c_experiment_id; c_experiment_arm] → col column e' = col column e.
Proof.
  intros c m. destruct (run_ok m sample_backlog) as [o Hr]; [vm_compute; reflexivity|].
  assert (row_col TTask "tsk_b" c_stage (m sample_backlog).2 = Some (Some (Text "new"))) as (e' & He' & Hs)%row_col_some
    by (vm_compute; reflexivity).
  assert (fst <$> locateEntity 1 "tsk_b" None sample_backlog = Some TTask) as ([t e] & Hl & Ht)%fmap_Some by (vm_compute; reflexivity).
  simpl in Ht. subst t. exists o, (m sample_backlog).2, e, e'. do 4 (split; [assumption|]).
  apply (update_authority no_json 1%Z "tsk_b" c 2000%Z sample_backlog o (m sample_backlog).2 TTask e e'); try assumption.
  split; discriminate.
Defined.
