(* ===== verification/SyncTables.v ===== *)
(** * Backlog synchronisation: tables, projection and wire

    The data of [services/remoteSync/]: the fields that synchronise and the
    projection of the backlog ([projection.ts]), the sync state of an entity and
    of a project ([syncStore.ts], migration 149), the messages of the service
    ([shared/types/remoteSyncWire.ts]), and the state of the process: the
    backlog of [TaskTables], the sync tables of one project and the clock.

    A key of a [base], [dirty] or [inbox] object is a field the code knows or
    another text ([w_other]); the objects are maps, since no result depends on
    the order of their members.  The backlog keeps the text of a timestamp column
    as an instant: [stamp_text] and [text_stamp] are that representation.  The
    tombstone triggers of [database/remoteSyncTriggers.ts] run with every write
    to the backlog.

    The service, the wall clock and the rest of the process are scripts in the
    state: each request takes the next reply, and each [await] the next turn,
    which sets the time and may edit the backlog. *)

From stdpp Require Import pretty.
From S2P Require Import Prelude JsString Regex RunStateMachine Database JsNumber TaskTables TaskRouter Canonical Hlc.

Open Scope js_scope.

(** ** Fields *)

Inductive field :=
  | w_title | w_summary | w_body | w_scope | w_priority | w_category | w_repo | w_stage | w_archived_at | w_sort_order
  | w_decomposed_at | w_approved_at | w_parent_epic_id | w_originating_idea_id | w_executor | w_created_at | w_depends_on
  | w_other (name : string).
#[export] Instance field_eq_dec : EqDecision field.
Proof. solve_decision. Defined.

Definition known_fields : list field :=
  [w_title; w_summary; w_body; w_scope; w_priority; w_category; w_repo; w_stage; w_archived_at; w_sort_order;
   w_decomposed_at; w_approved_at; w_parent_epic_id; w_originating_idea_id; w_executor; w_created_at; w_depends_on].

#[export] Instance field_countable : Countable field.
Proof.
  refine (inj_countable
    (λ f, match f with
          | w_other s => inr s
          | f => inl (default 0 (list_find (f =.) known_fields ≫= λ p, Some p.1))
          end)
    (λ x, match x with inl n => known_fields !! n | inr s => Some (w_other s) end) _).
  by intros [].
Defined.

Definition field_name (f : field) : string :=
  match f with
  | w_title => "title" | w_summary => "summary" | w_body => "body" | w_scope => "scope" | w_priority => "priority"
  | w_category => "category" | w_repo => "repo" | w_stage => "stage" | w_archived_at => "archived_at"
  | w_sort_order => "sort_order" | w_decomposed_at => "decomposed_at" | w_approved_at => "approved_at"
  | w_parent_epic_id => "parent_epic_id" | w_originating_idea_id => "originating_idea_id" | w_executor => "executor"
  | w_created_at => "created_at" | w_depends_on => "depends_on" | w_other name => name
  end.

Definition SYNCED_FIELDS (type : task_type) : list field :=
  match type with
  | TIdea => [w_title; w_summary; w_body; w_scope; w_priority; w_category; w_repo; w_stage; w_archived_at; w_sort_order;
              w_decomposed_at; w_created_at]
  | TEpic => [w_title; w_summary; w_body; w_priority; w_category; w_repo; w_stage; w_archived_at; w_sort_order;
              w_approved_at; w_originating_idea_id; w_created_at]
  | TTask => [w_title; w_summary; w_body; w_priority; w_category; w_repo; w_stage; w_archived_at; w_sort_order;
              w_approved_at; w_parent_epic_id; w_originating_idea_id; w_executor; w_created_at; w_depends_on]
  end.

Definition GUARDED_FIELDS : list field := [w_stage; w_archived_at].
(** Parents before children. *)
Definition APPLY_ORDER : list task_type := [TIdea; TEpic; TTask].
Definition ROLLUP_STAGE_KEY : string := "rollup".

Definition type_name (t : task_type) : string :=
  match t with TIdea => "idea" | TEpic => "epic" | TTask => "task" end.

(** [isSyncedEntityType]: the type a wire name stands for. *)
Definition isSyncedEntityType (name : string) : option task_type := find (λ t, String.eqb (type_name t) name) APPLY_ORDER.

(** The column that holds a field, but for the three read elsewhere. *)
Definition field_column (f : field) : option column :=
  match f with
  | w_title => Some c_title | w_summary => Some c_summary | w_body => Some c_body | w_scope => Some c_scope
  | w_priority => Some c_priority | w_category => Some c_category | w_repo => Some c_repo
  | w_archived_at => Some c_archived_at | w_sort_order => Some c_sort_order | w_decomposed_at => Some c_decomposed_at
  | w_approved_at => Some c_approved_at | w_parent_epic_id => Some c_parent_epic
  | w_originating_idea_id => Some c_originating_idea | w_executor => Some c_executor
  | w_stage | w_created_at | w_depends_on | w_other _ => None
  end.

(** ** The projection of the backlog *)

(** The stage key an entity projects. *)
Definition projectStageKey (type : task_type) (position entryPosition : option Z) : option string :=
  match position with
  | None => None
  | Some p =>
      if bool_decide (type = TEpic) && ((p =? READY_FOR_DEV_POSITION)%Z || (p =? DONE_POSITION)%Z) then Some ROLLUP_STAGE_KEY
      else if bool_decide (type = TTask) && (p =? IN_DEVELOPMENT_POSITION)%Z
      then Some (pretty (default READY_FOR_DEV_POSITION entryPosition))
      else Some (pretty p)
  end.

Record ProjectedEntity := mk_projected {
  pe_type : task_type;
  pe_id : string;
  pe_ref : string;
  pe_fields : list (field * json);
  pe_updatedAt : instant
}.

(** A member of a JavaScript object. *)
Fixpoint entry {A} (f : field) (l : list (field * A)) : option A :=
  match l with [] => None | (g, a) :: rest => if decide (g = f) then Some a else entry f rest end.

Definition pe_field (f : field) (p : ProjectedEntity) : option json := entry f p.(pe_fields).

Section Projection.
Context (stamp_text : instant → string).

(** The wire value of a column. *)
Definition cell_json (f : field) (v : option cell) : json :=
  match v with
  | None => jnull
  | Some (Stamp t) => jstr (stamp_text t)
  | Some (Text s) => if decide (f = w_sort_order) then jnum s else jstr s
  end.

Definition text_json (v : option string) : json := match v with Some s => jstr s | None => jnull end.

Definition position_of (stageId : option string) (d : tdb) : option Z :=
  s ← stageId; sg_position <$> lookupStage s d.

(** [DependsOnValue], sorted by prerequisite. *)
Definition depends_value (l : list (string * dependency_kind)) : json :=
  jarr ((λ p, jobj [("id", jstr p.1); ("kind", jstr (match p.2 with blocking => "blocking" | related => "related" end))]) <$> l).

Definition depends_on (taskId : string) (d : tdb) : list (string * dependency_kind) :=
  sort_keys ((λ e, (e.(dep_on), e.(dep_kind))) <$> filter (λ e, e.(dep_task) = taskId) d.(db_deps)).

Definition field_value (type : task_type) (id : string) (e : entity) (d : tdb) (f : field) : json :=
  match f with
  | w_stage => text_json (projectStageKey type (position_of (text_of (col c_stage e)) d)
                                          (position_of (text_of (col c_entry_stage e)) d))
  | w_created_at => jstr (stamp_text e.(en_created_at))
  | w_depends_on => depends_value (depends_on id d)
  | f => match field_column f with Some c => cell_json f (col c e) | None => jnull end
  end.

Definition toFields (type : task_type) (id : string) (e : entity) (d : tdb) : list (field * json) :=
  (λ f, (f, field_value type id e d f)) <$> SYNCED_FIELDS type.

(** A live row of the project outside an experiment. *)
Definition projected_row (projectId : Z) (e : entity) : bool :=
  (e.(en_project) =? projectId)%Z && bool_decide (col c_experiment_id e = None).

Definition project_row (type : task_type) (id : string) (e : entity) (d : tdb) : ProjectedEntity :=
  mk_projected type id (default "" (text_of (col c_ref e))) (toFields type id e d) e.(en_updated_at).

Definition readEntityProjection (projectId : Z) (type : task_type) (id : string) (d : tdb) : option ProjectedEntity :=
  e ← d.(db_entities) !! (type, id);
  if projected_row projectId e then Some (project_row type id e d) else None.

(** By type, then in the order of the table. *)
Definition readProjection (projectId : Z) (d : tdb) : list ProjectedEntity :=
  t ← APPLY_ORDER;
  omap (λ kv : task_type * string * entity,
          if bool_decide (kv.1.1 = t) && projected_row projectId kv.2
          then Some (project_row t kv.1.2 kv.2 d) else None) (map_to_list d.(db_entities)).

(** [projection.get(id)]: an id names one entity. *)
Definition projection_get (id : string) (l : list ProjectedEntity) : option ProjectedEntity :=
  find (λ p, String.eqb p.(pe_id) id) l.
End Projection.

(** A stage key as a position: [/^\d{1,3}$/]. *)
Definition key_position (key : string) : option Z :=
  let n := String.length key in
  if ((1 <=? n) && (n <=? 3))%nat then (λ p, Z.of_N p.1) <$> digits n 0 key else None.

Definition default_board (projectId : Z) : string := "board-" +:+ pretty projectId +:+ "-default".

Definition stageIdForKey (projectId : Z) (key : string) (d : tdb) : option string :=
  p ← key_position key; stageIdForPosition (default_board projectId) p d.

Definition kind_of_text (s : string) : option dependency_kind :=
  if String.eqb s "blocking" then Some blocking else if String.eqb s "related" then Some related else None.

Fixpoint member (key : string) (l : list (string * json)) : option json :=
  match l with [] => None | (k, v) :: rest => if String.eqb k key then Some v else member key rest end.

(** [byId.set(id, kind)] on the entries so far. *)
Definition set_dep (id : string) (k : dependency_kind) (l : list (string * dependency_kind)) : list (string * dependency_kind) :=
  map_set id k l.

Fixpoint collect_deps (l : list json) (acc : list (string * dependency_kind)) : option (list (string * dependency_kind)) :=
  match l with
  | [] => Some acc
  | jobj m :: rest =>
      match member "id" m, member "kind" m with
      | Some (jstr id), Some (jstr kind) =>
          match kind_of_text kind with Some k => collect_deps rest (set_dep id k acc) | None => None end
      | _, _ => None
      end
  | _ :: _ => None
  end.

Definition normalizeDependsOn (value : json) : option (list (string * dependency_kind)) :=
  match value with jarr l => sort_keys <$> collect_deps l [] | _ => None end.

(** ** The sync state of an entity *)

Record BaseField := mk_base { bf_value : json; bf_v : Z; bf_hlc : option string }.
Record DirtyField := mk_dirty { df_value : json; df_hlc : string }.

Inductive InboxReason := r_pending | r_shadow | r_deferred | r_missing_ref | r_unsupported | r_error.
#[export] Instance inbox_reason_eq_dec : EqDecision InboxReason.
Proof. solve_decision. Defined.

Record InboxField := mk_inbox { if_value : json; if_v : Z; if_hlc : string; if_reason : InboxReason; if_parkedAt : option instant }.
Record InboxDelete := mk_inbox_delete { id_reason : InboxReason; id_parkedAt : option instant }.

Record SyncEntityState := mk_state {
  st_type : task_type;
  st_id : string;
  st_ref : option string;
  st_version : Z;
  st_base : gmap field BaseField;
  st_dirty : gmap field DirtyField;
  st_inbox : gmap field InboxField;
  st_pendingDelete : option InboxDelete
}.

Definition st_key (st : SyncEntityState) : task_type * string := (st.(st_type), st.(st_id)).

Definition with_ref (r : option string) (st : SyncEntityState) : SyncEntityState :=
  mk_state st.(st_type) st.(st_id) r st.(st_version) st.(st_base) st.(st_dirty) st.(st_inbox) st.(st_pendingDelete).
Definition with_st_version (v : Z) (st : SyncEntityState) : SyncEntityState :=
  mk_state st.(st_type) st.(st_id) st.(st_ref) v st.(st_base) st.(st_dirty) st.(st_inbox) st.(st_pendingDelete).
Definition with_base (f : gmap field BaseField → gmap field BaseField) (st : SyncEntityState) : SyncEntityState :=
  mk_state st.(st_type) st.(st_id) st.(st_ref) st.(st_version) (f st.(st_base)) st.(st_dirty) st.(st_inbox) st.(st_pendingDelete).
Definition with_dirty (f : gmap field DirtyField → gmap field DirtyField) (st : SyncEntityState) : SyncEntityState :=
  mk_state st.(st_type) st.(st_id) st.(st_ref) st.(st_version) st.(st_base) (f st.(st_dirty)) st.(st_inbox) st.(st_pendingDelete).
Definition with_inbox (f : gmap field InboxField → gmap field InboxField) (st : SyncEntityState) : SyncEntityState :=
  mk_state st.(st_type) st.(st_id) st.(st_ref) st.(st_version) st.(st_base) st.(st_dirty) (f st.(st_inbox)) st.(st_pendingDelete).
Definition with_pendingDelete (p : option InboxDelete) (st : SyncEntityState) : SyncEntityState :=
  mk_state st.(st_type) st.(st_id) st.(st_ref) st.(st_version) st.(st_base) st.(st_dirty) st.(st_inbox) p.

Definition blankState (type : task_type) (id : string) : SyncEntityState := mk_state type id None 0 ∅ ∅ ∅ None.

(** [hasKnownBase(st, SYNCED_FIELDS[st.entityType])] *)
Definition hasKnownBase (st : SyncEntityState) : bool :=
  existsb (λ f, bool_decide (is_Some (st.(st_base) !! f))) (SYNCED_FIELDS st.(st_type)).

Definition base_v (f : field) (st : SyncEntityState) : Z := default 0%Z (bf_v <$> st.(st_base) !! f).
Definition inbox_v (f : field) (st : SyncEntityState) : Z := default 0%Z (if_v <$> st.(st_inbox) !! f).

(** ** The sync state of a project *)

Record DeleteHold := mk_hold { dh_window : list Z; dh_held : nat; dh_approveNext : bool }.
#[export] Instance delete_hold_eq_dec : EqDecision DeleteHold.
Proof. solve_decision. Defined.

Inductive RemoteSyncProjectState := ps_pending | ps_active | ps_paused | ps_error | ps_rewound | ps_upgrade_required | ps_storage_full.
#[export] Instance project_state_eq_dec : EqDecision RemoteSyncProjectState.
Proof. solve_decision. Defined.

Record SyncProjectRow := mk_sync_project {
  sp_remoteProjectId : option string;
  sp_status : RemoteSyncProjectState;
  sp_cursor : Z;
  sp_resetNextPull : bool;
  sp_epoch : option Z;
  sp_lastSyncAt : option instant;
  sp_deleteHold : DeleteHold
}.

Definition with_status (s : RemoteSyncProjectState) (p : SyncProjectRow) : SyncProjectRow :=
  mk_sync_project p.(sp_remoteProjectId) s p.(sp_cursor) p.(sp_resetNextPull) p.(sp_epoch) p.(sp_lastSyncAt) p.(sp_deleteHold).
Definition with_cursor (c : Z) (p : SyncProjectRow) : SyncProjectRow :=
  mk_sync_project p.(sp_remoteProjectId) p.(sp_status) c p.(sp_resetNextPull) p.(sp_epoch) p.(sp_lastSyncAt) p.(sp_deleteHold).
Definition with_resetNextPull (b : bool) (p : SyncProjectRow) : SyncProjectRow :=
  mk_sync_project p.(sp_remoteProjectId) p.(sp_status) p.(sp_cursor) b p.(sp_epoch) p.(sp_lastSyncAt) p.(sp_deleteHold).
Definition with_epoch (e : option Z) (p : SyncProjectRow) : SyncProjectRow :=
  mk_sync_project p.(sp_remoteProjectId) p.(sp_status) p.(sp_cursor) p.(sp_resetNextPull) e p.(sp_lastSyncAt) p.(sp_deleteHold).
Definition with_lastSyncAt (t : option instant) (p : SyncProjectRow) : SyncProjectRow :=
  mk_sync_project p.(sp_remoteProjectId) p.(sp_status) p.(sp_cursor) p.(sp_resetNextPull) p.(sp_epoch) t p.(sp_deleteHold).
Definition with_deleteHold (h : DeleteHold) (p : SyncProjectRow) : SyncProjectRow :=
  mk_sync_project p.(sp_remoteProjectId) p.(sp_status) p.(sp_cursor) p.(sp_resetNextPull) p.(sp_epoch) p.(sp_lastSyncAt) h.

(** ** Messages of the service *)

Record FieldClock := mk_clock { fc_v : Z; fc_hlc : string }.

Record FeedItem := mk_item {
  fi_entityId : string; fi_entityType : string; fi_ref : option string; fi_deleted : bool; fi_version : Z;
  fi_clocks : list (field * FieldClock); fi_fields : list (field * json)
}.

(** A conflict record: its id, entity, kind and sequence number, whether it is
    resolved, and its other members. *)
Record ConflictRecord := mk_conflict {
  cr_id : string; cr_entityId : string; cr_kind : string; cr_seq : Z; cr_resolvedAt : option Z; cr_rest : list (string * json)
}.

Record FeedPage := mk_page { fp_nextSince : Z; fp_hasMore : bool; fp_items : list FeedItem; fp_conflicts : list ConflictRecord }.

Record HeadResponse := mk_head { hr_projects : list (string * Z); hr_epoch : option Z }.

Record PushField := mk_push_field { pf_value : json; pf_baseV : Z; pf_hlc : string }.

Inductive PushOp :=
  | op_upsert (type : task_type) (id : string) (ref : option string) (fields : list (field * PushField))
  | op_tombstone (type : task_type) (id : string) (baseVersion : Z).

Definition op_type (op : PushOp) : task_type := match op with op_upsert t _ _ _ | op_tombstone t _ _ => t end.
Definition op_id (op : PushOp) : string := match op with op_upsert _ i _ _ | op_tombstone _ i _ => i end.
Definition op_fields (op : PushOp) : list (field * PushField) := match op with op_upsert _ _ _ l => l | op_tombstone _ _ _ => [] end.
Definition is_tombstone (op : PushOp) : bool := match op with op_tombstone _ _ _ => true | _ => false end.

Record PushRequest := mk_push { pr_batchId : string; pr_ops : list PushOp }.

#[export] Instance push_field_eq_dec : EqDecision PushField.
Proof. solve_decision. Defined.
#[export] Instance push_op_eq_dec : EqDecision PushOp.
Proof. solve_decision. Defined.
#[export] Instance push_request_eq_dec : EqDecision PushRequest.
Proof. solve_decision. Defined.

Inductive FieldResult := fr_accepted | fr_lost | fr_cleared | fr_noop.
Inductive OpStatus := os_applied | os_noop | os_deleted.

Record EntityState := mk_entity_state { es_ref : option string; es_version : Z; es_fields : list (field * json); es_clocks : list (field * FieldClock) }.

Record OpResult := mk_result {
  or_entityId : string; or_status : OpStatus; or_error : option string;
  or_fields : list (field * FieldResult); or_entity : option EntityState
}.

Record PushResponse := mk_response { rp_results : list OpResult; rp_conflicts : list ConflictRecord }.

(** The JSON of an operation, for its size. *)
Definition op_json (op : PushOp) : json :=
  match op with
  | op_upsert t i ref fields =>
      jobj ([("entityType", jstr (type_name t)); ("entityId", jstr i); ("kind", jstr "upsert");
             ("fields", jobj ((λ p, (field_name p.1, jobj [("value", p.2.(pf_value)); ("baseV", jnum (pretty p.2.(pf_baseV)));
                                                         ("hlc", jstr p.2.(pf_hlc))])) <$> fields))]
            ++ match ref with Some r => [("ref", jstr r)] | None => [] end)
  | op_tombstone t i v =>
      jobj [("entityType", jstr (type_name t)); ("entityId", jstr i); ("kind", jstr "tombstone"); ("baseVersion", jnum (pretty v))]
  end.

(** [SYNC_LIMITS] *)
Definition maxOpsPerPush : nat := 200.
Definition maxPushBytes : nat := 1048576.
Definition maxPullLimit : nat := 500.

(** A failed request: [SyncHttpError]. *)
Record SyncHttpError := mk_http { he_status : Z; he_code : string }.

Inductive SyncErrorKind := k_network | k_auth | k_revoked | k_not_entitled | k_upgrade_required | k_retryable | k_rewound | k_terminal.
#[export] Instance error_kind_eq_dec : EqDecision SyncErrorKind.
Proof. solve_decision. Defined.

Definition error_kind (e : SyncHttpError) : SyncErrorKind :=
  let s := e.(he_status) in let code := e.(he_code) in
  if (s =? 0)%Z then k_network
  else if (s =? 401)%Z then (if String.eqb code "device_revoked" then k_revoked else k_auth)
  else if (s =? 403)%Z && String.eqb code "not_entitled" then k_not_entitled
  else if (s =? 426)%Z then k_upgrade_required
  else if (s =? 409)%Z && String.eqb code "rewound" then k_rewound
  else if (s =? 429)%Z || (s =? 503)%Z || (500 <=? s)%Z then k_retryable
  else k_terminal.

(** What the service answers a request with. *)
Inductive reply :=
  | rep_head (h : HeadResponse)
  | rep_page (p : FeedPage)
  | rep_push (r : PushResponse)
  | rep_conflict (c : ConflictRecord)
  | rep_error (e : SyncHttpError).

Inductive request :=
  | rq_head
  | rq_pull (since : Z) (reset : bool)
  | rq_push (p : PushRequest)
  | rq_file (id : string)
  | rq_resolve (id resolution : string).

(** ** Conflict rows *)

(** What a client files with a conflict. *)
Inductive filed :=
  | fl_server (rest : list (string * json))
  | fl_edits (lost : list (field * json)) (hlc : option string)
  | fl_children (children : list (task_type * string))
  | fl_edge (removed : string * string) (kept : option (string * string)) (hlc : string).

Record conflict_row := mk_conflict_row {
  cw_id : string; cw_entityId : string; cw_kind : string; cw_record : filed; cw_seq : option Z; cw_resolvedAt : option Z;
  cw_pendingUpload : bool; cw_pendingResolution : option string
}.

(** ** The state of the process *)

(** One turn of the rest of the process. *)
Record turn := mk_turn { tn_now : instant; tn_local : tdb → tdb }.

(** What the process tells the service, its log and the user.  [Froze] and
    [Answered] mark the moments a batch is frozen (when, among how many synced
    entities, with the user's approval of a hold or not) and its answer is
    applied. *)
Inductive sync_log :=
  | Requested (r : request)
  | Froze (p : PushRequest) (at_ : instant) (synced : nat) (approved : bool)
  | Answered (p : PushRequest)
  | Logged (what : string)
  | Finding (discarded : nat).

Record sync := mk_sync {
  sy_db : tdb;
  (* in the order of the table *)
  sy_entities : list SyncEntityState;
  sy_tombs : list (task_type * string);
  sy_project : SyncProjectRow;
  sy_batch : option PushRequest;
  sy_conflicts : list conflict_row;
  sy_clock : clock;
  sy_lastHlc : option string;
  sy_now : instant;
  sy_replies : list reply;
  sy_world : list turn;
  sy_log : list sync_log
}.

Definition set_db (d : tdb) (s : sync) : sync :=
  mk_sync d s.(sy_entities) s.(sy_tombs) s.(sy_project) s.(sy_batch) s.(sy_conflicts) s.(sy_clock) s.(sy_lastHlc) s.(sy_now)
    s.(sy_replies) s.(sy_world) s.(sy_log).
Definition set_entities (l : list SyncEntityState) (s : sync) : sync :=
  mk_sync s.(sy_db) l s.(sy_tombs) s.(sy_project) s.(sy_batch) s.(sy_conflicts) s.(sy_clock) s.(sy_lastHlc) s.(sy_now)
    s.(sy_replies) s.(sy_world) s.(sy_log).
Definition set_tombs (l : list (task_type * string)) (s : sync) : sync :=
  mk_sync s.(sy_db) s.(sy_entities) l s.(sy_project) s.(sy_batch) s.(sy_conflicts) s.(sy_clock) s.(sy_lastHlc) s.(sy_now)
    s.(sy_replies) s.(sy_world) s.(sy_log).
Definition set_project (p : SyncProjectRow) (s : sync) : sync :=
  mk_sync s.(sy_db) s.(sy_entities) s.(sy_tombs) p s.(sy_batch) s.(sy_conflicts) s.(sy_clock) s.(sy_lastHlc) s.(sy_now)
    s.(sy_replies) s.(sy_world) s.(sy_log).
Definition set_batch (b : option PushRequest) (s : sync) : sync :=
  mk_sync s.(sy_db) s.(sy_entities) s.(sy_tombs) s.(sy_project) b s.(sy_conflicts) s.(sy_clock) s.(sy_lastHlc) s.(sy_now)
    s.(sy_replies) s.(sy_world) s.(sy_log).
Definition set_conflicts (l : list conflict_row) (s : sync) : sync :=
  mk_sync s.(sy_db) s.(sy_entities) s.(sy_tombs) s.(sy_project) s.(sy_batch) l s.(sy_clock) s.(sy_lastHlc) s.(sy_now)
    s.(sy_replies) s.(sy_world) s.(sy_log).
Definition set_clock (c : clock) (s : sync) : sync :=
  mk_sync s.(sy_db) s.(sy_entities) s.(sy_tombs) s.(sy_project) s.(sy_batch) s.(sy_conflicts) c s.(sy_lastHlc) s.(sy_now)
    s.(sy_replies) s.(sy_world) s.(sy_log).
Definition set_lastHlc (h : option string) (s : sync) : sync :=
  mk_sync s.(sy_db) s.(sy_entities) s.(sy_tombs) s.(sy_project) s.(sy_batch) s.(sy_conflicts) s.(sy_clock) h s.(sy_now)
    s.(sy_replies) s.(sy_world) s.(sy_log).
Definition set_replies (l : list reply) (s : sync) : sync :=
  mk_sync s.(sy_db) s.(sy_entities) s.(sy_tombs) s.(sy_project) s.(sy_batch) s.(sy_conflicts) s.(sy_clock) s.(sy_lastHlc) s.(sy_now)
    l s.(sy_world) s.(sy_log).
Definition set_world (now : instant) (l : list turn) (s : sync) : sync :=
  mk_sync s.(sy_db) s.(sy_entities) s.(sy_tombs) s.(sy_project) s.(sy_batch) s.(sy_conflicts) s.(sy_clock) s.(sy_lastHlc) now
    s.(sy_replies) l s.(sy_log).
Definition add_log (l : list sync_log) (s : sync) : sync :=
  mk_sync s.(sy_db) s.(sy_entities) s.(sy_tombs) s.(sy_project) s.(sy_batch) s.(sy_conflicts) s.(sy_clock) s.(sy_lastHlc) s.(sy_now)
    s.(sy_replies) s.(sy_world) (s.(sy_log) ++ l).

Inductive sync_error := HttpError (e : SyncHttpError) | RouterError (e : task_error).

Definition MS := M sync_error sync.
