(* ===== verification/SyncStore.v ===== *)
(** * The tables of the synchronisation

    [services/remoteSync/syncStore.ts]: reads and writes of the sync tables of
    one project, the clock of the engine, the requests to the service and the
    calls of the router.

    The rows of a table keep the order of their insertion.  A call of the
    router or of the service is an [await]: one turn of the rest of the process
    comes before a call of the router and one after it, and one before the
    reply of the service. *)

From S2P Require Import Prelude Wp Canonical Hlc Database TaskTables TaskRouter SyncTables.

Open Scope js_scope.

Section Store.
Context (projectId : Z) (deviceId : string).

(** ** Rows *)

Fixpoint put_row (st : SyncEntityState) (l : list SyncEntityState) : list SyncEntityState :=
  match l with
  | [] => [st]
  | x :: rest => if decide (st_key x = st_key st) then st :: rest else x :: put_row st rest
  end.

Definition find_row (type : task_type) (id : string) (l : list SyncEntityState) : option SyncEntityState :=
  find (λ st, bool_decide (st_key st = (type, id))) l.

Definition getEntity (type : task_type) (id : string) : MS (option SyncEntityState) :=
  gets (λ s, find_row type id s.(sy_entities)).
Definition listEntities : MS (list SyncEntityState) := gets sy_entities.
Definition in_inbox (st : SyncEntityState) : bool :=
  negb (bool_decide (st.(st_inbox) = ∅)) || bool_decide (is_Some st.(st_pendingDelete)).
Definition listInbox : MS (list SyncEntityState) := gets (λ s, filter (λ st, in_inbox st = true) s.(sy_entities)).
Definition putEntity (st : SyncEntityState) : MS unit := modify (λ s, set_entities (put_row st s.(sy_entities)) s).
Definition delete_row_of (k : task_type * string) (l : list SyncEntityState) : list SyncEntityState :=
  filter (λ st, st_key st ≠ k) l.
Definition deleteEntity (type : task_type) (id : string) : MS unit :=
  modify (λ s, set_entities (delete_row_of (type, id) s.(sy_entities)) s).

Definition listTombstones : MS (list (task_type * string)) := gets sy_tombs.
Definition deleteTombstone (type : task_type) (id : string) : MS unit :=
  modify (λ s, set_tombs (filter (λ k, k ≠ (type, id)) s.(sy_tombs)) s).

Definition updateProject (f : SyncProjectRow → SyncProjectRow) : MS unit :=
  modify (λ s, set_project (f s.(sy_project)) s).
Definition appendLog (line : string) : MS unit := modify (add_log [Logged line]).

(** ** The frozen batch *)

Definition getBatch : MS (option PushRequest) := gets sy_batch.
Definition putBatch (b : PushRequest) : MS unit := modify (set_batch (Some b)).
Definition deleteBatch : MS unit := modify (set_batch None).

(** ** Conflicts *)

Definition find_conflict (id : string) (l : list conflict_row) : option conflict_row :=
  find (λ c, String.eqb c.(cw_id) id) l.
Definition change_conflict (id : string) (f : conflict_row → conflict_row) : MS unit :=
  modify (λ s, set_conflicts ((λ c, if String.eqb c.(cw_id) id then f c else c) <$> s.(sy_conflicts)) s).

Definition upsertServerConflict (record : ConflictRecord) : MS unit :=
  s <- get ;;
  let r := fl_server record.(cr_rest) in
  match find_conflict record.(cr_id) s.(sy_conflicts) with
  | Some existing =>
      if match existing.(cw_seq) with Some q => (record.(cr_seq) <=? q)%Z | None => false end then mret tt
      else change_conflict record.(cr_id) (λ c,
             mk_conflict_row c.(cw_id) c.(cw_entityId) c.(cw_kind) r (Some record.(cr_seq)) record.(cr_resolvedAt)
               false c.(cw_pendingResolution))
  | None =>
      modify (λ s, set_conflicts (s.(sy_conflicts)
        ++ [mk_conflict_row record.(cr_id) record.(cr_entityId) record.(cr_kind) r (Some record.(cr_seq))
              record.(cr_resolvedAt) false None]) s)
  end.

Definition putClientConflict (id entityId kind : string) (record : filed) : MS unit :=
  modify (λ s, match find_conflict id s.(sy_conflicts) with
               | Some _ => s
               | None => set_conflicts (s.(sy_conflicts) ++ [mk_conflict_row id entityId kind record None None true None]) s
               end).

Definition listPendingUploads : MS (list conflict_row) := gets (λ s, filter (λ c, c.(cw_pendingUpload) = true) s.(sy_conflicts)).
Definition listPendingResolutions : MS (list (string * string)) :=
  gets (λ s, omap (λ c, if c.(cw_pendingUpload) then None else (c.(cw_id),.) <$> c.(cw_pendingResolution)) s.(sy_conflicts)).
Definition with_resolution (v : option string) (c : conflict_row) : conflict_row :=
  mk_conflict_row c.(cw_id) c.(cw_entityId) c.(cw_kind) c.(cw_record) c.(cw_seq) c.(cw_resolvedAt) c.(cw_pendingUpload) v.
Definition setPendingResolution (id resolution : string) : MS unit := change_conflict id (with_resolution (Some resolution)).
Definition clearPendingResolution (id : string) : MS unit := change_conflict id (with_resolution None).
Definition closeConflictLocally (id : string) : MS unit :=
  s <- get ;;
  change_conflict id (λ c,
    mk_conflict_row c.(cw_id) c.(cw_entityId) c.(cw_kind) c.(cw_record) c.(cw_seq) (Some s.(sy_now)) c.(cw_pendingUpload) None).

(** ** The clock of the engine *)

Definition stampNow : MS string :=
  λ s, let '(h, c) := clock_next deviceId (Z.to_N s.(sy_now)) s.(sy_clock) in (Ok h, set_clock c s).
Definition clockObserve (remote : string) : MS unit := modify (λ s, set_clock (clock_observe remote s.(sy_clock)) s).
Definition persistClock : MS unit :=
  modify (λ s, match clock_last deviceId s.(sy_clock) with Some h => set_lastHlc (Some h) s | None => s end).

(** ** Tombstone triggers *)

(** [AFTER DELETE] of a row of the project outside an experiment. *)
Definition deleted_keys (d d' : tdb) : list (task_type * string) :=
  omap (λ kv : task_type * string * entity,
          if projected_row projectId kv.2 && bool_decide (d'.(db_entities) !! kv.1 = None) then Some kv.1 else None)
       (map_to_list d.(db_entities)).

Definition add_tomb (l : list (task_type * string)) (k : task_type * string) : list (task_type * string) :=
  if bool_decide (k ∈ l) then l else l ++ [k].

(** The backlog is written. *)
Definition write_db (d' : tdb) (s : sync) : sync :=
  set_db d' (set_tombs (fold_left add_tomb (deleted_keys s.(sy_db) d') s.(sy_tombs)) s).

(** ** Awaits *)

Definition take_turn (s : sync) : sync :=
  match s.(sy_world) with
  | [] => s
  | t :: rest => set_world t.(tn_now) rest (write_db (t.(tn_local) s.(sy_db)) s)
  end.
Definition await_turn : MS unit := modify take_turn.

(** A call of the router. *)
Definition run_router {A} (m : instant → MT A) : MS A :=
  λ s, match m s.(sy_now) s.(sy_db) with
       | (Ok a, d') => (Ok a, write_db d' s)
       | (Throw e, d') => (Throw (RouterError e), write_db d' s)
       end.
Definition route {A} (m : instant → MT A) : MS A :=
  await_turn ;;;
  catch (a <- run_router m ;; await_turn ;;; mret a) (λ e, await_turn ;;; throw e).

(** A request to the service. *)
Definition bad_response : SyncHttpError := mk_http 0 "bad_response".
Definition network : SyncHttpError := mk_http 0 "network".

Definition take_reply : MS reply :=
  λ s, match s.(sy_replies) with
       | [] => (Throw (HttpError network), s)
       | rep_error e :: rest => (Throw (HttpError e), set_replies rest s)
       | r :: rest => (Ok r, set_replies rest s)
       end.
Definition ask (rq : request) : MS reply :=
  modify (add_log [Requested rq]) ;;; await_turn ;;; take_reply.

Definition expect {A} (f : reply → option A) (r : reply) : MS A :=
  match f r with Some a => mret a | None => throw (HttpError bad_response) end.

Definition client_head : MS HeadResponse := r <- ask rq_head ;; expect (λ r, match r with rep_head h => Some h | _ => None end) r.
Definition client_pull (since : Z) (reset : bool) : MS FeedPage :=
  r <- ask (rq_pull since reset) ;; expect (λ r, match r with rep_page p => Some p | _ => None end) r.
Definition client_push (p : PushRequest) : MS PushResponse :=
  r <- ask (rq_push p) ;; expect (λ r, match r with rep_push p => Some p | _ => None end) r.
Definition client_fileConflict (id : string) : MS ConflictRecord :=
  r <- ask (rq_file id) ;; expect (λ r, match r with rep_conflict c => Some c | _ => None end) r.
Definition client_resolveConflict (id resolution : string) : MS ConflictRecord :=
  r <- ask (rq_resolve id resolution) ;; expect (λ r, match r with rep_conflict c => Some c | _ => None end) r.
End Store.

(** ** Lemmas *)

Lemma find_put_eq st l : find_row st.(st_type) st.(st_id) (put_row st l) = Some st.
Proof.
  unfold find_row. induction l as [|x l IH]; simpl; [by rewrite bool_decide_true|].
  destruct (decide (st_key x = st_key st)) as [E|E]; simpl; [by rewrite bool_decide_true|].
  rewrite bool_decide_false by done. exact IH.
Qed.

Lemma find_put_ne st l type id : st_key st ≠ (type, id) → find_row type id (put_row st l) = find_row type id l.
Proof.
  intros Hne. unfold find_row. induction l as [|x l IH]; simpl; [by rewrite bool_decide_false|].
  destruct (decide (st_key x = st_key st)) as [E|E]; simpl.
  - by rewrite !bool_decide_false by congruence.
  - case_bool_decide; [done|exact IH].
Qed.

Lemma find_row_key type id l st : find_row type id l = Some st → st_key st = (type, id) ∧ st ∈ l.
Proof. unfold find_row. intros [H1 H2%bool_decide_eq_true]%find_some. split; [done|by apply list_elem_of_In]. Qed.

(** One row per entity. *)
Lemma put_row_keys st l : st_key <$> put_row st l = (if decide (st_key st ∈ st_key <$> l) then st_key <$> l else (st_key <$> l) ++ [st_key st]).
Proof.
  induction l as [|x l IH]; [done|]. cbn [put_row]. destruct (decide (st_key x = st_key st)) as [E|E].
  - rewrite !fmap_cons. rewrite decide_True; [by rewrite E|]. rewrite E. left.
  - rewrite !fmap_cons, IH. destruct (decide (st_key st ∈ st_key <$> l)) as [H|H].
    + rewrite decide_True; [done|by right].
    + rewrite decide_False; [done|]. rewrite not_elem_of_cons. by split; [|done].
Qed.

Lemma put_row_NoDup st l : NoDup (st_key <$> l) → NoDup (st_key <$> put_row st l).
Proof.
  intros H. rewrite put_row_keys. destruct (decide _) as [|Hn]; [done|]. apply NoDup_app. split_and!; [done| |apply NoDup_singleton].
  intros k Hk ->%list_elem_of_singleton. done.
Qed.

Lemma elem_put_row st x l : x ∈ put_row st l → x = st ∨ x ∈ l.
Proof.
  induction l as [|y l IH]; simpl; [intros ->%list_elem_of_singleton; by left|].
  destruct (decide (st_key y = st_key st)) as [E|E]; intros [->|Hx]%elem_of_cons; [by left|right; by right|right; left|].
  destruct (IH Hx) as [->|?]; [by left|right; by right].
Qed.
