(* ===== verification/SyncApply.v ===== *)
(** * Applying remote values

    [services/remoteSync/remoteApply.ts]: inbox entries become writes of the
    router, by the rules at the head of that file.  The object [st] the code
    mutates and finally stores is passed along; the counters of the report are
    returned with it.  Details of a parked entry are messages and are left out. *)

From stdpp Require Import pretty.
From S2P Require Import Prelude Wp RunStateMachine Database JsNumber TaskTables TaskRouter Canonical Hlc SyncTables SyncStore.

Open Scope js_scope.

Definition PRIORITIES : list string := ["P0"; "P1"; "P2"; "P3"; "P4"; "P5"; "P6"].
Definition CATEGORIES : list string := ["feature"; "bug"; "chore"].
Definition SCOPES : list string := ["small"; "large"].
Definition EXECUTORS : list string := ["agent"; "human"].

Definition isNullableString (v : json) : bool := match v with jnull | jstr _ => true | _ => false end.
Definition is_one_of (l : list string) (v : json) : bool := match v with jstr s => bool_decide (s ∈ l) | _ => false end.

(** Whether a remote value fits the local schema. *)
Definition validValue (f : field) (v : json) : bool :=
  match f with
  | w_title | w_stage => match v with jstr _ => true | _ => false end
  | w_summary | w_body | w_repo | w_archived_at | w_approved_at | w_decomposed_at | w_parent_epic_id
  | w_originating_idea_id | w_created_at => isNullableString v
  | w_priority => is_one_of PRIORITIES v
  | w_category => is_one_of CATEGORIES v
  | w_scope => match v with jnull => true | v => is_one_of SCOPES v end
  | w_executor => is_one_of EXECUTORS v
  | w_sort_order => match v with jnull | jnum _ => true | _ => false end
  | w_depends_on => bool_decide (is_Some (normalizeDependsOn v))
  | w_other _ => false
  end.

Record ApplyReport := mk_report { ar_applied : nat; ar_parked : list InboxReason; ar_deleted : nat; ar_filed : list string }.
Definition emptyReport : ApplyReport := mk_report 0 [] 0 [].
Definition applied_more (n : nat) (r : ApplyReport) : ApplyReport := mk_report (r.(ar_applied) + n) r.(ar_parked) r.(ar_deleted) r.(ar_filed).
Definition parked_more (l : list InboxReason) (r : ApplyReport) : ApplyReport := mk_report r.(ar_applied) (r.(ar_parked) ++ l) r.(ar_deleted) r.(ar_filed).
Definition deleted_more (r : ApplyReport) : ApplyReport := mk_report r.(ar_applied) r.(ar_parked) (S r.(ar_deleted)) r.(ar_filed).
Definition filed_more (id : string) (r : ApplyReport) : ApplyReport := mk_report r.(ar_applied) r.(ar_parked) r.(ar_deleted) (r.(ar_filed) ++ [id]).

(** Which table holds this id, if any. *)
Definition localTypeOf (d : tdb) (id : string) : option task_type :=
  find (λ t, bool_decide (is_Some (d.(db_entities) !! (t, id)))) APPLY_ORDER.

Definition localVersion (d : tdb) (type : task_type) (id : string) : option Z := en_version <$> d.(db_entities) !! (type, id).

Definition park (now : instant) (e : InboxField) (reason : InboxReason) : InboxField :=
  mk_inbox e.(if_value) e.(if_v) e.(if_hlc) reason
    (if bool_decide (e.(if_reason) = reason) && bool_decide (is_Some e.(if_parkedAt)) then e.(if_parkedAt) else Some now).

(** ** The request of a write *)

Record pending_change := mk_pending {
  pc_fields : TaskFieldChanges;
  pc_remote : RemoteApplyFields;
  pc_parent : option (option string);
  pc_idea : option (option string);
  pc_stage : option string;
  pc_title : option string
}.
Definition no_change : pending_change := mk_pending no_fields no_remote None None None None.

Definition on_fields (g : TaskFieldChanges → TaskFieldChanges) (p : pending_change) : pending_change :=
  mk_pending (g p.(pc_fields)) p.(pc_remote) p.(pc_parent) p.(pc_idea) p.(pc_stage) p.(pc_title).
Definition on_remote (g : RemoteApplyFields → RemoteApplyFields) (p : pending_change) : pending_change :=
  mk_pending p.(pc_fields) (g p.(pc_remote)) p.(pc_parent) p.(pc_idea) p.(pc_stage) p.(pc_title).
Definition with_pc_stage (s : option string) (p : pending_change) : pending_change :=
  mk_pending p.(pc_fields) p.(pc_remote) p.(pc_parent) p.(pc_idea) s p.(pc_title).
Definition with_pc_title (s : option string) (p : pending_change) : pending_change :=
  mk_pending p.(pc_fields) p.(pc_remote) p.(pc_parent) p.(pc_idea) p.(pc_stage) s.

(** [value as string | null], and of a rank. *)
Definition as_text (v : json) : option string := match v with jstr s => Some s | _ => None end.
Definition as_number (v : json) : option string := match v with jnum t => Some t | _ => None end.

Section Apply.
Context (JSON_parse : string → option json_value).
Context (stamp_text : instant → string) (text_stamp : string → instant).
Context (sha256 : string → string).
Context (projectId : Z) (deviceId : string).

Notation route := (route projectId).
Notation readEntityProjection := (readEntityProjection stamp_text projectId).
Notation readProjection := (readProjection stamp_text projectId).

Definition as_stamp (v : json) : option instant := text_stamp <$> as_text v.

Definition addToChange (f : field) (v : json) (p : pending_change) : pending_change :=
  match f with
  | w_title => on_fields (λ c, mk_fields (as_text v) c.(f_summary) c.(f_body) c.(f_priority) c.(f_category) c.(f_repo)
                                c.(f_scope) c.(f_executor) c.(f_attachments) c.(f_entryStageId) c.(f_sortOrder)) p
  | w_summary => on_fields (λ c, mk_fields c.(f_title) (Some (as_text v)) c.(f_body) c.(f_priority) c.(f_category) c.(f_repo)
                                c.(f_scope) c.(f_executor) c.(f_attachments) c.(f_entryStageId) c.(f_sortOrder)) p
  | w_body => on_fields (λ c, mk_fields c.(f_title) c.(f_summary) (Some (as_text v)) c.(f_priority) c.(f_category) c.(f_repo)
                                c.(f_scope) c.(f_executor) c.(f_attachments) c.(f_entryStageId) c.(f_sortOrder)) p
  | w_priority => on_fields (λ c, mk_fields c.(f_title) c.(f_summary) c.(f_body) (as_text v) c.(f_category) c.(f_repo)
                                c.(f_scope) c.(f_executor) c.(f_attachments) c.(f_entryStageId) c.(f_sortOrder)) p
  | w_category => on_fields (λ c, mk_fields c.(f_title) c.(f_summary) c.(f_body) c.(f_priority) (as_text v) c.(f_repo)
                                c.(f_scope) c.(f_executor) c.(f_attachments) c.(f_entryStageId) c.(f_sortOrder)) p
  | w_repo => on_fields (λ c, mk_fields c.(f_title) c.(f_summary) c.(f_body) c.(f_priority) c.(f_category) (Some (as_text v))
                                c.(f_scope) c.(f_executor) c.(f_attachments) c.(f_entryStageId) c.(f_sortOrder)) p
  | w_scope => on_fields (λ c, mk_fields c.(f_title) c.(f_summary) c.(f_body) c.(f_priority) c.(f_category) c.(f_repo)
                                (Some (as_text v)) c.(f_executor) c.(f_attachments) c.(f_entryStageId) c.(f_sortOrder)) p
  | w_executor => on_fields (λ c, mk_fields c.(f_title) c.(f_summary) c.(f_body) c.(f_priority) c.(f_category) c.(f_repo)
                                c.(f_scope) (as_text v) c.(f_attachments) c.(f_entryStageId) c.(f_sortOrder)) p
  | w_sort_order => on_fields (λ c, mk_fields c.(f_title) c.(f_summary) c.(f_body) c.(f_priority) c.(f_category) c.(f_repo)
                                c.(f_scope) c.(f_executor) c.(f_attachments) c.(f_entryStageId) (Some (as_number v))) p
  | w_parent_epic_id => mk_pending p.(pc_fields) p.(pc_remote) (Some (as_text v)) p.(pc_idea) p.(pc_stage) p.(pc_title)
  | w_originating_idea_id => mk_pending p.(pc_fields) p.(pc_remote) p.(pc_parent) (Some (as_text v)) p.(pc_stage) p.(pc_title)
  | w_approved_at => on_remote (λ r, mk_remote r.(rm_id) r.(rm_ref) r.(rm_createdAt) (Some (as_stamp v)) r.(rm_decomposedAt) r.(rm_archivedAt)) p
  | w_decomposed_at => on_remote (λ r, mk_remote r.(rm_id) r.(rm_ref) r.(rm_createdAt) r.(rm_approvedAt) (Some (as_stamp v)) r.(rm_archivedAt)) p
  | w_archived_at => on_remote (λ r, mk_remote r.(rm_id) r.(rm_ref) r.(rm_createdAt) r.(rm_approvedAt) r.(rm_decomposedAt) (Some (as_stamp v))) p
  | w_stage | w_created_at | w_depends_on | w_other _ => p
  end.

(** Map a failure of the router to the reason to park with; [None] is a retry. *)
Definition reasonFor (e : sync_error) : option InboxReason :=
  match e with
  | RouterError (Rejected active_runs) => Some r_deferred
  | RouterError (Rejected concurrency) => None
  | RouterError (Rejected forbidden_stage) | RouterError (Rejected not_found) => Some r_unsupported
  | _ => Some r_error
  end.

Definition update_request (st : SyncEntityState) (version : Z) (p : pending_change) : TaskChange :=
  mk_change REMOTE_ACTOR (Some st.(st_type)) (Some st.(st_id)) (Some p.(pc_fields)) p.(pc_stage) p.(pc_parent) p.(pc_idea)
    None None None (Some version) None None None None None None None None no_fields None None None (Some p.(pc_remote)).

Definition create_request (type : task_type) (p : pending_change) : TaskChange :=
  mk_change REMOTE_ACTOR (Some type) None (Some p.(pc_fields)) None p.(pc_parent) p.(pc_idea)
    None None None None None None None None None None None None
    (mk_fields p.(pc_title) None None None None None None None None None None) None p.(pc_stage) None (Some p.(pc_remote)).

Definition set_inbox (f : field) (e : InboxField) : SyncEntityState → SyncEntityState := with_inbox (<[f := e]>).
Definition drop_inbox (f : field) : SyncEntityState → SyncEntityState := with_inbox (delete f).
(** [st.base[f] = { value, v, hlc }] from the entry *)
Definition agree (f : field) (e : InboxField) : SyncEntityState → SyncEntityState :=
  with_base (<[f := mk_base e.(if_value) e.(if_v) (Some e.(if_hlc))]>).

Definition recompute_caught (id : string) : MS unit :=
  catch (route (recomputeEpicStage JSON_parse id)) (λ _, mret tt).

(** ** Fields of an entity that is here *)

Section Entity.
Context (now : instant) (d : tdb) (local : ProjectedEntity).

(** The field differs from what was agreed with the server. *)
Definition is_dirty (st : SyncEntityState) (f : field) : bool :=
  match st.(st_base) !! f with
  | None => true
  | Some base => negb (same (pe_field f local) (Some base.(bf_value)))
  end.

(** A reference to an entity that is not here. *)
Definition misses_ref (f : field) (v : json) : bool :=
  bool_decide (f = w_parent_epic_id ∨ f = w_originating_idea_id)
  && match v with jstr id => bool_decide (localTypeOf d id = None) | _ => false end.

(** One entry of the inbox: the entity after it and the writes to make. *)
Definition classify (acc : SyncEntityState * list (field * InboxField) * list (field * InboxField)) (fe : field * InboxField)
    : SyncEntityState * list (field * InboxField) * list (field * InboxField) :=
  let '(st, content, guarded) := acc in let '(f, e) := fe in
  if decide (f = w_depends_on) then acc
  else if (e.(if_v) <=? base_v f st)%Z then (drop_inbox f st, content, guarded)
  else if match pe_field f local with Some L => same (Some L) (Some e.(if_value)) | None => false end then
    let st := drop_inbox f (agree f e st) in
    (match st.(st_dirty) !! f with
     | Some dv => if same (Some dv.(df_value)) (pe_field f local) then with_dirty (delete f) st else st
     | None => st
     end, content, guarded)
  else if is_dirty st f then (set_inbox f (park now e r_shadow) st, content, guarded)
  else if negb (validValue f e.(if_value)) then (set_inbox f (park now e r_unsupported) st, content, guarded)
  else if misses_ref f e.(if_value) then (set_inbox f (park now e r_missing_ref) st, content, guarded)
  else if decide (f = w_created_at) then (drop_inbox f (agree f e st), content, guarded)
  else if decide (f ∈ GUARDED_FIELDS) then (st, content, guarded ++ [fe])
  else (st, content ++ [fe], guarded).
End Entity.

(** The request of a group, and the entries that need no write parked. *)
Record group_plan := mk_plan {
  gp_state : SyncEntityState;
  gp_change : pending_change;
  gp_recompute : bool;
  gp_written : list (field * InboxField)
}.

Definition plan_field (now : instant) (d : tdb) (p : group_plan) (fe : field * InboxField) : group_plan :=
  let '(f, e) := fe in
  let parked := mk_plan (set_inbox f (park now e r_unsupported) p.(gp_state)) p.(gp_change) p.(gp_recompute) p.(gp_written) in
  if decide (f = w_stage) then
    let key := default "" (as_text e.(if_value)) in
    if String.eqb key ROLLUP_STAGE_KEY then
      if negb (bool_decide (p.(gp_state).(st_type) = TEpic)) then parked
      else match stageIdForKey projectId "6" d with
           | None => parked
           | Some ready => mk_plan p.(gp_state) (with_pc_stage (Some ready) p.(gp_change)) true (p.(gp_written) ++ [fe])
           end
    else match stageIdForKey projectId key d with
         | None => parked
         | Some stageId => mk_plan p.(gp_state) (with_pc_stage (Some stageId) p.(gp_change)) p.(gp_recompute) (p.(gp_written) ++ [fe])
         end
  else mk_plan p.(gp_state) (addToChange f e.(if_value) p.(gp_change)) p.(gp_recompute) (p.(gp_written) ++ [fe]).

(** The written entries are agreed on. *)
Definition settle_written (l : list (field * InboxField)) (st : SyncEntityState) : SyncEntityState :=
  fold_left (λ st fe, with_dirty (delete fe.1) (drop_inbox fe.1 (agree fe.1 fe.2 st))) l st.

Definition park_written (now : instant) (reason : InboxReason) (l : list (field * InboxField)) (st : SyncEntityState) : SyncEntityState :=
  fold_left (λ st fe, set_inbox fe.1 (park now fe.2 reason) st) l st.

Definition writeGroup (st : SyncEntityState) (group : list (field * InboxField)) (report : ApplyReport)
    : MS (SyncEntityState * ApplyReport) :=
  s <- get ;;
  match localVersion s.(sy_db) st.(st_type) st.(st_id) with
  | None => mret (st, report)
  | Some version =>
      let p := fold_left (plan_field s.(sy_now) s.(sy_db)) group (mk_plan st no_change false []) in
      match p.(gp_written) with
      | [] => mret (p.(gp_state), report)
      | written =>
          catch
            (route (λ now, applyChange JSON_parse apply_depth projectId (update_request p.(gp_state) version p.(gp_change)) "" now) ;;;
             when p.(gp_recompute) do recompute_caught st.(st_id) ;;;
             mret (settle_written written p.(gp_state), applied_more (length written) report))
            (λ e, match reasonFor e with
                  | None => mret (p.(gp_state), report)
                  | Some r => s <- get ;; mret (park_written s.(sy_now) r written p.(gp_state), report)
                  end)
      end
  end.

(** One field of a create: taken into the request, or parked at the local default. *)
Definition create_step (now : instant) (d : tdb) (type : task_type)
    (acc : SyncEntityState * pending_change * list field * list field) (f : field)
    : SyncEntityState * pending_change * list field * list field :=
  let '(st, p, applied, parkedAtDefault) := acc in
  match st.(st_inbox) !! f with
  | None => acc
  | Some e =>
      if decide (f = w_depends_on) then acc
      else if negb (validValue f e.(if_value)) then (set_inbox f (park now e r_unsupported) st, p, applied, parkedAtDefault ++ [f])
      else if misses_ref d f e.(if_value) then (set_inbox f (park now e r_missing_ref) st, p, applied, parkedAtDefault ++ [f])
      else if decide (f = w_stage) then
        let key := default "" (as_text e.(if_value)) in
        match stageIdForKey projectId (if String.eqb key ROLLUP_STAGE_KEY && bool_decide (type = TEpic) then "6" else key) d with
        | None => (set_inbox f (park now e r_unsupported) st, p, applied, parkedAtDefault ++ [f])
        | Some stageId => (st, with_pc_stage (Some stageId) p, applied ++ [f], parkedAtDefault)
        end
      else if decide (f = w_title) then (st, with_pc_title (as_text e.(if_value)) p, applied ++ [f], parkedAtDefault)
      else if decide (f = w_created_at) then (st, p, applied ++ [f], parkedAtDefault)
      else (st, addToChange f e.(if_value) p, applied ++ [f], parkedAtDefault)
  end.

Definition applyCreate (st : SyncEntityState) (report : ApplyReport) : MS ApplyReport :=
  s <- get ;;
  let now := s.(sy_now) in let d := s.(sy_db) in
  let type := st.(st_type) in
  match non_empty st.(st_ref) with
  | None => putEntity (with_inbox (fmap (λ e, park now e r_error)) st) ;;; mret report
  | Some ref =>
      let createdAt := match if_value <$> st.(st_inbox) !! w_created_at with Some (jstr t) => text_stamp t | _ => now end in
      let start := on_remote (λ r, mk_remote (Some st.(st_id)) (Some ref) (Some createdAt) r.(rm_approvedAt) r.(rm_decomposedAt)
                                    r.(rm_archivedAt)) no_change in
      let '(st, p, applied, parkedAtDefault) := fold_left (create_step now d type) (SYNCED_FIELDS type) (st, start, [], []) in
      (* a create always writes an approval stamp *)
      let p := if negb (bool_decide (type = TIdea)) && bool_decide (p.(pc_remote).(rm_approvedAt) = None)
               then on_remote (λ r, mk_remote r.(rm_id) r.(rm_ref) r.(rm_createdAt) (Some None) r.(rm_decomposedAt) r.(rm_archivedAt)) p
               else p in
      r <- catch (route (λ now, applyChange JSON_parse apply_depth projectId (create_request type p) "" now) ;;; mret None)
                 (λ e, mret (Some e)) ;;
      match r with
      | Some e =>
          s <- get ;;
          putEntity (match reasonFor e with
                     | None => st
                     | Some reason => fold_left (λ st f, match st.(st_inbox) !! f with
                                                         | Some e => set_inbox f (park s.(sy_now) e reason) st
                                                         | None => st end) applied st
                     end) ;;;
          mret report
      | None =>
          when (bool_decide (type = TEpic) && bool_decide (if_value <$> st.(st_inbox) !! w_stage = Some (jstr ROLLUP_STAGE_KEY))) do
            recompute_caught st.(st_id) ;;;
          s <- get ;;
          let local := readEntityProjection type st.(st_id) s.(sy_db) in
          let at_default f := mk_base (default jnull (local ≫= pe_field f)) 0 None in
          let st := fold_left (λ st f, match st.(st_inbox) !! f with
                                       | Some e => drop_inbox f (agree f e st) | None => st end) applied st in
          let st := fold_left (λ st f, with_base (<[f := at_default f]>) st) parkedAtDefault st in
          let reasons := omap (λ f, if_reason <$> st.(st_inbox) !! f) parkedAtDefault in
          let st := match local with
                    | None => st
                    | Some _ =>
                        fold_left (λ st f,
                          if bool_decide (st.(st_base) !! f = None) && bool_decide (st.(st_inbox) !! f = None)
                             && negb (bool_decide (f = w_depends_on))
                          then with_base (<[f := at_default f]>) st else st) (SYNCED_FIELDS type) st
                    end in
          putEntity st ;;;
          mret (parked_more reasons (applied_more (length applied) report))
      end
  end.

Definition applyEntity (st0 : SyncEntityState) (report : ApplyReport) : MS ApplyReport :=
  found <- getEntity st0.(st_type) st0.(st_id) ;;
  match found with
  | None => mret report
  | Some st =>
      s <- get ;;
      match readEntityProjection st.(st_type) st.(st_id) s.(sy_db) with
      | None => if hasKnownBase st then mret report else applyCreate st report
      | Some local =>
          let '(st, content, guarded) :=
            fold_left (classify s.(sy_now) s.(sy_db) local) (map_to_list st.(st_inbox)) (st, [], []) in
          r <- (match content with [] => mret (st, report) | _ => writeGroup st content report end) ;;
          r <- (match guarded with [] => mret r | _ => writeGroup r.1 guarded r.2 end) ;;
          putEntity r.1 ;;;
          mret (parked_more (if_reason <$> (map_to_list r.1.(st_inbox)).*2) r.2)
      end
  end.

(** ** Dependencies *)

Record candidate := mk_candidate { cd_id : string; cd_entry : InboxField; cd_value : list (string * dependency_kind) }.

Definition put_depends (st : SyncEntityState) (e : option InboxField) : MS unit :=
  putEntity (with_inbox (partial_alter (λ _, e) w_depends_on) st).

(** A [depends_on] entry: parked, dropped, agreed on, or a candidate to write. *)
Definition depends_candidate (projection : list ProjectedEntity) (st : SyncEntityState) : MS (option candidate) :=
  s <- get ;;
  match st.(st_inbox) !! w_depends_on, projection_get st.(st_id) projection with
  | Some e, Some local =>
      if (e.(if_v) <=? base_v w_depends_on st)%Z then put_depends st None ;;; mret None
      else match normalizeDependsOn e.(if_value) with
      | None => put_depends st (Some (park s.(sy_now) e r_unsupported)) ;;; mret None
      | Some value =>
          if same (pe_field w_depends_on local) (Some (depends_value value)) then
            putEntity (drop_inbox w_depends_on
              (with_base (<[w_depends_on := mk_base (depends_value value) e.(if_v) (Some e.(if_hlc))]>) st)) ;;; mret None
          else if is_dirty local st w_depends_on then put_depends st (Some (park s.(sy_now) e r_shadow)) ;;; mret None
          else if existsb (λ p, negb (bool_decide (localTypeOf s.(sy_db) p.1 = Some TTask))) value
          then put_depends st (Some (park s.(sy_now) e r_missing_ref)) ;;; mret None
          else mret (Some (mk_candidate st.(st_id) e value))
      end
  | _, _ => mret None
  end.

Fixpoint mapM_opt {A B} (f : A → MS (option B)) (l : list A) : MS (list B) :=
  match l with
  | [] => mret []
  | x :: rest => r <- f x ;; rs <- mapM_opt f rest ;; mret (match r with Some b => b :: rs | None => rs end)
  end.

(** [candidates.sort((a, b) => compareHlc(a.entry.hlc, b.entry.hlc))] *)
Fixpoint insert_candidate (c : candidate) (l : list candidate) : list candidate :=
  match l with
  | [] => [c]
  | x :: rest => if (compareHlc c.(cd_entry).(if_hlc) x.(cd_entry).(if_hlc) <=? 0)%Z then c :: l else x :: insert_candidate c rest
  end.
Definition sort_candidates (l : list candidate) : list candidate := foldr insert_candidate [] l.

(** The tree of the breadth-first walk along blocking edges: who reached whom. *)
Fixpoint walk_tree (fuel : nat) (deps : list dep) (to : string) (prev : list (string * string)) (seen queue : list string)
    : list (string * string) :=
  match fuel, queue with
  | S fuel, node :: rest =>
      if String.eqb node to then prev
      else
        let '(prev, seen, queue) := fold_left (λ (acc : list (string * string) * list string * list string) id,
            let '(prev, seen, queue) := acc in
            if bool_decide (id ∈ seen) then acc else (map_set id node prev, seen ++ [id], queue ++ [id]))
          (prerequisites deps node) (prev, seen, rest) in
        walk_tree fuel deps to prev seen queue
  | _, _ => prev
  end.

Record path_edge := mk_path_edge { pa_task : string; pa_dependsOn : string; pa_hlc : string }.

(** The latest of the edges from [node] back to the start of the tree. *)
Fixpoint latest_back (fuel : nat) (prev : list (string * string)) (node : string) (best : option path_edge) : MS (option path_edge) :=
  match fuel, map_get node prev with
  | S fuel, Some owner =>
      s <- get ;;
      let st := find_row TTask owner s.(sy_entities) in
      let base := st ≫= λ st, st.(st_base) !! w_depends_on in
      let local := readEntityProjection TTask owner s.(sy_db) in
      let dirty := match base with None => true | Some b => negb (same (local ≫= pe_field w_depends_on) (Some b.(bf_value))) end in
      hlc <- (if dirty then match st ≫= λ st, st.(st_dirty) !! w_depends_on with
                            | Some dv => mret dv.(df_hlc)
                            | None => stampNow deviceId
                            end
              else mret (default "" (base ≫= bf_hlc))) ;;
      let here := mk_path_edge owner node hlc in
      latest_back fuel prev owner
        (match best with Some b => if (0 <? compareHlc hlc b.(pa_hlc))%Z then Some here else best | None => Some here end)
  | _, _ => mret best
  end.

Definition latestEdgeOnPath (from to : string) : MS (option path_edge) :=
  s <- get ;;
  let deps := s.(sy_db).(db_deps) in
  let prev := walk_tree (walk_fuel deps) deps to [] [from] [from] in
  latest_back (S (length prev)) prev to None.

(** The record of a dropped edge: its id. *)
Definition fileDependencyEdgeConflict (st : SyncEntityState) (depId winningHlc : string) (kept : option (string * string)) : MS string :=
  let id := clientConflictId sha256 "dependency_edge" st.(st_id) [st.(st_id); depId] winningHlc in
  putClientConflict id st.(st_id) "dependency_edge" (fl_edge (st.(st_id), depId) kept winningHlc) ;;; mret id.

(** One refused edge: the later edit of the two that compete loses. *)
Definition settle_cycle (candidates : list candidate) (edge : string * string) (report : ApplyReport) : MS ApplyReport :=
  match find (λ c, String.eqb c.(cd_id) edge.1) candidates with
  | None => mret report
  | Some incoming =>
      competing <- latestEdgeOnPath edge.2 edge.1 ;;
      let newer := match competing with
                   | Some c => if (0 <? compareHlc c.(pa_hlc) incoming.(cd_entry).(if_hlc))%Z then Some c else None
                   | None => None
                   end in
      match newer with
      | Some c =>
          s <- get ;;
          let owner := (λ _, depends_on c.(pa_task) s.(sy_db)) <$> readEntityProjection TTask c.(pa_task) s.(sy_db) in
          let ownerSet := filter (λ p, p.1 ≠ c.(pa_dependsOn)) (default [] owner) in
          route (applyRemoteEdges projectId [(c.(pa_task), ownerSet)]) ;;;
          route (applyRemoteEdges projectId [(incoming.(cd_id), incoming.(cd_value))]) ;;;
          ownerState <- getEntity TTask c.(pa_task) ;;
          match ownerState with
          | Some st => id <- fileDependencyEdgeConflict st c.(pa_dependsOn) incoming.(cd_entry).(if_hlc) (Some edge) ;; mret (filed_more id report)
          | None => mret report
          end
      | None =>
          st <- getEntity TTask incoming.(cd_id) ;;
          match st with
          | Some st =>
              id <- fileDependencyEdgeConflict st edge.2 (default "" (pa_hlc <$> competing))
                      ((λ c, (c.(pa_task), c.(pa_dependsOn))) <$> competing) ;;
              mret (filed_more id report)
          | None => mret report
          end
      end
  end.

Fixpoint foldM_S {A B} (f : A → B → MS B) (l : list A) (b : B) : MS B :=
  match l with [] => mret b | x :: rest => b <- f x b ;; foldM_S f rest b end.

Definition agree_candidate (c : candidate) (report : ApplyReport) : MS ApplyReport :=
  found <- getEntity TTask c.(cd_id) ;;
  match found with
  | None => mret report
  | Some st =>
      putEntity (drop_inbox w_depends_on
        (with_base (<[w_depends_on := mk_base (depends_value c.(cd_value)) c.(cd_entry).(if_v) (Some c.(cd_entry).(if_hlc))]>) st)) ;;;
      mret (applied_more 1 report)
  end.

Definition applyDependsOn (report : ApplyReport) : MS ApplyReport :=
  s <- get ;;
  let projection := readProjection s.(sy_db) in
  pending <- listInbox ;;
  candidates <- mapM_opt (depends_candidate projection)
    (filter (λ st, st.(st_type) = TTask ∧ st.(st_pendingDelete) = None) pending) ;;
  match candidates with
  | [] => mret report
  | _ =>
      let candidates := sort_candidates candidates in
      result <- route (applyRemoteEdges projectId ((λ c, (c.(cd_id), c.(cd_value))) <$> candidates)) ;;
      report <- foldM_S agree_candidate candidates report ;;
      foldM_S (settle_cycle candidates) result.(re_cycles) report
  end.

(** ** Deletes *)

(** The local values the server never acknowledged, and the latest of their stamps. *)
Definition lost_edits (st : SyncEntityState) (local : ProjectedEntity) : list (field * json) :=
  omap (λ f, match st.(st_base) !! f with
             | Some base => if same (pe_field f local) (Some base.(bf_value)) then None else Some (f, default jnull (pe_field f local))
             | None => None
             end) (SYNCED_FIELDS st.(st_type)).
Definition lost_hlc (st : SyncEntityState) (lost : list (field * json)) : option string :=
  fold_left (λ best fv, match df_hlc <$> st.(st_dirty) !! fv.1 with
                        | Some h => if match best with None => true | Some b => (0 <? compareHlc h b)%Z end then Some h else best
                        | None => best
                        end) lost None.

(** The children that survive with their lineage cleared. *)
Definition orphans_of (st : SyncEntityState) (projection : list ProjectedEntity) (s : sync) : list ProjectedEntity :=
  if bool_decide (st.(st_type) = TTask) then []
  else filter (λ e, (pe_field w_parent_epic_id e = Some (jstr st.(st_id)) ∨ pe_field w_originating_idea_id e = Some (jstr st.(st_id)))
                    ∧ (find_row e.(pe_type) e.(pe_id) s.(sy_entities) ≫= st_pendingDelete) = None) projection.

Definition applyDelete (st : SyncEntityState) (report : ApplyReport) : MS ApplyReport :=
  s <- get ;;
  let projection := readProjection s.(sy_db) in
  let local := projection_get st.(st_id) projection in
  let orphans := match local with Some _ => orphans_of st projection s | None => [] end in
  let lost := match local with Some l => lost_edits st l | None => [] end in
  let hlc := lost_hlc st lost in
  result <- route (applyRemoteDelete JSON_parse projectId st.(st_type) st.(st_id)) ;;
  match result with
  | rd_deferred =>
      s <- get ;;
      let parkedAt := match st.(st_pendingDelete) ≫= id_parkedAt with Some t => t | None => s.(sy_now) end in
      putEntity (with_pendingDelete (Some (mk_inbox_delete r_deferred (Some parkedAt))) st) ;;;
      mret (parked_more [r_deferred] report)
  | _ =>
      transaction (deleteEntity st.(st_type) st.(st_id) ;;; deleteTombstone st.(st_type) st.(st_id)) ;;;
      let report := deleted_more report in
      report <- (match lost with
                 | [] => mret report
                 | _ =>
                     let id := clientConflictId sha256 "delete_vs_edit" st.(st_id) [st.(st_id)] (default "" hlc) in
                     putClientConflict id st.(st_id) "delete_vs_edit" (fl_edits lost hlc) ;;; mret (filed_more id report)
                 end) ;;
      match orphans with
      | [] => mret report
      | _ =>
          let id := clientConflictId sha256 "orphaned" st.(st_id) (pe_id <$> orphans) "" in
          putClientConflict id st.(st_id) "orphaned" (fl_children ((λ o, (o.(pe_type), o.(pe_id))) <$> orphans)) ;;;
          mret (filed_more id report)
      end
  end.

(** ** The inbox *)

Definition applyInbox : MS ApplyReport :=
  pending <- listInbox ;;
  match pending with
  | [] => mret emptyReport
  | _ =>
      report <- foldM_S applyEntity
        (t ← APPLY_ORDER; filter (λ e, e.(st_type) = t ∧ e.(st_pendingDelete) = None) pending) emptyReport ;;
      report <- applyDependsOn report ;;
      foldM_S applyDelete (t ← rev APPLY_ORDER; filter (λ e, e.(st_type) = t ∧ is_Some e.(st_pendingDelete)) pending) report
  end.
End Apply.
