(* ===== verification/SyncEngine.v ===== *)
(** * The sync engine

    [services/remoteSync/engine.ts]: one pass of a project: re-send a frozen
    batch, read the head, pull into the inbox, apply, push the differences and
    send the conflicts.  The replies of the service are arbitrary.

    An entity's state that the code keeps mutating in a map of the pass is
    passed along.  A batch identifier is an argument.  [Date.parse] is an
    argument too. *)

From stdpp Require Import pretty.
From S2P Require Import Prelude Wp RunStateMachine Database JsNumber TaskTables TaskRouter Canonical Hlc SyncTables SyncStore SyncApply.

Open Scope js_scope.

Definition MASS_DELETE_MIN : nat := 25.
Definition MASS_DELETE_WINDOW_MS : Z := 60 * 60 * 1000.

(** [Math.ceil(synced * MASS_DELETE_FRACTION)]: a tenth, rounded up. *)
Definition tenth (n : nat) : nat := (n + 9) / 10.
Definition delete_limit (synced : nat) : nat := Nat.max MASS_DELETE_MIN (tenth synced).

Inductive pause_reason := rewound | epoch_changed | upgrade_required | revoked | not_entitled | storage_full.

Inductive PassOutcome :=
  | pass_ok (pulled pushed : nat) (apply : ApplyReport)
  | pass_skipped
  | pass_paused (why : pause_reason)
  | pass_failed (e : sync_error).

Section Engine.
Context (JSON_parse : string → option json_value).
Context (stamp_text : instant → string) (text_stamp : string → instant).
Context (Date_parse : string → option Z).
Context (sha256 : string → string).
Context (projectId : Z) (deviceId : string).
(** [randomUUID()] at a time *)
Context (randomUUID : instant → string).

Notation readEntityProjection := (readEntityProjection stamp_text projectId).
Notation readProjection := (readProjection stamp_text projectId).
Notation ask := (ask projectId).
Notation applyInbox := (applyInbox JSON_parse stamp_text text_stamp sha256 projectId deviceId).

(** ** Local changes *)

(** The fields that differ from the base get a stamp, unless they have one for this value. *)
Definition stamp_field (local : ProjectedEntity) (f : field) (acc : SyncEntityState * bool) : MS (SyncEntityState * bool) :=
  let '(st, changed) := acc in
  let L := default jnull (pe_field f local) in
  if match st.(st_base) !! f with Some B => same (Some L) (Some B.(bf_value)) | None => false end then mret acc
  else if match st.(st_dirty) !! f with Some dv => same (Some dv.(df_value)) (Some L) | None => false end then mret acc
  else h <- stampNow deviceId ;; mret (with_dirty (<[f := mk_dirty L h]>) st, true).

Definition noteLocalChange (type : task_type) (id : string) : MS unit :=
  s <- get ;;
  match s.(sy_project).(sp_remoteProjectId) with
  | None => mret tt
  | Some _ =>
      match find_row type id s.(sy_entities), readEntityProjection type id s.(sy_db) with
      | Some st, Some local =>
          r <- foldM_S (stamp_field local) (SYNCED_FIELDS type) (st, false) ;;
          when r.2 do (putEntity r.1 ;;; persistClock deviceId)
      | _, _ => mret tt
      end
  end.

(** ** Pull *)

Definition existsLocally (type : task_type) (id : string) (d : tdb) : bool :=
  bool_decide (is_Some (d.(db_entities) !! (type, id))).

(** One field of a feed item. *)
Definition ingest_field (type : task_type) (clocks : list (field * FieldClock)) (fv : field * json) (st : SyncEntityState)
    : MS SyncEntityState :=
  let '(f, value) := fv in
  match entry f clocks with
  | None => mret st
  | Some clock =>
      clockObserve clock.(fc_hlc) ;;;
      mret (if (clock.(fc_v) <=? base_v f st)%Z || (clock.(fc_v) <=? inbox_v f st)%Z then st
            else if negb (bool_decide (f ∈ SYNCED_FIELDS type))
            then with_base (<[f := mk_base value clock.(fc_v) (Some clock.(fc_hlc))]>) st
            else set_inbox f (mk_inbox value clock.(fc_v) clock.(fc_hlc) r_pending None) st)
  end.

Definition ingest_item (item : FeedItem) : MS unit :=
  match isSyncedEntityType item.(fi_entityType) with
  | None => mret tt
  | Some type =>
      s <- get ;;
      let st := default (blankState type item.(fi_entityId)) (find_row type item.(fi_entityId) s.(sy_entities)) in
      let st := with_ref (match item.(fi_ref) with Some r => Some r | None => st.(st_ref) end) st in
      if item.(fi_deleted) then
        putEntity (with_st_version (Z.max st.(st_version) item.(fi_version))
          (with_pendingDelete (Some (mk_inbox_delete r_pending None)) (with_inbox (λ _, ∅) st)))
      else if hasKnownBase st && negb (existsLocally type st.(st_id) s.(sy_db)) then putEntity st
      else
        st <- foldM_S (ingest_field type item.(fi_clocks)) item.(fi_fields)
                (with_st_version (Z.max st.(st_version) item.(fi_version)) st) ;;
        putEntity st
  end.

(** A feed page goes into the inbox, and the cursor advances, in one transaction. *)
Definition ingestPage (page : FeedPage) : MS unit :=
  transaction (
    mapM_ ingest_item page.(fp_items) ;;;
    mapM_ upsertServerConflict page.(fp_conflicts) ;;;
    updateProject (with_cursor page.(fp_nextSince))).

(** The pages from [since]: how many items, and the entities they named. *)
Fixpoint pull_loop (guard : nat) (first reset : bool) (since : Z) (count : nat) (seen : list string) : MS (nat * list string) :=
  match guard with
  | 0 => mret (count, seen)
  | S guard =>
      page <- client_pull projectId since (first && reset) ;;
      ingestPage page ;;;
      when (first && reset) do updateProject (with_resetNextPull false) ;;;
      let count := count + length page.(fp_items) in
      let seen := seen ++ (fi_entityId <$> page.(fp_items)) in
      if page.(fp_hasMore) then pull_loop guard false reset page.(fp_nextSince) count seen else mret (count, seen)
  end.
Definition pull_guard : nat := Nat.pow 10 4.
Definition pullAll (cursor : Z) (reset : bool) : MS (nat * list string) := pull_loop pull_guard true reset cursor 0 [].

(** ** Re-bootstrap after a restore of the server *)

Definition forget (st : SyncEntityState) : SyncEntityState :=
  with_st_version 0 (with_pendingDelete None (with_inbox (λ _, ∅)
    (with_base (fmap (λ b, mk_base b.(bf_value) 0 b.(bf_hlc))) st))).

(** One entity after the snapshot: removed when the server no longer has it; and
    how many of its local values the restore discards. *)
Definition after_snapshot (before : list ProjectedEntity) (seen : list string) (st : SyncEntityState) (n : nat) : MS nat :=
  let local := projection_get st.(st_id) before in
  if negb (bool_decide (st.(st_id) ∈ seen)) && hasKnownBase st then
    putEntity (with_pendingDelete (Some (mk_inbox_delete r_pending None)) st) ;;;
    mret (match local with Some _ => S n | None => n end)
  else
    mret (match local with
          | None => n
          | Some local =>
              n + length (filter (λ fe : field * InboxField,
                    is_dirty local st fe.1 = false ∧ same (pe_field fe.1 local) (Some fe.2.(if_value)) = false)
                  (map_to_list st.(st_inbox)))
          end).

Definition rebootstrap (epoch : option Z) : MS nat :=
  s <- get ;;
  let before := readProjection s.(sy_db) in
  transaction (
    deleteBatch ;;;
    l <- listEntities ;;
    mapM_ (λ st, putEntity (forget st)) l ;;;
    updateProject (λ p, with_cursor 0 (with_resetNextPull false
      (match epoch with Some _ => with_epoch epoch p | None => p end)))) ;;;
  r <- pullAll 0 true ;;
  n <- transaction (
    l <- listEntities ;;
    foldM_S (after_snapshot before r.2) l 0) ;;
  when (0 <? n)%nat do modify (add_log [Finding n]) ;;;
  mret r.1.

(** ** The diff *)

(** The edit time of a change noticed now: the row's [updated_at] where it sorts
    between the base and every stamp issued, else a new stamp. *)
Definition editTime (local : ProjectedEntity) (baseHlc : option string) : MS string :=
  let fromRow := hlcFromIso Date_parse (stamp_text local.(pe_updatedAt)) deviceId in
  next <- stampNow deviceId ;;
  mret (match fromRow with
        | Some h => if (compareHlc h next <? 0)%Z
                       && match baseHlc with None => true | Some b => (0 <? compareHlc h b)%Z end
                    then h else next
        | None => next
        end).

(** One field of the push of an entity. *)
Definition push_field (local : ProjectedEntity) (isCreate : bool) (f : field) (acc : list (field * PushField) * SyncEntityState)
    : MS (list (field * PushField) * SyncEntityState) :=
  let '(fields, st) := acc in
  let L := default jnull (pe_field f local) in
  let B := st.(st_base) !! f in
  if negb isCreate && match B with Some b => same (Some L) (Some b.(bf_value)) | None => false end
  then mret (fields, with_dirty (delete f) st)
  else
    r <- (match st.(st_dirty) !! f with
          | Some dv => if same (Some dv.(df_value)) (Some L) then mret (dv, st)
                       else h <- editTime local (B ≫= bf_hlc) ;; mret (mk_dirty L h, with_dirty (<[f := mk_dirty L h]>) st)
          | None => h <- editTime local (B ≫= bf_hlc) ;; mret (mk_dirty L h, with_dirty (<[f := mk_dirty L h]>) st)
          end) ;;
    mret (fields ++ [(f, mk_push_field L (default 0%Z (bf_v <$> B)) r.1.(df_hlc))], r.2).

Definition opFor (local : ProjectedEntity) (st : SyncEntityState) (isCreate : bool) : MS (PushOp * SyncEntityState) :=
  r <- foldM_S (push_field local isCreate) (SYNCED_FIELDS local.(pe_type)) ([], st) ;;
  mret (op_upsert local.(pe_type) local.(pe_id) (if isCreate then Some local.(pe_ref) else None) r.1, r.2).

Record diff := mk_diff { df_creates : list PushOp; df_updates : list PushOp; df_touched : list SyncEntityState }.

Definition find_state (id : string) (l : list SyncEntityState) : option SyncEntityState := find (λ st, String.eqb st.(st_id) id) l.

(** An entity that is here. *)
Definition diff_entity (states : list SyncEntityState) (local : ProjectedEntity) (acc : diff) : MS diff :=
  let st := find_state local.(pe_id) states in
  let unacknowledged := match st with None => true | Some st => negb (hasKnownBase st) && (st.(st_version) =? 0)%Z end in
  if unacknowledged then
    r <- opFor local (with_ref (Some local.(pe_ref)) (default (blankState local.(pe_type) local.(pe_id)) st)) true ;;
    mret (mk_diff (acc.(df_creates) ++ [r.1]) acc.(df_updates) (acc.(df_touched) ++ [r.2]))
  else
    match st with
    | None => mret acc
    | Some st =>
        match st.(st_pendingDelete) with
        | Some _ => mret acc
        | None =>
            r <- opFor local st false ;;
            mret (match op_fields r.1 with
                  | [] => acc
                  | _ => mk_diff acc.(df_creates) (acc.(df_updates) ++ [r.1]) (acc.(df_touched) ++ [r.2])
                  end)
        end
    end.

(** A synced entity that is gone here: a tombstone to push, or a row to forget. *)
Definition diff_delete (projection : list ProjectedEntity) (st : SyncEntityState) (acc : list PushOp) : MS (list PushOp) :=
  if bool_decide (is_Some (projection_get st.(st_id) projection)) || bool_decide (is_Some st.(st_pendingDelete)) then mret acc
  else if negb (hasKnownBase st) then
    when (bool_decide (st.(st_inbox) = ∅)) do
      transaction (deleteEntity st.(st_type) st.(st_id) ;;; deleteTombstone st.(st_type) st.(st_id)) ;;;
    mret acc
  else mret (acc ++ [op_tombstone st.(st_type) st.(st_id) st.(st_version)]).

(** Whether this pass may push its local deletes, and the hold to persist. *)
Definition applyDeleteHold (pending synced : nat) : MS (bool * DeleteHold) :=
  s <- get ;;
  let current := s.(sy_project).(sp_deleteHold) in
  let window := filter (λ t, (s.(sy_now) - MASS_DELETE_WINDOW_MS < t)%Z) current.(dh_window) in
  let limit := delete_limit synced in
  let release := (pending =? 0)%nat || current.(dh_approveNext) || (length window + pending <=? limit)%nat in
  let held := if release then 0 else pending in
  let next := mk_hold window held (if current.(dh_approveNext) && (pending =? 0)%nat then false else current.(dh_approveNext)) in
  when (negb (held =? current.(dh_held))%nat || negb (length window =? length current.(dh_window))%nat
        || negb (Bool.eqb next.(dh_approveNext) current.(dh_approveNext))) do
    (updateProject (with_deleteHold next) ;;;
     when ((0 <? held)%nat && (current.(dh_held) =? 0)%nat) do appendLog "holding deletions for confirmation") ;;;
  mret (release, next).

(** The operations that fit one push: at least one, then within both limits. *)
Fixpoint take_ops (bytes : nat) (n : nat) (l : list PushOp) : list PushOp :=
  match l with
  | [] => []
  | op :: rest =>
      let size := S (jsonByteLength (op_json op)) in
      if (0 <? n)%nat && ((maxOpsPerPush <=? n)%nat || (maxPushBytes - 4096 <? bytes + size)%nat) then []
      else op :: take_ops (bytes + size) (S n) rest
  end.

(** Freeze the next batch; [None] when there is nothing to push. *)
Definition buildBatch (skip : list string) : MS (option PushRequest) :=
  s <- get ;;
  let projection := readProjection s.(sy_db) in
  let states := s.(sy_entities) in
  df <- foldM_S (diff_entity states) projection (mk_diff [] [] []) ;;
  tombs <- foldM_S (diff_delete projection) states [] ;;
  rows <- listTombstones ;;
  mapM_ (λ k : task_type * string,
           when (negb (bool_decide (k.2 ∈ op_id <$> tombs))) do deleteTombstone k.1 k.2) rows ;;;
  let tombs := t ← rev APPLY_ORDER; filter (λ op, op_type op = t) tombs in
  h <- applyDeleteHold (length tombs) (length states) ;;
  let tombs := if fst h then tombs else [] in
  let all := filter (λ op, op_id op ∉ skip) (df.(df_creates) ++ df.(df_updates) ++ tombs) in
  let has st := bool_decide (is_Some (find_state st.(st_id) states)) in
  match all with
  | [] => mapM_ (λ st, when (has st) do putEntity st) df.(df_touched) ;;; mret None
  | _ =>
      let ops := take_ops 64 0 all in
      let request := mk_push (randomUUID s.(sy_now)) ops in
      let sentDeletes := length (filter (λ op, is_tombstone op = true) ops) in
      transaction (
        mapM_ (λ st, when (bool_decide (st.(st_id) ∈ op_id <$> ops) || has st) do putEntity st) df.(df_touched) ;;;
        putBatch request ;;;
        modify (add_log [Froze request s.(sy_now) (length states) s.(sy_project).(sp_deleteHold).(dh_approveNext)]) ;;;
        when (0 <? sentDeletes)%nat do
          (s <- get ;;
           updateProject (with_deleteHold
             (mk_hold ((snd h).(dh_window) ++ replicate sentDeletes s.(sy_now)) (snd h).(dh_held)
                      ((snd h).(dh_approveNext) && (sentDeletes <? length tombs)%nat))))) ;;;
      mret (Some request)
  end.

(** ** The user's answers to a hold *)

Definition approveHeldDeletes : MS unit :=
  s <- get ;;
  let hold := s.(sy_project).(sp_deleteHold) in
  when (negb (hold.(dh_held) =? 0)%nat) do
    (updateProject (with_deleteHold (mk_hold hold.(dh_window) hold.(dh_held) true)) ;;; appendLog "held deletions confirmed").

(** A deleted entity whose base goes back into the inbox. *)
Definition restore_entity (projection : list ProjectedEntity) (st : SyncEntityState) (n : nat) : MS nat :=
  if bool_decide (is_Some (projection_get st.(st_id) projection)) || bool_decide (is_Some st.(st_pendingDelete))
     || negb (hasKnownBase st) then mret n
  else
    st <- foldM_S (λ f st,
            match st.(st_base) !! f with
            | None => mret st
            | Some b =>
                h <- (match b.(bf_hlc) with Some h => mret h | None => stampNow deviceId end) ;;
                mret (with_base (delete f) (set_inbox f (mk_inbox b.(bf_value) b.(bf_v) h r_pending None) st))
            end) (SYNCED_FIELDS st.(st_type)) st ;;
    putEntity (with_dirty (λ _, ∅) st) ;;;
    deleteTombstone st.(st_type) st.(st_id) ;;;
    mret (S n).

Definition restoreHeldDeletes : MS nat :=
  s <- get ;;
  let projection := readProjection s.(sy_db) in
  n <- transaction (
    l <- listEntities ;;
    n <- foldM_S (restore_entity projection) l 0 ;;
    s <- get ;;
    updateProject (with_deleteHold (mk_hold s.(sy_project).(sp_deleteHold).(dh_window) 0 false)) ;;;
    mret n) ;;
  persistClock deviceId ;;;
  applyInbox ;;;
  appendLog "restored held deletions" ;;;
  mret n.

(** The user resumes after a rewind. *)
Definition resumeAfterRewind : MS unit := updateProject (λ p, with_status ps_active (with_resetNextPull true p)).

(** ** Push results *)

(** One field of an accepted operation. *)
Definition settle_field (op : PushOp) (entity : option EntityState) (fo : field * FieldResult) (st : SyncEntityState)
    : MS SyncEntityState :=
  let '(f, outcome) := fo in
  match entry f (op_fields op), entity with
  | Some sent, Some es =>
      match entry f es.(es_clocks) with
      | None => mret st
      | Some clock =>
          clockObserve clock.(fc_hlc) ;;;
          let serverValue := default jnull (entry f es.(es_fields)) in
          let clean st := match st.(st_dirty) !! f with
                          | Some dv => if same (Some dv.(df_value)) (Some sent.(pf_value)) then with_dirty (delete f) st else st
                          | None => st
                          end in
          mret (match outcome with
                | fr_accepted | fr_noop =>
                    clean (with_base (<[f := mk_base serverValue clock.(fc_v) (Some clock.(fc_hlc))]>) st)
                | fr_lost | fr_cleared =>
                    clean (set_inbox f (mk_inbox serverValue clock.(fc_v) clock.(fc_hlc) r_pending None)
                      (with_base (<[f := mk_base sent.(pf_value) sent.(pf_baseV) (st.(st_base) !! f ≫= bf_hlc)]>) st))
                end)
      end
  | _, _ => mret st
  end.

(** A field another machine changed that rode along. *)
Definition ride_along (op : PushOp) (es : EntityState) (st : SyncEntityState) (fc : field * FieldClock) : SyncEntityState :=
  let '(f, clock) := fc in
  match entry f (op_fields op), entry f es.(es_fields) with
  | None, Some value =>
      if (base_v f st <? clock.(fc_v))%Z && (inbox_v f st <? clock.(fc_v))%Z
      then set_inbox f (mk_inbox value clock.(fc_v) clock.(fc_hlc) r_pending None) st else st
  | _, _ => st
  end.

Definition settle_upsert (op : PushOp) (result : OpResult) : MS unit :=
  s <- get ;;
  let st := default (blankState (op_type op) (op_id op)) (find_row (op_type op) (op_id op) s.(sy_entities)) in
  let st := match op with op_upsert _ _ (Some r) _ => with_ref (Some r) st | _ => st end in
  match result.(or_error) with
  | Some _ => appendLog "push refused" ;;; putEntity st
  | None =>
      let st := match result.(or_entity) with
                | Some es => with_ref (match es.(es_ref) with Some r => Some r | None => st.(st_ref) end)
                               (with_st_version (Z.max st.(st_version) es.(es_version)) st)
                | None => st
                end in
      match result.(or_status) with
      | os_deleted => putEntity (with_pendingDelete (Some (mk_inbox_delete r_pending None)) st)
      | _ =>
          st <- foldM_S (settle_field op result.(or_entity)) result.(or_fields) st ;;
          putEntity (match result.(or_entity) with
                     | Some es => fold_left (ride_along op es) es.(es_clocks) st
                     | None => st
                     end)
      end
  end.

(** [new Map(request.ops.map((o) => [o.entityId, o])).get(id)] *)
Definition op_of (request : PushRequest) (id : string) : option PushOp :=
  find (λ op, String.eqb (op_id op) id) (rev request.(pr_ops)).

Definition settle_result (request : PushRequest) (result : OpResult) : MS unit :=
  match op_of request result.(or_entityId) with
  | None => mret tt
  | Some (op_tombstone type id _) =>
      match result.(or_error) with
      | Some _ => appendLog "tombstone refused"
      | None => deleteEntity type id ;;; deleteTombstone type id
      end
  | Some op => settle_upsert op result
  end.

(** A push response is applied and the frozen batch dropped, in one transaction. *)
Definition applyPushResults (request : PushRequest) (response : PushResponse) : MS unit :=
  transaction (
    mapM_ (settle_result request) response.(rp_results) ;;;
    mapM_ upsertServerConflict response.(rp_conflicts) ;;;
    deleteBatch ;;;
    modify (add_log [Answered request])).

Definition pushFrozen (request : PushRequest) : MS unit :=
  response <- client_push projectId request ;; applyPushResults request response.

Definition resendFrozenBatch : MS unit :=
  stored <- getBatch ;;
  match stored with None => mret tt | Some request => pushFrozen request end.

(** ** Conflicts *)

Definition upload_one (c : conflict_row) : MS unit :=
  record <- client_fileConflict projectId c.(cw_id) ;; upsertServerConflict record.

Definition resolve_one (r : string * string) : MS unit :=
  catch (record <- client_resolveConflict projectId r.1 r.2 ;;
         transaction (upsertServerConflict record ;;; clearPendingResolution r.1))
        (λ e, match e with
              | HttpError h => if (h.(he_status) =? 404)%Z then closeConflictLocally r.1 else throw e
              | _ => throw e
              end).

Definition uploadConflicts : MS unit :=
  uploads <- listPendingUploads ;;
  mapM_ upload_one uploads ;;;
  resolutions <- listPendingResolutions ;;
  mapM_ resolve_one resolutions.

(** ** Failures *)

Definition handleFailure (e : sync_error) : MS PassOutcome :=
  appendLog "sync failed" ;;;
  match e with
  | HttpError h =>
      match error_kind h with
      | k_rewound => updateProject (with_status ps_rewound) ;;; mret (pass_paused rewound)
      | k_upgrade_required => updateProject (with_status ps_upgrade_required) ;;; mret (pass_paused upgrade_required)
      | k_revoked => mret (pass_paused revoked)
      | k_not_entitled => mret (pass_paused not_entitled)
      | _ =>
          if (h.(he_status) =? 507)%Z then updateProject (with_status ps_storage_full) ;;; mret (pass_paused storage_full)
          else updateProject (with_status ps_error) ;;; mret (pass_failed e)
      end
  | RouterError _ => updateProject (with_status ps_error) ;;; mret (pass_failed e)
  end.

(** ** A pass *)

(** Batches until there is nothing left that was not pushed in this pass. *)
Fixpoint push_loop (guard : nat) (pushedThisPass : list string) (pushed : nat) : MS nat :=
  match guard with
  | 0 => mret pushed
  | S guard =>
      batch <- buildBatch pushedThisPass ;;
      match batch with
      | None => mret pushed
      | Some request =>
          pushFrozen request ;;;
          applyInbox ;;;
          push_loop guard (pushedThisPass ++ (op_id <$> request.(pr_ops))) (pushed + length request.(pr_ops))
      end
  end.
Definition push_guard : nat := 50.

(** The pull of a pass: everything again after a restore of the server. *)
Definition pull_step (remoteId : string) (project : SyncProjectRow) (head : HeadResponse) : MS nat :=
  let maxSeq := default 0%Z (map_get remoteId head.(hr_projects)) in
  let restored := match head.(hr_epoch), project.(sp_epoch) with Some a, Some b => negb (a =? b)%Z | _, _ => false end in
  if restored || (maxSeq <? project.(sp_cursor))%Z then
    appendLog "re-bootstrapping" ;;; rebootstrap head.(hr_epoch)
  else
    when (bool_decide (is_Some head.(hr_epoch)) && bool_decide (project.(sp_epoch) = None)) do
      updateProject (with_epoch head.(hr_epoch)) ;;;
    if (project.(sp_cursor) <? maxSeq)%Z || project.(sp_resetNextPull)
    then r <- pullAll project.(sp_cursor) project.(sp_resetNextPull) ;; mret r.1
    else mret 0.

Definition pass_body (remoteId : string) (project : SyncProjectRow) : MS PassOutcome :=
  resendFrozenBatch ;;;
  head <- client_head projectId ;;
  pulled <- pull_step remoteId project head ;;
  apply <- applyInbox ;;
  pushed <- push_loop push_guard [] 0 ;;
  uploadConflicts ;;;
  s <- get ;;
  updateProject (λ p, with_status ps_active (with_lastSyncAt (Some s.(sy_now)) p)) ;;;
  persistClock deviceId ;;;
  mret (pass_ok pulled pushed apply).

Definition syncProject : MS PassOutcome :=
  s <- get ;;
  let project := s.(sy_project) in
  match project.(sp_remoteProjectId) with
  | None => mret pass_skipped
  | Some remoteId =>
      if bool_decide (project.(sp_status) = ps_rewound) || bool_decide (project.(sp_status) = ps_upgrade_required)
      then mret pass_skipped
      else catch (pass_body remoteId project) (λ e, persistClock deviceId ;;; handleFailure e)
  end.

(** ** The state the server should hold *)

Definition syncedState (s : sync) : list hashed_entity :=
  let projection := readProjection s.(sy_db) in
  omap (λ st, local ← projection_get st.(st_id) projection;
          Some (mk_hashed st.(st_id) (type_name st.(st_type)) st.(st_ref)
            (((λ fb, (field_name fb.1, fb.2.(bf_value))) <$>
                filter (λ fb : field * BaseField, fb.1 ∉ SYNCED_FIELDS st.(st_type)) (map_to_list st.(st_base)))
             ++ ((λ f, (field_name f, default jnull (pe_field f local))) <$> SYNCED_FIELDS st.(st_type))) None))
       s.(sy_entities).
End Engine.
