(* ===== verification/SyncFrames.v ===== *)
(** * What the parts of a pass leave alone

    The frozen batch, the hold of the deletes and the trace of the pushes are
    touched by few operations of [SyncEngine].  [quiet] says that a computation
    is not one of them, and that time does not go back. *)

From S2P Require Import Prelude Wp RunStateMachine Database JsNumber TaskTables TaskRouter Canonical Hlc SyncTables SyncStore SyncApply SyncEngine.
From Stdlib Require Import Sorted.

Open Scope js_scope.

(** ** The trace *)

(** The entries about a push. *)
Definition push_entry (e : sync_log) : bool :=
  match e with Requested (rq_push _) | Froze _ _ _ _ | Answered _ => true | _ => false end.
Definition push_log (s : sync) : list sync_log := filter (λ e, push_entry e = true) s.(sy_log).

(** The turns to come are in the order of time. *)
Definition timely (s : sync) : Prop := StronglySorted Z.le (s.(sy_now) :: (tn_now <$> s.(sy_world))).

Record quiet (s s' : sync) : Prop := {
  q_batch : s'.(sy_batch) = s.(sy_batch);
  q_log : push_log s' = push_log s;
  q_hold : s'.(sy_project).(sp_deleteHold) = s.(sy_project).(sp_deleteHold);
  q_time : timely s → timely s' ∧ (s.(sy_now) <= s'.(sy_now))%Z
}.

#[export] Instance quiet_preorder : PreOrder quiet.
Proof.
  split; [intros s; split; [done|done|done|]; intros ?; split; [done|lia]|].
  intros a b c [] []. split; [congruence..|]. intros Ha. destruct (q_time0 Ha) as [Hb ?], (q_time1 Hb). split; [done|lia].
Qed.

(** An update of another component. *)
Lemma quiet_update (f : sync → sync) :
  (∀ s, sy_batch (f s) = sy_batch s) → (∀ s, sy_log (f s) = sy_log s) → (∀ s, sy_project (f s) = sy_project s) →
  (∀ s, sy_now (f s) = sy_now s) → (∀ s, sy_world (f s) = sy_world s) → preserves quiet (modify f : MS unit).
Proof.
  intros H1 H2 H3 H4 H5. apply preserves_modify. intros s. split; [done| |by rewrite H3|].
  - unfold push_log. by rewrite H2.
  - unfold timely. rewrite H4, H5. intros ?. split; [done|lia].
Qed.

Lemma push_log_app s l : push_log (add_log l s) = push_log s ++ filter (λ e, push_entry e = true) l.
Proof. unfold push_log. simpl. apply filter_app. Qed.

Lemma quiet_log l : filter (λ e, push_entry e = true) l = [] → preserves quiet (modify (add_log l) : MS unit).
Proof.
  intros H. apply preserves_modify. intros s. split; [done|by rewrite push_log_app, H, app_nil_r|done|].
  intros ?. split; [done|simpl; lia].
Qed.

Lemma quiet_project f : (∀ p, sp_deleteHold (f p) = sp_deleteHold p) → preserves quiet (updateProject f).
Proof. intros H. apply preserves_modify. intros s. split; [done|done|apply H|]. intros ?. split; [done|simpl; lia]. Qed.

Lemma quiet_get : preserves quiet (get : MS sync).
Proof. intros s. reflexivity. Qed.
Lemma quiet_gets {A} (f : sync → A) : preserves quiet (gets f : MS A).
Proof. intros s. reflexivity. Qed.
Lemma quiet_getEntity type id : preserves quiet (getEntity type id).
Proof. intros s. reflexivity. Qed.
Lemma quiet_ret {A} (a : A) : preserves quiet (mret a : MS A).
Proof. intros s. reflexivity. Qed.
Lemma quiet_throw {A} e : preserves quiet (throw e : MS A).
Proof. intros s. reflexivity. Qed.

Create HintDb quiet.

(** Compose along the code; the leaves are hints. *)
Ltac quietly :=
  repeat first
    [ match goal with |- ∀ _, _ => intro end
    | solve [auto with quiet]
    | apply (preserves_bind quiet)
    | apply quiet_ret | apply quiet_throw
    | apply quiet_get | apply quiet_gets
    | apply (preserves_transaction quiet)
    | apply (preserves_catch quiet)
    | apply (preserves_mapM_ quiet)
    | case_match ].

Lemma quiet_putEntity st : preserves quiet (putEntity st).
Proof. by apply quiet_update. Qed.
Lemma quiet_deleteEntity type id : preserves quiet (deleteEntity type id).
Proof. by apply quiet_update. Qed.
Lemma quiet_deleteTombstone type id : preserves quiet (deleteTombstone type id).
Proof. by apply quiet_update. Qed.
Lemma quiet_appendLog line : preserves quiet (appendLog line).
Proof. by apply quiet_log. Qed.
Lemma quiet_change_conflict id f : preserves quiet (change_conflict id f).
Proof. by apply quiet_update. Qed.
Lemma quiet_putClientConflict id e k r : preserves quiet (putClientConflict id e k r).
Proof. apply quiet_update; intros s; by case_match. Qed.
Lemma quiet_clockObserve r : preserves quiet (clockObserve r).
Proof. by apply quiet_update. Qed.
Lemma quiet_persistClock d : preserves quiet (persistClock d).
Proof. apply quiet_update; intros s; by case_match. Qed.
Lemma quiet_stampNow d : preserves quiet (stampNow d).
Proof.
  intros s. unfold stampNow. destruct (clock_next _ _ _) as [h c]. split; [done..|].
  intros ?. split; [done|simpl; lia].
Qed.
#[export] Hint Resolve quiet_putEntity quiet_deleteEntity quiet_deleteTombstone quiet_appendLog quiet_change_conflict
  quiet_putClientConflict quiet_clockObserve quiet_persistClock quiet_stampNow quiet_getEntity quiet_get : quiet.

Lemma quiet_upsert record : preserves quiet (upsertServerConflict record).
Proof. unfold upsertServerConflict. quietly. by apply quiet_update. Qed.
#[export] Hint Resolve quiet_upsert : quiet.

Lemma quiet_foldM_S {A B} (f : A → B → MS B) l b : (∀ x b, preserves quiet (f x b)) → preserves quiet (foldM_S f l b).
Proof. intros Hf. revert b. induction l as [|x l IH]; intros b; simpl; quietly; apply Hf. Qed.
Lemma quiet_mapM_opt {A B} (f : A → MS (option B)) l : (∀ x, preserves quiet (f x)) → preserves quiet (mapM_opt f l).
Proof. intros Hf. induction l as [|x l IH]; simpl; quietly; apply Hf. Qed.

(** ** Awaits *)

Section Awaits.
Context (projectId : Z).

Lemma quiet_write_db d' s : quiet s (write_db projectId d' s).
Proof. split; [done..|]. intros ?. split; [done|simpl; lia]. Qed.

Lemma quiet_await : preserves quiet (await_turn projectId).
Proof.
  apply preserves_modify. intros s. unfold take_turn. destruct (sy_world s) as [|t rest] eqn:Hw; [reflexivity|].
  split; [done..|]. unfold timely. simpl. rewrite Hw. simpl. intros H. inversion_clear H as [|? ? H1 H2].
  split; [done|]. by inversion H2.
Qed.

Lemma quiet_run_router {A} (m : instant → MT A) : preserves quiet (run_router projectId m).
Proof. intros s. unfold run_router. destruct (m _ _) as [[a|e] d']; apply quiet_write_db. Qed.

Lemma quiet_route {A} (m : instant → MT A) : preserves quiet (route projectId m).
Proof. unfold route. pose proof quiet_await. quietly; try done. by apply quiet_run_router. Qed.

Lemma quiet_take_reply : preserves quiet take_reply.
Proof. intros s. unfold take_reply. destruct (sy_replies s) as [|[] ?]; split; try done; intros; split; try done; simpl; lia. Qed.

Definition no_push (rq : request) : Prop := match rq with rq_push _ => False | _ => True end.

Lemma quiet_ask rq : no_push rq → preserves quiet (ask projectId rq).
Proof.
  intros H. unfold ask. pose proof quiet_await. pose proof quiet_take_reply. quietly.
  apply quiet_log. by destruct rq.
Qed.

Lemma quiet_expect {A} (f : reply → option A) r : preserves quiet (expect f r).
Proof. unfold expect. quietly. Qed.
End Awaits.
#[export] Hint Resolve quiet_await quiet_route quiet_expect : quiet.
#[export] Hint Extern 1 (preserves quiet (ask _ _)) => apply quiet_ask; exact I : quiet.

(** ** The applier and the pull *)

Section Quiet.
Context (JSON_parse : string → option json_value).
Context (stamp_text : instant → string) (text_stamp : string → instant).
Context (Date_parse : string → option Z).
Context (sha256 : string → string).
Context (projectId : Z) (deviceId : string).
Context (randomUUID : instant → string).

#[local] Hint Resolve quiet_foldM_S quiet_mapM_opt : quiet.

Lemma quiet_recompute id : preserves quiet (recompute_caught JSON_parse projectId id).
Proof. unfold recompute_caught. quietly. Qed.
#[local] Hint Resolve quiet_recompute : quiet.

Lemma quiet_writeGroup st group report : preserves quiet (writeGroup JSON_parse text_stamp projectId st group report).
Proof. unfold writeGroup. quietly. Qed.
#[local] Hint Resolve quiet_writeGroup : quiet.

Lemma quiet_applyCreate st report : preserves quiet (applyCreate JSON_parse stamp_text text_stamp projectId st report).
Proof. unfold applyCreate. quietly. Qed.
#[local] Hint Resolve quiet_applyCreate : quiet.

Lemma quiet_applyEntity st report : preserves quiet (applyEntity JSON_parse stamp_text text_stamp projectId st report).
Proof. unfold applyEntity. quietly. Qed.

Lemma quiet_depends_candidate projection st : preserves quiet (depends_candidate projection st).
Proof. unfold depends_candidate, put_depends. quietly. Qed.

Lemma quiet_agree_candidate c report : preserves quiet (agree_candidate c report).
Proof. unfold agree_candidate. quietly. Qed.

Lemma quiet_latest_back fuel prev node best :
  preserves quiet (latest_back stamp_text projectId deviceId fuel prev node best).
Proof. revert node best. induction fuel as [|fuel IH]; intros node best; simpl; quietly. Qed.
#[local] Hint Resolve quiet_latest_back : quiet.

Lemma quiet_settle_cycle candidates edge report :
  preserves quiet (settle_cycle stamp_text sha256 projectId deviceId candidates edge report).
Proof. unfold settle_cycle, latestEdgeOnPath, fileDependencyEdgeConflict. quietly. Qed.
#[local] Hint Resolve quiet_applyEntity quiet_depends_candidate quiet_agree_candidate quiet_settle_cycle : quiet.

Lemma quiet_applyDependsOn report :
  preserves quiet (applyDependsOn stamp_text sha256 projectId deviceId report).
Proof. unfold applyDependsOn, listInbox. quietly. Qed.

Lemma quiet_applyDelete st report : preserves quiet (applyDelete JSON_parse stamp_text sha256 projectId st report).
Proof. unfold applyDelete. quietly. Qed.
#[local] Hint Resolve quiet_applyDependsOn quiet_applyDelete : quiet.

Lemma quiet_applyInbox : preserves quiet (applyInbox JSON_parse stamp_text text_stamp sha256 projectId deviceId).
Proof. unfold applyInbox, listInbox. quietly. Qed.

(** Pages, and what the engine notes about local changes. *)

Lemma quiet_ingest_item item : preserves quiet (ingest_item item).
Proof. unfold ingest_item, ingest_field. quietly; apply quiet_foldM_S; intros [f v] st; quietly. Qed.
#[local] Hint Resolve quiet_ingest_item : quiet.

Lemma quiet_ingestPage page : preserves quiet (ingestPage page).
Proof. unfold ingestPage. quietly. by apply quiet_project. Qed.
#[local] Hint Resolve quiet_ingestPage : quiet.

Lemma quiet_client_pull since reset : preserves quiet (client_pull projectId since reset).
Proof. unfold client_pull. quietly. Qed.
#[local] Hint Resolve quiet_client_pull : quiet.

Lemma quiet_pull_loop guard first reset since count seen :
  preserves quiet (pull_loop projectId guard first reset since count seen).
Proof.
  revert first since count seen. induction guard as [|guard IH]; intros first since count seen; cbn [pull_loop]; quietly.
  by apply quiet_project.
Qed.

Lemma quiet_noteLocalChange type id : preserves quiet (noteLocalChange stamp_text projectId deviceId type id).
Proof.
  unfold noteLocalChange, stamp_field. quietly; apply quiet_foldM_S; intros f [st changed]; quietly.
Qed.

Lemma quiet_client_head : preserves quiet (client_head projectId).
Proof. unfold client_head. quietly. Qed.

Lemma quiet_uploadConflicts : preserves quiet (uploadConflicts projectId).
Proof.
  unfold uploadConflicts, upload_one, resolve_one, client_fileConflict, client_resolveConflict, closeConflictLocally,
    clearPendingResolution, listPendingUploads, listPendingResolutions. quietly.
Qed.

Lemma quiet_handleFailure e : preserves quiet (handleFailure e).
Proof. unfold handleFailure. quietly; by apply quiet_project. Qed.

Lemma quiet_after_snapshot before seen st n : preserves quiet (after_snapshot before seen st n).
Proof. unfold after_snapshot. quietly. Qed.
#[local] Hint Resolve quiet_after_snapshot : quiet.

Lemma quiet_transaction_at {A} (m : MS A) s : quiet s (m s).2 → quiet s (transaction m s).2.
Proof. intros Hm. unfold transaction. destruct (m s) as [[a|e] s']; [done|reflexivity]. Qed.

Lemma quiet_bind_get_at {B} (k : sync → MS B) s : quiet s (k s s).2 → quiet s (mbind get k s).2.
Proof. done. Qed.

(** Without a frozen batch a re-bootstrap is quiet. *)
Lemma quiet_rebootstrap epoch s : s.(sy_batch) = None → quiet s (rebootstrap stamp_text projectId epoch s).2.
Proof.
  intros Hb. unfold rebootstrap. apply quiet_bind_get_at, (preserves_bind_at quiet).
  - apply quiet_transaction_at, (preserves_bind_at quiet).
    + split; [done|done|done|]. intros ?. split; [done|simpl; lia].
    + unfold listEntities. quietly; apply quiet_project; intros p; by repeat case_match.
  - pose proof quiet_pull_loop. unfold pullAll, listEntities. quietly. by apply quiet_log.
Qed.

Lemma quiet_pull_step remoteId project head s :
  s.(sy_batch) = None → quiet s (pull_step stamp_text projectId remoteId project head s).2.
Proof.
  intros Hb. unfold pull_step. case_match.
  - transitivity (add_log [Logged "re-bootstrapping"] s); [by apply quiet_log|by apply quiet_rebootstrap].
  - match goal with |- quiet s (?m s).2 => enough (preserves quiet m) by done end.
    pose proof quiet_pull_loop. unfold pullAll. quietly. by apply quiet_project.
Qed.
End Quiet.
