(* ===== verification/SyncTrace.v ===== *)
(** * The trace of the pushes

    Over every history of the engine, whatever the service answers and the rest
    of the process does meanwhile: a frozen batch is the only thing pushed until
    its answer is applied, and the deletes frozen in an hour stay under the
    limit unless the user approved them. *)

From S2P Require Import Prelude Wp RunStateMachine Database JsNumber TaskTables TaskRouter Canonical Hlc SyncTables SyncStore SyncApply SyncEngine SyncFrames.
From Stdlib Require Import Sorted.

Open Scope js_scope.

(** ** The protocol of the frozen batch *)

(** One entry of the trace, from the batch that is frozen; [None] is a breach. *)
Definition protocol_step (slot : option PushRequest) (e : sync_log) : option (option PushRequest) :=
  match e, slot with
  | Froze p _ _ _, None => Some (Some p)
  | Froze _ _ _ _, Some _ => None
  | Requested (rq_push p), Some q => if bool_decide (p = q) then Some (Some q) else None
  | Requested (rq_push _), None => None
  | Answered p, Some q => if bool_decide (p = q) then Some None else None
  | Answered _, None => None
  | _, _ => Some slot
  end.

Fixpoint protocol (slot : option PushRequest) (l : list sync_log) : option (option PushRequest) :=
  match l with [] => Some slot | e :: rest => slot ← protocol_step slot e; protocol slot rest end.

(** ** The deletes of an hour *)

Definition tombstones (p : PushRequest) : nat := length (filter (λ op, is_tombstone op = true) p.(pr_ops)).

Definition recent (now : Z) (l : list Z) : list Z := filter (λ t, (now - MASS_DELETE_WINDOW_MS < t)%Z) l.

(** When each delete of the trace was frozen. *)
Definition frozen_times (l : list sync_log) : list Z :=
  flat_map (λ e, match e with Froze p t _ _ => replicate (tombstones p) t | _ => [] end) l.

(** A freeze after the trace [l] keeps to the limit. *)
Definition freeze_ok (l : list sync_log) (e : sync_log) : Prop :=
  match e with
  | Froze p t synced approved =>
      tombstones p = 0 ∨ approved = true
      ∨ (length (recent t (frozen_times l)) + tombstones p ≤ delete_limit synced)%nat
  | _ => True
  end.

Definition limit_kept (l : list sync_log) : Prop := ∀ l1 e l2, l = l1 ++ e :: l2 → freeze_ok l1 e.

(** The window of the hold covers the deletes of the last hour. *)
Definition window_covers (s : sync) : Prop :=
  recent s.(sy_now) (frozen_times (push_log s)) ⊆+ s.(sy_project).(sp_deleteHold).(dh_window).

Record sound (s : sync) : Prop := {
  so_timely : timely s;
  so_protocol : protocol None (push_log s) = Some s.(sy_batch);
  so_limit : limit_kept (push_log s);
  so_window : window_covers s
}.

(** ** Lemmas about the trace *)

Lemma protocol_app slot l l' : protocol slot (l ++ l') = (slot ← protocol slot l; protocol slot l').
Proof. revert slot. induction l as [|e l IH]; intros slot; simpl; [done|]. destruct (protocol_step slot e); [apply IH|done]. Qed.

Lemma frozen_times_app l l' : frozen_times (l ++ l') = frozen_times l ++ frozen_times l'.
Proof. apply flat_map_app. Qed.

Lemma recent_app now l l' : recent now (l ++ l') = recent now l ++ recent now l'.
Proof. apply filter_app. Qed.

Lemma recent_later now now' l : (now <= now')%Z → recent now' l `sublist_of` recent now l.
Proof.
  intros H. unfold recent. induction l as [|t l IH]; [done|]. rewrite !filter_cons. repeat case_decide; try lia.
  - by constructor.
  - by constructor.
  - done.
Qed.

Lemma recent_submseteq now l l' : l ⊆+ l' → recent now l ⊆+ recent now l'.
Proof.
  unfold recent. induction 1 as [|x l l' _ IH|x y l|x l l' _ IH|l l' m _ IH1 _ IH2]; rewrite ?filter_cons.
  - done.
  - case_decide; [by apply submseteq_skip|done].
  - repeat case_decide; try done. apply submseteq_swap.
  - case_decide; [by apply submseteq_cons|done].
  - by etransitivity.
Qed.

Lemma recent_idem now l : recent now (recent now l) = recent now l.
Proof. unfold recent. rewrite list_filter_filter. apply list_filter_iff. naive_solver. Qed.

Lemma recent_now now k : recent now (replicate k now) = replicate k now.
Proof.
  unfold recent, MASS_DELETE_WINDOW_MS. induction k as [|k IH]; [done|]. cbn [replicate]. rewrite filter_cons.
  rewrite decide_True by lia. by rewrite IH.
Qed.

Lemma limit_kept_snoc l e : limit_kept l → freeze_ok l e → limit_kept (l ++ [e]).
Proof.
  intros Hl He l1 e1 l2 H. destruct l2 as [|x l2] using rev_ind.
  - apply app_inj_tail in H as [-> ->]. done.
  - rewrite app_comm_cons, (assoc_L (++)) in H. apply app_inj_tail in H as [H _]. by eapply Hl.
Qed.

Lemma sound_quiet s s' : quiet s s' → sound s → sound s'.
Proof.
  intros [Hb Hl Hh Ht] [H1 H2 H3 H4]. destruct (Ht H1) as [H1' Hnow]. split; [done|by rewrite Hl, Hb|by rewrite Hl|].
  unfold window_covers in *. rewrite Hl, Hh. etransitivity; [|exact H4]. by apply sublist_submseteq, recent_later.
Qed.

(** ** Building a batch *)

(** Besides the sync rows and the clock nothing changes. *)
Record static (s s' : sync) : Prop := {
  sc_batch : s'.(sy_batch) = s.(sy_batch);
  sc_log : push_log s' = push_log s;
  sc_project : s'.(sy_project) = s.(sy_project);
  sc_now : s'.(sy_now) = s.(sy_now);
  sc_world : s'.(sy_world) = s.(sy_world)
}.

#[export] Instance static_preorder : PreOrder static.
Proof. split; [by intros s; split|]. intros a b c [] []. split; congruence. Qed.

Lemma static_quiet s s' : static s s' → quiet s s'.
Proof.
  intros []. split; [done|done|congruence|]. intros H. unfold timely in *. rewrite sc_now0, sc_world0. split; [done|lia].
Qed.

(** A computation that returns and leaves the rest alone. *)
Definition silent {A} (m : MS A) : Prop := ∀ s, wp m (λ _ s', static s s') (λ _ _, False) s.

Lemma silent_ret {A} (a : A) : silent (mret a).
Proof. intros s. by apply wp_ret. Qed.
Lemma silent_gets {A} (f : sync → A) : silent (gets f).
Proof. intros s. apply wp_gets. reflexivity. Qed.
Lemma silent_modify f : (∀ s, static s (f s)) → silent (modify f).
Proof. intros H s. apply wp_modify, H. Qed.
Lemma silent_bind {A B} (m : MS A) (k : A → MS B) : silent m → (∀ a, silent (k a)) → silent (mbind m k).
Proof.
  intros Hm Hk s. apply wp_bind. eapply wp_mono; [apply Hm| |done]. intros a s1 H1.
  eapply wp_mono; [apply Hk| |done]. intros b s2 H2. by transitivity s1.
Qed.
Lemma silent_transaction {A} (m : MS A) : silent m → silent (transaction m).
Proof. intros Hm s. apply wp_transaction. eapply wp_mono; [apply Hm|done|done]. Qed.
Lemma silent_mapM_ {A} (f : A → MS unit) l : (∀ x, silent (f x)) → silent (mapM_ f l).
Proof. intros Hf. induction l as [|x l IH]; simpl; [apply silent_ret|by apply silent_bind]. Qed.
Lemma silent_foldM_S {A B} (f : A → B → MS B) l b : (∀ x b, silent (f x b)) → silent (foldM_S f l b).
Proof. intros Hf. revert b. induction l as [|x l IH]; intros b; simpl; [apply silent_ret|by apply silent_bind]. Qed.
Lemma silent_stampNow d : silent (stampNow d).
Proof. intros s. unfold wp, stampNow. destruct (clock_next _ _ _). by split. Qed.
Lemma silent_putEntity st : silent (putEntity st).
Proof. apply silent_modify. intros s. by split. Qed.
Lemma silent_deleteEntity type id : silent (deleteEntity type id).
Proof. apply silent_modify. intros s. by split. Qed.
Lemma silent_deleteTombstone type id : silent (deleteTombstone type id).
Proof. apply silent_modify. intros s. by split. Qed.

Ltac silently :=
  repeat first
    [ match goal with |- ∀ _, _ => intro end
    | apply silent_bind
    | apply silent_ret | apply silent_gets | apply silent_stampNow | apply silent_putEntity | apply silent_deleteEntity
    | apply silent_deleteTombstone | apply silent_transaction | apply silent_mapM_
    | case_match ].

Section Trace.
Context (JSON_parse : string → option json_value).
Context (stamp_text : instant → string) (text_stamp : string → instant).
Context (Date_parse : string → option Z).
Context (sha256 : string → string).
Context (projectId : Z) (deviceId : string).
Context (randomUUID : instant → string).

Notation opFor := (opFor stamp_text Date_parse deviceId).
Notation diff_entity := (diff_entity stamp_text Date_parse deviceId).
Notation buildBatch := (buildBatch stamp_text Date_parse projectId deviceId randomUUID).

Lemma silent_opFor local st isCreate : silent (opFor local st isCreate).
Proof.
  unfold SyncEngine.opFor, push_field, editTime. apply silent_bind; [|silently].
  apply silent_foldM_S. intros f [fields st']. silently.
Qed.

(** Only upserts come out of the entities that are here. *)
Definition upserts (l : list PushOp) : Prop := Forall (λ op, is_tombstone op = false) l.

Lemma opFor_upsert local st isCreate s :
  wp (opFor local st isCreate) (λ r s', is_tombstone r.1 = false ∧ static s s') (λ _ _, False) s.
Proof.
  unfold SyncEngine.opFor. apply wp_bind. apply (wp_mono _ (λ _ s', static s s') _ (λ _ _, False)); [|by intros; apply wp_ret|done].
  assert (silent (foldM_S (push_field stamp_text Date_parse deviceId local isCreate) (SYNCED_FIELDS (pe_type local)) ([], st))) as H;
    [|apply H]. apply silent_foldM_S. intros f [fields st']. unfold push_field, editTime. silently.
Qed.

Lemma diff_upserts states l acc s :
  upserts acc.(df_creates) → upserts acc.(df_updates) →
  wp (foldM_S (diff_entity states) l acc)
    (λ d s', (upserts d.(df_creates) ∧ upserts d.(df_updates)) ∧ static s s') (λ _ _, False) s.
Proof.
  revert acc s. induction l as [|local l IH]; intros acc s H1 H2; cbn [foldM_S]; [by apply wp_ret|]. apply wp_bind.
  assert (wp (diff_entity states local acc)
    (λ d s', (upserts d.(df_creates) ∧ upserts d.(df_updates)) ∧ static s s') (λ _ _, False) s) as Hd.
  { unfold SyncEngine.diff_entity. case_match.
    - apply wp_bind. eapply wp_mono; [apply opFor_upsert| |done]. intros r s' [Hr Hs]. apply wp_ret. split; [|done].
      split; [|done]. apply Forall_app. by repeat constructor.
    - case_match; [|by apply wp_ret]. case_match; [by apply wp_ret|]. apply wp_bind. eapply wp_mono; [apply opFor_upsert| |done].
      intros r s' [Hr Hs]. apply wp_ret. split; [|done]. case_match; [done|]. split; [done|]. apply Forall_app. by repeat constructor. }
  eapply wp_mono; [exact Hd| |done]. intros d s1 [[Hc Hu] Hs]. eapply wp_mono; [by apply IH| |done].
  intros d' s2 [Hcu ?]. split; [done|]. by transitivity s1.
Qed.

Lemma silent_diff_delete projection l acc : silent (foldM_S (diff_delete projection) l acc).
Proof. apply silent_foldM_S. intros st acc'. unfold diff_delete. silently. Qed.

(** What [applyDeleteHold] decides. *)
Definition hold_window (s : sync) : list Z := recent s.(sy_now) s.(sy_project).(sp_deleteHold).(dh_window).
Definition hold_release (pending synced : nat) (s : sync) : bool :=
  (pending =? 0)%nat || s.(sy_project).(sp_deleteHold).(dh_approveNext)
  || (length (hold_window s) + pending <=? delete_limit synced)%nat.

Lemma recent_same_length now l : length (recent now l) = length l → recent now l = l.
Proof.
  unfold recent. induction l as [|t l IH]; [done|]. rewrite filter_cons. case_decide; simpl.
  - intros [= H1]. by rewrite IH.
  - intros H1. pose proof (length_filter (λ t, (now - MASS_DELETE_WINDOW_MS < t)%Z) l). lia.
Qed.

(** Besides the hold nothing changes. *)
Record holds (s s' : sync) : Prop := {
  hs_batch : s'.(sy_batch) = s.(sy_batch);
  hs_log : push_log s' = push_log s;
  hs_now : s'.(sy_now) = s.(sy_now);
  hs_world : s'.(sy_world) = s.(sy_world)
}.

Lemma applyDeleteHold_wp pending synced s :
  wp (applyDeleteHold pending synced)
    (λ r s', r.1 = hold_release pending synced s ∧ r.2.(dh_window) = hold_window s
       ∧ s'.(sy_project).(sp_deleteHold).(dh_window) = hold_window s ∧ holds s s') (λ _ _, False) s.
Proof.
  unfold applyDeleteHold. apply wp_bind, wp_get. set (h := sp_deleteHold (sy_project s)).
  change (filter (λ t, (sy_now s - MASS_DELETE_WINDOW_MS < t)%Z) (dh_window h)) with (hold_window s).
  set (next := mk_hold _ _ _). apply wp_bind, wp_when.
  - intros _. apply wp_bind, wp_modify, wp_when; intros _; [apply wp_modify|]; apply wp_ret; (split_and!; [done|done|done|]);
      (split; [done| |done|done]); rewrite ?push_log_app; [by rewrite app_nil_r|done].
  - intros Hsame. apply wp_ret. apply orb_false_iff in Hsame as [[_ H]%orb_false_iff _].
    apply negb_false_iff, Nat.eqb_eq in H. split_and!; [done|done| |done]. symmetry. by apply recent_same_length.
Qed.

Lemma holds_timely s s' : s'.(sy_now) = s.(sy_now) → s'.(sy_world) = s.(sy_world) → timely s → timely s'.
Proof. unfold timely. by intros -> ->. Qed.

Lemma sound_held s s' :
  holds s s' → s'.(sy_project).(sp_deleteHold).(dh_window) = hold_window s → sound s → sound s'.
Proof.
  intros [Hb Hl Hn Hw] Hwin [H1 H2 H3 H4]. split; [by eapply holds_timely|by rewrite Hl, Hb|by rewrite Hl|].
  unfold window_covers, hold_window in *. rewrite Hl, Hn, Hwin, <- recent_idem. by apply recent_submseteq.
Qed.

Lemma sound_frozen s s' req n approved :
  sound s → s.(sy_batch) = None → s'.(sy_batch) = Some req →
  push_log s' = push_log s ++ [Froze req s.(sy_now) n approved] → s'.(sy_now) = s.(sy_now) → s'.(sy_world) = s.(sy_world) →
  s'.(sy_project).(sp_deleteHold).(dh_window) = hold_window s ++ replicate (tombstones req) s.(sy_now) →
  freeze_ok (push_log s) (Froze req s.(sy_now) n approved) → sound s'.
Proof.
  intros [H1 H2 H3 H4] Hb Hb' Hl Hn Hw Hwin Hok. split.
  - by eapply holds_timely.
  - rewrite Hl, protocol_app, H2, Hb, Hb'. done.
  - rewrite Hl. by apply limit_kept_snoc.
  - unfold window_covers in *. rewrite Hl, Hn, Hwin, frozen_times_app, recent_app. simpl.
    rewrite app_nil_r, recent_now. apply submseteq_app; [|done]. unfold hold_window. rewrite <- recent_idem. by apply recent_submseteq.
Qed.

(** The number of deletes in a batch. *)
Lemma take_ops_sub bytes n l : take_ops bytes n l `sublist_of` l.
Proof.
  revert bytes n. induction l as [|op l IH]; intros bytes n; cbn [take_ops]; [done|].
  case_match; [apply sublist_nil_l|by constructor].
Qed.

Lemma tombstones_le l ups tombs (skip : list string) bytes n :
  upserts ups → l = filter (λ op, op_id op ∉ skip) (ups ++ tombs) →
  (length (filter (λ op, is_tombstone op = true) (take_ops bytes n l)) ≤ length tombs)%nat.
Proof.
  intros Hu ->. set (P := λ op, is_tombstone op = true).
  assert (∀ a b : list PushOp, a `sublist_of` b → (length (filter P a) ≤ length (filter P b))%nat) as Hle.
  { intros a b Hab. induction Hab; rewrite ?filter_cons; repeat case_decide; simpl; lia. }
  rewrite (Hle _ _ (take_ops_sub _ _ _)), (Hle _ _ (sublist_filter _ _)), filter_app.
  assert (filter P ups = []) as ->.
  { induction Hu as [|op ups Hop _ IH]; [done|]. rewrite filter_cons, decide_False by (unfold P; by rewrite Hop). done. }
  apply length_filter.
Qed.

Lemma build_wp skip s :
  sound s → s.(sy_batch) = None →
  wp (buildBatch skip) (λ r s', sound s' ∧ s'.(sy_batch) = r) (λ _ _, False) s.
Proof.
  intros Hs Hb. unfold SyncEngine.buildBatch. apply wp_bind, wp_get. cbv zeta. set (states := sy_entities s).
  apply wp_bind. eapply wp_mono; [apply diff_upserts; constructor| |done]. intros df s1 [[Hc Hu] H1].
  apply wp_bind. eapply wp_mono; [apply silent_diff_delete| |done]. intros tombs s2 H2.
  apply wp_bind, wp_gets, wp_bind. apply (wp_mono _ (λ _ s', static s2 s') _ (λ _ _, False)); [|intros _ s3 H3|done].
  { apply (silent_mapM_ _ (sy_tombs s2)). intros k. silently. }
  assert (static s s3) as H03 by (transitivity s1; [done|by transitivity s2]). clear H1 H2 H3 s1 s2.
  apply wp_bind. eapply wp_mono; [apply applyDeleteHold_wp| |done].
  intros [release next] s4 (Hrel & Hwin & Hwin' & Hh). cbn [fst snd] in *. subst release.
  assert (hold_window s3 = hold_window s) as Hw3 by (unfold hold_window; by rewrite (sc_now _ _ H03), (sc_project _ _ H03)).
  assert (holds s s4) as Hh4 by (destruct H03, Hh; split; congruence).
  set (sorted := (t ← rev APPLY_ORDER; filter (λ op, op_type op = t) tombs)) in *.
  set (pushed := if hold_release _ _ _ then sorted else []). set (all := filter _ _).
  assert (sound s4) as Hs4 by (eapply sound_held; [exact Hh4|congruence|done]).
  destruct all as [|op0 rest] eqn:Hall.
  - apply wp_bind. eapply (wp_mono _ (λ _ s', static s4 s') _ (λ _ _, False)); [|intros _ s5 H5; apply wp_ret|done].
    { apply silent_mapM_. intros st. silently. }
    split; [by eapply sound_quiet; [apply static_quiet|]|]. rewrite (sc_batch _ _ H5), (hs_batch _ _ Hh4). done.
  - rewrite <- Hall. set (ops := take_ops 64 0 all). set (request := mk_push _ ops).
    apply wp_bind, wp_transaction. change (length (filter _ ops)) with (tombstones request).
    assert (tombstones request ≤ length pushed)%nat as Hle.
    { eapply (tombstones_le all (df_creates df ++ df_updates df)); [by apply Forall_app|]. by rewrite <- (assoc_L (++)). }
    apply wp_bind. eapply (wp_mono _ (λ _ s', static s4 s') _ (λ _ _, False)); [|intros _ s5 H5|done].
    { apply silent_mapM_. intros st. silently. }
    apply wp_bind, wp_modify, wp_bind, wp_modify.
    set (e := Froze _ _ _ _). set (s6 := add_log [e] _).
    assert (freeze_ok (push_log s) e) as Hok.
    { simpl. destruct (decide (tombstones request = 0)%nat) as [|Hne]; [by left|]. right.
      assert (hold_release (length sorted) (length states) s3 = true) as Hr.
      { unfold pushed in Hle. destruct (hold_release _ _ s3); [done|simpl in Hle; lia]. }
      unfold pushed in Hle. rewrite Hr in Hle. unfold hold_release in Hr. rewrite Hw3 in Hr.
      rewrite (sc_project _ _ H03) in Hr. apply orb_true_iff in Hr as [[Hr%Nat.eqb_eq|Hr]%orb_true_iff|Hr%Nat.leb_le]; [lia|by left|].
      right. destruct Hs as [_ _ _ Hcov]. unfold window_covers in Hcov. apply (recent_submseteq (sy_now s)) in Hcov.
      rewrite recent_idem in Hcov. apply submseteq_length in Hcov. unfold hold_window in Hr. lia. }
    assert (push_log s6 = push_log s ++ [e]) as Hlog.
    { unfold s6. rewrite push_log_app. simpl. f_equal. rewrite <- (hs_log _ _ Hh4), <- (sc_log _ _ H5). done. }
    destruct (decide (tombstones request = 0)%nat) as [Hz|Hz].
    + rewrite Hz. apply wp_ret, wp_ret. split; [|done]. eapply (sound_frozen s); [done|done|done|exact Hlog|..|exact Hok].
      * simpl. by rewrite (sc_now _ _ H5), (hs_now _ _ Hh4).
      * simpl. by rewrite (sc_world _ _ H5), (hs_world _ _ Hh4).
      * rewrite Hz. simpl. rewrite app_nil_r, (sc_project _ _ H5). congruence.
    + apply wp_when; [intros _|intros ?%Nat.ltb_ge; lia].
      apply wp_bind, wp_get, wp_modify, wp_ret. split; [|done].
      eapply (sound_frozen s); [done|done|done|exact Hlog|..|exact Hok].
      * simpl. by rewrite (sc_now _ _ H5), (hs_now _ _ Hh4).
      * simpl. by rewrite (sc_world _ _ H5), (hs_world _ _ Hh4).
      * simpl. rewrite (sc_now _ _ H5), (hs_now _ _ Hh4). congruence.
Qed.

(** ** Pushing *)

Lemma wp_quiet {A} (m : MS A) s : preserves quiet m → wp m (λ _ s', quiet s s') (λ _ s', quiet s s') s.
Proof. intros Hm. specialize (Hm s). unfold wp. by destruct (m s) as [[a|e] s']. Qed.

(** An entry of the trace that freezes nothing. *)
Lemma sound_entry s s' e slot :
  sound s → push_log s' = push_log s ++ [e] → protocol_step s.(sy_batch) e = Some slot → s'.(sy_batch) = slot →
  frozen_times [e] = [] → freeze_ok (push_log s) e → s'.(sy_now) = s.(sy_now) → s'.(sy_world) = s.(sy_world) →
  s'.(sy_project) = s.(sy_project) → sound s'.
Proof.
  intros [H1 H2 H3 H4] Hl Hp Hb Hf Hok Hn Hw Hpr. split.
  - by eapply holds_timely.
  - by rewrite Hl, protocol_app, H2, Hb; simpl; rewrite Hp.
  - rewrite Hl. by apply limit_kept_snoc.
  - unfold window_covers in *. by rewrite Hl, Hn, Hpr, frozen_times_app, Hf, app_nil_r.
Qed.

Lemma quiet_settle_result request result : preserves quiet (settle_result request result).
Proof.
  unfold settle_result, settle_upsert. quietly; apply quiet_foldM_S; intros [f o] st; unfold settle_field; quietly.
Qed.

Lemma applyPushResults_wp request response s :
  sound s → s.(sy_batch) = Some request →
  wp (applyPushResults request response) (λ _ s', sound s' ∧ s'.(sy_batch) = None) (λ _ s', sound s') s.
Proof.
  intros Hs Hb. unfold applyPushResults. apply wp_transaction, wp_bind.
  eapply wp_mono; [apply wp_quiet; apply (preserves_mapM_ quiet), quiet_settle_result| |done]. intros ? s1 H1.
  apply wp_bind. eapply wp_mono; [apply wp_quiet, (preserves_mapM_ quiet); auto with quiet| |done]. intros ? s2 H2.
  assert (quiet s s2) as H02 by (by transitivity s1). clear H1 H2 s1. pose proof (sound_quiet _ _ H02 Hs) as Hs2.
  assert (sy_batch s2 = Some request) as Hb2 by (by rewrite (q_batch _ _ H02)).
  apply wp_bind, wp_modify, wp_modify. split; [|done].
  eapply (sound_entry s2 _ (Answered request) None); [done| |by rewrite Hb2; simpl; rewrite bool_decide_true|done..].
  by rewrite push_log_app.
Qed.

(** A quiet step of a pass. *)
Lemma wp_quiet_step {A B} (m : MS A) (k : A → MS B) (Q : B → sync → Prop) s :
  preserves quiet m → sound s →
  (∀ a s', sound s' → s'.(sy_batch) = s.(sy_batch) → wp (k a) Q (λ _ s', sound s') s') →
  wp (mbind m k) Q (λ _ s', sound s') s.
Proof.
  intros Hm Hs Hk. apply wp_bind. eapply wp_mono; [by apply wp_quiet|..].
  - intros a s' H. apply Hk; [exact (sound_quiet _ _ H Hs)|exact (q_batch _ _ H)].
  - intros e s' H. exact (sound_quiet _ _ H Hs).
Qed.

Lemma pushFrozen_wp request s :
  sound s → s.(sy_batch) = Some request →
  wp (pushFrozen projectId request) (λ _ s', sound s' ∧ s'.(sy_batch) = None) (λ _ s', sound s') s.
Proof.
  intros Hs Hb. unfold pushFrozen, client_push, ask. set (e := Requested (rq_push request)).
  assert (sound (add_log [e] s)) as Hs1.
  { eapply (sound_entry s _ e (Some request)); [done| |by rewrite Hb; simpl; rewrite bool_decide_true|done..].
    by rewrite push_log_app. }
  apply wp_bind, wp_bind, wp_bind, wp_modify. apply wp_quiet_step; [apply quiet_await|done|]. intros ? s2 Hs2 Hb2.
  eapply wp_mono; [apply wp_quiet, quiet_take_reply| |by intros ? ? Hq; exact (sound_quiet _ _ Hq ltac:(assumption))]. intros r s3 H3.
  pose proof (sound_quiet _ _ H3 Hs2) as Hs3. pose proof (q_batch _ _ H3) as Hb3.
  eapply wp_mono; [apply wp_quiet, quiet_expect| |by intros ? ? Hq; exact (sound_quiet _ _ Hq ltac:(assumption))]. intros response s4 H4.
  apply applyPushResults_wp; [exact (sound_quiet _ _ H4 Hs3)|]. rewrite (q_batch _ _ H4), Hb3, Hb2. done.
Qed.

Notation push_loop := (push_loop JSON_parse stamp_text text_stamp Date_parse sha256 projectId deviceId randomUUID).
Notation applyInbox := (applyInbox JSON_parse stamp_text text_stamp sha256 projectId deviceId).

Lemma push_loop_wp guard done n s :
  sound s → s.(sy_batch) = None →
  wp (push_loop guard done n) (λ _ s', sound s' ∧ s'.(sy_batch) = None) (λ _ s', sound s') s.
Proof.
  revert done n s. induction guard as [|guard IH]; intros done n s Hs Hb; cbn [SyncEngine.push_loop]; [by apply wp_ret|].
  apply wp_bind. eapply wp_mono; [by apply build_wp| |done]. intros [request|] s1 [Hs1 Hb1]; [|by apply wp_ret].
  apply wp_bind. eapply wp_mono; [by apply pushFrozen_wp| |done]. intros _ s2 [Hs2 Hb2].
  apply wp_quiet_step; [apply quiet_applyInbox|done|]. intros r s3 Hs3 Hb3. apply IH; congruence.
Qed.

Lemma pass_wp remoteId project s :
  sound s →
  wp (pass_body JSON_parse stamp_text text_stamp Date_parse sha256 projectId deviceId randomUUID remoteId project)
    (λ _ s', sound s') (λ _ s', sound s') s.
Proof.
  intros Hs. unfold pass_body, resendFrozenBatch. apply wp_bind, wp_bind, wp_gets.
  eapply (wp_mono _ (λ _ s', sound s' ∧ sy_batch s' = None) _ (λ _ s', sound s')); [|intros _ s1 [Hs1 Hb1]|done].
  { destruct (sy_batch s) as [request|] eqn:Hb; [by apply pushFrozen_wp|by apply wp_ret]. }
  apply wp_quiet_step; [apply quiet_client_head|done|]. intros head s2 Hs2 Hb2.
  apply wp_bind. assert (quiet s2 (pull_step stamp_text projectId remoteId project head s2).2) as Hp
    by (apply quiet_pull_step; congruence).
  eapply (wp_mono _ (λ _ s', quiet s2 s') _ (λ _ s', quiet s2 s')).
  { unfold wp. by destruct (pull_step _ _ _ _ _ s2) as [[a|e] s']. }
  2: { intros e s' H. exact (sound_quiet _ _ H Hs2). }
  intros pulled s3 H3. pose proof (sound_quiet _ _ H3 Hs2) as Hs3. pose proof (q_batch _ _ H3) as Hb3.
  apply wp_quiet_step; [apply quiet_applyInbox|done|]. intros apply s4 Hs4 Hb4.
  apply wp_bind. eapply wp_mono; [apply push_loop_wp; [done|congruence]| |done]. intros pushed s5 [Hs5 Hb5].
  apply wp_quiet_step; [apply quiet_uploadConflicts|done|]. intros ? s6 Hs6 _.
  apply wp_bind, wp_get. apply wp_quiet_step; [by apply quiet_project|done|]. intros ? s7 Hs7 _.
  apply wp_quiet_step; [apply quiet_persistClock|done|]. intros ? s8 Hs8 _. by apply wp_ret.
Qed.

Lemma sync_wp s :
  sound s →
  wp (syncProject JSON_parse stamp_text text_stamp Date_parse sha256 projectId deviceId randomUUID)
    (λ _ s', sound s') (λ _ s', sound s') s.
Proof.
  intros Hs. unfold syncProject. apply wp_bind, wp_get. case_match; [|by apply wp_ret]. case_match; [by apply wp_ret|].
  apply wp_catch. eapply wp_mono; [by apply pass_wp|done|]. intros e s1 Hs1.
  apply wp_quiet_step; [apply quiet_persistClock|done|]. intros ? s2 Hs2 _.
  eapply wp_mono; [apply wp_quiet, quiet_handleFailure|..]; intros ? ? Hq; exact (sound_quiet _ _ Hq Hs2).
Qed.

(** ** The user's answers *)

(** The hold changes, but not its window. *)
Lemma sound_hold s h : sound s → h.(dh_window) = s.(sy_project).(sp_deleteHold).(dh_window) → sound (set_project (with_deleteHold h s.(sy_project)) s).
Proof. intros [H1 H2 H3 H4] Hw. split; [done|done|done|]. unfold window_covers in *. simpl. by rewrite Hw. Qed.

Lemma approve_wp s : sound s → wp approveHeldDeletes (λ _ s', sound s') (λ _ s', sound s') s.
Proof.
  intros Hs. unfold approveHeldDeletes. apply wp_bind, wp_get, wp_when; [|done]. intros _. apply wp_bind, wp_modify.
  eapply wp_mono; [apply wp_quiet, quiet_appendLog|..]; intros ? ? H; refine (sound_quiet _ _ H _); by apply sound_hold.
Qed.

Lemma restore_wp s :
  sound s →
  wp (restoreHeldDeletes JSON_parse stamp_text text_stamp sha256 projectId deviceId) (λ _ s', sound s') (λ _ s', sound s') s.
Proof.
  intros Hs. unfold restoreHeldDeletes. apply wp_bind, wp_get, wp_bind, wp_transaction, wp_bind, wp_gets.
  apply wp_bind. eapply (wp_mono _ (λ _ s', quiet s s') _ (λ _ _, True)).
  { assert (preserves quiet (foldM_S (restore_entity deviceId (readProjection stamp_text projectId s.(sy_db))) (sy_entities s) 0)) as H.
    { apply quiet_foldM_S. intros st n. unfold restore_entity. quietly. apply quiet_foldM_S. intros f st'. quietly. }
    eapply wp_mono; [by apply wp_quiet|done|done]. }
  2: done.
  intros n s1 H1. apply wp_bind, wp_get, wp_bind, wp_modify, wp_ret.
  assert (sound (set_project (with_deleteHold (mk_hold (dh_window (sp_deleteHold (sy_project s1))) 0 false) (sy_project s1)) s1)) as Hs2.
  { apply sound_hold; [by eapply sound_quiet|done]. }
  eapply wp_mono; [apply wp_quiet|intros ? ? H; exact (sound_quiet _ _ H Hs2)..].
  pose proof (quiet_applyInbox JSON_parse stamp_text text_stamp sha256 projectId deviceId). quietly.
Qed.
End Trace.
