(* ===== verification/SyncRules.v ===== *)
(** * The rules of the inbox and of the diff

    What [SyncApply.classify] lets through to a write, what [SyncEngine.opFor]
    pushes, and that a push the service accepts leaves nothing to push. *)

From S2P Require Import Prelude Wp RunStateMachine Database JsNumber TaskTables TaskRouter TaskUpdate TaskHistory Canonical Hlc SyncTables SyncStore SyncApply SyncEngine SyncFrames SyncTrace.
From Stdlib Require Import Sorted.

Open Scope js_scope.

(** ** Values *)

Lemma same_refl a : same a a = true.
Proof. apply String.eqb_refl. Qed.
Lemma same_sym a b : same a b = same b a.
Proof. apply String.eqb_sym. Qed.
Lemma same_trans a b c : same a b = true → same b c = true → same a c = true.
Proof. unfold same. rewrite !String.eqb_eq. congruence. Qed.
(** A missing value prints as [null]. *)
Lemma same_default v b : same (Some (default jnull v)) b = same v b.
Proof. by destruct v. Qed.

Lemma is_dirty_default local st f :
  is_dirty local st f = match st.(st_base) !! f with
                        | Some b => negb (same (Some (default jnull (pe_field f local))) (Some b.(bf_value))) | None => true end.
Proof. unfold is_dirty. case_match; [by rewrite same_default|done]. Qed.

Lemma synced_NoDup type : NoDup (SYNCED_FIELDS type).
Proof. by apply (bool_decide_unpack _); destruct type; vm_compute. Qed.

(** ** The diff of an entity *)

Section Diff.
Context (stamp_text : instant → string).
Context (Date_parse : string → option Z).
Context (deviceId : string).

Notation opFor := (opFor stamp_text Date_parse deviceId).
Notation push_field := (push_field stamp_text Date_parse deviceId).

(** A field of a push: the local value, at the version agreed on, with the stamp
    that the entity keeps for this value. *)
Definition pushed (local : ProjectedEntity) (st st' : SyncEntityState) (f : field) (pf : PushField) : Prop :=
  pf.(pf_value) = default jnull (pe_field f local) ∧ pf.(pf_baseV) = base_v f st
  ∧ ∃ v, st'.(st_dirty) !! f = Some (mk_dirty v pf.(pf_hlc)) ∧ same (Some v) (pe_field f local) = true.

(** Besides the stamps an entity stays the same. *)
Record same_but_dirty (st st' : SyncEntityState) : Prop := {
  sb_key : st_key st' = st_key st;
  sb_ref : st'.(st_ref) = st.(st_ref);
  sb_version : st'.(st_version) = st.(st_version);
  sb_base : st'.(st_base) = st.(st_base);
  sb_inbox : st'.(st_inbox) = st.(st_inbox);
  sb_delete : st'.(st_pendingDelete) = st.(st_pendingDelete)
}.

#[export] Instance same_but_dirty_preorder : PreOrder same_but_dirty.
Proof. split; [by intros s; split|]. intros a b c [] []. split; congruence. Qed.

Lemma same_but_dirty_with g st : same_but_dirty st (with_dirty g st).
Proof. by split. Qed.

(** One field. *)
Lemma push_field_wp local isCreate f fields st s :
  wp (push_field local isCreate f (fields, st))
    (λ r s', static s s' ∧ same_but_dirty st r.2
       ∧ (∀ g, g ≠ f → r.2.(st_dirty) !! g = st.(st_dirty) !! g)
       ∧ if isCreate || is_dirty local st f
         then ∃ pf, r.1 = fields ++ [(f, pf)] ∧ pushed local st r.2 f pf
         else r.1 = fields ∧ r.2.(st_dirty) !! f = None) (λ _ _, False) s.
Proof.
  unfold SyncEngine.push_field. cbv zeta. rewrite is_dirty_default. set (L := default jnull (pe_field f local)).
  assert ((isCreate || match st_base st !! f with Some b => negb (same (Some L) (Some (bf_value b))) | None => true end)
    = negb (negb isCreate && match st_base st !! f with Some b => same (Some L) (Some (bf_value b)) | None => false end)) as ->
    by (destruct isCreate, (st_base st !! f); simpl; rewrite ?negb_involutive; done).
  destruct (negb isCreate && _) eqn:Hclean; cbn [negb].
  { apply wp_ret. split_and!; [done|apply same_but_dirty_with| |done|apply lookup_delete_eq].
    intros g Hg. simpl. by rewrite lookup_delete_ne. }
  assert (∀ s0 st0 h, static s s0 → st0 = with_dirty (<[f := mk_dirty L h]>) st →
    wp (mret (fields ++ [(f, mk_push_field L (default 0%Z (bf_v <$> st_base st !! f)) h)], st0) : MS _)
      (λ r s', static s s' ∧ same_but_dirty st r.2 ∧ (∀ g, g ≠ f → r.2.(st_dirty) !! g = st.(st_dirty) !! g)
        ∧ ∃ pf, r.1 = fields ++ [(f, pf)] ∧ pushed local st r.2 f pf) (λ _ _, False) s0) as Hnew.
  { intros s0 st0 h Hs ->. apply wp_ret. split_and!; [done|apply same_but_dirty_with| |].
    - intros g Hg. simpl. by rewrite lookup_insert_ne.
    - eexists. split; [done|]. split_and!; [done|done|]. exists L. simpl. rewrite lookup_insert_eq.
      split; [done|]. unfold L. by rewrite same_default, same_refl. }
  assert (∀ h0, wp (h <- editTime stamp_text Date_parse deviceId local h0 ;; mret (mk_dirty L h, with_dirty (<[f:=mk_dirty L h]>) st))
    (λ r s', static s s' ∧ ∃ h, r = (mk_dirty L h, with_dirty (<[f:=mk_dirty L h]>) st)) (λ _ _, False) s) as Hedit.
  { intros h0. apply wp_bind. apply (wp_mono _ (λ _ s', static s s') _ (λ _ _, False)); [| |done].
    - assert (silent (editTime stamp_text Date_parse deviceId local h0)) as H by (unfold editTime; silently). apply H.
    - intros h s1 H1. apply wp_ret. eauto. }
  apply wp_bind. destruct (st_dirty st !! f) as [dv|] eqn:Hd; [destruct (same (Some (df_value dv)) (Some L)) eqn:Hsame|].
  - apply wp_ret, wp_ret. split_and!; [done|done|done|]. eexists. split; [done|]. split_and!; [done|done|].
    exists dv.(df_value). simpl. rewrite Hd. split; [by destruct dv|]. by rewrite same_sym, <- same_default, same_sym.
  - eapply wp_mono; [apply Hedit| |done]. intros r s1 [H1 [h ->]]. by apply Hnew.
  - eapply wp_mono; [apply Hedit| |done]. intros r s1 [H1 [h ->]]. by apply Hnew.
Qed.

(** The fields of an entity that is here. *)
Lemma push_fields_wp local isCreate fs fields st s :
  NoDup fs →
  wp (foldM_S (push_field local isCreate) fs (fields, st))
    (λ r s', static s s' ∧ same_but_dirty st r.2
       ∧ (∀ g, g ∉ fs → r.2.(st_dirty) !! g = st.(st_dirty) !! g)
       ∧ ∃ sent, r.1 = fields ++ sent ∧ sent.*1 = filter (λ f, isCreate || is_dirty local st f = true) fs
         ∧ (∀ f pf, (f, pf) ∈ sent → pushed local st r.2 f pf)
         ∧ ∀ f, f ∈ fs → isCreate || is_dirty local st f = false → r.2.(st_dirty) !! f = None) (λ _ _, False) s.
Proof.
  intros Hnd. revert fields st s. induction Hnd as [|f fs Hf _ IH]; intros fields st s; cbn [foldM_S].
  { apply wp_ret. split_and!; [done|done|done|]. exists []. split_and!; [by rewrite app_nil_r|done| |]; [intros ? ? ?%not_elem_of_nil|intros ? ?%not_elem_of_nil]; done. }
  apply wp_bind. eapply wp_mono; [apply push_field_wp| |done]. intros [fields1 st1] s1 (Hs1 & Hb1 & Hd1 & Hf1). cbn [fst snd] in *.
  eapply wp_mono; [apply IH| |done]. intros [fields2 st2] s2 (Hs2 & Hb2 & Hd2 & sent & Hsent & Hfst & Hpf & Hclean). cbn [fst snd] in *.
  assert (∀ g, is_dirty local st1 g = is_dirty local st g) as Hdirty by (intros g; unfold is_dirty; by rewrite (sb_base _ _ Hb1)).
  assert (∀ g pf, pushed local st1 st2 g pf → pushed local st st2 g pf) as Hpushed.
  { intros g pf (? & H2 & ?). split_and!; [done| |done]. rewrite H2. unfold base_v. by rewrite (sb_base _ _ Hb1). }
  split_and!; [by etransitivity|by etransitivity| |].
  { intros g [Hgf Hgs]%not_elem_of_cons. rewrite Hd2 by done. by apply Hd1. }
  setoid_rewrite Hdirty in Hclean. assert (filter (λ f, isCreate || is_dirty local st1 f = true) fs
    = filter (λ f, isCreate || is_dirty local st f = true) fs) as Hfil by (apply list_filter_iff; intros g; by rewrite Hdirty).
  rewrite Hfil in Hfst. rewrite filter_cons. destruct (isCreate || is_dirty local st f) eqn:Hb.
  - destruct Hf1 as (pf & -> & Hpf1). exists ((f, pf) :: sent). split_and!.
    + by rewrite Hsent, <- (assoc_L (++)).
    + by rewrite fmap_cons, Hfst, decide_True.
    + intros g pg [[= -> ->]|Hg]%elem_of_cons; [|by apply Hpushed, Hpf]. destruct Hpf1 as (? & ? & v & Hv & ?).
      split_and!; [done|done|]. exists v. by rewrite Hd2.
    + intros g [->|Hg]%elem_of_cons Hgb; [congruence|by apply Hclean].
  - destruct Hf1 as [-> Hnone]. exists sent. split_and!.
    + done.
    + by rewrite decide_False.
    + intros g pg Hg. by apply Hpushed, Hpf.
    + intros g [->|Hg]%elem_of_cons Hgb; [by rewrite Hd2|by apply Hclean].
Qed.

Lemma opFor_wp local st isCreate s :
  wp (opFor local st isCreate)
    (λ r s', static s s' ∧ same_but_dirty st r.2
       ∧ r.1 = op_upsert local.(pe_type) local.(pe_id) (if isCreate then Some local.(pe_ref) else None) (op_fields r.1)
       ∧ (op_fields r.1).*1 = filter (λ f, isCreate || is_dirty local st f = true) (SYNCED_FIELDS local.(pe_type))
       ∧ (∀ f pf, (f, pf) ∈ op_fields r.1 → pushed local st r.2 f pf)
       ∧ ∀ f, f ∈ SYNCED_FIELDS local.(pe_type) → isCreate || is_dirty local st f = false → r.2.(st_dirty) !! f = None) (λ _ _, False) s.
Proof.
  unfold SyncEngine.opFor. apply wp_bind. eapply wp_mono; [apply push_fields_wp, synced_NoDup| |done].
  intros [fields st1] s1 (Hs & Hb & _ & sent & Hsent & Hfst & Hpf & Hclean). simpl in Hsent. subst fields.
  apply wp_ret. by split_and!.
Qed.

(** The diff of an entity always succeeds; it names exactly the fields that differ
    from the base, with the local value, the version agreed on and the stamp the
    entity keeps, and drops the stamps of the others. *)
Theorem diff_exact local st isCreate s :
  ∃ op st' s',
    opFor local st isCreate s = (Ok (op, st'), s') ∧ static s s' ∧ same_but_dirty st st'
    ∧ op = op_upsert local.(pe_type) local.(pe_id) (if isCreate then Some local.(pe_ref) else None) (op_fields op)
    ∧ (op_fields op).*1 = filter (λ f, isCreate || is_dirty local st f = true) (SYNCED_FIELDS local.(pe_type))
    ∧ (∀ f pf, (f, pf) ∈ op_fields op → pushed local st st' f pf)
    ∧ ∀ f, f ∈ SYNCED_FIELDS local.(pe_type) → isCreate || is_dirty local st f = false → st'.(st_dirty) !! f = None.
Proof.
  pose proof (opFor_wp local st isCreate s) as H. unfold wp in H.
  destruct (opFor local st isCreate s) as [[[op st']|e] s']; [|done]. exists op, st', s'. split; [done|exact H].
Qed.
End Diff.

(** ** The answer to a push *)

Lemma entry_elem {A} f (l : list (field * A)) a : entry f l = Some a → (f, a) ∈ l.
Proof.
  induction l as [|[g b] l IH]; simpl; [done|]. case_decide; [intros [= ->]; subst; left|right; by apply IH].
Qed.

(** The service took the value that was sent. *)
Definition echoed (op : PushOp) (es : EntityState) (fo : field * FieldResult) : Prop :=
  (fo.2 = fr_accepted ∨ fo.2 = fr_noop) ∧
  ∃ sent clock value, entry fo.1 (op_fields op) = Some sent ∧ entry fo.1 es.(es_clocks) = Some clock
    ∧ entry fo.1 es.(es_fields) = Some value ∧ same (Some value) (Some sent.(pf_value)) = true.

(** The base holds a value that prints like the one sent. *)
Definition agreed (op : PushOp) (st : SyncEntityState) (f : field) : Prop :=
  ∃ b sent, st.(st_base) !! f = Some b ∧ entry f (op_fields op) = Some sent ∧ same (Some b.(bf_value)) (Some sent.(pf_value)) = true.

Lemma settle_field_wp op es fo st s :
  echoed op es fo →
  wp (settle_field op (Some es) fo st)
    (λ r s', s'.(sy_entities) = s.(sy_entities) ∧ st_key r = st_key st ∧ agreed op r fo.1
       ∧ ∀ g, g ≠ fo.1 → r.(st_base) !! g = st.(st_base) !! g) (λ _ _, False) s.
Proof.
  destruct fo as [f outcome]. intros [Hout (sent & clock & value & Hs & Hc & Hv & Hsame)]. simpl in *.
  rewrite Hs, Hc, Hv. apply wp_bind, wp_modify, wp_ret. cbn [default]. set (b := mk_base value (fc_v clock) (Some (fc_hlc clock))).
  set (st1 := with_base (<[f := b]>) st).
  assert (agreed op st1 f) as Hag.
  { exists b, sent. split_and!; [by simpl; rewrite lookup_insert_eq|done|done]. }
  assert (∀ g, g ≠ f → st_base st1 !! g = st_base st !! g) as Hg by (intros g Hg; simpl; by rewrite lookup_insert_ne).
  destruct Hout as [-> | ->]; cbn beta iota; (case_match; [case_match|]); by split_and!.
Qed.

Lemma settle_fields_wp op es l st s :
  Forall (echoed op es) l →
  wp (foldM_S (settle_field op (Some es)) l st)
    (λ r s', s'.(sy_entities) = s.(sy_entities) ∧ st_key r = st_key st ∧ (∀ f, f ∈ l.*1 → agreed op r f)
       ∧ ∀ g, g ∉ l.*1 → r.(st_base) !! g = st.(st_base) !! g) (λ _ _, False) s.
Proof.
  revert st s. induction l as [|fo l IH]; intros st s Hl; cbn [foldM_S].
  { apply wp_ret. split_and!; [done|done| |done]. intros f ?%not_elem_of_nil. done. }
  apply Forall_cons in Hl as [Hfo Hl]. apply wp_bind. eapply wp_mono; [by apply settle_field_wp| |done].
  intros st1 s1 (He1 & Hk1 & Ha1 & Hg1). eapply wp_mono; [by apply IH| |done]. intros st2 s2 (He2 & Hk2 & Ha2 & Hg2).
  split_and!; [congruence|congruence| |].
  - intros f Hf. destruct (decide (f ∈ l.*1)) as [Hin|Hin]; [by apply Ha2|]. apply elem_of_cons in Hf as [->|?]; [|done].
    destruct Ha1 as (b & sent & Hb & ?). exists b, sent. by rewrite Hg2.
  - intros g [Hgf Hgl]%not_elem_of_cons. by rewrite Hg2, Hg1.
Qed.

Lemma ride_along_keeps op es l st :
  st_key (fold_left (ride_along op es) l st) = st_key st ∧ st_base (fold_left (ride_along op es) l st) = st_base st.
Proof.
  revert st. induction l as [|[f clock] l IH]; intros st; cbn [fold_left]; [done|].
  destruct (IH (ride_along op es st (f, clock))) as [-> ->]. unfold ride_along. by repeat case_match.
Qed.

Lemma settle_upsert_wp op result es st s :
  find_row (op_type op) (op_id op) s.(sy_entities) = Some st →
  result.(or_error) = None → result.(or_status) ≠ os_deleted → result.(or_entity) = Some es →
  Forall (echoed op es) result.(or_fields) →
  wp (settle_upsert op result)
    (λ _ s', ∃ st', find_row (op_type op) (op_id op) s'.(sy_entities) = Some st'
       ∧ (∀ f, f ∈ result.(or_fields).*1 → agreed op st' f)
       ∧ ∀ g, g ∉ result.(or_fields).*1 → st'.(st_base) !! g = st.(st_base) !! g) (λ _ _, False) s.
Proof.
  intros Hrow He Hdel Hes Hf. pose proof (find_row_key _ _ _ _ Hrow) as [Hkey _].
  unfold settle_upsert. apply wp_bind, wp_get. rewrite Hrow, He, Hes. cbn [default].
  set (st1 := match op with op_upsert _ _ (Some r) _ => with_ref (Some r) st | _ => st end).
  set (st2 := with_ref _ _). assert (st_key st2 = st_key st ∧ st_base st2 = st_base st) as [Hk2 Hb2].
  { unfold st2, st1. by repeat case_match. }
  assert (wp (st3 <- foldM_S (settle_field op (Some es)) (or_fields result) st2 ;;
              putEntity (fold_left (ride_along op es) (es_clocks es) st3))
    (λ _ s', ∃ st', find_row (op_type op) (op_id op) s'.(sy_entities) = Some st'
       ∧ (∀ f, f ∈ result.(or_fields).*1 → agreed op st' f)
       ∧ ∀ g, g ∉ result.(or_fields).*1 → st'.(st_base) !! g = st.(st_base) !! g) (λ _ _, False) s) as Hgoal.
  { apply wp_bind. eapply wp_mono; [by apply settle_fields_wp| |done]. intros st3 s3 (He3 & Hk3 & Ha3 & Hg3).
    destruct (ride_along_keeps op es (es_clocks es) st3) as [Hk4 Hb4]. set (st4 := fold_left _ _ st3) in *.
    assert (st_key st4 = (op_type op, op_id op)) as [= Hty Hid] by congruence.
    apply wp_modify. exists st4. split_and!.
    - cbn [sy_entities set_entities]. rewrite <- Hty, <- Hid. apply find_put_eq.
    - intros f Hin. destruct (Ha3 f Hin) as (b & sent & Hb & ?). exists b, sent. by rewrite Hb4.
    - intros g Hin. rewrite Hb4, Hg3 by done. by rewrite Hb2. }
  by destruct (or_status result).
Qed.

(** ** A push that is accepted *)

Lemma filter_iff_in {A} (P Q : A → Prop) `{∀ x, Decision (P x), ∀ x, Decision (Q x)} (l : list A) :
  (∀ x, x ∈ l → P x ↔ Q x) → filter P l = filter Q l.
Proof.
  induction l as [|x l IH]; intros Hl; [done|]. rewrite !filter_cons, IH by (intros y Hy; apply Hl; by right).
  assert (P x ↔ Q x) as Hx by (apply Hl; left). repeat case_decide; tauto.
Qed.

Section Push.
Context (stamp_text : instant → string).
Context (Date_parse : string → option Z).
Context (deviceId : string).

Notation opFor := (opFor stamp_text Date_parse deviceId).

(** C19: After a push of an entity that the service accepts with the values it was sent, the
    next diff is empty but for the edits made since: opFor then names exactly the fields
    whose local value is no longer the one that was pushed, for an update and for a create.
    *)
Theorem push_converges local st isCreate s op st' s1 result es s2 :
  opFor local st isCreate s = (Ok (op, st'), s1) →
  find_row (op_type op) (op_id op) s2.(sy_entities) = Some st' →
  result.(or_error) = None → result.(or_status) ≠ os_deleted → result.(or_entity) = Some es →
  result.(or_fields).*1 ≡ₚ (op_fields op).*1 → Forall (echoed op es) result.(or_fields) →
  ∃ st2 s3,
    settle_upsert op result s2 = (Ok tt, s3) ∧ find_row (op_type op) (op_id op) s3.(sy_entities) = Some st2
    ∧ ∀ local' s4, local'.(pe_type) = local.(pe_type) →
        ∃ op' st3 s5, opFor local' st2 false s4 = (Ok (op', st3), s5)
          ∧ (op_fields op').*1 = filter (λ f, same (pe_field f local') (pe_field f local) = false) (SYNCED_FIELDS local.(pe_type)).
Proof.
  intros Hop Hrow He Hdel Hes Hperm Hf.
  pose proof (opFor_wp stamp_text Date_parse deviceId local st isCreate s) as Hd. unfold wp in Hd. rewrite Hop in Hd.
  destruct Hd as (_ & Hsb & _ & Hfst & Hpf & _). cbn [fst snd] in *.
  pose proof (settle_upsert_wp op result es st' s2 Hrow He Hdel Hes Hf) as Hw. unfold wp in Hw.
  destruct (settle_upsert op result s2) as [[[]|e] s3]; [|done]. destruct Hw as (st2 & Hrow2 & Hag & Hkeep).
  exists st2, s3. split_and!; [done|done|]. intros local' s4 Hty.
  pose proof (opFor_wp stamp_text Date_parse deviceId local' st2 false s4) as Hd. unfold wp in Hd.
  destruct (opFor local' st2 false s4) as [[[op' st3]|e] s5]; [|done]. destruct Hd as (_ & _ & _ & Hfst' & _). cbn [fst snd] in *.
  exists op', st3, s5. split; [done|]. rewrite Hfst', Hty. apply filter_iff_in. intros f Hin.
  assert (∃ b, st2.(st_base) !! f = Some b ∧ same (Some b.(bf_value)) (pe_field f local) = true) as (b & Hb & Hsame).
  { destruct (isCreate || is_dirty local st f) eqn:Hdirty.
    - destruct (Hag f) as (b & sent & Hb & Hs & Hv). { rewrite Hperm, Hfst. by apply list_elem_of_filter. }
      exists b. split; [done|]. destruct (Hpf f sent) as [HL _]; [by apply entry_elem|]. rewrite HL in Hv.
      by rewrite same_sym, <- same_default, same_sym.
    - apply orb_false_iff in Hdirty as [-> Hclean]. unfold is_dirty in Hclean. rewrite <- (sb_base _ _ Hsb) in Hclean.
      destruct (st_base st' !! f) as [b|] eqn:Hb; [|done]. exists b. apply negb_false_iff in Hclean. split; [|by rewrite same_sym].
      rewrite Hkeep; [done|]. rewrite Hperm, Hfst, list_elem_of_filter. intros [Hx _]. unfold is_dirty in Hx.
      rewrite <- (sb_base _ _ Hsb), Hb, Hclean in Hx. done. }
  unfold is_dirty. rewrite Hb. cbn [orb]. rewrite <- negb_true_iff. f_equiv. apply eq_iff_eq_true. rewrite !negb_true_iff.
  rewrite <- !not_true_iff_false. apply not_iff_compat. split; intros H.
  - by eapply same_trans.
  - eapply same_trans; [exact H|by rewrite same_sym].
Qed.
End Push.

(** ** A create that is accepted *)

Module Echo.
Definition idea : ProjectedEntity := mk_projected TIdea "i1" "IDEA-1" [(w_title, jstr "x"); (w_stage, jstr "1")] 5%Z.
Definition st0 : SyncEntityState := with_ref (Some "IDEA-1") (blankState TIdea "i1").
Definition s0 : sync :=
  mk_sync (mk_tdb ∅ [] 0 ∅ ∅ [] [] [] [] None ∅ ∅ []) [] []
    (mk_sync_project (Some "r") ps_active 0 false None None (mk_hold [] 0 false)) None [] (new_clock None) None 1000%Z [] [] [].
Definition create := opFor (λ _, "") (λ _, None) "dev" idea st0 true.
Definition op : PushOp := match (create s0).1 with Ok r => r.1 | Throw _ => op_tombstone TIdea "" 0 end.
Definition st' : SyncEntityState := match (create s0).1 with Ok r => r.2 | Throw _ => st0 end.
Definition stored : sync := set_entities [st'] (create s0).2.
(** The service stored what it was sent. *)
Definition es : EntityState :=
  mk_entity_state (Some "IDEA-1") 1 ((λ p, (p.1, p.2.(pf_value))) <$> op_fields op)
    ((λ p, (p.1, mk_clock 1 p.2.(pf_hlc))) <$> op_fields op).
Definition result : OpResult := mk_result "i1" os_applied None ((λ p, (p.1, fr_accepted)) <$> op_fields op) (Some es).

Lemma created : create s0 = (Ok (op, st'), (create s0).2).
Proof.
  assert (match (create s0).1 with Ok _ => true | Throw _ => false end = true) as H by (vm_compute; reflexivity).
  unfold op, st'. by destruct (create s0) as [[[o t]|e] s].
Qed.

Lemma found : find_row (op_type op) (op_id op) stored.(sy_entities) = Some st'.
Proof.
  change (sy_entities stored) with (put_row st' []).
  assert (op_type op = st_type st') as -> by (vm_compute; reflexivity).
  assert (op_id op = st_id st') as -> by (vm_compute; reflexivity). apply find_put_eq.
Qed.

Definition echo_check (fo : field * FieldResult) : bool :=
  match fo.2, entry fo.1 (op_fields op), entry fo.1 es.(es_clocks), entry fo.1 es.(es_fields) with
  | fr_accepted, Some sent, Some _, Some v => same (Some v) (Some sent.(pf_value))
  | _, _, _, _ => false
  end.

Lemma echoes : Forall (echoed op es) (or_fields result).
Proof.
  assert (forallb echo_check (or_fields result) = true) as H by (vm_compute; reflexivity).
  rewrite forallb_forall in H. apply Forall_forall. intros [f o] Hin%list_elem_of_In%H. unfold echo_check in Hin. cbn [fst snd] in Hin.
  unfold echoed. cbn [fst snd]. generalize dependent es. intros es0 Hin. generalize dependent op. intros op0 Hin.
  destruct o; [|discriminate..]. split; [by left|]. repeat case_match; try discriminate. by do 3 eexists.
Qed.
End Echo.

Lemma push_converges_witness :
  ∃ st2 s3, settle_upsert Echo.op Echo.result Echo.stored = (Ok tt, s3) ∧ find_row TIdea "i1" s3.(sy_entities) = Some st2
    ∧ ∀ s4, ∃ op' st3 s5, opFor (λ _, "") (λ _, None) "dev" Echo.idea st2 false s4 = (Ok (op', st3), s5) ∧ (op_fields op').*1 = [].
Proof.
  destruct (push_converges (λ _, "") (λ _, None) "dev" Echo.idea Echo.st0 true Echo.s0 Echo.op Echo.st' _ Echo.result Echo.es Echo.stored
    Echo.created) as (st2 & s3 & H1 & H2 & H3).
  - exact Echo.found.
  - reflexivity.
  - discriminate.
  - reflexivity.
  - vm_compute. reflexivity.
  - exact Echo.echoes.
  - exists st2, s3. split; [exact H1|]. split; [exact H2|]. intros s4. destruct (H3 Echo.idea s4 eq_refl) as (op' & st3 & s5 & H4 & H5).
    exists op', st3, s5. split; [exact H4|]. rewrite H5. vm_compute. reflexivity.
Defined.

(** ** The inbox of an entity that is here *)

Section Inbox.
Context (now : instant) (d : tdb) (local : ProjectedEntity) (st : SyncEntityState).

Notation classify := (classify now d local).

Definition taken (e : InboxField) : BaseField := mk_base e.(if_value) e.(if_v) (Some e.(if_hlc)).
Definition differs (f : field) (e : InboxField) : Prop :=
  ∀ L, pe_field f local = Some L → same (Some L) (Some e.(if_value)) = false.

(** What becomes of one entry: the base and the entry after it, and whether it
    is written. *)
Inductive ruled (f : field) (e : InboxField) : option BaseField → option InboxField → bool → Prop :=
  | ruled_later : f = w_depends_on → ruled f e (st.(st_base) !! f) (Some e) false
  | ruled_stale : f ≠ w_depends_on → (e.(if_v) <= base_v f st)%Z → ruled f e (st.(st_base) !! f) None false
  | ruled_equal L :
      f ≠ w_depends_on → (base_v f st < e.(if_v))%Z → pe_field f local = Some L → same (Some L) (Some e.(if_value)) = true →
      ruled f e (Some (taken e)) None false
  | ruled_shadow :
      f ≠ w_depends_on → (base_v f st < e.(if_v))%Z → differs f e → is_dirty local st f = true →
      ruled f e (st.(st_base) !! f) (Some (park now e r_shadow)) false
  | ruled_parked r :
      f ≠ w_depends_on → is_dirty local st f = false → r = r_unsupported ∨ r = r_missing_ref →
      ruled f e (st.(st_base) !! f) (Some (park now e r)) false
  | ruled_created :
      f = w_created_at → (base_v f st < e.(if_v))%Z → differs f e → is_dirty local st f = false →
      ruled f e (Some (taken e)) None false
  | ruled_write :
      f ≠ w_depends_on → f ≠ w_created_at → (base_v f st < e.(if_v))%Z → differs f e → is_dirty local st f = false →
      validValue f e.(if_value) = true → misses_ref d f e.(if_value) = false →
      ruled f e (st.(st_base) !! f) (Some e) true.

(** A field as it was. *)
Definition untouched (st' : SyncEntityState) (f : field) : Prop :=
  st'.(st_base) !! f = st.(st_base) !! f ∧ st'.(st_inbox) !! f = st.(st_inbox) !! f.

Definition kept (st' st2 : SyncEntityState) (f : field) : Prop :=
  st2.(st_base) !! f = st'.(st_base) !! f ∧ st2.(st_inbox) !! f = st'.(st_inbox) !! f.

Lemma classify_step st1 content guarded f e :
  untouched st1 f → st.(st_inbox) !! f = Some e →
  let '(st2, content', guarded') := classify (st1, content, guarded) (f, e) in
  (∀ g, g ≠ f → kept st1 st2 g)
  ∧ ∃ w, ruled f e (st2.(st_base) !! f) (st2.(st_inbox) !! f) w
      ∧ (content', guarded') = if w then (if decide (f ∈ GUARDED_FIELDS) then (content, guarded ++ [(f, e)]) else (content ++ [(f, e)], guarded))
                               else (content, guarded).
Proof.
  intros [Hb Hi] He. rewrite He in Hi. unfold SyncApply.classify.
  assert (base_v f st1 = base_v f st) as -> by (unfold base_v; by rewrite Hb).
  assert (is_dirty local st1 f = is_dirty local st f) as -> by (unfold is_dirty; by rewrite Hb).
  destruct (decide (f = w_depends_on)) as [Hdep|Hdep].
  { split; [done|]. exists false. rewrite Hb, Hi. split; [by apply ruled_later|done]. }
  destruct (if_v e <=? base_v f st)%Z eqn:Hv; [apply Z.leb_le in Hv|apply Z.leb_gt in Hv].
  { split; [intros g Hg; split; [done|by apply lookup_delete_ne]|]. exists false. simpl. rewrite Hb, lookup_delete_eq.
    split; [by apply ruled_stale|done]. }
  destruct (match pe_field f local with Some L => _ | None => false end) eqn:Heq.
  { destruct (pe_field f local) as [L|] eqn:HL; [|done]. set (st2 := drop_inbox f (SyncApply.agree f e st1)).
    assert (∀ h, kept st2 (with_dirty h st2) f ∧ ∀ g, kept st2 (with_dirty h st2) g) as Hk by done.
    assert ((∀ g, g ≠ f → kept st1 st2 g) ∧ st_base st2 !! f = Some (taken e) ∧ st_inbox st2 !! f = None) as (Hg & Hb2 & Hi2).
    { split_and!; [intros g Hgf; split; [by apply lookup_insert_ne|by apply lookup_delete_ne]|apply lookup_insert_eq|apply lookup_delete_eq]. }
    assert (ruled f e (st_base st2 !! f) (st_inbox st2 !! f) false) as Hr by (rewrite Hb2, Hi2; by eapply ruled_equal).
    case_match; [case_match|]; (split; [exact Hg|by exists false]). }
  assert (differs f e) as Hdiff by (intros L HL; by rewrite HL in Heq).
  assert (∀ r, (∀ g, g ≠ f → kept st1 (set_inbox f (park now e r) st1) g)
    ∧ st_base (set_inbox f (park now e r) st1) !! f = st_base st !! f
    ∧ st_inbox (set_inbox f (park now e r) st1) !! f = Some (park now e r)) as Hpark.
  { intros r. split_and!; [intros g Hg; split; [done|by apply lookup_insert_ne]|done|apply lookup_insert_eq]. }
  destruct (is_dirty local st f) eqn:Hdirty.
  { destruct (Hpark r_shadow) as (Hg & -> & ->). split; [done|]. exists false. split; [by apply ruled_shadow|done]. }
  destruct (validValue f (if_value e)) eqn:Hvalid; cbn [negb].
  2: { destruct (Hpark r_unsupported) as (Hg & -> & ->). split; [done|]. exists false. split; [apply ruled_parked; by auto|done]. }
  destruct (misses_ref d f (if_value e)) eqn:Href.
  { destruct (Hpark r_missing_ref) as (Hg & -> & ->). split; [done|]. exists false. split; [apply ruled_parked; by auto|done]. }
  destruct (decide (f = w_created_at)) as [Hcr|Hcr].
  { split; [intros g Hg; split; [by apply lookup_insert_ne|by apply lookup_delete_ne]|]. exists false. simpl.
    rewrite lookup_insert_eq, lookup_delete_eq. split; [by apply ruled_created|done]. }
  case_decide; (split; [done|]); exists true; rewrite Hb, Hi; (split; [by apply ruled_write|done]).
Qed.

(** The whole inbox. *)
Lemma classify_all l st1 content guarded :
  NoDup l.*1 → (∀ f e, (f, e) ∈ l → untouched st1 f ∧ st.(st_inbox) !! f = Some e) →
  let '(st2, content', guarded') := fold_left classify l (st1, content, guarded) in
  (∀ g, g ∉ l.*1 → kept st1 st2 g)
  ∧ ∃ cs gs, content' = content ++ cs ∧ guarded' = guarded ++ gs
      ∧ (∀ f e, (f, e) ∈ l → ∃ w, ruled f e (st2.(st_base) !! f) (st2.(st_inbox) !! f) w)
      ∧ (∀ f e, (f, e) ∈ cs → (f, e) ∈ l ∧ ruled f e (st.(st_base) !! f) (Some e) true ∧ f ∉ GUARDED_FIELDS)
      ∧ (∀ f e, (f, e) ∈ gs → (f, e) ∈ l ∧ ruled f e (st.(st_base) !! f) (Some e) true ∧ f ∈ GUARDED_FIELDS).
Proof.
  revert st1 content guarded. induction l as [|[f e] l IH]; intros st1 content guarded Hnd Hl; cbn [fold_left].
  { split; [done|]. exists [], []. rewrite !app_nil_r. split_and!; [done|done|..]; intros ? ? ?%not_elem_of_nil; done. }
  rewrite fmap_cons in Hnd. apply NoDup_cons in Hnd as [Hf Hnd]. cbn [fst] in Hf.
  destruct (Hl f e) as [Hun He]; [left|]. pose proof (classify_step st1 content guarded f e Hun He) as Hstep.
  destruct (classify (st1, content, guarded) (f, e)) as [[st2 content2] guarded2]. destruct Hstep as [Hkeep (w & Hr & Hw)].
  specialize (IH st2 content2 guarded2 Hnd). destruct (fold_left classify l (st2, content2, guarded2)) as [[st3 content3] guarded3].
  destruct IH as [Hkeep3 (cs & gs & -> & -> & Hall & Hcs & Hgs)].
  { intros g e' Hg. destruct (Hl g e') as [[Hb Hi] He']; [by right|]. split; [|done].
    assert (g ≠ f) as Hne by (intros ->; apply Hf, list_elem_of_fmap; by exists (f, e')).
    destruct (Hkeep g Hne) as [Hb2 Hi2]. split; congruence. }
  destruct (Hkeep3 f Hf) as [Hb3 Hi3]. split.
  { rewrite fmap_cons. intros g [Hgf Hgl]%not_elem_of_cons. destruct (Hkeep g Hgf), (Hkeep3 g Hgl). split; congruence. }
  assert (∀ g e', (g, e') ∈ (f, e) :: l → ∃ w, ruled g e' (st3.(st_base) !! g) (st3.(st_inbox) !! g) w) as Hall'.
  { intros g e' [[= -> ->]|Hg]%elem_of_cons; [|by apply Hall]. exists w. by rewrite Hb3, Hi3. }
  assert (w = true → ruled f e (st_base st !! f) (Some e) true) as Htrue by (intros ->; inversion Hr; subst; by apply ruled_write).
  destruct w; [case_decide as Hguard|]; simplify_eq.
  - exists cs, ((f, e) :: gs). split_and!; [done|by rewrite <- (assoc_L (++))|exact Hall'| |].
    + intros g e' Hg. destruct (Hcs g e' Hg) as (? & ? & ?). split_and!; [by right|done|done].
    + intros g e' [[= -> ->]|Hg]%elem_of_cons; [split_and!; [left|by apply Htrue|done]|].
      destruct (Hgs g e' Hg) as (? & ? & ?). split_and!; [by right|done|done].
  - exists ((f, e) :: cs), gs. split_and!; [by rewrite <- (assoc_L (++))|done|exact Hall'| |].
    + intros g e' [[= -> ->]|Hg]%elem_of_cons; [split_and!; [left|by apply Htrue|done]|].
      destruct (Hcs g e' Hg) as (? & ? & ?). split_and!; [by right|done|done].
    + intros g e' Hg. destruct (Hgs g e' Hg) as (? & ? & ?). split_and!; [by right|done|done].
  - exists cs, gs. split_and!; [done|done|exact Hall'|..]; intros g e' Hg.
    + destruct (Hcs g e' Hg) as (? & ? & ?). split_and!; [by right|done|done].
    + destruct (Hgs g e' Hg) as (? & ? & ?). split_and!; [by right|done|done].
Qed.
End Inbox.

(** ** The first write of an entity *)

(** A request of the version read with the classification is refused once the
    row is at another one, and then the router writes nothing. *)
Lemma runUpdate_stale JSON_parse projectId type id v c now d :
  c.(ch_entityType) = Some type → c.(ch_expectedVersion) = Some v → localVersion d type id ≠ Some v →
  ∃ e, runUpdate JSON_parse projectId id c now d = (Throw e, d).
Proof.
  intros Hty Hv Hne. unfold runUpdate, mbind at 1, get, mbind at 1, transaction.
  destruct (locateEntity projectId id (ch_entityType c) d) as [[t e]|] eqn:Hloc; [|by eexists].
  apply locate_some in Hloc as (Hrow & _ & Hd). rewrite (Hd type Hty) in *.
  assert ((v =? en_version e)%Z = false) as Hver.
  { apply Z.eqb_neq. intros ->. apply Hne. unfold localVersion. by rewrite Hrow. }
  rewrite Hv, Hver. cbn [negb reject_if]. by eexists.
Qed.

Lemma applyChange_stale JSON_parse depth projectId type id v c random now d :
  c.(ch_taskId) = Some id → c.(ch_dependsOnTaskId) = None →
  c.(ch_entityType) = Some type → c.(ch_expectedVersion) = Some v → localVersion d type id ≠ Some v →
  ∃ e, applyChange JSON_parse depth projectId c random now d = (Throw e, d).
Proof.
  intros Hid Hdep Hty Hv Hne. rewrite applyChange_eq. unfold mbind at 1.
  pose proof (reads_remote_request c d) as Hr. unfold reads, wp in Hr.
  destruct (assertRemoteRequest c d) as [[[]|e] d0]; [destruct Hr as [-> _]|subst d0; by eexists].
  unfold mbind at 1, change_task. rewrite Hid, Hdep.
  destruct (runUpdate_stale JSON_parse projectId type id v c now d Hty Hv Hne) as [e ->]. by eexists.
Qed.

Lemma write_db_same projectId s : write_db projectId s.(sy_db) s = s.
Proof.
  assert (deleted_keys projectId (sy_db s) (sy_db s) = []) as E.
  { destruct (deleted_keys _ _ _) as [|k l] eqn:E; [done|]. exfalso.
    assert (k ∈ deleted_keys projectId (sy_db s) (sy_db s)) as Hk by (rewrite E; left).
    unfold deleted_keys in Hk. apply list_elem_of_omap in Hk as ([k' e] & Hin%elem_of_map_to_list & Hk). simpl in Hk.
    rewrite Hin, (bool_decide_false (Some e = None)) in Hk by done. by rewrite andb_false_r in Hk. }
  unfold write_db. rewrite E. by destruct s.
Qed.

(** An entry that still holds what it brought. *)
Definition waits (e x : InboxField) : Prop :=
  x.(if_value) = e.(if_value) ∧ x.(if_v) = e.(if_v) ∧ x.(if_hlc) = e.(if_hlc).

(** Nothing was agreed on, and no entry was lost. *)
Definition all_wait (st st2 : SyncEntityState) : Prop :=
  st2.(st_base) = st.(st_base) ∧ st_key st2 = st_key st
  ∧ ∀ f e, st.(st_inbox) !! f = Some e → ∃ x, st2.(st_inbox) !! f = Some x ∧ waits e x.

Lemma park_all_wait now st st1 f e r :
  all_wait st st1 → (∀ e0, st.(st_inbox) !! f = Some e0 → waits e0 e) → all_wait st (set_inbox f (park now e r) st1).
Proof.
  intros (Hb & Hk & Hw) He. split_and!; [done|done|]. intros g e0 Hg. simpl. destruct (decide (f = g)) as [->|Hne].
  - rewrite lookup_insert_eq. eexists. split; [done|]. by apply He.
  - rewrite lookup_insert_ne by done. by apply Hw.
Qed.

(** The entries of a group are entries of the inbox. *)
Definition of_inbox (st : SyncEntityState) (group : list (field * InboxField)) : Prop :=
  ∀ f e e0, (f, e) ∈ group → st.(st_inbox) !! f = Some e0 → waits e0 e.

Lemma park_written_waits now r l st st1 : of_inbox st l → all_wait st st1 → all_wait st (park_written now r l st1).
Proof.
  unfold park_written. revert st1. induction l as [|[f e] l IH]; intros st1 Hl Hw; [done|]. cbn [fold_left fst snd].
  apply IH; [intros g e1 e0 Hg; apply Hl; by right|]. apply park_all_wait; [done|]. intros e0. apply Hl. left.
Qed.

Lemma plan_fields_wait text_stamp projectId now d l st p :
  of_inbox st l → all_wait st p.(gp_state) → (∀ fe, fe ∈ p.(gp_written) → of_inbox st [fe]) →
  let p' := fold_left (plan_field text_stamp projectId now d) l p in
  all_wait st p'.(gp_state) ∧ of_inbox st p'.(gp_written).
Proof.
  revert p. induction l as [|[f e] l IH]; intros p Hl Hw Hp; cbn [fold_left].
  { split; [done|]. intros f e e0 Hf. apply (Hp (f, e) Hf). left. }
  assert (∀ e0, st.(st_inbox) !! f = Some e0 → waits e0 e) as He by (intros e0; apply Hl; left).
  assert (∀ fe, fe ∈ p.(gp_written) ++ [(f, e)] → of_inbox st [fe]) as Hp'.
  { intros fe [Hfe|Hfe%list_elem_of_singleton]%elem_of_app; [by apply Hp|subst fe].
    intros g e1 e0 [= -> ->]%list_elem_of_singleton. apply He. }
  apply IH; [intros g e1 e0 Hg; apply Hl; by right|..]; unfold plan_field; repeat case_match; simpl; try done;
    by apply park_all_wait.
Qed.

(** The write that follows a classification: when the row is no longer at the
    version that was read, nothing is written and every entry keeps waiting. *)
Lemma writeGroup_stale JSON_parse text_stamp projectId st group report s :
  of_inbox st group →
  localVersion (take_turn projectId s).(sy_db) st.(st_type) st.(st_id) ≠ localVersion s.(sy_db) st.(st_type) st.(st_id) →
  ∃ st2 s2, writeGroup JSON_parse text_stamp projectId st group report s = (Ok (st2, report), s2)
    ∧ (s2 = s ∨ s2 = take_turn projectId (take_turn projectId s)) ∧ all_wait st st2.
Proof.
  intros Hg Hv. assert (all_wait st st) as Hrefl by (split_and!; [done|done|]; intros f e Hf; by exists e).
  unfold writeGroup, mbind at 1, get. destruct (localVersion (sy_db s) (st_type st) (st_id st)) as [v|] eqn:Hver.
  2: { exists st, s. split_and!; [done|by left|done]. }
  cbv zeta. destruct (plan_fields_wait text_stamp projectId (sy_now s) (sy_db s) group st (mk_plan st no_change false []) Hg Hrefl)
    as [Hw Hwr]; [intros fe Hfe; by apply elem_of_nil in Hfe|].
  set (p := fold_left _ group _) in *. destruct (gp_written p) as [|fe written] eqn:Hwritten.
  { exists (gp_state p), s. split_and!; [done|by left|done]. }
  set (s1 := take_turn projectId s) in *.
  assert (st_key (gp_state p) = st_key st) as [= Hty Hid] by apply Hw.
  destruct (applyChange_stale JSON_parse apply_depth projectId (st_type st) (st_id st) v
    (update_request (gp_state p) v (gp_change p)) "" s1.(sy_now) s1.(sy_db)) as [err Hr];
    [simpl; by rewrite Hid|done|simpl; by rewrite Hty|done|done|].
  assert (∀ (m : MS unit), catch (mbind (route projectId (λ now, applyChange JSON_parse apply_depth projectId
      (update_request (gp_state p) v (gp_change p)) "" now)) (λ _, mbind m (λ _,
      mret (settle_written (fe :: written) (gp_state p), applied_more (length (fe :: written)) report))))
      (λ e, match reasonFor e with
            | None => mret (gp_state p, report)
            | Some r => mbind get (λ s, mret (park_written s.(sy_now) r (fe :: written) (gp_state p), report))
            end) s
    = (match reasonFor (RouterError err) with
       | None => mret (gp_state p, report)
       | Some r => mbind get (λ s, mret (park_written s.(sy_now) r (fe :: written) (gp_state p), report))
       end : MS _) (take_turn projectId s1)) as ->.
  { intros m. unfold catch at 1, mbind at 1, route, mbind at 1, await_turn, modify. fold s1.
    unfold catch at 1, mbind at 1, run_router. rewrite Hr. cbv beta iota. rewrite write_db_same. done. }
  destruct (reasonFor (RouterError err)) as [r|].
  - eexists _, _. split; [done|]. split; [by right|]. by apply park_written_waits.
  - eexists _, _. split; [done|]. split; [by right|done].
Qed.

Lemma classify_key now d local l acc : st_key (fold_left (classify now d local) l acc).1.1 = st_key acc.1.1.
Proof.
  revert acc. induction l as [|[f e] l IH]; intros acc; cbn [fold_left]; [done|]. rewrite IH.
  destruct acc as [[st content] guarded]. unfold classify. cbv zeta. repeat case_match; done.
Qed.

(** C18: The inbox of an entity that is here is sorted by the apply rules, and its first
    write obeys them. The plan: a field is to be written only where the local value is the
    one agreed with the service, the remote one is newer and fits the schema and its
    reference is here; a base moves only to a newer remote value, which the local row
    already shows (or created_at); an entry is dropped only when the base covers its
    version, and kept with its value otherwise; a field with an edit of its own waits as a
    shadow, base untouched. The write: if the version of the row has moved by the time the
    router is reached, the group written first (the content fields, or the guarded ones when
    there are none) writes nothing, moves no base and keeps every entry. The guarded fields
    that follow a content write are checked against a version read after it, so an edit made
    during that write is not seen by the rule (a finding,
    SyncExamples.user_move_overwritten). *)
Theorem inbox_rules now d local st :
  let '(st', content, guarded) := fold_left (classify now d local) (map_to_list st.(st_inbox)) (st, [], []) in
  (∀ f e, (f, e) ∈ content ++ guarded →
     ∃ b, st.(st_base) !! f = Some b ∧ same (pe_field f local) (Some b.(bf_value)) = true ∧ (b.(bf_v) < e.(if_v))%Z
       ∧ st.(st_inbox) !! f = Some e ∧ validValue f e.(if_value) = true ∧ misses_ref d f e.(if_value) = false
       ∧ ((f, e) ∈ guarded ↔ f ∈ GUARDED_FIELDS))
  ∧ (∀ f, st'.(st_base) !! f ≠ st.(st_base) !! f →
       ∃ e, st.(st_inbox) !! f = Some e ∧ st'.(st_base) !! f = Some (taken e) ∧ (base_v f st < e.(if_v))%Z
         ∧ (same (pe_field f local) (Some e.(if_value)) = true ∨ f = w_created_at ∧ is_dirty local st f = false))
  ∧ (∀ f e, st.(st_inbox) !! f = Some e → st'.(st_inbox) !! f = None → (e.(if_v) <= base_v f st')%Z)
  ∧ (∀ f e', st'.(st_inbox) !! f = Some e' →
       ∃ e, st.(st_inbox) !! f = Some e ∧ e'.(if_value) = e.(if_value) ∧ e'.(if_v) = e.(if_v) ∧ e'.(if_hlc) = e.(if_hlc))
  ∧ (∀ f e, st.(st_inbox) !! f = Some e → f ≠ w_depends_on → is_dirty local st f = true → (base_v f st < e.(if_v))%Z →
       differs local f e → st'.(st_base) !! f = st.(st_base) !! f ∧ st'.(st_inbox) !! f = Some (park now e r_shadow))
  ∧ (∀ JSON_parse text_stamp projectId group report s,
       group = content ∨ content = [] ∧ group = guarded → s.(sy_db) = d →
       localVersion (take_turn projectId s).(sy_db) st.(st_type) st.(st_id) ≠ localVersion d st.(st_type) st.(st_id) →
       ∃ st2 s2, writeGroup JSON_parse text_stamp projectId st' group report s = (Ok (st2, report), s2)
         ∧ (s2 = s ∨ s2 = take_turn projectId (take_turn projectId s)) ∧ all_wait st' st2).
Proof.
  pose proof (classify_all now d local st (map_to_list st.(st_inbox)) st [] [] (NoDup_fst_map_to_list _)) as H.
  pose proof (classify_key now d local (map_to_list st.(st_inbox)) (st, [], [])) as Hkey.
  destruct (fold_left _ _ _) as [[st' content] guarded]. destruct H as [Hkeep (cs & gs & -> & -> & Hall & Hcs & Hgs)].
  { intros f e He%elem_of_map_to_list. done. }
  cbn [fst snd] in Hkey. rewrite !app_nil_l.
  assert (∀ f e, st_inbox st !! f = Some e → ∃ w, ruled now d local st f e (st_base st' !! f) (st_inbox st' !! f) w) as Hrule
    by (intros f e He; by apply Hall, elem_of_map_to_list).
  assert (∀ f, st_inbox st !! f = None → kept st st' f) as Hnone.
  { intros f Hf. apply Hkeep. intros ([g e] & -> & He%elem_of_map_to_list)%list_elem_of_fmap. simpl in Hf. congruence. }
  assert (∀ f e, ruled now d local st f e (st_base st !! f) (Some e) true →
    ∃ b, st_base st !! f = Some b ∧ same (pe_field f local) (Some (bf_value b)) = true ∧ (bf_v b < if_v e)%Z
      ∧ validValue f (if_value e) = true ∧ misses_ref d f (if_value e) = false) as Hwrite.
  { intros f e Hr. inversion Hr as [| | | | | |? ? Hv _ Hd Hval Href]; subst. unfold is_dirty in Hd. unfold base_v in Hv.
    destruct (st_base st !! f) as [b|]; [|done]. apply negb_false_iff in Hd. by exists b. }
  split_and!.
  - intros f e [He|He]%elem_of_app.
    + destruct (Hcs f e He) as (Hin%elem_of_map_to_list & Hr & Hg). destruct (Hwrite f e Hr) as (b & ? & ? & ? & ? & ?). exists b.
      split_and!; [done..|]. split; [|done]. intros Hin'. by destruct (Hgs f e Hin') as (_ & _ & ?).
    + destruct (Hgs f e He) as (Hin%elem_of_map_to_list & Hr & Hg). destruct (Hwrite f e Hr) as (b & ? & ? & ? & ? & ?). exists b.
      by split_and!.
  - intros f Hne. destruct (st_inbox st !! f) as [e|] eqn:He; [|by destruct (Hnone f He)]. exists e. split; [done|].
    destruct (Hrule f e He) as [w Hr]. inversion Hr; subst; try congruence.
    + split_and!; [done|done|]. left. by match goal with H : pe_field f local = Some _ |- _ => rewrite H end.
    + split_and!; [done|done|]. by right.
  - intros f e He Hn. destruct (Hrule f e He) as [w Hr]. rewrite Hn in Hr. unfold base_v. remember (st_base st' !! f) as B.
    inversion Hr; subst; simpl; [done|lia|lia].
  - intros f e' He'. destruct (st_inbox st !! f) as [e|] eqn:He; [|destruct (Hnone f He); congruence]. exists e.
    split; [done|]. destruct (Hrule f e He) as [w Hr]. rewrite He' in Hr. by inversion Hr; subst.
  - intros f e He Hdep Hdirty Hv Hdiff. destruct (Hrule f e He) as [w Hr].
    inversion Hr as [?|? ?|L ? ? HL Hs| | | |]; subst; try congruence; try lia; [|done].
    by rewrite (Hdiff L HL) in Hs.
  - intros JSON_parse text_stamp projectId group report s Hgroup <- Hv. injection Hkey as Hty Hid. rewrite <- Hty, <- Hid in Hv.
    apply writeGroup_stale; [|done]. intros f e e0 Hin He0.
    assert ((f, e) ∈ cs ++ gs) as Hin' by (rewrite elem_of_app; destruct Hgroup as [->|[_ ->]]; tauto).
    assert (st_inbox st !! f = Some e) as He.
    { apply elem_of_app in Hin' as [Hin'|Hin']; [apply Hcs in Hin'|apply Hgs in Hin']; by destruct Hin' as (?%elem_of_map_to_list & _). }
    destruct (Hrule f e He) as [w Hr]. rewrite He0 in Hr. by inversion Hr; subst.
Qed.
