(* ===== verification/SyncSpec.v ===== *)
(** * Histories of the sync engine

    The operations of the engine in any order, with any replies, any edits of
    the backlog in between and restarts of the process: what a history of them
    tells the service. *)

From S2P Require Import Prelude Wp RunStateMachine Database JsNumber TaskTables TaskRouter Canonical Hlc SyncTables SyncStore SyncApply SyncEngine SyncFrames SyncTrace.
From Stdlib Require Import Sorted.

Open Scope js_scope.

Section Spec.
Context (JSON_parse : string → option json_value).
Context (stamp_text : instant → string) (text_stamp : string → instant).
Context (Date_parse : string → option Z).
Context (sha256 : string → string).
Context (projectId : Z) (deviceId : string).
Context (randomUUID : instant → string).

(** What the service of the process calls on the engine, for one project and
    one at a time. *)
Inductive engine_op :=
  | do_note (type : task_type) (id : string)
  | do_pass
  | do_approve
  | do_restore
  | do_resume.

Definition run_op (op : engine_op) : MS unit :=
  match op with
  | do_note type id => noteLocalChange stamp_text projectId deviceId type id
  | do_pass => syncProject JSON_parse stamp_text text_stamp Date_parse sha256 projectId deviceId randomUUID ;;; mret tt
  | do_approve => approveHeldDeletes
  | do_restore => restoreHeldDeletes JSON_parse stamp_text text_stamp sha256 projectId deviceId ;;; mret tt
  | do_resume => resumeAfterRewind
  end.

(** Between two operations: the backlog and the other rows change, the process
    restarts, the replies and turns to come are new; time does not go back. *)
Record elsewhere (s s' : sync) : Prop := {
  el_batch : s'.(sy_batch) = s.(sy_batch);
  el_log : s'.(sy_log) = s.(sy_log);
  el_hold : s'.(sy_project).(sp_deleteHold) = s.(sy_project).(sp_deleteHold);
  el_now : (s.(sy_now) <= s'.(sy_now))%Z;
  el_timely : timely s'
}.

Inductive engine_step (s : sync) : sync → Prop :=
  | step_op s1 op : elsewhere s s1 → engine_step s (run_op op s1).2.

(** A project that was just linked. *)
Record linked (s : sync) : Prop := {
  lk_batch : s.(sy_batch) = None;
  lk_log : push_log s = [];
  lk_hold : s.(sy_project).(sp_deleteHold).(dh_window) = [];
  lk_timely : timely s
}.

Lemma sound_linked s : linked s → sound s.
Proof.
  intros [Hb Hl Hw Ht]. split; [done|by rewrite Hl, Hb| |].
  - rewrite Hl. intros l1 e l2 H. by destruct l1.
  - unfold window_covers. by rewrite Hl, Hw.
Qed.

Lemma sound_elsewhere s s' : elsewhere s s' → sound s → sound s'.
Proof.
  intros [Hb Hl Hh Hn Ht]. apply sound_quiet. split; [done|unfold push_log; by rewrite Hl|done|]. done.
Qed.

Lemma wp_sound {A} (m : MS A) s : wp m (λ _ s', sound s') (λ _ s', sound s') s → sound (m s).2.
Proof. unfold wp. by destruct (m s) as [[a|e] s']. Qed.

Lemma run_sound op s : sound s → sound (run_op op s).2.
Proof.
  intros Hs. apply wp_sound. destruct op; simpl.
  - eapply wp_mono; [apply wp_quiet, quiet_noteLocalChange|..]; intros ? ? Hq; exact (sound_quiet _ _ Hq Hs).
  - apply wp_bind. eapply wp_mono; [by apply sync_wp| |done]. intros ? s1 H1. by apply wp_ret.
  - by apply approve_wp.
  - apply wp_bind. eapply wp_mono; [by apply restore_wp| |done]. intros ? s1 H1. by apply wp_ret.
  - eapply wp_mono; [apply wp_quiet; by apply quiet_project|..]; intros ? ? Hq; exact (sound_quiet _ _ Hq Hs).
Qed.

Lemma history_sound s s' : linked s → rtc engine_step s s' → sound s'.
Proof.
  intros H0%sound_linked Hr. induction Hr as [|s s1 s2 Hstep _ IH]; [done|]. apply IH.
  destruct Hstep as [s1 op He]. by apply run_sound, (sound_elsewhere s).
Qed.

(** What the protocol says of a frozen batch: since its freeze there was nothing
    but its own requests. *)
Lemma protocol_frozen l p :
  Forall (λ e, push_entry e = true) l → protocol None l = Some (Some p) →
  ∃ l0 t n a k, l = l0 ++ Froze p t n a :: replicate k (Requested (rq_push p)) ∧ protocol None l0 = Some None.
Proof.
  induction l as [|e l IH] using rev_ind; [done|]. intros [Hl He]%Forall_app Hp. rewrite Forall_singleton in He.
  rewrite protocol_app in Hp. destruct (protocol None l) as [slot|] eqn:Hs; [|done]. simpl in Hp.
  destruct (protocol_step slot e) as [slot'|] eqn:Hstep; [|done]. simplify_eq/=.
  destruct e as [[| |q| |]|q t n a|q| |]; try done; destruct slot as [q'|]; simpl in Hstep; try done;
    try (case_bool_decide; [|done]); simplify_eq; [|by exists l, t, n, a, 0].
  destruct (IH Hl eq_refl) as (l0 & t & n & a & k & -> & H0).
  exists l0, t, n, a, (S k). split; [|done]. by rewrite replicate_S_end, app_comm_cons, (assoc_L (++)).
Qed.

Lemma push_log_entries s : Forall (λ e, push_entry e = true) (push_log s).
Proof. apply Forall_forall. intros e [H _]%list_elem_of_filter. done. Qed.

(** A prefix of a trace that keeps the protocol keeps it too. *)
Lemma protocol_prefix l l' slot : protocol slot (l ++ l') ≠ None → protocol slot l ≠ None.
Proof. rewrite protocol_app. by destruct (protocol slot l). Qed.

(** C17: On every history of the engine of a linked project (local changes, passes that fail
    anywhere, approvals, restores, resumes, restarts, any replies and any edits in between),
    the frozen batch is the only thing that is pushed: every push request is the batch
    frozen last, sent again unchanged, with nothing but its own requests since the freeze,
    no second batch is frozen before the answer is applied, and the stored batch is the one
    the trace leaves open. *)
Theorem frozen_batch_protocol s s' :
  linked s → rtc engine_step s s' →
  protocol None (push_log s') = Some s'.(sy_batch)
  ∧ (∀ l1 p l2, push_log s' = l1 ++ Requested (rq_push p) :: l2 →
       ∃ l0 t n a k, l1 = l0 ++ Froze p t n a :: replicate k (Requested (rq_push p)) ∧ protocol None l0 = Some None).
Proof.
  intros H0 Hr. destruct (history_sound _ _ H0 Hr) as [_ Hp _ _]. split; [done|]. intros l1 p l2 Hl.
  pose proof (push_log_entries s') as He. rewrite Hl in He, Hp. apply Forall_app in He as [He _].
  apply protocol_frozen; [done|]. rewrite protocol_app in Hp. destruct (protocol None l1) as [[q|]|]; [|done|done].
  simpl in Hp. case_bool_decide; [by simplify_eq|done].
Qed.

(** C20: On every history of the engine from a freshly linked project, in which the clock
    does not go back between the steps, the deletes that are frozen into pushes in any hour
    stay within the limit of max(25, a tenth of the synced entities), failed and re-sent
    pushes counted, unless the user had confirmed the held ones: a batch with deletes was
    frozen with the confirmation set, or its deletes and those of the hour before it fit the
    limit. *)
Theorem held_deletes_bounded s s' l1 p t synced approved l2 :
  linked s → rtc engine_step s s' → push_log s' = l1 ++ Froze p t synced approved :: l2 →
  tombstones p = 0%nat ∨ approved = true
  ∨ (length (recent t (frozen_times l1)) + tombstones p ≤ delete_limit synced)%nat.
Proof. intros H0 Hr Hl. destruct (history_sound _ _ H0 Hr) as [_ _ Hlim _]. exact (Hlim _ _ _ Hl). Qed.
End Spec.

(** ** A history *)

Module History.
(** A synced task that is gone here; the service answers the pass. *)
Definition gone : SyncEntityState :=
  mk_state TTask "t1" (Some "TASK-1") 3 {[ w_title := mk_base (jstr "x") 3 None ]} ∅ ∅ None.
Definition link : SyncProjectRow := mk_sync_project (Some "r") ps_active 7 false None None (mk_hold [] 0 false).
Definition start : sync :=
  mk_sync (mk_tdb ∅ [] 0 ∅ ∅ [] [] [] [] None ∅ ∅ []) [gone] [] link None [] (new_clock None) None 1000%Z
    [rep_head (mk_head [("r", 7%Z)] None); rep_push (mk_response [mk_result "t1" os_applied None [] None] [])] [] [].
Definition op := run_op (λ _, None) (λ _, "") (λ _, 0%Z) (λ _, None) (λ s, s) 1 "dev" (λ _, "batch-1").
Definition after : sync := (op do_pass start).2.
Definition batch : PushRequest := mk_push "batch-1" [op_tombstone TTask "t1" 3].

Lemma start_linked : linked start.
Proof. split; [done|done|done|]. repeat constructor. Qed.

Lemma start_pass :
  rtc (engine_step (λ _, None) (λ _, "") (λ _, 0%Z) (λ _, None) (λ s, s) 1 "dev" (λ _, "batch-1")) start after.
Proof. apply rtc_once, (step_op _ _ _ _ _ _ _ _ _ start do_pass). split; [done|done|done|lia|apply start_linked]. Qed.

Lemma after_log : push_log after = [Froze batch 1000%Z 1 false; Requested (rq_push batch); Answered batch].
Proof. vm_compute. reflexivity. Qed.
End History.

Lemma frozen_batch_protocol_witness :
  push_log History.after = [Froze History.batch 1000%Z 1 false; Requested (rq_push History.batch); Answered History.batch]
  ∧ protocol None [Froze History.batch 1000%Z 1 false; Requested (rq_push History.batch); Answered History.batch]
    = Some History.after.(sy_batch)
  ∧ ∃ l0 t n a k, [Froze History.batch 1000%Z 1 false] = l0 ++ Froze History.batch t n a :: replicate k (Requested (rq_push History.batch))
                  ∧ protocol None l0 = Some None.
Proof.
  pose proof (frozen_batch_protocol _ _ _ _ _ _ _ _ _ _ History.start_linked History.start_pass) as [H1 H2].
  rewrite History.after_log in H1, H2. split; [exact History.after_log|]. split; [exact H1|].
  by apply (H2 [Froze History.batch 1000%Z 1 false] History.batch [Answered History.batch]).
Defined.

Lemma held_deletes_bounded_witness :
  tombstones History.batch = 1%nat ∧ (1 ≤ delete_limit 1)%nat.
Proof.
  split; [reflexivity|].
  destruct (held_deletes_bounded _ _ _ _ _ _ _ _ _ _ [] History.batch 1000%Z 1 false
    [Requested (rq_push History.batch); Answered History.batch] History.start_linked History.start_pass History.after_log)
    as [H|[H|H]]; [discriminate H|discriminate H|exact H].
Defined.
