(* ===== verification/SyncExamples.v ===== *)
(** * What modelling the synchronisation showed

    Small histories, evaluated: each is a finding of the manifest. *)

From S2P Require Import Prelude Wp RunStateMachine Database JsNumber TaskTables TaskRouter TaskEffects TaskHistory TaskSamples Canonical Hlc SyncTables SyncStore SyncApply SyncEngine.

Open Scope js_scope.

Definition blank_project : SyncProjectRow := mk_sync_project (Some "r") ps_active 7 false (Some 1%Z) None (mk_hold [] 0 false).
Definition sync_on (d : tdb) (l : list SyncEntityState) (p : SyncProjectRow) (replies : list reply) (world : list turn) : sync :=
  mk_sync d l [] p None [] (new_clock None) None 1000%Z replies world [].
Definition idle : turn := mk_turn 1000%Z (λ d, d).

(** The task [tsk_b] of the sample backlog, in step with the service. *)
Definition in_step : SyncEntityState :=
  match readEntityProjection (λ _, "t") 1 TTask "tsk_b" sample_backlog with
  | Some local => with_base (λ _, list_to_map ((λ p, (p.1, mk_base p.2 1 None)) <$> local.(pe_fields)))
                    (with_ref (Some "TASK-2") (blankState TTask "tsk_b"))
  | None => blankState TTask "tsk_b"
  end.
Definition incoming (f : field) (v : json) : SyncEntityState → SyncEntityState :=
  set_inbox f (mk_inbox v 2 "0000000000900:00000:other" r_pending None).

(** A title and a stage arrive.  While the title is written the user moves the
    task; the stage, classified before that, is then written over the move, and
    the base follows, so that the move is never pushed. *)
Definition overlap : sync :=
  sync_on sample_backlog [incoming w_stage (jstr "10") (incoming w_title (jstr "from afar") in_step)] blank_project []
    [idle; mk_turn 1000%Z (run_tasks [QChange (sample_update a_user "tsk_b" (Some "new") None) ""]); idle; idle].
Definition after_overlap : sync :=
  (applyInbox no_json (λ _, "t") (λ _, 0%Z) (λ s, s) 1 "dev" overlap).2.

Definition stage_after (s : sync) : option (option cell) := row_col TTask "tsk_b" c_stage s.(sy_db).
Definition base_of (f : field) (id : string) (s : sync) : option json :=
  find_row TTask id s.(sy_entities) ≫= λ st, bf_value <$> st.(st_base) !! f.

Example user_move_overwritten :
  row_col TTask "tsk_b" c_stage (run_tasks [QChange (sample_update a_user "tsk_b" (Some "new") None) ""] sample_backlog)
    = Some (Some (Text "new"))
  ∧ stage_after after_overlap = Some (Some (Text "wont"))
  ∧ base_of w_stage "tsk_b" after_overlap = Some (jstr "10").
Proof. split_and!; vm_compute; reflexivity. Qed.

(** The same move before the first write: the router refuses the version that was
    read, the title is not written and its entry waits for the next pass. *)
Definition moved_first : sync :=
  (applyInbox no_json (λ _, "t") (λ _, 0%Z) (λ s, s) 1 "dev"
    (sync_on sample_backlog [incoming w_title (jstr "from afar") in_step] blank_project []
      [mk_turn 1000%Z (run_tasks [QChange (sample_update a_user "tsk_b" (Some "new") None) ""]); idle])).2.
Definition inbox_of (f : field) (id : string) (s : sync) : option (json * InboxReason) :=
  find_row TTask id s.(sy_entities) ≫= λ st, (λ e, (e.(if_value), e.(if_reason))) <$> st.(st_inbox) !! f.

Example user_move_kept :
  stage_after moved_first = Some (Some (Text "new"))
  ∧ base_of w_title "tsk_b" moved_first = base_of w_title "tsk_b" (sync_on sample_backlog [in_step] blank_project [] [])
  ∧ inbox_of w_title "tsk_b" moved_first = Some (jstr "from afar", r_pending).
Proof. split_and!; vm_compute; reflexivity. Qed.

(** The service was restored without the task.  A re-bootstrap that completes
    removes it; one whose pull fails has stored the new epoch, and the next pass
    neither re-bootstraps nor removes it. *)
Definition pass (s : sync) : sync :=
  (syncProject no_json (λ _, "t") (λ _, 0%Z) (λ _, None) (λ s, s) 1 "dev" (λ _, "batch") s).2.
Definition restored_head : reply := rep_head (mk_head [("r", 0%Z)] (Some 2%Z)).
Definition empty_page : reply := rep_page (mk_page 0 false [] []).
Definition unavailable : reply := rep_error (mk_http 503 "unavailable").
Definition task_here (s : sync) : bool := bool_decide (is_Some (s.(sy_db).(db_entities) !! (TTask, "tsk_b"))).
Definition restored (replies : list reply) : sync := sync_on sample_backlog [in_step] blank_project replies [].
Definition accepted : reply := rep_push (mk_response [] []).
Definition whole : sync := pass (restored [restored_head; empty_page; accepted; accepted]).
Definition interrupted : sync := pass (pass (restored [restored_head; unavailable; restored_head; accepted; accepted])).
Definition pulls (s : sync) : list (Z * bool) :=
  omap (λ e, match e with Requested (rq_pull since reset) => Some (since, reset) | _ => None end) s.(sy_log).

Example interrupted_rebootstrap_keeps_task :
  (task_here whole, sp_status whole.(sy_project), pulls whole) = (false, ps_active, [(0%Z, true)])
  ∧ (task_here interrupted, sp_status interrupted.(sy_project), pulls interrupted) = (true, ps_active, [(0%Z, true)]).
Proof. split; vm_compute; reflexivity. Qed.

(** A field this version does not know: the feed puts it in the base; with the
    result of a push it goes into the inbox, waits there as a shadow for good,
    and keeps the feed from delivering it. *)
Definition labels : field := w_other "labels".
Definition labels_clock : FieldClock := mk_clock 3 "0000000000900:00000:other".
Definition labels_item : FeedItem := mk_item "tsk_b" "task" None false 3 [(labels, labels_clock)] [(labels, jarr [])].
Definition labels_result : OpResult :=
  mk_result "tsk_b" os_applied None [] (Some (mk_entity_state None 3 [(labels, jarr [])] [(labels, labels_clock)])).
Definition tasks_apply (s : sync) : sync := (applyInbox no_json (λ _, "t") (λ _, 0%Z) (λ s, s) 1 "dev" s).2.
Definition by_feed : sync := tasks_apply (ingest_item labels_item (sync_on sample_backlog [in_step] blank_project [] [])).2.
Definition by_push : sync :=
  tasks_apply (ingest_item labels_item (tasks_apply
    (settle_upsert (op_upsert TTask "tsk_b" None []) labels_result (sync_on sample_backlog [in_step] blank_project [] [])).2)).2.
Definition waits_of (f : field) (id : string) (s : sync) : option InboxReason :=
  find_row TTask id s.(sy_entities) ≫= λ st, if_reason <$> st.(st_inbox) !! f.

Example unknown_field_rides_along :
  (base_of labels "tsk_b" by_feed, waits_of labels "tsk_b" by_feed) = (Some (jarr []), None)
  ∧ (base_of labels "tsk_b" by_push, waits_of labels "tsk_b" by_push) = (None, Some r_shadow).
Proof. split; vm_compute; reflexivity. Qed.
